(** * The Arrow/ORC adapter: a shallow embedding of
      cpp/src/arrow/adapters/orc/adapter_util.cc and of the file reader and
      the writer loop of cpp/src/arrow/adapters/orc/adapter.cc.

    The decode path ([AppendBatch], ORC batch to Arrow builder), the encode
    path ([WriteBatch], Arrow array to ORC batch), the schema translators
    ([GetArrowType], [GetORCType]) and the normalisation pre-pass
    ([NormalizeArray]) are translated function by function, and so are the
    stripe index, the row lookup and the batch loops of the file reader.
    64-bit integers are [Z] with the wrap-around written out; the buffers of an
    ORC batch are memories indexed by [Z]; Arrow arrays and builders are trees
    of lists; the ORC library is what it answers the reader.

    The second part relates the two paths: what a batch holds is a list of
    logical values, the encoder is shown to extend it by the elements of the
    array it is given, the decoder to append the values of a range of it to
    a builder, and the round trip, the propagation of nulls and the counts of
    the chunked writer follow.  The last part is about the translators one
    after the other, the stripe index and the rows of a table on their way
    through the writer and the reader. *)

From Stdlib Require Import ZArith List Bool String Lia.
From Stdlib Require Import Strings.Byte DecimalString.
From Equations Require Import Equations.
Import ListNotations.
Open Scope Z_scope.

Set Implicit Arguments.
Set Warnings "-register-all".

(** ** Machine integers *)

(** [static_cast] to a signed integer of [w] bits. *)
Definition wrap (w : Z) (x : Z) : Z := (x + 2 ^ (w - 1)) mod 2 ^ w - 2 ^ (w - 1).

Definition int8_t (x : Z) : Z := wrap 8 x.
Definition int16_t (x : Z) : Z := wrap 16 x.
Definition int32_t (x : Z) : Z := wrap 32 x.
Definition int64_t (x : Z) : Z := wrap 64 x.

Definition in_int (w : Z) (x : Z) : Prop := - 2 ^ (w - 1) <= x < 2 ^ (w - 1).

(** The value of [(double) x] for an [int64_t] [x]: the nearest number with a
    53-bit significand, ties to even.  It is an integer again. *)
Definition int64_to_double (x : Z) : Z :=
  let a := Z.abs x in
  if a <? 2 ^ 53 then x
  else
    let e := Z.log2 a - 52 in
    let q := a / 2 ^ e in
    let r := a mod 2 ^ e in
    let half := 2 ^ (e - 1) in
    let q' := if (half <? r) || ((r =? half) && Z.odd q) then q + 1 else q in
    Z.sgn x * (q' * 2 ^ e).

(** The number of milliseconds, microseconds and nanoseconds in a second. *)
Definition kOneSecondMillis : Z := 1000.
Definition kOneMicroNanos : Z := 1000.
Definition kOneSecondMicros : Z := 1000000.
Definition kOneMilliNanos : Z := 1000000.
Definition kOneSecondNanos : Z := 1000000000.

(** ** Lists and memories indexed by [Z] *)

Definition zth {A} (l : list A) (i : Z) (d : A) : A := nth (Z.to_nat i) l d.

(** The indexes [start, start + len). *)
Definition zseq (start len : Z) : list Z :=
  map (fun k => start + Z.of_nat k) (seq 0 (Z.to_nat len)).

(** A [DataBuffer<T>] of an ORC batch: a memory indexed by position. *)
Definition DataBuffer (A : Type) : Type := Z -> A.

Definition upd {A} (m : DataBuffer A) (i : Z) (v : A) : DataBuffer A :=
  fun j => if j =? i then v else m j.

(** ** Status and results *)

Module liborc.

Inductive TypeKind :=
| BOOLEAN | BYTE | SHORT | INT | LONG | FLOAT | DOUBLE | STRING | BINARY
| TIMESTAMP | LIST | MAP | STRUCT | UNION | DECIMAL | DATE | VARCHAR | CHAR.

(** Modelled from the spec: the type descriptor liborc::Type of the ORC
    library, "a tagged tree" (spec 3); [nullptr] is the absent node that
    liborc leaves for a field that was not selected.  The accessors
    getKind, getSubtype, getSubtypeCount, getFieldName, getMaximumLength,
    getPrecision and getScale read the fields. *)
Inductive Type_ :=
| nullptr
| mk (kind : TypeKind) (subtypes : list Type_) (fieldNames : list string)
     (maximumLength precision scale : Z).

Definition createPrimitiveType (k : TypeKind) : Type_ := mk k [] [] 0 0 0.
Definition createDecimalType (precision scale : Z) : Type_ :=
  mk DECIMAL [] [] 0 precision scale.
Definition createListType (elem : Type_) : Type_ := mk LIST [elem] [] 0 0 0.
Definition createMapType (key item : Type_) : Type_ := mk MAP [key; item] [] 0 0 0.
Definition createStructType (fields : list (string * Type_)) : Type_ :=
  mk STRUCT (map snd fields) (map fst fields) 0 0 0.
Definition createUnionType (children : list Type_) : Type_ :=
  mk UNION children [] 0 0 0.

End liborc.

Module arrow.

Inductive TimeUnit := SECOND | MILLI | MICRO | NANO.

(** Modelled from the spec: arrow::DataType with its type id
    (arrow::Type::type, declared in arrow/type_fwd.h), "a tagged tree"
    (spec 3).  A constructor is a type id with the parameters of that type;
    a [switch] on [type->id()] is a [match] on the constructor. *)
Inductive DataType :=
| NA | BOOL | UINT8 | INT8 | UINT16 | INT16 | UINT32 | INT32 | UINT64 | INT64
| HALF_FLOAT | FLOAT | DOUBLE | STRING | BINARY
| FIXED_SIZE_BINARY (byte_width : Z)
| DATE32 | DATE64
| TIMESTAMP (unit : TimeUnit)
| TIME32 | TIME64 | INTERVAL_MONTHS | INTERVAL_DAY_TIME
| DECIMAL128 (precision scale : Z)
| DECIMAL256 (precision scale : Z)
| LIST (value_type : DataType)
| STRUCT (fields : list (string * DataType))
| SPARSE_UNION (fields : list (string * DataType)) (type_codes : list Z)
| DENSE_UNION (fields : list (string * DataType)) (type_codes : list Z)
| DICTIONARY (index_type value_type : DataType)
| MAP (key_type item_type : DataType)
| EXTENSION
| FIXED_SIZE_LIST (value_type : DataType) (list_size : Z)
| DURATION | LARGE_STRING | LARGE_BINARY
| LARGE_LIST (value_type : DataType).

Inductive StatusCode := Invalid | NotImplemented | IOError.

(** The arguments of [Status::Invalid(...)] and the like, which Arrow
    prints one after the other into the message. *)
Inductive MsgArg :=
| Text (s : string)
| Kind (k : liborc.TypeKind)
| TypeToString (t : DataType)
| OrcTypeToString (t : liborc.Type_).

Record Status := mkStatus { code : StatusCode; message : list MsgArg }.

End arrow.

(** The outcome of a function that returns [arrow::Status] or
    [arrow::Result<T>]: the value, a failed status, or [Undefined] where C++
    gives no meaning (a failed [checked_cast], a write past the capacity of a
    buffer, [ValueOrDie] on an error). *)
Inductive result (A : Type) :=
| Ok (a : A)
| Raise (s : arrow.Status)
| Undefined.
Arguments Ok {A} a.
Arguments Raise {A} s.
Arguments Undefined {A}.

Definition bind {A B} (r : result A) (k : A -> result B) : result B :=
  match r with
  | Ok a => k a
  | Raise s => Raise s
  | Undefined => Undefined
  end.

Declare Scope result_scope.
Delimit Scope result_scope with result.
Notation "x <- e ;; k" := (bind e (fun x => k))
  (at level 61, e at next level, right associativity) : result_scope.
Open Scope result_scope.

Definition Invalid {A} (args : list arrow.MsgArg) : result A :=
  Raise (arrow.mkStatus arrow.Invalid args).
Definition NotImplemented {A} (args : list arrow.MsgArg) : result A :=
  Raise (arrow.mkStatus arrow.NotImplemented args).

(** [for (i = start; i < start + n; i++) body]. *)
Fixpoint for_loop {S} (n : nat) (i : Z) (body : Z -> S -> result S) (s : S)
  : result S :=
  match n with
  | O => Ok s
  | Datatypes.S n' => s' <- body i s ;; for_loop n' (i + 1) body s'
  end.

(** ** Arrow arrays *)

(** Modelled from the spec: arrow::Array, "logical type + validity bitmap
    (optional; absence means no nulls) + flat value buffer or child arrays +
    offsets buffer" (spec 3).  An array is taken from element 0 of its buffers;
    the slices the adapter makes itself ([Slice], [StructArray::field]) are
    windows [(offset, length)] passed along with the array they view.
    [PrimitiveArray] stands for the boolean, numeric, date, timestamp and
    decimal arrays (a decimal is its 128-bit integer), [BinaryArray] for the
    string, binary and fixed-size binary ones, [ListArray] for ListArray,
    LargeListArray and FixedSizeListArray. *)
Inductive Array :=
| PrimitiveArray (type : arrow.DataType) (length : Z)
    (null_bitmap : option (list bool)) (values : list Z)
| BinaryArray (type : arrow.DataType) (length : Z)
    (null_bitmap : option (list bool)) (values : list (list byte))
| StructArray (type : arrow.DataType) (length : Z)
    (null_bitmap : option (list bool)) (fields : list Array)
| ListArray (type : arrow.DataType) (length : Z)
    (null_bitmap : option (list bool)) (value_offsets : list Z) (values : Array)
| MapArray (type : arrow.DataType) (length : Z)
    (null_bitmap : option (list bool)) (value_offsets : list Z)
    (keys items : Array).

Module ArrayOps.

Definition type (a : Array) : arrow.DataType :=
  match a with
  | PrimitiveArray t _ _ _ | BinaryArray t _ _ _ | StructArray t _ _ _
  | ListArray t _ _ _ _ | MapArray t _ _ _ _ _ => t
  end.

Definition length (a : Array) : Z :=
  match a with
  | PrimitiveArray _ n _ _ | BinaryArray _ n _ _ | StructArray _ n _ _
  | ListArray _ n _ _ _ | MapArray _ n _ _ _ _ => n
  end.

Definition null_bitmap (a : Array) : option (list bool) :=
  match a with
  | PrimitiveArray _ _ b _ | BinaryArray _ _ b _ | StructArray _ _ b _
  | ListArray _ _ b _ _ | MapArray _ _ b _ _ _ => b
  end.

(** Modelled from the spec: [is_null(i)] (spec 6); without a bitmap no
    element is null. *)
Definition IsNull (a : Array) (i : Z) : bool :=
  match null_bitmap a with
  | None => false
  | Some bm => negb (zth bm i false)
  end.

(** [null_count()] of the window [(offset, length)]. *)
Definition null_count (a : Array) (offset length : Z) : Z :=
  Z.of_nat (List.length (filter (IsNull a) (zseq offset length))).

(** Modelled from the spec: [value_at(i)] (spec 6) of a primitive array. *)
Definition Value (a : Array) (i : Z) : Z :=
  match a with
  | PrimitiveArray _ _ _ vs => zth vs i 0
  | _ => 0
  end.

(** [GetValue(i, &length)] of a binary array: the bytes of element [i]. *)
Definition GetValue (a : Array) (i : Z) : list byte :=
  match a with
  | BinaryArray _ _ _ vs => zth vs i []
  | _ => []
  end.

(** [value_offset(i)] of a list or map array; a fixed-size list computes
    it from the list size. *)
Definition value_offset (a : Array) (i : Z) : Z :=
  match a with
  | ListArray (arrow.FIXED_SIZE_LIST _ n) _ _ _ _ => i * n
  | ListArray _ _ _ offs _ | MapArray _ _ _ offs _ _ => zth offs i 0
  | _ => 0
  end.

(** Modelled from the spec: [slice(offset, len)] (spec 6) of the window
    [(o, n)]; Arrow cuts the length at the end of the sliced array. *)
Definition Slice (o n : Z) (offset len : Z) : Z * Z :=
  (o + offset, Z.min (n - offset) len).

End ArrayOps.

(** ** ORC batches *)

(** Modelled from the spec: the fields every ColumnVectorBatch has,
    "a notNull flag array + a hasNulls flag + numElements" (spec 3), and its
    capacity. *)
Record ColumnVectorBatch := mkBase {
  capacity : Z;
  numElements : Z;
  notNull : DataBuffer bool;
  hasNulls : bool
}.

(** Modelled from the spec: the batches of liborc, "physical-kind-specific
    fixed-capacity buffers (value buffer, or offsets+child-batch for list/map,
    or field-batches for struct)" (spec 3).  A [char*] of a string batch is
    the bytes it points to; an Int128 is its value. *)
Inductive Batch :=
| LongVectorBatch (base : ColumnVectorBatch) (data : DataBuffer Z)
| DoubleVectorBatch (base : ColumnVectorBatch) (data : DataBuffer Z)
| StringVectorBatch (base : ColumnVectorBatch) (data : DataBuffer (list byte))
    (length : DataBuffer Z)
| TimestampVectorBatch (base : ColumnVectorBatch) (data nanoseconds : DataBuffer Z)
| Decimal64VectorBatch (base : ColumnVectorBatch) (values : DataBuffer Z)
| Decimal128VectorBatch (base : ColumnVectorBatch) (values : DataBuffer Z)
| StructVectorBatch (base : ColumnVectorBatch) (fields : list Batch)
| ListVectorBatch (base : ColumnVectorBatch) (offsets : DataBuffer Z)
    (elements : Batch)
| MapVectorBatch (base : ColumnVectorBatch) (offsets : DataBuffer Z)
    (keys elements : Batch).

(** The batch classes a [checked_cast] names. *)
Inductive BatchClass :=
| LongClass | DoubleClass | StringClass | TimestampClass
| Decimal64Class | Decimal128Class | StructClass | ListClass | MapClass.

Module BatchOps.

Definition base (b : Batch) : ColumnVectorBatch :=
  match b with
  | LongVectorBatch h _ | DoubleVectorBatch h _ | StringVectorBatch h _ _
  | TimestampVectorBatch h _ _ | Decimal64VectorBatch h _
  | Decimal128VectorBatch h _ | StructVectorBatch h _
  | ListVectorBatch h _ _ | MapVectorBatch h _ _ _ => h
  end.

Definition with_base (b : Batch) (h : ColumnVectorBatch) : Batch :=
  match b with
  | LongVectorBatch _ d => LongVectorBatch h d
  | DoubleVectorBatch _ d => DoubleVectorBatch h d
  | StringVectorBatch _ d l => StringVectorBatch h d l
  | TimestampVectorBatch _ d n => TimestampVectorBatch h d n
  | Decimal64VectorBatch _ v => Decimal64VectorBatch h v
  | Decimal128VectorBatch _ v => Decimal128VectorBatch h v
  | StructVectorBatch _ fs => StructVectorBatch h fs
  | ListVectorBatch _ o e => ListVectorBatch h o e
  | MapVectorBatch _ o k e => MapVectorBatch h o k e
  end.

Definition class (b : Batch) : BatchClass :=
  match b with
  | LongVectorBatch _ _ => LongClass
  | DoubleVectorBatch _ _ => DoubleClass
  | StringVectorBatch _ _ _ => StringClass
  | TimestampVectorBatch _ _ _ => TimestampClass
  | Decimal64VectorBatch _ _ => Decimal64Class
  | Decimal128VectorBatch _ _ => Decimal128Class
  | StructVectorBatch _ _ => StructClass
  | ListVectorBatch _ _ _ => ListClass
  | MapVectorBatch _ _ _ _ => MapClass
  end.

Definition class_eqb (c d : BatchClass) : bool :=
  match c, d with
  | LongClass, LongClass | DoubleClass, DoubleClass
  | StringClass, StringClass | TimestampClass, TimestampClass
  | Decimal64Class, Decimal64Class | Decimal128Class, Decimal128Class
  | StructClass, StructClass | ListClass, ListClass | MapClass, MapClass => true
  | _, _ => false
  end.

(** [checked_cast<BatchType*>(column_vector_batch)]. *)
Definition checked_cast (c : BatchClass) (b : Batch) : result Batch :=
  if class_eqb (class b) c then Ok b else Undefined.

Definition in_capacity (b : Batch) (i : Z) : bool :=
  (0 <=? i) && (i <? capacity (base b)).

(** [batch->notNull[i] = v]. *)
Definition set_notNull (b : Batch) (i : Z) (v : bool) : result Batch :=
  if in_capacity b i then
    let h := base b in
    Ok (with_base b (mkBase (capacity h) (numElements h) (upd (notNull h) i v)
                            (hasNulls h)))
  else Undefined.

Definition set_hasNulls (b : Batch) (v : bool) : Batch :=
  let h := base b in
  with_base b (mkBase (capacity h) (numElements h) (notNull h) v).

Definition set_numElements (b : Batch) (n : Z) : Batch :=
  let h := base b in
  with_base b (mkBase (capacity h) n (notNull h) (hasNulls h)).

(** Modelled from the spec: [resize(n)] (spec 6); liborc grows the buffers
    of the batch itself, never those of its children, and never shrinks. *)
Definition resize (b : Batch) (n : Z) : Batch :=
  let h := base b in
  if capacity h <? n
  then with_base b (mkBase n (numElements h) (notNull h) (hasNulls h))
  else b.

End BatchOps.

(** ** Arrow builders *)

(** Modelled from the spec: arrow::ArrayBuilder, "the sole owning mutator
    during construction" (spec 3), with what it has appended so far: a
    validity bit for each element and its values, offsets or child builders.
    [NumericBuilder] stands for the boolean, numeric, date, timestamp and
    decimal builders, [BinaryBuilder] for the string, binary and fixed-size
    binary ones. *)
Inductive ArrayBuilder :=
| NumericBuilder (type : arrow.DataType) (null_bitmap : list bool)
    (values : list Z)
| BinaryBuilder (type : arrow.DataType) (null_bitmap : list bool)
    (values : list (list byte))
| StructBuilder (type : arrow.DataType) (null_bitmap : list bool)
    (field_builders : list ArrayBuilder)
| ListBuilder (type : arrow.DataType) (null_bitmap : list bool)
    (offsets : list Z) (value_builder : ArrayBuilder)
| MapBuilder (type : arrow.DataType) (null_bitmap : list bool)
    (offsets : list Z) (key_builder item_builder : ArrayBuilder).

Module BuilderOps.

Definition type (b : ArrayBuilder) : arrow.DataType :=
  match b with
  | NumericBuilder t _ _ | BinaryBuilder t _ _ | StructBuilder t _ _
  | ListBuilder t _ _ _ | MapBuilder t _ _ _ _ => t
  end.

Definition null_bitmap (b : ArrayBuilder) : list bool :=
  match b with
  | NumericBuilder _ bm _ | BinaryBuilder _ bm _ | StructBuilder _ bm _
  | ListBuilder _ bm _ _ | MapBuilder _ bm _ _ _ => bm
  end.

(** Modelled from the spec: [length()] (spec 6). *)
Definition length (b : ArrayBuilder) : Z :=
  Z.of_nat (List.length (null_bitmap b)).

(** Modelled from the spec: the finalisation of a builder into an
    immutable array, which "is external" (spec 6).  A list or map builder
    closes its offsets with the length of its child. *)
Fixpoint Finish (b : ArrayBuilder) : Array :=
  match b with
  | NumericBuilder t bm vs =>
      PrimitiveArray t (Z.of_nat (List.length bm)) (Some bm) vs
  | BinaryBuilder t bm vs =>
      BinaryArray t (Z.of_nat (List.length bm)) (Some bm) vs
  | StructBuilder t bm fbs =>
      StructArray t (Z.of_nat (List.length bm)) (Some bm) (map Finish fbs)
  | ListBuilder t bm offs vb =>
      ListArray t (Z.of_nat (List.length bm)) (Some bm)
                (offs ++ [Z.of_nat (List.length (null_bitmap vb))]) (Finish vb)
  | MapBuilder t bm offs kb ib =>
      MapArray t (Z.of_nat (List.length bm)) (Some bm)
               (offs ++ [Z.of_nat (List.length (null_bitmap kb))])
               (Finish kb) (Finish ib)
  end.

End BuilderOps.

(** ** The encode path: Arrow array to ORC batch *)

Section Adapter.

(** The conversions [static_cast<double>(float)] and
    [static_cast<float>(double)]; a floating-point number is a code in [Z]
    whose arithmetic the adapter never uses. *)
Variable float_to_double : Z -> Z.
Variable double_to_float : Z -> Z.

(** Modelled from the spec: arrow::internal::BitmapAnd over [length] bits,
    both bitmaps read from bit 0. *)
Definition BitmapAnd (left right : list bool) (length : Z) : list bool :=
  map (fun i => zth left i false && zth right i false) (zseq 0 length).

Definition bitmap_null_count (bm : option (list bool)) (length : Z) : Z :=
  match bm with
  | None => 0
  | Some bits =>
      Z.of_nat (List.length (filter (fun i => negb (zth bits i false))
                                    (zseq 0 length)))
  end.

(** [NormalizeArray(MakeArray(ArrayData::Make(array->type(), length,
    {bitmap, ...}, array->child_data)))]: the array rebuilt with another
    length and validity bitmap, then normalised.  The source rebuilds each
    child of a struct this way before it recurses into it. *)
Fixpoint NormalizeArray_from (array : Array) (length : Z)
  (bitmap : option (list bool)) {struct array} : Array :=
  match array with
  | PrimitiveArray t _ _ vs => PrimitiveArray t length bitmap vs
  | BinaryArray t _ _ vs => BinaryArray t length bitmap vs
  | StructArray t _ _ children =>
      match t, bitmap with
      | arrow.STRUCT _, Some bits =>
          if bitmap_null_count bitmap length =? 0
          then StructArray t length bitmap children
          else
            StructArray t length bitmap
              (map (fun child =>
                      let child_length := Z.min (ArrayOps.length child) length in
                      let final_child_bitmap :=
                        match ArrayOps.null_bitmap child with
                        | None => bits
                        | Some child_bitmap => BitmapAnd bits child_bitmap length
                        end in
                      NormalizeArray_from child child_length
                                          (Some final_child_bitmap))
                   children)
      | _, _ => StructArray t length bitmap children
      end
  | ListArray t _ _ offs values =>
      match t with
      | arrow.LIST _ | arrow.LARGE_LIST _ | arrow.FIXED_SIZE_LIST _ _ =>
          ListArray t length bitmap offs
            (NormalizeArray_from values (ArrayOps.length values)
                                 (ArrayOps.null_bitmap values))
      | _ => ListArray t length bitmap offs values
      end
  | MapArray t _ _ offs keys items =>
      match t with
      | arrow.MAP _ _ =>
          MapArray t length bitmap offs
            (NormalizeArray_from keys (ArrayOps.length keys)
                                 (ArrayOps.null_bitmap keys))
            (NormalizeArray_from items (ArrayOps.length items)
                                 (ArrayOps.null_bitmap items))
      | _ => MapArray t length bitmap offs keys items
      end
  end.

(** Make sure children of StructArray have appropriate null. *)
Definition NormalizeArray (array : Array) : Array :=
  NormalizeArray_from array (ArrayOps.length array) (ArrayOps.null_bitmap array).

(** The state of an [Appender]: the batch it fills and its two cursors. *)
Record AppenderState := mkAppender {
  batch : Batch;
  running_orc_offset : Z;
  running_arrow_offset : Z
}.

(** [VisitNull], the same in every appender. *)
Definition VisitNull (st : AppenderState) : result AppenderState :=
  b <- BatchOps.set_notNull (batch st) (running_orc_offset st) false ;;
  Ok (mkAppender b (running_orc_offset st + 1) (running_arrow_offset st + 1)).

(** [batch->data[i] = v] of a long or double batch. *)
Definition set_data (b : Batch) (i : Z) (v : Z) : result Batch :=
  if BatchOps.in_capacity b i then
    match b with
    | LongVectorBatch h d => Ok (LongVectorBatch h (upd d i v))
    | DoubleVectorBatch h d => Ok (DoubleVectorBatch h (upd d i v))
    | _ => Undefined
    end
  else Undefined.

(** The implicit conversion of [array.Value(i)] to the element type of the
    batch: a bool or an integer keeps its value in an [int64_t], a float is
    widened. *)
Definition to_batch_value (t : arrow.DataType) (v : Z) : Z :=
  match t with
  | arrow.FLOAT => float_to_double v
  | _ => v
  end.

(** Number-like [Appender::VisitValue]. *)
Definition Appender_VisitValue (array : Array) (arrow_offset : Z)
  (st : AppenderState) : result AppenderState :=
  b <- set_data (batch st) (running_orc_offset st)
         (to_batch_value (ArrayOps.type array)
            (ArrayOps.Value array (arrow_offset + running_arrow_offset st))) ;;
  b <- BatchOps.set_notNull b (running_orc_offset st) true ;;
  Ok (mkAppender b (running_orc_offset st + 1) (running_arrow_offset st + 1)).

(** [batch->data[i] = ptr; batch->length[i] = n] of a string batch. *)
Definition set_string (b : Batch) (i : Z) (bytes : list byte) (n : Z)
  : result Batch :=
  if BatchOps.in_capacity b i then
    match b with
    | StringVectorBatch h d l => Ok (StringVectorBatch h (upd d i bytes) (upd l i n))
    | _ => Undefined
    end
  else Undefined.

(** Binary [Appender::VisitValue]. *)
Definition BinaryAppender_VisitValue (array : Array) (arrow_offset : Z)
  (st : AppenderState) : result AppenderState :=
  b <- BatchOps.set_notNull (batch st) (running_orc_offset st) true ;;
  let v := ArrayOps.GetValue array (arrow_offset + running_arrow_offset st) in
  let data_length := Z.of_nat (List.length v) in
  b <- set_string b (running_orc_offset st) v data_length ;;
  Ok (mkAppender b (running_orc_offset st + 1) (running_arrow_offset st + 1)).

(** [batch->values[i] = v] of a decimal batch. *)
Definition set_values (b : Batch) (i : Z) (v : Z) : result Batch :=
  if BatchOps.in_capacity b i then
    match b with
    | Decimal64VectorBatch h vs => Ok (Decimal64VectorBatch h (upd vs i v))
    | Decimal128VectorBatch h vs => Ok (Decimal128VectorBatch h (upd vs i v))
    | _ => Undefined
    end
  else Undefined.

(** The two 64-bit words of the 16 bytes of a decimal, and liborc's
    Int128 made of them. *)
Definition lower_bits_signed (v : Z) : Z := int64_t v.
Definition lower_bits (v : Z) : Z := v mod 2 ^ 64.
Definition higher_bits (v : Z) : Z := int64_t (v / 2 ^ 64).
Definition Int128 (high low : Z) : Z := high * 2 ^ 64 + low.
Definition getHighBits (x : Z) : Z := int64_t (x / 2 ^ 64).
Definition getLowBits (x : Z) : Z := x mod 2 ^ 64.

(** Decimal [Appender::VisitValue] into a Decimal64VectorBatch. *)
Definition Decimal64Appender_VisitValue (array : Array) (arrow_offset : Z)
  (st : AppenderState) : result AppenderState :=
  b <- BatchOps.set_notNull (batch st) (running_orc_offset st) true ;;
  let raw_int128 := ArrayOps.Value array (arrow_offset + running_arrow_offset st) in
  b <- set_values b (running_orc_offset st) (lower_bits_signed raw_int128) ;;
  Ok (mkAppender b (running_orc_offset st + 1) (running_arrow_offset st + 1)).

(** Decimal [Appender::VisitValue] into a Decimal128VectorBatch. *)
Definition Decimal128Appender_VisitValue (array : Array) (arrow_offset : Z)
  (st : AppenderState) : result AppenderState :=
  b <- BatchOps.set_notNull (batch st) (running_orc_offset st) true ;;
  let raw_int128 := ArrayOps.Value array (arrow_offset + running_arrow_offset st) in
  b <- set_values b (running_orc_offset st)
         (Int128 (higher_bits raw_int128) (lower_bits raw_int128)) ;;
  Ok (mkAppender b (running_orc_offset st + 1) (running_arrow_offset st + 1)).

(** [batch->data[i] = s; batch->nanoseconds[i] = n] of a timestamp batch. *)
Definition set_timestamp (b : Batch) (i : Z) (s n : Z) : result Batch :=
  if BatchOps.in_capacity b i then
    match b with
    | TimestampVectorBatch h d ns => Ok (TimestampVectorBatch h (upd d i s) (upd ns i n))
    | _ => Undefined
    end
  else Undefined.

(** The seconds the timestamp appender stores:
    [static_cast<int64_t>(std::floor(data / conversion_factor_from_second))].
    Both operands of [/] are [int64_t], so the quotient is truncated before
    [std::floor] sees it as a double. *)
Definition timestamp_seconds (data conversion_factor_from_second : Z) : Z :=
  int64_t (int64_to_double (Z.quot data conversion_factor_from_second)).

(** The nanoseconds it stores:
    [(data - conversion_factor_from_second * seconds) * conversion_factor_to_nano]. *)
Definition timestamp_nanoseconds
  (data conversion_factor_from_second conversion_factor_to_nano seconds : Z) : Z :=
  int64_t (int64_t (data - int64_t (conversion_factor_from_second * seconds))
           * conversion_factor_to_nano).

(** [TimestampAppender::VisitValue]. *)
Definition TimestampAppender_VisitValue (array : Array) (arrow_offset : Z)
  (conversion_factor_from_second conversion_factor_to_nano : Z)
  (st : AppenderState) : result AppenderState :=
  let data := ArrayOps.Value array (arrow_offset + running_arrow_offset st) in
  b <- BatchOps.set_notNull (batch st) (running_orc_offset st) true ;;
  let seconds := timestamp_seconds data conversion_factor_from_second in
  b <- set_timestamp b (running_orc_offset st) seconds
         (timestamp_nanoseconds data conversion_factor_from_second
                                conversion_factor_to_nano seconds) ;;
  Ok (mkAppender b (running_orc_offset st + 1) (running_arrow_offset st + 1)).

(** [FixedSizeBinaryAppender::VisitValue]. *)
Definition FixedSizeBinaryAppender_VisitValue (array : Array) (arrow_offset : Z)
  (data_length : Z) (st : AppenderState) : result AppenderState :=
  b <- BatchOps.set_notNull (batch st) (running_orc_offset st) true ;;
  let v := ArrayOps.GetValue array (arrow_offset + running_arrow_offset st) in
  b <- set_string b (running_orc_offset st) v data_length ;;
  Ok (mkAppender b (running_orc_offset st + 1) (running_arrow_offset st + 1)).

(** Modelled from the spec: arrow::ArrayDataVisitor<T>::Visit, which calls
    [VisitNull] at each null element of the window and [VisitValue] at each
    other one, in order. *)
Definition Visit (array : Array) (arrow_offset arrow_length : Z)
  (visit_null visit_value : AppenderState -> result AppenderState)
  (appender : AppenderState) : result AppenderState :=
  for_loop (Z.to_nat arrow_length) arrow_offset
    (fun i st => if ArrayOps.IsNull array i then visit_null st else visit_value st)
    appender.

Definition is_primitive (a : Array) : bool :=
  match a with PrimitiveArray _ _ _ _ => true | _ => false end.
Definition is_binary (a : Array) : bool :=
  match a with BinaryArray _ _ _ _ => true | _ => false end.

(** [if (array.null_count()) batch->hasNulls = true]. *)
Definition mark_hasNulls (array : Array) (arrow_offset arrow_length : Z)
  (b : Batch) : Batch :=
  if ArrayOps.null_count array arrow_offset arrow_length =? 0 then b
  else BatchOps.set_hasNulls b true.

(** [WriteGenericBatch<DataType, BatchType>]; the appender is the
    specialisation the pair of template arguments selects. *)
Definition WriteGenericBatch (BatchType : BatchClass)
  (array : Array) (arrow_offset arrow_length : Z) (orc_offset : Z)
  (column_vector_batch : Batch) : result Batch :=
  let array_ok :=
    match BatchType with
    | StringClass => is_binary array
    | _ => is_primitive array
    end in
  if negb array_ok then Undefined else
  b <- BatchOps.checked_cast BatchType column_vector_batch ;;
  let b := mark_hasNulls array arrow_offset arrow_length b in
  let visit_value :=
    match BatchType with
    | StringClass => BinaryAppender_VisitValue array arrow_offset
    | Decimal64Class => Decimal64Appender_VisitValue array arrow_offset
    | Decimal128Class => Decimal128Appender_VisitValue array arrow_offset
    | _ => Appender_VisitValue array arrow_offset
    end in
  st <- Visit array arrow_offset arrow_length VisitNull visit_value
          (mkAppender b orc_offset 0) ;;
  Ok (batch st).

Definition WriteTimestampBatch
  (array : Array) (arrow_offset arrow_length : Z) (orc_offset : Z)
  (column_vector_batch : Batch)
  (conversion_factor_from_second conversion_factor_to_nano : Z) : result Batch :=
  if negb (is_primitive array) then Undefined else
  b <- BatchOps.checked_cast TimestampClass column_vector_batch ;;
  let b := mark_hasNulls array arrow_offset arrow_length b in
  st <- Visit array arrow_offset arrow_length VisitNull
          (TimestampAppender_VisitValue array arrow_offset
             conversion_factor_from_second conversion_factor_to_nano)
          (mkAppender b orc_offset 0) ;;
  Ok (batch st).

Definition byte_width (t : arrow.DataType) : Z :=
  match t with arrow.FIXED_SIZE_BINARY w => w | _ => 0 end.

Definition WriteFixedSizeBinaryBatch
  (array : Array) (arrow_offset arrow_length : Z) (orc_offset : Z)
  (column_vector_batch : Batch) : result Batch :=
  if negb (is_binary array) then Undefined else
  b <- BatchOps.checked_cast StringClass column_vector_batch ;;
  let b := mark_hasNulls array arrow_offset arrow_length b in
  st <- Visit array arrow_offset arrow_length VisitNull
          (FixedSizeBinaryAppender_VisitValue array arrow_offset
             (byte_width (ArrayOps.type array)))
          (mkAppender b orc_offset 0) ;;
  Ok (batch st).

(** [batch->offsets[i] = v] of a list or map batch; the offsets buffer has
    one slot more than the capacity. *)
Definition set_offset (b : Batch) (i : Z) (v : Z) : result Batch :=
  if (0 <=? i) && (i <=? capacity (BatchOps.base b)) then
    match b with
    | ListVectorBatch h offs e => Ok (ListVectorBatch h (upd offs i v) e)
    | MapVectorBatch h offs k e => Ok (MapVectorBatch h (upd offs i v) k e)
    | _ => Undefined
    end
  else Undefined.

Definition get_offset (b : Batch) (i : Z) : Z :=
  match b with
  | ListVectorBatch _ offs _ | MapVectorBatch _ offs _ _ => offs i
  | _ => 0
  end.

Definition num_fields (t : arrow.DataType) : Z :=
  match t with
  | arrow.STRUCT fs | arrow.SPARSE_UNION fs _ | arrow.DENSE_UNION fs _ =>
      Z.of_nat (List.length fs)
  | arrow.LIST _ | arrow.LARGE_LIST _ | arrow.FIXED_SIZE_LIST _ _ => 1
  | arrow.MAP _ _ => 1
  | _ => 0
  end.

(** The loop over the fields of a struct, field [i] of the array into
    [batch->fields[i]]. *)
Fixpoint write_fields (write_field : Array -> Batch -> result Batch)
  (children : list Array) (fields : list Batch) {struct children}
  : result (list Batch) :=
  match children with
  | [] => Ok fields
  | child :: children' =>
      match fields with
      | [] => Undefined
      | field :: fields' =>
          field' <- write_field child field ;;
          rest <- write_fields write_field children' fields' ;;
          Ok (field' :: rest)
      end
  end.

Section Composite.

(** The dispatcher the composite writers call back,
    [WriteBatch(array, orc_offset, column_vector_batch, normalized)] on the
    window [(arrow_offset, arrow_length)] of [array]. *)
Variable WriteBatch_rec :
  Array -> Z -> Z -> Z -> Batch -> bool -> result Batch.

Definition WriteStructBatch (array : Array) (arrow_offset arrow_length : Z)
  (orc_offset : Z) (column_vector_batch : Batch) (normalized : bool)
  : result Batch :=
  match array with
  | StructArray t _ _ children =>
      b <- BatchOps.checked_cast StructClass column_vector_batch ;;
      let size := num_fields t in
      (* First fill fields of ColumnVectorBatch *)
      let b := mark_hasNulls array arrow_offset arrow_length b in
      b <- for_loop (Z.to_nat arrow_length) 0
             (fun running_arrow_offset b =>
                BatchOps.set_notNull b (orc_offset + running_arrow_offset)
                  (negb (ArrayOps.IsNull array
                           (arrow_offset + running_arrow_offset))))
             b ;;
      (* Fill the fields *)
      match b with
      | StructVectorBatch h fields =>
          if size =? Z.of_nat (List.length children) then
            fields' <-
              write_fields
                (fun child field =>
                   let '(o, n) :=
                     ArrayOps.Slice 0 (ArrayOps.length child)
                                    arrow_offset arrow_length in
                   WriteBatch_rec child o n orc_offset
                     (BatchOps.resize field (orc_offset + arrow_length)) true)
                children fields ;;
            Ok (StructVectorBatch h fields')
          else Undefined
      | _ => Undefined
      end
  | _ => Undefined
  end.

Definition WriteListBatch (array : Array) (arrow_offset arrow_length : Z)
  (orc_offset : Z) (column_vector_batch : Batch) : result Batch :=
  match array with
  | ListArray _ _ _ _ values =>
      b <- BatchOps.checked_cast ListClass column_vector_batch ;;
      b <- (if orc_offset =? 0 then set_offset b 0 0 else Ok b) ;;
      let b := mark_hasNulls array arrow_offset arrow_length b in
      for_loop (Z.to_nat arrow_length) 0
        (fun running_arrow_offset b =>
           let running_orc_offset := orc_offset + running_arrow_offset in
           let i := arrow_offset + running_arrow_offset in
           if ArrayOps.IsNull array i then
             b <- BatchOps.set_notNull b running_orc_offset false ;;
             set_offset b (running_orc_offset + 1) (get_offset b running_orc_offset)
           else
             b <- BatchOps.set_notNull b running_orc_offset true ;;
             b <- set_offset b (running_orc_offset + 1)
                    (get_offset b running_orc_offset
                     + ArrayOps.value_offset array (i + 1)
                     - ArrayOps.value_offset array i) ;;
             match b with
             | ListVectorBatch h offs element_batch =>
                 let element_batch :=
                   BatchOps.resize element_batch (offs (running_orc_offset + 1)) in
                 let subarray_arrow_offset := ArrayOps.value_offset array i in
                 let subarray_orc_offset := offs running_orc_offset in
                 let subarray_orc_length :=
                   offs (running_orc_offset + 1) - subarray_orc_offset in
                 let '(o, n) :=
                   ArrayOps.Slice 0 (ArrayOps.length values)
                                  subarray_arrow_offset subarray_orc_length in
                 element_batch <-
                   WriteBatch_rec values o n subarray_orc_offset
                                  element_batch false ;;
                 Ok (ListVectorBatch h offs element_batch)
             | _ => Undefined
             end)
        b
  | _ => Undefined
  end.

Definition WriteMapBatch (array : Array) (arrow_offset arrow_length : Z)
  (orc_offset : Z) (column_vector_batch : Batch) : result Batch :=
  match array with
  | MapArray _ _ _ _ key_array element_array =>
      b <- BatchOps.checked_cast MapClass column_vector_batch ;;
      b <- (if orc_offset =? 0 then set_offset b 0 0 else Ok b) ;;
      let b := mark_hasNulls array arrow_offset arrow_length b in
      for_loop (Z.to_nat arrow_length) 0
        (fun running_arrow_offset b =>
           let running_orc_offset := orc_offset + running_arrow_offset in
           let i := arrow_offset + running_arrow_offset in
           if ArrayOps.IsNull array i then
             b <- BatchOps.set_notNull b running_orc_offset false ;;
             set_offset b (running_orc_offset + 1) (get_offset b running_orc_offset)
           else
             b <- BatchOps.set_notNull b running_orc_offset true ;;
             b <- set_offset b (running_orc_offset + 1)
                    (get_offset b running_orc_offset
                     + ArrayOps.value_offset array (i + 1)
                     - ArrayOps.value_offset array i) ;;
             match b with
             | MapVectorBatch h offs key_batch element_batch =>
                 let subarray_arrow_offset := ArrayOps.value_offset array i in
                 let subarray_orc_offset := offs running_orc_offset in
                 let new_subarray_orc_offset := offs (running_orc_offset + 1) in
                 let subarray_orc_length :=
                   new_subarray_orc_offset - subarray_orc_offset in
                 let key_batch := BatchOps.resize key_batch new_subarray_orc_offset in
                 let element_batch :=
                   BatchOps.resize element_batch new_subarray_orc_offset in
                 let '(ko, kn) :=
                   ArrayOps.Slice 0 (ArrayOps.length key_array)
                                  subarray_arrow_offset subarray_orc_length in
                 key_batch <-
                   WriteBatch_rec key_array ko kn subarray_orc_offset
                                  key_batch false ;;
                 let '(eo, en) :=
                   ArrayOps.Slice 0 (ArrayOps.length element_array)
                                  subarray_arrow_offset subarray_orc_length in
                 element_batch <-
                   WriteBatch_rec element_array eo en subarray_orc_offset
                                  element_batch false ;;
                 Ok (MapVectorBatch h offs key_batch element_batch)
             | _ => Undefined
             end)
        b
  | _ => Undefined
  end.

End Composite.

(** The test [precision > 18] of the DECIMAL128 case, which selects the
    wide batch. *)
Definition encode_uses_wide (precision : Z) : bool := 18 <? precision.

(** The inner [WriteBatch]: one contiguous array, viewed through the window
    [(arrow_offset, arrow_length)], into the batch from [orc_offset] on. *)
Fixpoint WriteBatch (array : Array) (arrow_offset arrow_length : Z)
  (orc_offset : Z) (column_vector_batch : Batch) (normalized : bool)
  {struct array} : result Batch :=
  let column_vector_batch :=
    BatchOps.set_numElements column_vector_batch orc_offset in
  let rec := fun a o n oo b nz => WriteBatch a o n oo b nz in
  match ArrayOps.type array with
  | arrow.BOOL | arrow.INT8 | arrow.INT16 | arrow.INT32 | arrow.INT64
  | arrow.DATE32 =>
      WriteGenericBatch LongClass array arrow_offset arrow_length
                        orc_offset column_vector_batch
  | arrow.FLOAT | arrow.DOUBLE =>
      WriteGenericBatch DoubleClass array arrow_offset arrow_length
                        orc_offset column_vector_batch
  | arrow.BINARY | arrow.LARGE_BINARY | arrow.STRING | arrow.LARGE_STRING =>
      WriteGenericBatch StringClass array arrow_offset arrow_length
                        orc_offset column_vector_batch
  | arrow.FIXED_SIZE_BINARY _ =>
      WriteFixedSizeBinaryBatch array arrow_offset arrow_length
                                orc_offset column_vector_batch
  | arrow.DATE64 =>
      WriteTimestampBatch array arrow_offset arrow_length orc_offset
                          column_vector_batch kOneSecondMillis kOneMilliNanos
  | arrow.TIMESTAMP unit =>
      match unit with
      | arrow.SECOND =>
          WriteTimestampBatch array arrow_offset arrow_length orc_offset
                              column_vector_batch 1 kOneSecondNanos
      | arrow.MILLI =>
          WriteTimestampBatch array arrow_offset arrow_length orc_offset
                              column_vector_batch kOneSecondMillis kOneMilliNanos
      | arrow.MICRO =>
          WriteTimestampBatch array arrow_offset arrow_length orc_offset
                              column_vector_batch kOneSecondMicros kOneMicroNanos
      | arrow.NANO =>
          WriteTimestampBatch array arrow_offset arrow_length orc_offset
                              column_vector_batch kOneSecondNanos 1
      end
  | arrow.DECIMAL128 precision _ =>
      if encode_uses_wide precision then
        WriteGenericBatch Decimal128Class array arrow_offset arrow_length
                          orc_offset column_vector_batch
      else
        WriteGenericBatch Decimal64Class array arrow_offset arrow_length
                          orc_offset column_vector_batch
  | arrow.STRUCT _ =>
      WriteStructBatch rec array arrow_offset arrow_length orc_offset
                       column_vector_batch normalized
  | arrow.LIST _ | arrow.LARGE_LIST _ | arrow.FIXED_SIZE_LIST _ _ =>
      WriteListBatch rec array arrow_offset arrow_length orc_offset
                     column_vector_batch
  | arrow.MAP _ _ =>
      WriteMapBatch rec array arrow_offset arrow_length orc_offset
                    column_vector_batch
  | t =>
      Invalid [arrow.Text "Unknown or unsupported Arrow type: ";
               arrow.TypeToString t]
  end.

(** ** The decode path: ORC batch to Arrow builder *)

(** The builder classes a [checked_cast] names, by the type they build. *)
Definition builds (expected : arrow.DataType -> bool) (t : arrow.DataType)
  : bool := expected t.

Definition is_INT64 t := match t with arrow.INT64 => true | _ => false end.
Definition is_INT32 t := match t with arrow.INT32 => true | _ => false end.
Definition is_INT16 t := match t with arrow.INT16 => true | _ => false end.
Definition is_INT8 t := match t with arrow.INT8 => true | _ => false end.
Definition is_DOUBLE t := match t with arrow.DOUBLE => true | _ => false end.
Definition is_FLOAT t := match t with arrow.FLOAT => true | _ => false end.
Definition is_BOOL t := match t with arrow.BOOL => true | _ => false end.
Definition is_DATE32 t := match t with arrow.DATE32 => true | _ => false end.
Definition is_TIMESTAMP t :=
  match t with arrow.TIMESTAMP _ => true | _ => false end.
Definition is_DECIMAL128 t :=
  match t with arrow.DECIMAL128 _ _ => true | _ => false end.
Definition is_STRING t := match t with arrow.STRING => true | _ => false end.
Definition is_BINARY t := match t with arrow.BINARY => true | _ => false end.
Definition is_FIXED_SIZE_BINARY t :=
  match t with arrow.FIXED_SIZE_BINARY _ => true | _ => false end.

(** [valid_bytes]: the slice of [notNull] at [offset] when the batch has
    nulls, [nullptr] otherwise. *)
Definition valid_bytes (h : ColumnVectorBatch) (offset length : Z)
  : option (list bool) :=
  if hasNulls h then Some (map (notNull h) (zseq offset length)) else None.

(** Modelled from the spec: [append_many(values, validity_slice)] (spec 6),
    AppendValues of a numeric builder; without a validity slice every value
    is valid. *)
Definition validity_of (n : nat) (valid : option (list bool)) : list bool :=
  match valid with
  | Some bits => bits
  | None => repeat true n
  end.

Definition AppendValues (builder : ArrayBuilder) (vals : list Z)
  (valid : option (list bool)) : result ArrayBuilder :=
  match builder with
  | NumericBuilder t bm vs =>
      Ok (NumericBuilder t (bm ++ validity_of (List.length vals) valid) (vs ++ vals))
  | _ => Undefined
  end.

(** [AppendNumericBatch<BuilderType, BatchType, ElemType>]; [cast] is the
    identity there and [static_cast<TargetType>] in
    [AppendNumericBatchCast]. *)
Definition AppendNumericBatchCast (BuilderType : arrow.DataType -> bool)
  (BatchType : BatchClass) (cast : Z -> Z)
  (column_vector_batch : Batch) (offset length : Z) (abuilder : ArrayBuilder)
  : result ArrayBuilder :=
  match abuilder with
  | NumericBuilder t _ _ =>
      if negb (builds BuilderType t) then Undefined else
      b <- BatchOps.checked_cast BatchType column_vector_batch ;;
      if length =? 0 then Ok abuilder else
      match b with
      | LongVectorBatch h data | DoubleVectorBatch h data =>
          AppendValues abuilder
            (map (fun i => cast (data i)) (zseq offset length))
            (valid_bytes h offset length)
      | _ => Undefined
      end
  | _ => Undefined
  end.

Definition AppendNumericBatch (BuilderType : arrow.DataType -> bool)
  (BatchType : BatchClass) :=
  AppendNumericBatchCast BuilderType BatchType (fun x => x).

(** [static_cast<bool>] of an [int64_t]. *)
Definition to_bool (x : Z) : Z := if x =? 0 then 0 else 1.

Definition AppendBoolBatch :=
  AppendNumericBatchCast is_BOOL LongClass to_bool.

Definition AppendTimestampBatch
  (column_vector_batch : Batch) (offset length : Z) (abuilder : ArrayBuilder)
  : result ArrayBuilder :=
  match abuilder with
  | NumericBuilder t _ _ =>
      if negb (builds is_TIMESTAMP t) then Undefined else
      b <- BatchOps.checked_cast TimestampClass column_vector_batch ;;
      if length =? 0 then Ok abuilder else
      match b with
      | TimestampVectorBatch h seconds nanos =>
          AppendValues abuilder
            (map (fun index =>
                    int64_t (int64_t (seconds index * kOneSecondNanos)
                             + nanos index))
                 (zseq offset length))
            (valid_bytes h offset length)
      | _ => Undefined
      end
  | _ => Undefined
  end.

(** Modelled from the spec: [append(value)] and [append(null)] (spec 6) of
    the builders the loops below fill one element at a time. *)
Definition Append_bytes (builder : ArrayBuilder) (v : list byte)
  : result ArrayBuilder :=
  match builder with
  | BinaryBuilder t bm vs => Ok (BinaryBuilder t (bm ++ [true]) (vs ++ [v]))
  | _ => Undefined
  end.

Definition Append_value (builder : ArrayBuilder) (v : Z) : result ArrayBuilder :=
  match builder with
  | NumericBuilder t bm vs => Ok (NumericBuilder t (bm ++ [true]) (vs ++ [v]))
  | _ => Undefined
  end.

Definition Append_slot (builder : ArrayBuilder) (is_valid : bool)
  : result ArrayBuilder :=
  match builder with
  | ListBuilder t bm offs vb =>
      Ok (ListBuilder t (bm ++ [is_valid]) (offs ++ [BuilderOps.length vb]) vb)
  | MapBuilder t bm offs kb ib =>
      Ok (MapBuilder t (bm ++ [is_valid]) (offs ++ [BuilderOps.length kb]) kb ib)
  | _ => Undefined
  end.

Definition AppendNull (builder : ArrayBuilder) : result ArrayBuilder :=
  match builder with
  | NumericBuilder t bm vs => Ok (NumericBuilder t (bm ++ [false]) (vs ++ [0]))
  | BinaryBuilder t bm vs => Ok (BinaryBuilder t (bm ++ [false]) (vs ++ [[]]))
  | ListBuilder _ _ _ _ | MapBuilder _ _ _ _ _ => Append_slot builder false
  | StructBuilder _ _ _ => Undefined
  end.

(** The bytes [Append(ptr, n)] copies. *)
Definition bytes_at (ptr : list byte) (n : Z) : list byte :=
  firstn (Z.to_nat n) ptr.

Definition AppendBinaryBatch (BuilderType : arrow.DataType -> bool)
  (column_vector_batch : Batch) (offset length : Z) (abuilder : ArrayBuilder)
  : result ArrayBuilder :=
  match abuilder, column_vector_batch with
  | BinaryBuilder t _ _, StringVectorBatch h data len =>
      if negb (builds BuilderType t) then Undefined else
      let has_nulls := hasNulls h in
      for_loop (Z.to_nat length) offset
        (fun i builder =>
           if negb has_nulls || notNull h i then
             Append_bytes builder (bytes_at (data i) (int32_t (len i)))
           else AppendNull builder)
        abuilder
  | _, _ => Undefined
  end.

Definition AppendFixedBinaryBatch
  (column_vector_batch : Batch) (offset length : Z) (abuilder : ArrayBuilder)
  : result ArrayBuilder :=
  match abuilder, column_vector_batch with
  | BinaryBuilder t _ _, StringVectorBatch h data _ =>
      if negb (builds is_FIXED_SIZE_BINARY t) then Undefined else
      let has_nulls := hasNulls h in
      for_loop (Z.to_nat length) offset
        (fun i builder =>
           if negb has_nulls || notNull h i then
             Append_bytes builder (bytes_at (data i) (byte_width t))
           else AppendNull builder)
        abuilder
  | _, _ => Undefined
  end.

(** [arrow::Decimal128(high, low)] and [arrow::Decimal128(value)]. *)
Definition Decimal128_of_words (high low : Z) : Z := high * 2 ^ 64 + low.
Definition Decimal128_of_int64 (v : Z) : Z := v.

(** The test of [AppendDecimalBatch] that selects the wide batch. *)
Definition decode_uses_wide (precision : Z) : bool :=
  (precision =? 0) || (18 <? precision).

Definition AppendDecimalBatch (type : liborc.Type_)
  (column_vector_batch : Batch) (offset length : Z) (abuilder : ArrayBuilder)
  : result ArrayBuilder :=
  match abuilder, type with
  | NumericBuilder t _ _, liborc.mk _ _ _ _ precision _ =>
      if negb (builds is_DECIMAL128 t) then Undefined else
      let has_nulls := hasNulls (BatchOps.base column_vector_batch) in
      if decode_uses_wide precision then
        match column_vector_batch with
        | Decimal128VectorBatch h values =>
            for_loop (Z.to_nat length) offset
              (fun i builder =>
                 if negb has_nulls || notNull h i then
                   Append_value builder
                     (Decimal128_of_words (getHighBits (values i))
                                          (getLowBits (values i)))
                 else AppendNull builder)
              abuilder
        | _ => Undefined
        end
      else
        match column_vector_batch with
        | Decimal64VectorBatch h values =>
            for_loop (Z.to_nat length) offset
              (fun i builder =>
                 if negb has_nulls || notNull h i then
                   Append_value builder (Decimal128_of_int64 (values i))
                 else AppendNull builder)
              abuilder
        | _ => Undefined
        end
  | _, _ => Undefined
  end.

(** The loop over the fields of a struct builder: field [i] of the batch,
    read with subtype [i], into [builder->field_builder(i)]. *)
Fixpoint append_fields
  (append_field : liborc.Type_ -> Batch -> ArrayBuilder -> result ArrayBuilder)
  (subtypes : list liborc.Type_) (fields : list Batch)
  (builders : list ArrayBuilder) {struct subtypes}
  : result (list ArrayBuilder) :=
  match builders with
  | [] => Ok []
  | builder :: builders' =>
      match subtypes, fields with
      | subtype :: subtypes', field :: fields' =>
          builder' <- append_field subtype field builder ;;
          rest <- append_fields append_field subtypes' fields' builders' ;;
          Ok (builder' :: rest)
      | _, _ => Undefined
      end
  end.

Section CompositeAppend.

(** The dispatcher the composite appenders call back. *)
Variable AppendBatch_rec :
  liborc.Type_ -> Batch -> Z -> Z -> ArrayBuilder -> result ArrayBuilder.

Definition AppendStructBatch (type : liborc.Type_)
  (column_vector_batch : Batch) (offset length : Z) (abuilder : ArrayBuilder)
  : result ArrayBuilder :=
  match abuilder, column_vector_batch, type with
  | StructBuilder t bm field_builders, StructVectorBatch h fields,
    liborc.mk _ subtypes _ _ _ _ =>
      let valid := valid_bytes h offset length in
      let bm := bm ++ validity_of (Z.to_nat length) valid in
      field_builders <-
        append_fields
          (fun subtype field builder =>
             AppendBatch_rec subtype field offset length builder)
          subtypes fields field_builders ;;
      Ok (StructBuilder t bm field_builders)
  | _, _, _ => Undefined
  end.

Definition AppendListBatch (type : liborc.Type_)
  (column_vector_batch : Batch) (offset length : Z) (abuilder : ArrayBuilder)
  : result ArrayBuilder :=
  match abuilder, column_vector_batch, type with
  | ListBuilder _ _ _ _, ListVectorBatch h offs elements,
    liborc.mk _ (elemtype :: _) _ _ _ _ =>
      let has_nulls := hasNulls h in
      for_loop (Z.to_nat length) offset
        (fun i builder =>
           if negb has_nulls || notNull h i then
             let start := offs i in
             let end_ := offs (i + 1) in
             builder <- Append_slot builder true ;;
             match builder with
             | ListBuilder t bm o value_builder =>
                 value_builder <-
                   AppendBatch_rec elemtype elements start (end_ - start)
                                   value_builder ;;
                 Ok (ListBuilder t bm o value_builder)
             | _ => Undefined
             end
           else AppendNull builder)
        abuilder
  | _, _, _ => Undefined
  end.

Definition AppendMapBatch (type : liborc.Type_)
  (column_vector_batch : Batch) (offset length : Z) (abuilder : ArrayBuilder)
  : result ArrayBuilder :=
  match abuilder, column_vector_batch, type with
  | MapBuilder _ _ _ _ _, MapVectorBatch h offs keys items,
    liborc.mk _ (key_type :: item_type :: _) _ _ _ _ =>
      let has_nulls := hasNulls h in
      for_loop (Z.to_nat length) offset
        (fun i builder =>
           if negb has_nulls || notNull h i then
             let start := offs i in
             let end_ := offs (i + 1) in
             builder <- Append_slot builder true ;;
             match builder with
             | MapBuilder t bm o key_builder item_builder =>
                 key_builder <-
                   AppendBatch_rec key_type keys start (end_ - start)
                                   key_builder ;;
                 item_builder <-
                   AppendBatch_rec item_type items start (end_ - start)
                                   item_builder ;;
                 Ok (MapBuilder t bm o key_builder item_builder)
             | _ => Undefined
             end
           else AppendNull builder)
        abuilder
  | _, _, _ => Undefined
  end.

End CompositeAppend.

(** The decode dispatcher. *)
Fixpoint AppendBatch (type : liborc.Type_) (batch : Batch) (offset length : Z)
  (builder : ArrayBuilder) {struct type} : result ArrayBuilder :=
  let rec := fun t b o n bld => AppendBatch t b o n bld in
  match type with
  | liborc.nullptr => Ok builder
  | liborc.mk kind _ _ _ _ _ =>
      match kind with
      | liborc.STRUCT => AppendStructBatch rec type batch offset length builder
      | liborc.LIST => AppendListBatch rec type batch offset length builder
      | liborc.MAP => AppendMapBatch rec type batch offset length builder
      | liborc.LONG =>
          AppendNumericBatch is_INT64 LongClass batch offset length builder
      | liborc.INT =>
          AppendNumericBatchCast is_INT32 LongClass int32_t
                                 batch offset length builder
      | liborc.SHORT =>
          AppendNumericBatchCast is_INT16 LongClass int16_t
                                 batch offset length builder
      | liborc.BYTE =>
          AppendNumericBatchCast is_INT8 LongClass int8_t
                                 batch offset length builder
      | liborc.DOUBLE =>
          AppendNumericBatch is_DOUBLE DoubleClass batch offset length builder
      | liborc.FLOAT =>
          AppendNumericBatchCast is_FLOAT DoubleClass double_to_float
                                 batch offset length builder
      | liborc.BOOLEAN => AppendBoolBatch batch offset length builder
      | liborc.VARCHAR | liborc.STRING =>
          AppendBinaryBatch is_STRING batch offset length builder
      | liborc.BINARY =>
          AppendBinaryBatch is_BINARY batch offset length builder
      | liborc.CHAR => AppendFixedBinaryBatch batch offset length builder
      | liborc.DATE =>
          AppendNumericBatchCast is_DATE32 LongClass int32_t
                                 batch offset length builder
      | liborc.TIMESTAMP => AppendTimestampBatch batch offset length builder
      | liborc.DECIMAL => AppendDecimalBatch type batch offset length builder
      | _ =>
          NotImplemented [arrow.Text "Not implemented type kind: ";
                          arrow.Kind kind]
      end
  end.

(** ** The schema translators *)

(** [std::to_string] of a child index. *)
Definition to_string (n : Z) : string :=
  NilEmpty.string_of_uint (Nat.to_uint (Z.to_nat n)).

Definition getFieldName (fieldNames : list string) (child : Z) : string :=
  zth fieldNames child EmptyString.

(** The loop of the STRUCT case of [GetArrowType], from child index
    [child] on: [fields.push_back(field(name, elem_type))]. *)
Fixpoint struct_fields (get : liborc.Type_ -> result arrow.DataType)
  (fieldNames : list string) (rest : list liborc.Type_) (child : Z)
  {struct rest} : result (list (string * arrow.DataType)) :=
  match rest with
  | [] => Ok []
  | subtype :: rest' =>
      elem_type <- get subtype ;;
      let name := getFieldName fieldNames child in
      fields <- struct_fields get fieldNames rest' (child + 1) ;;
      Ok ((name, elem_type) :: fields)
  end.

(** The loop of the UNION case: a field named after the child index and
    the type code [static_cast<int8_t>(child)]. *)
Fixpoint union_fields (get : liborc.Type_ -> result arrow.DataType)
  (rest : list liborc.Type_) (child : Z) {struct rest}
  : result (list (string * arrow.DataType * Z)) :=
  match rest with
  | [] => Ok []
  | subtype :: rest' =>
      elem_type <- get subtype ;;
      fields <- union_fields get rest' (child + 1) ;;
      Ok ((append "_union_" (to_string child), elem_type, int8_t child)
            :: fields)
  end.

Fixpoint GetArrowType (type : liborc.Type_) : result arrow.DataType :=
  (* When subselecting fields on read, liborc will set some nodes to nullptr,
     so we need to check for nullptr before progressing *)
  match type with
  | liborc.nullptr => Ok arrow.NA
  | liborc.mk kind subtypes fieldNames maximumLength precision scale =>
      let subtype_count := int32_t (Z.of_nat (List.length subtypes)) in
      match kind with
      | liborc.BOOLEAN => Ok arrow.BOOL
      | liborc.BYTE => Ok arrow.INT8
      | liborc.SHORT => Ok arrow.INT16
      | liborc.INT => Ok arrow.INT32
      | liborc.LONG => Ok arrow.INT64
      | liborc.FLOAT => Ok arrow.FLOAT
      | liborc.DOUBLE => Ok arrow.DOUBLE
      | liborc.VARCHAR | liborc.STRING => Ok arrow.STRING
      | liborc.BINARY => Ok arrow.BINARY
      | liborc.CHAR => Ok (arrow.FIXED_SIZE_BINARY (int32_t maximumLength))
      | liborc.TIMESTAMP => Ok (arrow.TIMESTAMP arrow.NANO)
      | liborc.DATE => Ok arrow.DATE32
      | liborc.DECIMAL =>
          let precision := int32_t precision in
          let scale := int32_t scale in
          if precision =? 0 then
            (* In HIVE 0.11/0.12 precision is set as 0, but means max precision *)
            Ok (arrow.DECIMAL128 38 6)
          else Ok (arrow.DECIMAL128 precision scale)
      | liborc.LIST =>
          if negb (subtype_count =? 1) then
            Invalid [arrow.Text "Invalid Orc List type"]
          else
            match subtypes with
            | subtype0 :: _ =>
                elemtype <- GetArrowType subtype0 ;;
                Ok (arrow.LIST elemtype)
            | [] => Undefined
            end
      | liborc.MAP =>
          if negb (subtype_count =? 2) then
            Invalid [arrow.Text "Invalid Orc Map type"]
          else
            match subtypes with
            | subtype0 :: subtype1 :: _ =>
                key_type <- GetArrowType subtype0 ;;
                item_type <- GetArrowType subtype1 ;;
                Ok (arrow.MAP key_type item_type)
            | _ => Undefined
            end
      | liborc.STRUCT =>
          fields <-
            struct_fields (fun subtype => GetArrowType subtype)
                          fieldNames subtypes 0 ;;
          Ok (arrow.STRUCT fields)
      | liborc.UNION =>
          fields <-
            union_fields (fun subtype => GetArrowType subtype) subtypes 0 ;;
          Ok (arrow.SPARSE_UNION (map fst fields) (map snd fields))
      end
  end.

(** [Result::ValueOrDie]: the value, or the end of the program. *)
Definition ValueOrDie {A} (r : result A) : result A :=
  match r with
  | Ok a => Ok a
  | _ => Undefined
  end.

Definition uint64_t (x : Z) : Z := x mod 2 ^ 64.

(** The loop over the fields of a struct or union type:
    [GetORCType] of the type of each with [ValueOrDie], in order. *)
Fixpoint orc_children (get : arrow.DataType -> result liborc.Type_)
  (fields : list (string * arrow.DataType)) {struct fields}
  : result (list (string * liborc.Type_)) :=
  match fields with
  | [] => Ok []
  | (field_name, arrow_child_type) :: fields' =>
      orc_subtype <- ValueOrDie (get arrow_child_type) ;;
      rest <- orc_children get fields' ;;
      Ok ((field_name, orc_subtype) :: rest)
  end.

Fixpoint GetORCType (type : arrow.DataType) : result liborc.Type_ :=
  let children := orc_children (fun t => GetORCType t) in
  match type with
  | arrow.BOOL => Ok (liborc.createPrimitiveType liborc.BOOLEAN)
  | arrow.INT8 => Ok (liborc.createPrimitiveType liborc.BYTE)
  | arrow.INT16 => Ok (liborc.createPrimitiveType liborc.SHORT)
  | arrow.INT32 => Ok (liborc.createPrimitiveType liborc.INT)
  | arrow.INT64 => Ok (liborc.createPrimitiveType liborc.LONG)
  | arrow.FLOAT => Ok (liborc.createPrimitiveType liborc.FLOAT)
  | arrow.DOUBLE => Ok (liborc.createPrimitiveType liborc.DOUBLE)
  (* Use STRING instead of VARCHAR for now, both use UTF-8 *)
  | arrow.STRING | arrow.LARGE_STRING =>
      Ok (liborc.createPrimitiveType liborc.STRING)
  | arrow.BINARY | arrow.LARGE_BINARY | arrow.FIXED_SIZE_BINARY _ =>
      Ok (liborc.createPrimitiveType liborc.BINARY)
  | arrow.DATE32 => Ok (liborc.createPrimitiveType liborc.DATE)
  | arrow.DATE64 | arrow.TIMESTAMP _ =>
      Ok (liborc.createPrimitiveType liborc.TIMESTAMP)
  | arrow.DECIMAL128 precision scale =>
      Ok (liborc.createDecimalType (uint64_t precision) (uint64_t scale))
  | arrow.LIST arrow_child_type | arrow.FIXED_SIZE_LIST arrow_child_type _
  | arrow.LARGE_LIST arrow_child_type =>
      orc_subtype <- ValueOrDie (GetORCType arrow_child_type) ;;
      Ok (liborc.createListType orc_subtype)
  | arrow.STRUCT arrow_fields =>
      fields <- children arrow_fields ;;
      Ok (liborc.createStructType fields)
  | arrow.MAP key_arrow_type item_arrow_type =>
      key_orc_type <- ValueOrDie (GetORCType key_arrow_type) ;;
      item_orc_type <- ValueOrDie (GetORCType item_arrow_type) ;;
      Ok (liborc.createMapType key_orc_type item_orc_type)
  | arrow.DENSE_UNION arrow_fields _ | arrow.SPARSE_UNION arrow_fields _ =>
      fields <- children arrow_fields ;;
      Ok (liborc.createUnionType (map snd fields))
  (* Dictionary is an encoding method, not a TypeKind in ORC. Hence we need
     to get the actual value type. *)
  | arrow.DICTIONARY _ arrow_value_type =>
      ValueOrDie (GetORCType arrow_value_type)
  | t =>
      Invalid [arrow.Text "Unknown or unsupported Arrow type: ";
               arrow.TypeToString t]
  end.

(** ** The chunked encoder and the writer loop *)

(** A [ChunkedArray] is the sequence of its chunks. *)
Definition ChunkedArray : Type := list Array.

(** The [while] loop of the chunked [WriteBatch], over the chunks from
    [*arrow_chunk_offset] on.  The body moves to the next chunk exactly when
    [orc_offset < length] still holds after it; when it does not, the
    condition of the [while] fails at once and the loop is left. *)
Fixpoint WriteBatch_while (chunks : list Array) (column_vector_batch : Batch)
  (arrow_index_offset arrow_chunk_offset : Z) (length orc_offset : Z)
  {struct chunks} : result (Batch * Z * Z * Z) :=
  match chunks with
  | [] => Ok (column_vector_batch, arrow_index_offset, arrow_chunk_offset,
              orc_offset)
  | chunk :: chunks' =>
      if orc_offset <? length then
        let array := NormalizeArray chunk in
        let num_written_elements :=
          Z.min (length - orc_offset)
                (ArrayOps.length array - arrow_index_offset) in
        written <-
          (if 0 <? num_written_elements then
             let '(o, n) :=
               ArrayOps.Slice 0 (ArrayOps.length array)
                              arrow_index_offset num_written_elements in
             b <- WriteBatch array o n orc_offset column_vector_batch false ;;
             Ok (b, arrow_index_offset + num_written_elements,
                 orc_offset + num_written_elements)
           else Ok (column_vector_batch, arrow_index_offset, orc_offset)) ;;
        let '(b, arrow_index_offset, orc_offset) := written in
        if orc_offset <? length then (* Another Arrow Array done *)
          WriteBatch_while chunks' b 0 (arrow_chunk_offset + 1) length orc_offset
        else Ok (b, arrow_index_offset, arrow_chunk_offset, orc_offset)
      else Ok (column_vector_batch, arrow_index_offset, arrow_chunk_offset,
               orc_offset)
  end.

(** The [WriteBatch] of namespace arrow::adapters::orc, which takes a
    chunked array and the cursor pair; it gives back the batch and the
    cursors it advanced. *)
Definition WriteBatch_chunked (column_vector_batch : Batch)
  (arrow_index_offset arrow_chunk_offset : Z) (length : Z)
  (chunked_array : ChunkedArray) : result (Batch * Z * Z) :=
  r <- WriteBatch_while (skipn (Z.to_nat arrow_chunk_offset) chunked_array)
         column_vector_batch arrow_index_offset arrow_chunk_offset length 0 ;;
  let '(b, arrow_index_offset, arrow_chunk_offset, orc_offset) := r in
  Ok (BatchOps.set_numElements b orc_offset, arrow_index_offset,
      arrow_chunk_offset).

(** Modelled from the spec: a table, "a full table-like collection of
    columns" (spec 4.3) with its number of rows. *)
Record Table := mkTable {
  num_rows : Z;
  columns : list ChunkedArray
}.

(** The state of [ORCFileWriter::Impl::Write]: the root batch made by
    [writer_->createRowBatch], one cursor pair for each column, and the
    batches handed to [writer_->add] so far, the last one first. *)
Record WriterState := mkWriter {
  root : Batch;
  arrow_index_offset : list Z;
  arrow_chunk_offset : list Z;
  added : list Batch
}.

(** Modelled from the spec: [clear()] of a batch, which makes it ready for
    reuse ("cleared, not reallocated", spec 3): liborc resets the number of
    elements, in a struct batch also that of its fields. *)
Definition clear (b : Batch) : Batch :=
  match b with
  | StructVectorBatch h fields =>
      BatchOps.set_numElements
        (StructVectorBatch h (map (fun f => BatchOps.set_numElements f 0) fields)) 0
  | _ => BatchOps.set_numElements b 0
  end.

(** [for (int i = 0; i < num_cols_; i++) WriteBatch(fields[i],
    &arrow_index_offset[i], &arrow_chunk_offset[i], batch_size,
    *table->column(i))]. *)
Fixpoint write_columns (batch_size : Z) (cols : list ChunkedArray)
  (fields : list Batch) (index_offsets chunk_offsets : list Z)
  {struct cols} : result (list Batch * list Z * list Z) :=
  match cols with
  | [] => Ok (fields, index_offsets, chunk_offsets)
  | col :: cols' =>
      match fields, index_offsets, chunk_offsets with
      | field :: fields', io :: ios, co :: cos =>
          r <- WriteBatch_chunked field io co batch_size col ;;
          let '(field, io, co) := r in
          rest <- write_columns batch_size cols' fields' ios cos ;;
          let '(fields', ios, cos) := rest in
          Ok (field :: fields', io :: ios, co :: cos)
      | _, _, _ => Undefined
      end
  end.

(** The body of the [while (numRows > 0)] loop. *)
Definition Write_body (batch_size : Z) (cols : list ChunkedArray)
  (st : WriterState) : result WriterState :=
  match root st with
  | StructVectorBatch h fields =>
      r <- write_columns batch_size cols fields
             (arrow_index_offset st) (arrow_chunk_offset st) ;;
      let '(fields, ios, cos) := r in
      match fields with
      | field0 :: _ =>
          let batch :=
            BatchOps.set_numElements (StructVectorBatch h fields)
              (numElements (BatchOps.base field0)) in
          Ok (mkWriter (clear batch) ios cos (batch :: added st))
      | [] => Undefined
      end
  | _ => Undefined
  end.

(** The loop [while (numRows > 0) { ...; numRows -= batch_size; }].  With a
    [batch_size] that is not positive the loop of the source never ends;
    the model gives [Undefined] then. *)
Equations? Write_loop (batch_size : Z) (cols : list ChunkedArray)
  (numRows : Z) (st : WriterState) : result WriterState
  by wf (Z.to_nat numRows) lt :=
  Write_loop batch_size cols numRows st with Z_lt_dec 0 numRows := {
    | right _ => Ok st
    | left _ with Z_lt_dec 0 batch_size := {
        | right _ => Undefined
        | left _ with Write_body batch_size cols st := {
            | Ok st' => Write_loop batch_size cols (numRows - batch_size) st'
            | Raise e => Raise e
            | Undefined => Undefined } } }.
Proof. lia. Qed.

(** [ORCFileWriter::Impl::Write]; [root_batch] is the batch
    [writer_->createRowBatch(batch_size)] made, and the result is the list of
    the batches added to the writer, in order. *)
Definition Write_with (batch_size : Z) (root_batch : Batch) (table : Table)
  : result (list Batch) :=
  let numRows := num_rows table in
  let num_cols := List.length (columns table) in
  st <- Write_loop batch_size (columns table) numRows
          (mkWriter root_batch (repeat 0 num_cols) (repeat 0 num_cols) []) ;;
  Ok (rev (added st)).

Definition Write (root_batch : Batch) (table : Table) : result (list Batch) :=
  let batch_size := 1024 in (* Doesn't matter what it is *)
  Write_with batch_size root_batch table.

End Adapter.

(** ** Reading the results *)

(** The pair [(data[i], nanoseconds[i])] of a timestamp batch a writer gave
    back. *)
Definition timestamp_at (r : result Batch) (i : Z) : option (Z * Z) :=
  match r with
  | Ok (TimestampVectorBatch _ d n) => Some (d i, n i)
  | _ => None
  end.

(** The case labels of the [switch] of [AppendBatch]. *)
Definition decode_supported (kind : liborc.TypeKind) : bool :=
  match kind with
  | liborc.STRUCT | liborc.LIST | liborc.MAP | liborc.LONG | liborc.INT
  | liborc.SHORT | liborc.BYTE | liborc.DOUBLE | liborc.FLOAT | liborc.BOOLEAN
  | liborc.VARCHAR | liborc.STRING | liborc.BINARY | liborc.CHAR | liborc.DATE
  | liborc.TIMESTAMP | liborc.DECIMAL => true
  | _ => false
  end.

(** The case labels of the [switch] of the inner [WriteBatch]. *)
Definition encode_supported (t : arrow.DataType) : bool :=
  match t with
  | arrow.BOOL | arrow.INT8 | arrow.INT16 | arrow.INT32 | arrow.INT64
  | arrow.FLOAT | arrow.DOUBLE | arrow.BINARY | arrow.LARGE_BINARY
  | arrow.STRING | arrow.LARGE_STRING | arrow.FIXED_SIZE_BINARY _
  | arrow.DATE32 | arrow.DATE64 | arrow.TIMESTAMP _ | arrow.DECIMAL128 _ _
  | arrow.STRUCT _ | arrow.LIST _ | arrow.LARGE_LIST _
  | arrow.FIXED_SIZE_LIST _ _ | arrow.MAP _ _ => true
  | _ => false
  end.

(** The name [GetArrowType] gives the field of child [i] of a union. *)
Definition union_field_name (i : Z) : string := append "_union_" (to_string i).

(** ** Cursors of a chunked array *)

(** The total length of a sequence of chunks. *)
Definition chunks_length (chunks : list Array) : Z :=
  fold_right (fun a n => ArrayOps.length a + n) 0 chunks.

(** The number of logical values before the cursor pair
    [(arrow_chunk_offset, arrow_index_offset)]. *)
Definition position (chunks : list Array) (arrow_chunk_offset arrow_index_offset : Z)
  : Z :=
  chunks_length (firstn (Z.to_nat arrow_chunk_offset) chunks) + arrow_index_offset.

(** A cursor pair of a chunked array: the index lies within the chunk it
    points into, and is 0 past the last chunk. *)
Definition cursor_ok (chunks : list Array) (arrow_chunk_offset arrow_index_offset : Z)
  : Prop :=
  0 <= arrow_chunk_offset /\ 0 <= arrow_index_offset
  /\ match skipn (Z.to_nat arrow_chunk_offset) chunks with
     | a :: _ => arrow_index_offset <= ArrayOps.length a
     | [] => arrow_index_offset = 0
     end.

(** The row count of a batch handed to the writer. *)
Definition rows (b : Batch) : Z := numElements (BatchOps.base b).

(** The rows of a sequence of batches, summed. *)
Definition total_rows (batches : list Batch) : Z :=
  fold_right (fun b n => rows b + n) 0 batches.

(** ** The decode of a list or a map, as the specification words it *)

(** Whether the decode path takes position [i] of a batch as valid. *)
Definition position_valid (h : ColumnVectorBatch) (i : Z) : bool :=
  negb (hasNulls h) || notNull h i.

(** "Iterate positions; for each valid position, open one new container slot
    and recurse into the child type/batch over
    [child_batch_offset[i], child_batch_offset[i+1]); for null positions,
    append a null slot" (spec 4.1).  The state is the validity bits and the
    offsets of the container builder and its child builder; [child_append]
    appends a range of the child batch to the child builder. *)
Fixpoint list_decode_spec
  (child_append : Z -> Z -> ArrayBuilder -> result ArrayBuilder)
  (h : ColumnVectorBatch) (offs : DataBuffer Z) (positions : list Z)
  (bm : list bool) (offsets : list Z) (child : ArrayBuilder)
  : result (list bool * list Z * ArrayBuilder) :=
  match positions with
  | [] => Ok (bm, offsets, child)
  | i :: rest =>
      if position_valid h i then
        child' <- child_append (offs i) (offs (i + 1) - offs i) child ;;
        list_decode_spec child_append h offs rest
          (bm ++ [true]) (offsets ++ [BuilderOps.length child]) child'
      else
        list_decode_spec child_append h offs rest
          (bm ++ [false]) (offsets ++ [BuilderOps.length child]) child
  end.

(** The same for a map, whose slot has a key builder and an item builder;
    the offset of a slot is the length of the key builder. *)
Fixpoint map_decode_spec
  (key_append item_append : Z -> Z -> ArrayBuilder -> result ArrayBuilder)
  (h : ColumnVectorBatch) (offs : DataBuffer Z) (positions : list Z)
  (bm : list bool) (offsets : list Z) (keys items : ArrayBuilder)
  : result (list bool * list Z * ArrayBuilder * ArrayBuilder) :=
  match positions with
  | [] => Ok (bm, offsets, keys, items)
  | i :: rest =>
      if position_valid h i then
        keys' <- key_append (offs i) (offs (i + 1) - offs i) keys ;;
        items' <- item_append (offs i) (offs (i + 1) - offs i) items ;;
        map_decode_spec key_append item_append h offs rest
          (bm ++ [true]) (offsets ++ [BuilderOps.length keys]) keys' items'
      else
        map_decode_spec key_append item_append h offs rest
          (bm ++ [false]) (offsets ++ [BuilderOps.length keys]) keys items
  end.

(** The invariant of the loop of [WriteListBatch] and [WriteMapBatch], after
    the rounds before [k]: the offsets written so far do not decrease, and a
    null position repeats the offset before it. *)
Definition offsets_written (array : Array) (arrow_offset orc_offset : Z)
  (k : Z) (b : Batch) : Prop :=
  (orc_offset = 0 -> get_offset b 0 = 0)
  /\ forall j, 0 <= j < k ->
       get_offset b (orc_offset + j) <= get_offset b (orc_offset + j + 1)
       /\ (ArrayOps.IsNull array (arrow_offset + j) = true ->
           get_offset b (orc_offset + j + 1) = get_offset b (orc_offset + j)).

(** The Arrow types the list writer and the map writer take. *)
Definition is_list_or_map (t : arrow.DataType) : bool :=
  match t with
  | arrow.LIST _ | arrow.LARGE_LIST _ | arrow.FIXED_SIZE_LIST _ _
  | arrow.MAP _ _ => true
  | _ => false
  end.

(** ** The logical content of arrays and batches *)

(** A logical value: what an element of an array is, whatever the buffers
    hold under a null.  Arrow's equality of arrays compares these. *)
Inductive LVal :=
| LNull
| LNum (z : Z)
| LBin (bytes : list byte)
| LStruct (fields : list LVal)
| LList (items : list LVal)
| LMap (keys items : list LVal).

(** The element [i] of an array; [leaf] reads the number of a primitive
    element by its type. *)
Fixpoint logical_at (leaf : arrow.DataType -> Z -> Z) (a : Array) (i : Z)
  {struct a} : LVal :=
  if ArrayOps.IsNull a i then LNull
  else
    match a with
    | PrimitiveArray t _ _ vs => LNum (leaf t (zth vs i 0))
    | BinaryArray _ _ _ vs => LBin (zth vs i [])
    | StructArray _ _ _ children =>
        LStruct (map (fun child => logical_at leaf child i) children)
    | ListArray _ _ _ _ values =>
        LList (map (logical_at leaf values)
                   (zseq (ArrayOps.value_offset a i)
                         (ArrayOps.value_offset a (i + 1)
                          - ArrayOps.value_offset a i)))
    | MapArray _ _ _ _ keys items =>
        LMap (map (logical_at leaf keys)
                  (zseq (ArrayOps.value_offset a i)
                        (ArrayOps.value_offset a (i + 1)
                         - ArrayOps.value_offset a i)))
             (map (logical_at leaf items)
                  (zseq (ArrayOps.value_offset a i)
                        (ArrayOps.value_offset a (i + 1)
                         - ArrayOps.value_offset a i)))
    end.

(** The elements of the window [(offset, length)] of an array. *)
Definition logical (leaf : arrow.DataType -> Z -> Z) (a : Array)
  (offset length : Z) : list LVal :=
  map (logical_at leaf a) (zseq offset length).

(** A number as the array stores it. *)
Definition as_stored (t : arrow.DataType) (v : Z) : Z := v.

(** The number of nanoseconds in one unit of a timestamp type. *)
Definition unit_nanos (t : arrow.DataType) : Z :=
  match t with
  | arrow.TIMESTAMP arrow.SECOND => kOneSecondNanos
  | arrow.TIMESTAMP arrow.MILLI | arrow.DATE64 => kOneMilliNanos
  | arrow.TIMESTAMP arrow.MICRO => kOneMicroNanos
  | _ => 1
  end.

(** A number as it comes back from ORC: a date64 or a timestamp in
    nanoseconds (an [int64_t]), any other number as stored. *)
Definition in_nanoseconds (t : arrow.DataType) (v : Z) : Z :=
  match t with
  | arrow.TIMESTAMP _ | arrow.DATE64 => int64_t (v * unit_nanos t)
  | _ => v
  end.

(** The elements a builder has appended so far. *)
Definition built (b : ArrayBuilder) : list LVal :=
  logical as_stored (BuilderOps.Finish b) 0 (BuilderOps.length b).

(** The elements [offset, offset + length) of a list of logical values. *)
Definition slice (vs : list LVal) (offset length : Z) : list LVal :=
  map (fun i => zth vs i LNull) (zseq offset length).

Definition list_items (v : LVal) : list LVal :=
  match v with
  | LList items => items
  | _ => []
  end.
Definition map_keys (v : LVal) : list LVal :=
  match v with
  | LMap keys _ => keys
  | _ => []
  end.
Definition map_items (v : LVal) : list LVal :=
  match v with
  | LMap _ items => items
  | _ => []
  end.

(** ** Well-formed arrays *)

(** The numbers a primitive array of type [t] holds. *)
Definition value_ok (t : arrow.DataType) (v : Z) : Prop :=
  match t with
  | arrow.BOOL => v = 0 \/ v = 1
  | arrow.INT8 => in_int 8 v
  | arrow.INT16 => in_int 16 v
  | arrow.INT32 | arrow.DATE32 => in_int 32 v
  | arrow.INT64 | arrow.DATE64 | arrow.TIMESTAMP _ => in_int 64 v
  | arrow.FLOAT | arrow.DOUBLE => True
  | arrow.DECIMAL128 p _ => 1 <= p <= 38 /\ - 10 ^ p < v < 10 ^ p
  | _ => False
  end.

(** The byte strings a binary array of type [t] holds. *)
Definition bytes_ok (t : arrow.DataType) (v : list byte) : Prop :=
  match t with
  | arrow.STRING | arrow.BINARY | arrow.LARGE_STRING | arrow.LARGE_BINARY =>
      Z.of_nat (List.length v) < 2 ^ 31
  | arrow.FIXED_SIZE_BINARY w =>
      Z.of_nat (List.length v) = w /\ w < 2 ^ 31
  | _ => False
  end.

(** The types of the primitive and of the binary arrays the encoder takes. *)
Definition primitive_type (t : arrow.DataType) : bool :=
  match t with
  | arrow.BOOL | arrow.INT8 | arrow.INT16 | arrow.INT32 | arrow.INT64
  | arrow.FLOAT | arrow.DOUBLE | arrow.DATE32 | arrow.DATE64
  | arrow.TIMESTAMP _ => true
  | arrow.DECIMAL128 p s => (1 <=? p) && (p <=? 38) && (0 <=? s) && (s <? 2 ^ 31)
  | _ => false
  end.

Definition binary_type (t : arrow.DataType) : bool :=
  match t with
  | arrow.STRING | arrow.BINARY | arrow.LARGE_STRING | arrow.LARGE_BINARY => true
  | arrow.FIXED_SIZE_BINARY w => (0 <=? w) && (w <? 2 ^ 31)
  | _ => false
  end.

(** The type of the values of a list array. *)
Definition list_value_type (t : arrow.DataType) : option arrow.DataType :=
  match t with
  | arrow.LIST vt | arrow.LARGE_LIST vt | arrow.FIXED_SIZE_LIST vt _ => Some vt
  | _ => None
  end.

(** The children of a struct array of length [n] against the fields of its
    type: as many, of the types the fields name, at least as long as the
    struct, and each well formed. *)
Fixpoint children_wf (wf : Array -> Prop) (n : Z) (cs : list Array)
  (fs : list (string * arrow.DataType)) {struct cs} : Prop :=
  match cs, fs with
  | [], [] => True
  | c :: cs', f :: fs' =>
      ArrayOps.type c = snd f /\ n <= ArrayOps.length c
      /\ wf c /\ children_wf wf n cs' fs'
  | _, _ => False
  end.

(** An array as Arrow builds it, of a type the encoder supports: lengths and
    bitmaps fit, the valid elements are values of the type, the offsets do not
    decrease and stay within the child, the children are well formed, of the
    types the parent names and as long as a struct parent. *)
Fixpoint wf_array (a : Array) {struct a} : Prop :=
  0 <= ArrayOps.length a
  /\ match ArrayOps.null_bitmap a with
     | Some bm => ArrayOps.length a <= Z.of_nat (List.length bm)
     | None => True
     end
  /\ match a with
     | PrimitiveArray t n _ vs =>
         primitive_type t = true
         /\ forall i, 0 <= i < n -> ArrayOps.IsNull a i = false ->
                      value_ok t (zth vs i 0)
     | BinaryArray t n _ vs =>
         binary_type t = true
         /\ forall i, 0 <= i < n -> ArrayOps.IsNull a i = false ->
                      bytes_ok t (zth vs i [])
     | StructArray t n _ children =>
         exists fields,
           t = arrow.STRUCT fields
           /\ children_wf (fun c => wf_array c) n children fields
     | ListArray t n _ offs values =>
         list_value_type t = Some (ArrayOps.type values)
         /\ wf_array values
         /\ forall i, 0 <= i < n ->
              0 <= ArrayOps.value_offset a i
              /\ ArrayOps.value_offset a i <= ArrayOps.value_offset a (i + 1)
              /\ ArrayOps.value_offset a (i + 1) <= ArrayOps.length values
     | MapArray t n _ offs keys items =>
         t = arrow.MAP (ArrayOps.type keys) (ArrayOps.type items)
         /\ wf_array keys /\ wf_array items
         /\ forall i, 0 <= i < n ->
              0 <= ArrayOps.value_offset a i
              /\ ArrayOps.value_offset a i <= ArrayOps.value_offset a (i + 1)
              /\ ArrayOps.value_offset a (i + 1) <= ArrayOps.length keys
              /\ ArrayOps.value_offset a (i + 1) <= ArrayOps.length items
     end.

(** ** What a batch holds *)

(** The value the decode path reads at a valid position [i] of a batch
    that is not a struct, a list or a map, by the ORC type of the column. *)
Definition leaf_value (double_to_float : Z -> Z) (kind : liborc.TypeKind)
  (precision : Z) (b : Batch) (i : Z) : option LVal :=
  match kind, b with
  | liborc.LONG, LongVectorBatch _ d => Some (LNum (d i))
  | liborc.INT, LongVectorBatch _ d | liborc.DATE, LongVectorBatch _ d =>
      Some (LNum (int32_t (d i)))
  | liborc.SHORT, LongVectorBatch _ d => Some (LNum (int16_t (d i)))
  | liborc.BYTE, LongVectorBatch _ d => Some (LNum (int8_t (d i)))
  | liborc.BOOLEAN, LongVectorBatch _ d => Some (LNum (to_bool (d i)))
  | liborc.DOUBLE, DoubleVectorBatch _ d => Some (LNum (d i))
  | liborc.FLOAT, DoubleVectorBatch _ d => Some (LNum (double_to_float (d i)))
  | liborc.STRING, StringVectorBatch _ d l
  | liborc.VARCHAR, StringVectorBatch _ d l
  | liborc.BINARY, StringVectorBatch _ d l =>
      Some (LBin (bytes_at (d i) (int32_t (l i))))
  | liborc.TIMESTAMP, TimestampVectorBatch _ sec nanos =>
      Some (LNum (int64_t (int64_t (sec i * kOneSecondNanos) + nanos i)))
  | liborc.DECIMAL, Decimal128VectorBatch _ v =>
      if decode_uses_wide precision
      then Some (LNum (Decimal128_of_words (getHighBits (v i)) (getLowBits (v i))))
      else None
  | liborc.DECIMAL, Decimal64VectorBatch _ v =>
      if decode_uses_wide precision then None
      else Some (LNum (Decimal128_of_int64 (v i)))
  | _, _ => None
  end.

(** The validity of position [i] of a batch agrees with the value [v]: the
    position is marked valid and [v] is a value, or it is marked null, the
    batch says it has nulls, and [v] is null. *)
Definition marked (h : ColumnVectorBatch) (i : Z) (v : LVal) : Prop :=
  (notNull h i = true /\ v <> LNull)
  \/ (notNull h i = false /\ hasNulls h = true /\ v = LNull).

(** The fields of a struct batch hold the columns [cs], each of [n]
    values, by the subtypes [ts]. *)
Fixpoint fields_hold (H : liborc.Type_ -> Batch -> list LVal -> Prop) (n : Z)
  (ts : list liborc.Type_) (fs : list Batch) (cs : list (list LVal))
  {struct ts} : Prop :=
  match ts, fs, cs with
  | [], [], [] => True
  | t :: ts', f :: fs', c :: cs' =>
      H t f c /\ Z.of_nat (List.length c) = n /\ fields_hold H n ts' fs' cs'
  | _, _, _ => False
  end.

(** The batch [b] of a column of ORC type [T] holds the logical values [vs]
    at its positions [0 .. length vs): each position is marked as its value
    says, and a valid position carries the value.  The fields of a struct
    batch hold columns of which a valid struct position is the row; the child
    of a list or map batch holds the elements of all the lists one after the
    other, delimited by the offsets. *)
Fixpoint holds (double_to_float : Z -> Z) (T : liborc.Type_) (b : Batch)
  (vs : list LVal) {struct T} : Prop :=
  match T with
  | liborc.nullptr => False
  | liborc.mk kind subtypes _ _ precision _ =>
      let h := BatchOps.base b in
      let n := Z.of_nat (List.length vs) in
      (forall i, 0 <= i < n -> marked h i (zth vs i LNull))
      /\ match kind with
         | liborc.STRUCT =>
             match b with
             | StructVectorBatch _ fields =>
                 exists cols,
                   fields_hold (fun t f c => holds double_to_float t f c) n
                               subtypes fields cols
                   /\ forall i, 0 <= i < n -> notNull h i = true ->
                        zth vs i LNull
                        = LStruct (map (fun col => zth col i LNull) cols)
             | _ => False
             end
         | liborc.LIST =>
             match b, subtypes with
             | ListVectorBatch _ offs elements, [elemtype] =>
                 exists flat,
                   holds double_to_float elemtype elements flat
                   /\ Z.of_nat (List.length flat) = (if n =? 0 then 0 else offs n)
                   /\ forall i, 0 <= i < n ->
                        0 <= offs i /\ offs i <= offs (i + 1)
                        /\ offs (i + 1) <= Z.of_nat (List.length flat)
                        /\ (notNull h i = true ->
                            zth vs i LNull
                            = LList (slice flat (offs i) (offs (i + 1) - offs i)))
             | _, _ => False
             end
         | liborc.MAP =>
             match b, subtypes with
             | MapVectorBatch _ offs keys items, [key_type; item_type] =>
                 exists kflat iflat,
                   holds double_to_float key_type keys kflat
                   /\ holds double_to_float item_type items iflat
                   /\ Z.of_nat (List.length kflat) = (if n =? 0 then 0 else offs n)
                   /\ Z.of_nat (List.length iflat) = (if n =? 0 then 0 else offs n)
                   /\ forall i, 0 <= i < n ->
                        0 <= offs i /\ offs i <= offs (i + 1)
                        /\ offs (i + 1) <= Z.of_nat (List.length kflat)
                        /\ (notNull h i = true ->
                            zth vs i LNull
                            = LMap (slice kflat (offs i) (offs (i + 1) - offs i))
                                   (slice iflat (offs i) (offs (i + 1) - offs i)))
             | _, _ => False
             end
         | _ =>
             (exists v, leaf_value double_to_float kind precision b 0 = Some v)
             /\ forall i, 0 <= i < n -> notNull h i = true ->
                  leaf_value double_to_float kind precision b i
                  = Some (zth vs i LNull)
         end
  end.

Unset Implicit Arguments.

(** ** The encoder on a batch that holds values *)

(** The kinds of a column whose batch has no child batch. *)
Definition is_leaf (kind : liborc.TypeKind) : bool :=
  match kind with
  | liborc.STRUCT | liborc.LIST | liborc.MAP => false
  | _ => true
  end.

(** What [visit_value] has to do at a valid element, for a column of leaf
    kind [kind]: mark position [ro] valid, store there what decodes to the
    element, and leave the rest of the batch alone. *)
Definition step_ok (d2f : Z -> Z) (kind : liborc.TypeKind) (p : Z)
  (leaf : arrow.DataType -> Z -> Z) (a : Array) (aoff alen : Z)
  (visit_value : AppenderState -> result AppenderState) : Prop :=
  forall b ro ra,
    0 <= ro < capacity (BatchOps.base b) ->
    (exists v, leaf_value d2f kind p b 0 = Some v) ->
    0 <= ra < alen ->
    ArrayOps.IsNull a (aoff + ra) = false ->
    exists b',
      visit_value (mkAppender b ro ra) = Ok (mkAppender b' (ro + 1) (ra + 1))
      /\ BatchOps.base b'
         = mkBase (capacity (BatchOps.base b)) (numElements (BatchOps.base b))
                  (upd (notNull (BatchOps.base b)) ro true)
                  (hasNulls (BatchOps.base b))
      /\ leaf_value d2f kind p b' ro = Some (logical_at leaf a (aoff + ra))
      /\ forall j, j <> ro -> leaf_value d2f kind p b' j = leaf_value d2f kind p b j.

(** The columns of a struct batch with a window of each child appended. *)
Fixpoint extend_columns (leaf : arrow.DataType -> Z -> Z) (aoff alen : Z)
  (children : list Array) (cols : list (list LVal)) : list (list LVal) :=
  match children, cols with
  | c :: children', col :: cols' =>
      (col ++ logical leaf c aoff alen) :: extend_columns leaf aoff alen children' cols'
  | _, _ => []
  end.

(** The element [i] of an array is null, and so is the element [i] of each
    field below it through nested structs. *)
Fixpoint deep_null (a : Array) (i : Z) {struct a} : bool :=
  ArrayOps.IsNull a i
  && match a with
     | StructArray _ _ _ children => forallb (fun c => deep_null c i) children
     | _ => true
     end.

(** Position [j] is marked null in each field batch below a struct batch,
    through nested structs. *)
Fixpoint fields_null (b : Batch) (j : Z) {struct b} : bool :=
  match b with
  | StructVectorBatch _ fields =>
      forallb (fun f => negb (notNull (BatchOps.base f) j) && fields_null f j) fields
  | _ => true
  end.

(** What the encoder does on one array: the statement proved by induction
    on the array. *)
Definition writes (float_to_double double_to_float : Z -> Z) (a : Array) : Prop :=
  wf_array a ->
  forall T, GetORCType (ArrayOps.type a) = Ok T ->
  forall aoff alen b vs0 nz,
    0 <= aoff -> 0 <= alen -> aoff + alen <= ArrayOps.length a ->
    holds double_to_float T b vs0 ->
    Z.of_nat (List.length vs0) + alen <= capacity (BatchOps.base b) ->
    exists b',
      WriteBatch float_to_double a aoff alen (Z.of_nat (List.length vs0)) b nz = Ok b'
      /\ holds double_to_float T b' (vs0 ++ logical in_nanoseconds a aoff alen)
      /\ capacity (BatchOps.base b') = capacity (BatchOps.base b)
      /\ forall k, 0 <= k < alen -> deep_null a (aoff + k) = true ->
           fields_null b' (Z.of_nat (List.length vs0) + k) = true.

(** ** Normalised arrays *)

(** The element [i] is null by the bitmap [bm]. *)
Definition null_in (bm : option (list bool)) (i : Z) : bool :=
  match bm with
  | None => false
  | Some bits => negb (zth bits i false)
  end.

(** The window and bitmap [NormalizeArray_from] gives an array: within the
    array, and with no element valid that the array has null. *)
Definition narrows (a : Array) (len : Z) (bm : option (list bool)) : Prop :=
  0 <= len <= ArrayOps.length a
  /\ match bm with
     | Some bits => len <= Z.of_nat (List.length bits)
     | None => True
     end
  /\ forall i, 0 <= i < len -> null_in bm i = false -> ArrayOps.IsNull a i = false.

(** What normalisation keeps: the array stays well formed, each element in
    the window is the element it was unless the new bitmap makes it null,
    and an element the new bitmap makes null is null in every field below
    it. *)
Definition normalises (leaf : arrow.DataType -> Z -> Z) (a : Array) : Prop :=
  forall len bm,
    wf_array a -> narrows a len bm ->
    let a' := NormalizeArray_from a len bm in
    wf_array a'
    /\ (forall i, 0 <= i < len ->
                  logical_at leaf a' i
                  = if null_in bm i then LNull else logical_at leaf a i)
    /\ (forall i, 0 <= i < len -> null_in bm i = true -> deep_null a' i = true).

(** The bitmap a child of a struct is rebuilt with. *)
Definition final_child_bitmap (bits : list bool) (length : Z) (child : Array)
  : list bool :=
  match ArrayOps.null_bitmap child with
  | None => bits
  | Some child_bitmap => BitmapAnd bits child_bitmap length
  end.

(** ** Builders that match a type *)

(** The field builders of a struct builder of [n] elements match the
    subtypes [ts], each with [n] elements. *)
Fixpoint fields_fit (F : liborc.Type_ -> ArrayBuilder -> Prop) (n : Z)
  (ts : list liborc.Type_) (bs : list ArrayBuilder) {struct ts} : Prop :=
  match ts, bs with
  | [], [] => True
  | t :: ts', b :: bs' =>
      F t b /\ BuilderOps.length b = n /\ fields_fit F n ts' bs'
  | _, _ => False
  end.

(** The offsets of a list or map builder over a child of [L] elements:
    none is negative and none is beyond the child. *)
Definition offsets_fit (offs : list Z) (L : Z) : Prop :=
  forall i, 0 <= i < Z.of_nat (List.length offs) ->
    0 <= zth offs i 0 /\ zth (offs ++ [L]) (i + 1) 0 <= L.

(** "A destination builder matching that type" (spec 4.1): the builder of
    the Arrow type [GetArrowType] gives for the ORC type, with as many values
    as validity bits, and so for its children. *)
Fixpoint fits (T : liborc.Type_) (bld : ArrayBuilder) {struct T} : Prop :=
  match T with
  | liborc.nullptr => False
  | liborc.mk kind subtypes _ _ _ _ =>
      GetArrowType T = Ok (BuilderOps.type bld)
      /\ match kind with
         | liborc.STRUCT =>
             match bld with
             | StructBuilder _ bm fbs =>
                 fields_fit (fun t b => fits t b) (Z.of_nat (List.length bm))
                            subtypes fbs
             | _ => False
             end
         | liborc.LIST =>
             match bld, subtypes with
             | ListBuilder _ bm offs vb, [elemtype] =>
                 List.length offs = List.length bm
                 /\ fits elemtype vb
                 /\ offsets_fit offs (BuilderOps.length vb)
             | _, _ => False
             end
         | liborc.MAP =>
             match bld, subtypes with
             | MapBuilder _ bm offs kb ib, [key_type; item_type] =>
                 List.length offs = List.length bm
                 /\ fits key_type kb /\ fits item_type ib
                 /\ BuilderOps.length ib = BuilderOps.length kb
                 /\ offsets_fit offs (BuilderOps.length kb)
             | _, _ => False
             end
         | liborc.UNION => False
         | liborc.STRING | liborc.VARCHAR | liborc.BINARY | liborc.CHAR =>
             match bld with
             | BinaryBuilder _ bm vs => List.length vs = List.length bm
             | _ => False
             end
         | _ =>
             match bld with
             | NumericBuilder _ bm vs => List.length vs = List.length bm
             | _ => False
             end
         end
  end.

(** What the decoder does on one column type: the statement proved by
    induction on the type. *)
Definition reads (double_to_float : Z -> Z) (T : liborc.Type_) : Prop :=
  forall b vs bld off len,
    holds double_to_float T b vs -> fits T bld ->
    0 <= off -> 0 <= len -> off + len <= Z.of_nat (List.length vs) ->
    exists bld',
      AppendBatch double_to_float T b off len bld = Ok bld'
      /\ fits T bld'
      /\ built bld' = built bld ++ slice vs off len.

(** The kinds of column the decoder reads with [AppendValues]. *)
Definition numeric_kind (kind : liborc.TypeKind) : bool :=
  match kind with
  | liborc.LONG | liborc.INT | liborc.SHORT | liborc.BYTE | liborc.BOOLEAN
  | liborc.DOUBLE | liborc.FLOAT | liborc.DATE | liborc.TIMESTAMP => true
  | _ => false
  end.

Definition binary_kind (kind : liborc.TypeKind) : bool :=
  match kind with
  | liborc.STRING | liborc.VARCHAR | liborc.BINARY => true
  | _ => false
  end.

(** ** The values of a chunked column *)

(** The values the [while] loop of the chunked [WriteBatch] writes: [n]
    values from the chunks, from index [idx] of the first one on. *)
Fixpoint chunk_values (chunks : list Array) (idx n : Z) {struct chunks} : list LVal :=
  match chunks with
  | [] => []
  | a :: chunks' =>
      let m := Z.min n (ArrayOps.length a - idx) in
      logical in_nanoseconds a idx m
      ++ (if m <? n then chunk_values chunks' 0 (n - m) else [])
  end.

(** ** Encoding, then decoding *)

(** [decode(encode(array))]: the chunked [WriteBatch] of the one-chunk column
    [array] into the batch [b], with [length] the batch size, then
    [AppendBatch] of the rows [0, numElements) of the batch into the builder,
    as the reader calls it, and the array the builder finishes into. *)
Definition decode_encode (float_to_double double_to_float : Z -> Z)
  (array : Array) (length : Z) (b : Batch) (builder : ArrayBuilder)
  : result Array :=
  T <- GetORCType (ArrayOps.type array) ;;
  r <- WriteBatch_chunked float_to_double b 0 0 length [array] ;;
  let '(b', _, _) := r in
  builder' <- AppendBatch double_to_float T b' 0 (numElements (BatchOps.base b'))
                          builder ;;
  Ok (BuilderOps.Finish builder').

(** No date64 and no timestamp of a unit other than the nanosecond among
    the leaves of an array. *)
Fixpoint exact_units (a : Array) {struct a} : bool :=
  match a with
  | PrimitiveArray t _ _ _ =>
      match t with
      | arrow.DATE64 | arrow.TIMESTAMP arrow.SECOND | arrow.TIMESTAMP arrow.MILLI
      | arrow.TIMESTAMP arrow.MICRO => false
      | _ => true
      end
  | BinaryArray _ _ _ _ => true
  | StructArray _ _ _ children => forallb exact_units children
  | ListArray _ _ _ _ values => exact_units values
  | MapArray _ _ _ _ keys items => exact_units keys && exact_units items
  end.

(** ** The columns of a table and their batches *)

(** A column and the field batch it is written into: the chunks are well
    formed, of one type, the batch is of that type, and has room for a
    batch of [C] rows. *)
Definition column_fits (d2f : Z -> Z) (C : Z) (col : ChunkedArray) (field : Batch)
  : Prop :=
  exists T vs,
    Forall (fun a => wf_array a /\ GetORCType (ArrayOps.type a) = Ok T) col
    /\ holds d2f T field vs
    /\ C <= capacity (BatchOps.base field).

(** The columns of a table, the fields of the root batch and the cursor
    pairs, one for each column. *)
Fixpoint columns_ready (d2f : Z -> Z) (C : Z) (cols : list ChunkedArray)
  (fields : list Batch) (ios cos : list Z) {struct cols} : Prop :=
  match cols with
  | [] => True
  | col :: cols' =>
      match fields, ios, cos with
      | field :: fields', io :: ios', co :: cos' =>
          column_fits d2f C col field /\ cursor_ok col co io
          /\ columns_ready d2f C cols' fields' ios' cos'
      | _, _, _ => False
      end
  end.

(** The state of the writer before a round. *)
Definition writer_ready (d2f : Z -> Z) (C : Z) (cols : list ChunkedArray)
  (st : WriterState) : Prop :=
  exists h fields,
    root st = StructVectorBatch h fields
    /\ columns_ready d2f C cols fields (arrow_index_offset st) (arrow_chunk_offset st).

(** The children of a struct array. *)
Definition child_arrays (a : Array) : list Array :=
  match a with
  | StructArray _ _ _ children => children
  | _ => []
  end.

(** ** Examples *)

(** A header of a batch of [capacity] rows that holds nothing yet. *)
Definition example_header (capacity : Z) : ColumnVectorBatch :=
  mkBase capacity 0 (fun _ => true) false.

(** A batch of a column of 64-bit integers. *)
Definition example_long_batch (capacity : Z) : Batch :=
  LongVectorBatch (example_header capacity) (fun _ => 0).

(** A batch of a column of lists of 64-bit integers. *)
Definition example_list_batch (capacity : Z) : Batch :=
  ListVectorBatch (example_header capacity) (fun _ => 0) (example_long_batch 0).

(** The type of a struct of a 64-bit integer and a struct of a 64-bit
    integer. *)
Definition example_struct_type : arrow.DataType :=
  arrow.STRUCT [("x"%string, arrow.INT64);
                ("s"%string, arrow.STRUCT [("y"%string, arrow.INT64)])].

(** A batch of a column of that type. *)
Definition example_struct_batch (capacity : Z) : Batch :=
  StructVectorBatch (example_header capacity)
    [example_long_batch capacity;
     StructVectorBatch (example_header capacity) [example_long_batch capacity]].

(** A list array [[5, null], null, []] over the values [5, null]. *)
Definition example_list_array : Array :=
  ListArray (arrow.LIST arrow.INT64) 3 (Some [true; false; true]) [0; 2; 2; 2]
    (PrimitiveArray arrow.INT64 2 (Some [true; false]) [5; 0]).

(** An empty builder of lists of 64-bit integers. *)
Definition example_list_builder : ArrayBuilder :=
  ListBuilder (arrow.LIST arrow.INT64) [] [] (NumericBuilder arrow.INT64 [] []).

(** A struct array of two rows, the second one null, whose children have no
    validity bitmap: they report both rows as present. *)
Definition example_struct_array : Array :=
  StructArray example_struct_type 2 (Some [true; false])
    [PrimitiveArray arrow.INT64 2 None [1; 2];
     StructArray (arrow.STRUCT [("y"%string, arrow.INT64)]) 2 None
       [PrimitiveArray arrow.INT64 2 None [3; 4]]].

(** A timestamp array in seconds that holds the one value 1. *)
Definition example_seconds_array : Array :=
  PrimitiveArray (arrow.TIMESTAMP arrow.SECOND) 1 None [1].

(** A column of three 64-bit integers in two chunks. *)
Definition example_column : ChunkedArray :=
  [PrimitiveArray arrow.INT64 2 None [1; 2]; PrimitiveArray arrow.INT64 1 None [3]].

(** ** Types without dictionaries *)

(** [DedictionizeType]: the value type in place of a dictionary type, in a
    struct, list or map type through the fields, the value type and the key
    and item types.  The loop of the STRUCT case gives each field, in
    order, the type [DedictionizeType] makes of its own
    ([field->WithType(...)], which keeps the name). *)
Fixpoint DedictionizeType (type : arrow.DataType) : arrow.DataType :=
  match type with
  | arrow.DICTIONARY _ value_type => value_type
  | arrow.STRUCT fields =>
      arrow.STRUCT
        (map (fun field => let '(name, t) := field in (name, DedictionizeType t))
             fields)
  | arrow.LIST value_type => arrow.LIST (DedictionizeType value_type)
  | arrow.LARGE_LIST value_type => arrow.LARGE_LIST (DedictionizeType value_type)
  | arrow.FIXED_SIZE_LIST value_type list_size =>
      arrow.FIXED_SIZE_LIST (DedictionizeType value_type) list_size
  | arrow.MAP key_type item_type =>
      arrow.MAP (DedictionizeType key_type) (DedictionizeType item_type)
  | _ => (* No dict found! *) type
  end.

(** No dictionary type anywhere in a type. *)
Fixpoint dictionary_free (t : arrow.DataType) : bool :=
  match t with
  | arrow.DICTIONARY _ _ => false
  | arrow.STRUCT fields | arrow.SPARSE_UNION fields _
  | arrow.DENSE_UNION fields _ =>
      forallb (fun field => let '(_, t) := field in dictionary_free t) fields
  | arrow.LIST v | arrow.LARGE_LIST v | arrow.FIXED_SIZE_LIST v _ =>
      dictionary_free v
  | arrow.MAP k i => dictionary_free k && dictionary_free i
  | _ => true
  end.

(** ** The types the translators take and give *)

(** The case labels of the [switch] of [GetORCType]. *)
Definition orc_type_supported (t : arrow.DataType) : bool :=
  match t with
  | arrow.BOOL | arrow.INT8 | arrow.INT16 | arrow.INT32 | arrow.INT64
  | arrow.FLOAT | arrow.DOUBLE | arrow.STRING | arrow.LARGE_STRING
  | arrow.BINARY | arrow.LARGE_BINARY | arrow.FIXED_SIZE_BINARY _
  | arrow.DATE32 | arrow.DATE64 | arrow.TIMESTAMP _ | arrow.DECIMAL128 _ _
  | arrow.LIST _ | arrow.FIXED_SIZE_LIST _ _ | arrow.LARGE_LIST _
  | arrow.STRUCT _ | arrow.MAP _ _ | arrow.DENSE_UNION _ _
  | arrow.SPARSE_UNION _ _ | arrow.DICTIONARY _ _ => true
  | _ => false
  end.

(** The types [GetORCType] calls itself on: the value type of a list or a
    dictionary, the key and item types of a map, the types of the fields of
    a struct or a union. *)
Definition visited_types (t : arrow.DataType) : list arrow.DataType :=
  match t with
  | arrow.LIST v | arrow.FIXED_SIZE_LIST v _ | arrow.LARGE_LIST v
  | arrow.DICTIONARY _ v => [v]
  | arrow.MAP k i => [k; i]
  | arrow.STRUCT fields | arrow.DENSE_UNION fields _
  | arrow.SPARSE_UNION fields _ => map snd fields
  | _ => []
  end.

(** A type with a case label in [GetORCType] at every level [GetORCType]
    visits. *)
Fixpoint translates (t : arrow.DataType) : bool :=
  match t with
  | arrow.LIST v | arrow.FIXED_SIZE_LIST v _ | arrow.LARGE_LIST v
  | arrow.DICTIONARY _ v => translates v
  | arrow.MAP k i => translates k && translates i
  | arrow.STRUCT fields | arrow.DENSE_UNION fields _
  | arrow.SPARSE_UNION fields _ =>
      forallb (fun field => let '(_, t) := field in translates t) fields
  | _ => orc_type_supported t
  end.

(** A precision and a scale as a decimal type of Arrow has them: 32-bit
    integers, the precision not 0. *)
Definition decimal_in_range (precision scale : Z) : bool :=
  (- 2 ^ 31 <=? precision) && (precision <? 2 ^ 31) && negb (precision =? 0)
  && (- 2 ^ 31 <=? scale) && (scale <? 2 ^ 31).

(** Each decimal type [GetORCType] visits in a type has its precision and
    scale in range. *)
Fixpoint decimals_in_range (t : arrow.DataType) : bool :=
  match t with
  | arrow.DECIMAL128 p s => decimal_in_range p s
  | arrow.LIST v | arrow.FIXED_SIZE_LIST v _ | arrow.LARGE_LIST v
  | arrow.DICTIONARY _ v => decimals_in_range v
  | arrow.MAP k i => decimals_in_range k && decimals_in_range i
  | arrow.STRUCT fields | arrow.DENSE_UNION fields _
  | arrow.SPARSE_UNION fields _ =>
      forallb (fun field => let '(_, t) := field in decimals_in_range t) fields
  | _ => true
  end.

(** The fields of a union as [GetArrowType] names them, from child index
    [child] on. *)
Fixpoint union_view (view : arrow.DataType -> arrow.DataType)
  (fields : list (string * arrow.DataType)) (child : Z) {struct fields}
  : list (string * arrow.DataType) :=
  match fields with
  | [] => []
  | (_, t) :: fields' =>
      (union_field_name child, view t) :: union_view view fields' (child + 1)
  end.

(** The Arrow type that comes back for a type written to ORC: the large
    and fixed-size variants come back as the plain ones, date64 and the
    timestamps as the timestamp in nanoseconds, a dictionary as its values,
    a union as the sparse union of fields named after their index. *)
Fixpoint orc_view (t : arrow.DataType) : arrow.DataType :=
  match t with
  | arrow.LARGE_STRING => arrow.STRING
  | arrow.LARGE_BINARY | arrow.FIXED_SIZE_BINARY _ => arrow.BINARY
  | arrow.DATE64 | arrow.TIMESTAMP _ => arrow.TIMESTAMP arrow.NANO
  | arrow.LIST v | arrow.FIXED_SIZE_LIST v _ | arrow.LARGE_LIST v =>
      arrow.LIST (orc_view v)
  | arrow.MAP k i => arrow.MAP (orc_view k) (orc_view i)
  | arrow.STRUCT fields =>
      arrow.STRUCT
        (map (fun field => let '(name, t) := field in (name, orc_view t)) fields)
  | arrow.DENSE_UNION fields _ | arrow.SPARSE_UNION fields _ =>
      arrow.SPARSE_UNION
        (union_view (fun t => orc_view t) fields 0)
        (map int8_t (zseq 0 (Z.of_nat (List.length fields))))
  | arrow.DICTIONARY _ v => orc_view v
  | t => t
  end.

(** The types that ORC has as they are: no large or fixed-size variant, no
    date64, no timestamp of a unit other than the nanosecond, no dictionary
    and no union, at any level. *)
Fixpoint orc_native (t : arrow.DataType) : bool :=
  match t with
  | arrow.BOOL | arrow.INT8 | arrow.INT16 | arrow.INT32 | arrow.INT64
  | arrow.FLOAT | arrow.DOUBLE | arrow.STRING | arrow.BINARY | arrow.DATE32
  | arrow.TIMESTAMP arrow.NANO => true
  | arrow.DECIMAL128 p s => decimal_in_range p s
  | arrow.LIST v => orc_native v
  | arrow.MAP k i => orc_native k && orc_native i
  | arrow.STRUCT fields =>
      forallb (fun field => let '(_, t) := field in orc_native t) fields
  | _ => false
  end.

(** An ORC type in which every list has one child and every map two, at
    every level [GetArrowType] visits. *)
Fixpoint well_shaped (T : liborc.Type_) : bool :=
  match T with
  | liborc.nullptr => true
  | liborc.mk kind subtypes _ _ _ _ =>
      match kind with
      | liborc.LIST =>
          match subtypes with
          | [elemtype] => well_shaped elemtype
          | _ => false
          end
      | liborc.MAP =>
          match subtypes with
          | [key_type; item_type] => well_shaped key_type && well_shaped item_type
          | _ => false
          end
      | liborc.STRUCT | liborc.UNION => forallb well_shaped subtypes
      | _ => true
      end
  end.

(** ** Schemas *)

Module SchemaOps.

(** Modelled from the spec: arrow::Schema, one of the "schemas [...]
    created at open/translation time and read-only afterward" (spec 3): the
    fields of a table, each a name and a type, and the key-value metadata,
    absent when there is none. *)
Record Schema := mk {
  fields : list (string * arrow.DataType);
  metadata : option (list (string * string))
}.

(** [num_fields()], an [int]. *)
Definition num_fields (schema : Schema) : Z :=
  int32_t (Z.of_nat (List.length (fields schema))).

End SchemaOps.

(** Modelled from the spec: [addStructField(name, type)] of liborc::Type,
    which adds a field at the end of the struct node of the "tagged tree"
    (spec 3). *)
Definition addStructField (type : liborc.Type_) (fieldName : string)
  (fieldType : liborc.Type_) : liborc.Type_ :=
  match type with
  | liborc.mk kind subtypes fieldNames m p s =>
      liborc.mk kind (subtypes ++ [fieldType]) (fieldNames ++ [fieldName]) m p s
  | liborc.nullptr => liborc.nullptr
  end.

(** [GetORCType(const Schema&)]; [schema.field(i)] past the last field has
    no meaning. *)
Definition GetORCType_Schema (schema : SchemaOps.Schema) : result liborc.Type_ :=
  let numFields := SchemaOps.num_fields schema in
  let out_type := liborc.createStructType [] in
  for_loop (Z.to_nat numFields) 0
    (fun i out_type =>
       match nth_error (SchemaOps.fields schema) (Z.to_nat i) with
       | Some (field_name, arrow_child_type) =>
           orc_subtype <- ValueOrDie (GetORCType arrow_child_type) ;;
           Ok (addStructField out_type field_name orc_subtype)
       | None => Undefined
       end)
    out_type.

(** ** The ORC library as the reader sees it *)

(** The decimal form of an integer, as [Status::Invalid(..., n)] prints an
    [int64_t] into its message. *)
Definition int64_to_string (n : Z) : string := NilZero.string_of_int (Z.to_int n).

Module liborc_reader.

(** Modelled from the spec: liborc::RowReaderOptions, with which the
    reader is to "restrict a read to a byte range" (spec 3) and to read a
    "subset of columns" (spec 4.3): the range [(offset, length)] and the
    included type ids, each absent until it is set. *)
Record RowReaderOptions := mkOptions {
  range : option (Z * Z);
  includeTypes : option (list Z)
}.

Definition default_options : RowReaderOptions := mkOptions None None.

Definition set_range (opts : RowReaderOptions) (offset length : Z)
  : RowReaderOptions :=
  mkOptions (Some (offset, length)) (includeTypes opts).

Definition set_includeTypes (opts : RowReaderOptions) (types : list Z)
  : RowReaderOptions :=
  mkOptions (range opts) (Some types).

Module Stripe.

(** Modelled from the spec: liborc::StripeInformation, the "(byte offset,
    byte length, row count)" of a stripe in the file metadata (spec 3). *)
Record StripeInformation := mk {
  getOffset : Z;
  getLength : Z;
  getNumberOfRows : Z
}.

End Stripe.

(** Modelled from the spec: liborc::RowReader, the "type-specific row
    reader bounded to a byte range" from which the adapter "repeatedly
    requests fixed-capacity physical batches" until it "reports no more
    rows" (spec 4.3).  The library is opaque (spec 1): a row reader is given
    by its selected type, by what [createRowBatch] answers for a capacity (a
    batch, or the message of the ParseError it throws), by the contents
    [next] gives the batch at each call that returns true, in order, and by
    what [seekToRow] leaves to be read for a row number. *)
Record RowReader := mkRowReader {
  getSelectedType : liborc.Type_;
  createRowBatch : Z -> string + Batch;
  pending : list Batch;
  rows_from : Z -> string + list Batch
}.


Definition seekToRow (row_reader : RowReader) (rowNumber : Z)
  : string + RowReader :=
  match rows_from row_reader rowNumber with
  | inl what => inl what
  | inr batches =>
      inr (mkRowReader (getSelectedType row_reader) (createRowBatch row_reader)
                       batches (rows_from row_reader))
  end.

(** Modelled from the spec: liborc::Reader, the open file with its "file
    metadata" (spec 3): the stripes, the number of rows, the type, the
    metadata keys and values, and the row reader it creates for given
    options, or the message of the ParseError it throws. *)
Record Reader := mkReader {
  stripes : list Stripe.StripeInformation;
  getNumberOfRows : Z;
  getType : liborc.Type_;
  getMetadataKeys : list string;
  getMetadataValue : string -> string;
  createRowReader : RowReaderOptions -> string + RowReader
}.

Definition getNumberOfStripes (reader : Reader) : Z :=
  Z.of_nat (List.length (stripes reader)).

Definition getStripe (reader : Reader) (i : Z)
  : option Stripe.StripeInformation :=
  if i <? 0 then None else nth_error (stripes reader) (Z.to_nat i).

(** The subtypes [getSubtype(i)] reads. *)
Definition getSubtypes (type : liborc.Type_) : list liborc.Type_ :=
  match type with
  | liborc.mk _ subtypes _ _ _ _ => subtypes
  | liborc.nullptr => []
  end.

End liborc_reader.

(** ** The file reader *)

(** [vector.resize(n)]: the first [n] elements, then value-initialised
    ones up to [n]. *)
Definition resize {A} (v : list A) (n : Z) (d : A) : list A :=
  firstn (Z.to_nat n) v ++ repeat d (Z.to_nat n - List.length v).

(** [vector[i] = v]; an index outside the vector has no meaning. *)
Definition assign {A} (v : list A) (i : Z) (x : A) : result (list A) :=
  if (0 <=? i) && (i <? Z.of_nat (List.length v))
  then Ok (firstn (Z.to_nat i) v ++ x :: skipn (Z.to_nat (i + 1)) v)
  else Undefined.

Module ORCFileReader.

Import liborc_reader.

(** The entries of the stripe index; each field is a [uint64_t]. *)
Record StripeInformation := mkStripeInformation {
  offset : Z;
  length : Z;
  num_rows : Z;
  first_row_of_stripe : Z
}.

(** The number of rows to read in a ColumnVectorBatch *)
Definition kReadRowsBatch : Z := 1000.

(** The members of [ORCFileReader::Impl], the memory pool apart. *)
Record Impl := mkImpl {
  reader_ : Reader;
  stripes_ : list StripeInformation;
  current_row_ : Z
}.

(** The loop of [Init]: the index and [first_row_of_stripe], a
    [uint64_t], are the state.  The counter [i] is an [int]: the loop has no
    meaning beyond its range. *)
Definition Init (impl : Impl) : result Impl :=
  let nstripes := int64_t (getNumberOfStripes (reader_ impl)) in
  let stripes_ :=
    resize (stripes_ impl) nstripes (mkStripeInformation 0 0 0 0) in
  r <- for_loop (Z.to_nat nstripes) 0
         (fun i st =>
            let '(stripes_, first_row_of_stripe) := st in
            if 2 ^ 31 <=? i then Undefined
            else
              match getStripe (reader_ impl) i with
              | Some stripe =>
                  stripes_ <-
                    assign stripes_ i
                      (mkStripeInformation (Stripe.getOffset stripe)
                                           (Stripe.getLength stripe)
                                           (Stripe.getNumberOfRows stripe)
                                           first_row_of_stripe) ;;
                  Ok (stripes_,
                      uint64_t (first_row_of_stripe
                                + Stripe.getNumberOfRows stripe))
              | None => Undefined
              end)
         (stripes_, 0) ;;
  Ok (mkImpl (reader_ impl) (fst r) (current_row_ impl)).

(** [Open], from what [createReader] answers: the reader, or the message
    of the ParseError it throws. *)
Definition Open (liborc_reader : string + Reader) : result Impl :=
  match liborc_reader with
  | inl what => Raise (arrow.mkStatus arrow.IOError [arrow.Text what])
  | inr reader => Init (mkImpl reader [] 0)
  end.

Definition NumberOfStripes (impl : Impl) : Z :=
  int64_t (Z.of_nat (List.length (stripes_ impl))).

Definition NumberOfRows (impl : Impl) : Z :=
  int64_t (getNumberOfRows (reader_ impl)).

Definition GetArrowSchema (impl : Impl) (type : liborc.Type_)
  : result SchemaOps.Schema :=
  match type with
  | liborc.nullptr => Undefined
  | liborc.mk kind subtypes fieldNames _ _ _ =>
      match kind with
      | liborc.STRUCT =>
          let size := int32_t (Z.of_nat (List.length subtypes)) in
          fields <-
            struct_fields (fun subtype => GetArrowType subtype) fieldNames
                          (firstn (Z.to_nat size) subtypes) 0 ;;
          let keys := getMetadataKeys (reader_ impl) in
          let metadata :=
            match keys with
            | [] => None
            | _ => Some (map (fun it => (it, getMetadataValue (reader_ impl) it))
                             keys)
            end in
          Ok (SchemaOps.mk fields metadata)
      | _ =>
          NotImplemented
            [arrow.Text "Only ORC files with a top-level struct can be handled"]
      end
  end.

(** [ReadSchema(std::shared_ptr<Schema>* out)]. *)
Definition ReadSchema (impl : Impl) : result SchemaOps.Schema :=
  GetArrowSchema impl (getType (reader_ impl)).

(** [ReadSchema(const liborc::RowReaderOptions& opts, ...)]. *)
Definition ReadSchema_opts (impl : Impl) (opts : RowReaderOptions)
  : result SchemaOps.Schema :=
  match createRowReader (reader_ impl) opts with
  | inl what => Invalid [arrow.Text what]
  | inr row_reader => GetArrowSchema impl (getSelectedType row_reader)
  end.

Definition SelectStripe (impl : Impl) (opts : RowReaderOptions) (stripe : Z)
  : result RowReaderOptions :=
  if (stripe <? 0) || (NumberOfStripes impl <=? stripe) then
    Invalid [arrow.Text "Out of bounds stripe: "; arrow.Text (int64_to_string stripe)]
  else
    match nth_error (stripes_ impl) (Z.to_nat stripe) with
    | Some s => Ok (set_range opts (offset s) (length s))
    | None => Undefined
    end.

(** The loop of [SelectStripeWithRowNumber] over the stripe index. *)
Fixpoint find_stripe (opts : RowReaderOptions) (row_number : Z)
  (stripes : list StripeInformation) {struct stripes}
  : result (RowReaderOptions * StripeInformation) :=
  match stripes with
  | [] =>
      Invalid [arrow.Text "Invalid row number";
               arrow.Text (int64_to_string row_number)]
  | it :: rest =>
      if (first_row_of_stripe it <=? uint64_t row_number)
         && (uint64_t row_number
             <? uint64_t (first_row_of_stripe it + num_rows it))
      then Ok (set_range opts (offset it) (length it), it)
      else find_stripe opts row_number rest
  end.

Definition SelectStripeWithRowNumber (impl : Impl) (opts : RowReaderOptions)
  (row_number : Z) : result (RowReaderOptions * StripeInformation) :=
  if NumberOfRows impl <=? row_number then
    Invalid [arrow.Text "Out of bounds row number: ";
             arrow.Text (int64_to_string row_number)]
  else find_stripe opts row_number (stripes_ impl).

(** The loop of [SelectIndices]: [include_indices_list] so far is the
    state. *)
Fixpoint SelectIndices_loop (include_indices : list Z)
  (include_indices_list : list Z) {struct include_indices} : result (list Z) :=
  match include_indices with
  | [] => Ok include_indices_list
  | it :: rest =>
      if it <? 0 then Invalid [arrow.Text "Negative field index"]
      else SelectIndices_loop rest (include_indices_list ++ [uint64_t it])
  end.

Definition SelectIndices (opts : RowReaderOptions) (include_indices : list Z)
  : result RowReaderOptions :=
  include_indices_list <- SelectIndices_loop include_indices [] ;;
  Ok (set_includeTypes opts include_indices_list).

Definition Seek (impl : Impl) (row_number : Z) : result Impl :=
  if NumberOfRows impl <=? row_number then
    Invalid [arrow.Text "Out of bounds row number: ";
             arrow.Text (int64_to_string row_number)]
  else Ok (mkImpl (reader_ impl) (stripes_ impl) row_number).

(** The members of [OrcStripeReader], the memory pool apart. *)
Record OrcStripeReader := mkOrcStripeReader {
  row_reader_ : RowReader;
  schema_ : SchemaOps.Schema;
  batch_size_ : Z
}.

(** [NextStripeReader]: the reader with its current row moved, and the
    stripe reader, absent where the source resets [out]. *)
Definition NextStripeReader (impl : Impl) (batch_size : Z)
  (include_indices : list Z) : result (Impl * option OrcStripeReader) :=
  if NumberOfRows impl <=? current_row_ impl then Ok (impl, None)
  else
    let opts := default_options in
    opts <- (match include_indices with
             | [] => Ok opts
             | _ => SelectIndices opts include_indices
             end) ;;
    r <- SelectStripeWithRowNumber impl opts (current_row_ impl) ;;
    let '(opts, stripe_info) := r in
    schema <- ReadSchema_opts impl opts ;;
    match createRowReader (reader_ impl) opts with
    | inl what => Invalid [arrow.Text what]
    | inr row_reader =>
        match seekToRow row_reader (current_row_ impl) with
        | inl what => Invalid [arrow.Text what]
        | inr row_reader =>
            let current_row :=
              int64_t (uint64_t (first_row_of_stripe stripe_info
                                 + num_rows stripe_info)) in
            Ok (mkImpl (reader_ impl) (stripes_ impl) current_row,
                Some (mkOrcStripeReader row_reader schema batch_size))
        end
    end.

Section Reading.

(** The float a double is cast to. *)
Variable double_to_float : Z -> Z.

(** Arrow's RecordBatchBuilder is outside this code ("builder mechanics
    [...] treated as a capability", spec 1): [Make] gives the field
    builders for a schema and a capacity, [Flush] the record batch of the
    field builders, and [FromRecordBatches] the table of the record batches
    of a schema. *)
Variable RecordBatch : Type.
Variable ArrowTable : Type.
Variable Make : SchemaOps.Schema -> Z -> result (list ArrayBuilder).
Variable Flush : list ArrayBuilder -> result RecordBatch.
Variable FromRecordBatches :
  SchemaOps.Schema -> list RecordBatch -> result ArrowTable.

(** The loop over the fields of the record batch builder:
    [AppendBatch(type.getSubtype(i), struct_batch.fields[i], 0,
    batch->numElements, builder->GetField(i))]. *)
Definition append_columns (type : liborc.Type_) (fields : list Batch)
  (numElements : Z) (builder : list ArrayBuilder) : result (list ArrayBuilder) :=
  append_fields
    (fun subtype field field_builder =>
       AppendBatch double_to_float subtype field 0 numElements field_builder)
    (getSubtypes type) fields builder.


(** The loop [while (row_reader->next( *batch))] of [ReadBatch], over the
    contents [next] gives the batch. *)
Fixpoint ReadBatch_while (type : liborc.Type_) (batches : list Batch)
  (builder : list ArrayBuilder) {struct batches} : result (list ArrayBuilder) :=
  match batches with
  | [] => Ok builder
  | batch :: rest =>
      match batch with
      | StructVectorBatch h fields =>
          builder <- append_columns type fields (numElements h) builder ;;
          ReadBatch_while type rest builder
      | _ => Undefined
      end
  end.

Definition ReadBatch (impl : Impl) (opts : RowReaderOptions)
  (schema : SchemaOps.Schema) (nrows : Z) : result RecordBatch :=
  match createRowReader (reader_ impl) opts with
  | inl what => Invalid [arrow.Text what]
  | inr row_reader =>
      match createRowBatch row_reader (Z.min nrows kReadRowsBatch) with
      | inl what => Invalid [arrow.Text what]
      | inr batch =>
          builder <- Make schema nrows ;;
          (* The top-level type must be a struct to read into an arrow table *)
          _ <- BatchOps.checked_cast StructClass batch ;;
          let type := getSelectedType row_reader in
          builder <- ReadBatch_while type (pending row_reader) builder ;;
          Flush builder
      end
  end.

(** The loop of [ReadTable] over the stripe index. *)
Fixpoint ReadTable_loop (impl : Impl) (opts : RowReaderOptions)
  (schema : SchemaOps.Schema) (stripes : list StripeInformation)
  {struct stripes} : result (list RecordBatch) :=
  match stripes with
  | [] => Ok []
  | stripe :: rest =>
      let opts := set_range opts (offset stripe) (length stripe) in
      batch <- ReadBatch impl opts schema (int64_t (num_rows stripe)) ;;
      batches <- ReadTable_loop impl opts schema rest ;;
      Ok (batch :: batches)
  end.

Definition ReadTable (impl : Impl) (row_opts : RowReaderOptions)
  (schema : SchemaOps.Schema) : result ArrowTable :=
  batches <- ReadTable_loop impl row_opts schema (stripes_ impl) ;;
  FromRecordBatches schema batches.

(** [ReadStripe(int64_t stripe, std::shared_ptr<RecordBatch>* out)]. *)
Definition ReadStripe (impl : Impl) (stripe : Z) : result RecordBatch :=
  let opts := default_options in
  opts <- SelectStripe impl opts stripe ;;
  schema <- ReadSchema_opts impl opts ;;
  match nth_error (stripes_ impl) (Z.to_nat stripe) with
  | Some s => ReadBatch impl opts schema (int64_t (num_rows s))
  | None => Undefined
  end.

(** [Read(std::shared_ptr<Table>* out)]. *)
Definition Read (impl : Impl) : result ArrowTable :=
  let opts := default_options in
  schema <- ReadSchema_opts impl opts ;;
  ReadTable impl opts schema.

End Reading.

End ORCFileReader.

(** ** The stripe index, as the specification words it *)

(** The "ordered sequence of (byte offset, byte length, row count,
    first-row-number) tuples, built once at file-open time from file
    metadata" (spec 3): the entries for the stripes of a file, the first of
    which starts at row [first_row]. *)
Fixpoint stripe_index (stripes : list liborc_reader.Stripe.StripeInformation)
  (first_row : Z) {struct stripes} : list ORCFileReader.StripeInformation :=
  match stripes with
  | [] => []
  | stripe :: rest =>
      ORCFileReader.mkStripeInformation
        (liborc_reader.Stripe.getOffset stripe) (liborc_reader.Stripe.getLength stripe)
        (liborc_reader.Stripe.getNumberOfRows stripe) first_row
      :: stripe_index rest
           (uint64_t (first_row + liborc_reader.Stripe.getNumberOfRows stripe))
  end.

(** The rows of a sequence of stripes, summed. *)
Definition stripe_rows (stripes : list liborc_reader.Stripe.StripeInformation) : Z :=
  fold_right (fun stripe n => liborc_reader.Stripe.getNumberOfRows stripe + n) 0 stripes.

(** The number of rows before stripe [k] of a file. *)
Definition rows_before (stripes : list liborc_reader.Stripe.StripeInformation) (k : nat)
  : Z :=
  stripe_rows (firstn k stripes).

(** What an ORC file keeps: the rows of the file are the rows of its
    stripes, no stripe has a negative number of rows, the number of rows is
    an [int64_t] and the number of stripes an [int]. *)
Definition file_ok (reader : liborc_reader.Reader) : Prop :=
  Forall (fun stripe => 0 <= liborc_reader.Stripe.getNumberOfRows stripe)
         (liborc_reader.stripes reader)
  /\ stripe_rows (liborc_reader.stripes reader)
     = liborc_reader.getNumberOfRows reader
  /\ liborc_reader.getNumberOfRows reader < 2 ^ 63
  /\ Z.of_nat (List.length (liborc_reader.stripes reader)) < 2 ^ 31.

(** ** What a row reader gives *)

(** The batch [b], as [next] filled it for a row reader of selected type
    [type], holds the columns [cols]: one for each subtype, each of
    [numElements] values. *)
Definition batch_of_rows (d2f : Z -> Z) (type : liborc.Type_) (b : Batch)
  (cols : list (list LVal)) : Prop :=
  match b with
  | StructVectorBatch h fields =>
      0 <= numElements h
      /\ fields_hold (fun t f c => holds d2f t f c) (numElements h)
                     (liborc_reader.getSubtypes type) fields cols
  | _ => False
  end.

(** The field builders of a record batch builder match the subtypes of a
    type, one for each. *)
Definition builders_fit (type : liborc.Type_) (builders : list ArrayBuilder)
  : Prop :=
  Forall2 (fun t bld => fits t bld) (liborc_reader.getSubtypes type) builders.

(** Columns with further rows of each appended. *)
Fixpoint append_rows (columns rows : list (list LVal)) {struct columns}
  : list (list LVal) :=
  match columns, rows with
  | column :: columns', more :: rows' =>
      (column ++ more) :: append_rows columns' rows'
  | _, _ => []
  end.

(** The batches [batches] hold, one after the other, the rows of the
    columns [columns]. *)
Definition batches_hold (d2f : Z -> Z) (type : liborc.Type_)
  (batches : list Batch) (columns : list (list LVal)) : Prop :=
  exists colss,
    Forall2 (batch_of_rows d2f type) batches colss
    /\ fold_left append_rows colss
         (map (fun _ => []) (liborc_reader.getSubtypes type))
       = columns.

(** ** The rows of a table *)

(** The values of a column as they come back from ORC: those of its
    chunks, one chunk after the other, each date64 and timestamp value in
    nanoseconds. *)
Definition column_values (col : ChunkedArray) : list LVal :=
  List.concat (map (fun a => logical in_nanoseconds a 0 (ArrayOps.length a)) col).

(** The columns of a table against the fields of the root batch and the
    subtypes of the ORC type: as many, the chunks of a column well formed and
    of the one ORC type, the field batch of that type and with room for [C]
    rows. *)
Fixpoint table_fits (d2f : Z -> Z) (C : Z) (cols : list ChunkedArray)
  (fields : list Batch) (ts : list liborc.Type_) {struct cols} : Prop :=
  match cols, fields, ts with
  | [], [], [] => True
  | col :: cols', field :: fields', t :: ts' =>
      Forall (fun a => wf_array a /\ GetORCType (ArrayOps.type a) = Ok t) col
      /\ (exists vs, holds d2f t field vs)
      /\ C <= capacity (BatchOps.base field)
      /\ table_fits d2f C cols' fields' ts'
  | _, _, _ => False
  end.

(** The cursor pairs of the columns all stand before row [p]. *)
Fixpoint cursors_at (cols : list ChunkedArray) (ios cos : list Z) (p : Z)
  {struct cols} : Prop :=
  match cols, ios, cos with
  | [], [], [] => True
  | col :: cols', io :: ios', co :: cos' =>
      cursor_ok col co io /\ position col co io = p
      /\ cursors_at cols' ios' cos' p
  | _, _, _ => False
  end.

(** The rows [p, p + n) of the columns of a table. *)
Definition rows_window (cols : list ChunkedArray) (p n : Z) : list (list LVal) :=
  map (fun col => slice (column_values col) p n) cols.

(** The top-level type of a file is a struct. *)
Definition top_level_struct (type : liborc.Type_) : bool :=
  match type with
  | liborc.mk liborc.STRUCT _ _ _ _ _ => true
  | _ => false
  end.

(** ** Arrays that need no normalisation *)

(** No struct with a null is met on the way [NormalizeArray] takes through
    an array: through the values of a list and the keys and items of a
    map. *)
Fixpoint no_null_struct (a : Array) {struct a} : bool :=
  match a with
  | PrimitiveArray _ _ _ _ | BinaryArray _ _ _ _ => true
  | StructArray _ n bm _ => bitmap_null_count bm n =? 0
  | ListArray _ _ _ _ values => no_null_struct values
  | MapArray _ _ _ _ keys items => no_null_struct keys && no_null_struct items
  end.

(** ** A file as an example *)

(** The type of a file with one column of 64-bit integers. *)
Definition example_file_type : liborc.Type_ :=
  liborc.createStructType [("x"%string, liborc.createPrimitiveType liborc.LONG)].



(** The root batch [createRowBatch] makes. *)
Definition example_root_batch (capacity : Z) : Batch :=
  StructVectorBatch (example_header capacity) [example_long_batch capacity].

(** A row reader that gives the batches [batches]. *)
Definition example_row_reader (batches : list Batch) : liborc_reader.RowReader :=
  liborc_reader.mkRowReader example_file_type
    (fun capacity => inr (example_root_batch capacity))
    batches (fun _ => inr batches).

(** A file of two stripes, of 3 and of 2 rows, whose row readers give
    [batches]. *)
Definition example_reader (batches : list Batch) : liborc_reader.Reader :=
  liborc_reader.mkReader
    [liborc_reader.Stripe.mk 3 100 3; liborc_reader.Stripe.mk 103 80 2]
    5 example_file_type ["writer"%string] (fun _ => "arrow"%string)
    (fun _ => inr (example_row_reader batches)).

(** The file reader [Open] makes for that file. *)
Definition example_impl (batches : list Batch) : ORCFileReader.Impl :=
  ORCFileReader.mkImpl (example_reader batches)
    [ORCFileReader.mkStripeInformation 3 100 3 0;
     ORCFileReader.mkStripeInformation 103 80 2 3]
    0.

(** The schema of the file. *)
Definition example_schema : SchemaOps.Schema :=
  SchemaOps.mk [("x"%string, arrow.INT64)] None.

(** A [Make] that gives the empty builder of the one column, and a
    [Flush] that finishes the builders into arrays. *)
Definition example_Make (schema : SchemaOps.Schema) (capacity : Z)
  : result (list ArrayBuilder) :=
  Ok [NumericBuilder arrow.INT64 [] []].

Definition example_Flush (builders : list ArrayBuilder) : result (list Array) :=
  Ok (map BuilderOps.Finish builders).

(** The batches [Write] adds for the table of the column
    [example_column], in batches of 2 rows. *)
Definition example_written : list Batch :=
  match Write_with (fun x => x) 2 (example_root_batch 2)
                   (mkTable 3 [example_column]) with
  | Ok batches => batches
  | _ => []
  end.

(** A file whose top-level type is a 64-bit integer. *)
Definition example_flat_reader : liborc_reader.Reader :=
  liborc_reader.mkReader
    [liborc_reader.Stripe.mk 3 100 3] 3 (liborc.createPrimitiveType liborc.LONG) []
    (fun _ => EmptyString)
    (fun _ =>
       inr (liborc_reader.mkRowReader (liborc.createPrimitiveType liborc.LONG)
              (fun capacity => inr (example_long_batch capacity)) []
              (fun _ => inr []))).

Set Implicit Arguments.

(** * Properties *)

(** ** Arithmetic *)

Lemma wrap_id (w x : Z) : 0 < w -> in_int w x -> wrap w x = x.
Proof.
  unfold wrap, in_int. intros Hw [Hlo Hhi].
  assert (E : 2 ^ w = 2 * 2 ^ (w - 1)).
  { replace w with (Z.succ (w - 1)) at 1 by lia. rewrite Z.pow_succ_r; lia. }
  rewrite Z.mod_small; lia.
Qed.

Lemma wrap_range (w x : Z) : 0 < w -> in_int w (wrap w x).
Proof.
  unfold wrap, in_int. intros Hw.
  assert (E : 2 ^ w = 2 * 2 ^ (w - 1)).
  { replace w with (Z.succ (w - 1)) at 1 by lia. rewrite Z.pow_succ_r; lia. }
  assert (0 < 2 ^ (w - 1)) by (apply Z.pow_pos_nonneg; lia).
  pose proof (Z.mod_pos_bound (x + 2 ^ (w - 1)) (2 ^ w)). lia.
Qed.

Lemma wrap_congr (w x y : Z) :
  0 < w -> x mod 2 ^ w = y mod 2 ^ w -> wrap w x = wrap w y.
Proof.
  unfold wrap. intros Hw E.
  rewrite <- (Zplus_mod_idemp_l x), <- (Zplus_mod_idemp_l y), E. reflexivity.
Qed.

Lemma wrap_mod (w x : Z) : 0 < w -> wrap w x mod 2 ^ w = x mod 2 ^ w.
Proof.
  unfold wrap. intros Hw.
  assert (0 < 2 ^ w) by (apply Z.pow_pos_nonneg; lia).
  rewrite <- Zminus_mod_idemp_l, Z.mod_mod by lia.
  rewrite Zminus_mod_idemp_l. f_equal. lia.
Qed.

Lemma int64_t_id (x : Z) : in_int 64 x -> int64_t x = x.
Proof. apply wrap_id. lia. Qed.

Lemma int64_to_double_small (x : Z) : Z.abs x < 2 ^ 53 -> int64_to_double x = x.
Proof.
  intros H. unfold int64_to_double.
  destruct (Z.ltb_spec (Z.abs x) (2 ^ 53)); [reflexivity | lia].
Qed.

(** ** Lists of indexes *)

Lemma zseq_length (s n : Z) : List.length (zseq s n) = Z.to_nat n.
Proof. unfold zseq. rewrite length_map, length_seq. reflexivity. Qed.

Lemma zseq_nil (s n : Z) : n <= 0 -> zseq s n = [].
Proof. intros H. unfold zseq. replace (Z.to_nat n) with O by lia. reflexivity. Qed.

Lemma zseq_cons (s n : Z) : 0 < n -> zseq s n = s :: zseq (s + 1) (n - 1).
Proof.
  intros H. unfold zseq.
  replace (Z.to_nat n) with (S (Z.to_nat (n - 1))) by lia.
  cbn [seq map]. f_equal; [lia |].
  rewrite <- seq_shift, map_map. apply map_ext. intros k. lia.
Qed.

Lemma zseq_snoc (s n : Z) : 0 <= n -> zseq s (n + 1) = zseq s n ++ [s + n].
Proof.
  intros H. unfold zseq.
  replace (Z.to_nat (n + 1)) with (Z.to_nat n + 1)%nat by lia.
  rewrite seq_app, map_app. cbn [seq map]. do 2 f_equal. lia.
Qed.

Lemma in_zseq (s n i : Z) : In i (zseq s n) <-> s <= i < s + n.
Proof.
  unfold zseq. rewrite in_map_iff. split.
  - intros (k & <- & Hk). apply in_seq in Hk. lia.
  - intros H. exists (Z.to_nat (i - s)). split; [lia |]. apply in_seq. lia.
Qed.

Lemma zth_zseq (s n i d : Z) : 0 <= i < n -> zth (zseq s n) i d = s + i.
Proof.
  intros H. unfold zth, zseq.
  rewrite nth_indep with (d' := s + Z.of_nat 0)
    by (rewrite length_map, length_seq; lia).
  rewrite (map_nth (fun k => s + Z.of_nat k)), seq_nth by lia. lia.
Qed.

(** ** The timestamp writer *)

(** For a value that is not negative and whose quotient a double holds
    exactly, the writer stores the floor pair the way the adapter intends. *)
Lemma timestamp_pair_nonneg (v f n : Z) :
  0 <= v -> 0 < f -> v / f < 2 ^ 53 -> in_int 64 v ->
  in_int 64 ((v - f * (v / f)) * n) ->
  timestamp_seconds v f = v / f
  /\ timestamp_nanoseconds v f n (v / f) = (v - f * (v / f)) * n.
Proof.
  intros Hv Hf Hq Hv64 Hn.
  assert (Hq0 : 0 <= v / f) by (apply Z.div_pos; lia).
  assert (Hle : f * (v / f) <= v) by (apply Z.mul_div_le; lia).
  unfold timestamp_seconds, timestamp_nanoseconds.
  rewrite Z.quot_div_nonneg by lia.
  rewrite int64_to_double_small by lia.
  unfold in_int in *.
  split.
  - apply int64_t_id. unfold in_int. lia.
  - rewrite (int64_t_id (x := f * (v / f))) by (unfold in_int; nia).
    rewrite (int64_t_id (x := v - f * (v / f))) by (unfold in_int; lia).
    apply int64_t_id. exact Hn.
Qed.

(** C4: at the millisecond value -1 the encode-path timestamp writer stores
    the pair (0, -1000000), the quotient truncated towards zero, whereas the
    floor pair of the claim is (-1, 999000000). *)
Theorem timestamp_writer_truncates_negative (float_to_double : Z -> Z) :
  let array := PrimitiveArray (arrow.TIMESTAMP arrow.MILLI) 1 None [-1] in
  let batch :=
    TimestampVectorBatch (mkBase 1 0 (fun _ => true) false)
                         (fun _ => 0) (fun _ => 0) in
  timestamp_at (WriteBatch float_to_double array 0 1 0 batch false) 0
  = Some (0, -1000000)
  /\ (-1) / kOneSecondMillis = -1
  /\ ((-1) - kOneSecondMillis * ((-1) / kOneSecondMillis)) * kOneMilliNanos
     = 999000000.
Proof. intros array batch. repeat split. Qed.

(** ** Decimal width *)

(** The DECIMAL128 case of [WriteBatch] casts the batch to the class its
    test selects. *)
Lemma WriteBatch_decimal (float_to_double : Z -> Z) (array : Array)
  (p s o n oo : Z) (b : Batch) (nz : bool) :
  ArrayOps.type array = arrow.DECIMAL128 p s ->
  WriteBatch float_to_double array o n oo b nz
  = WriteGenericBatch float_to_double
      (if encode_uses_wide p then Decimal128Class else Decimal64Class)
      array o n oo (BatchOps.set_numElements b oo).
Proof.
  intros E. destruct array; cbn in E; subst; cbn;
    destruct (encode_uses_wide p); reflexivity.
Qed.




(** ** The decode path for timestamps *)

(** C6: the timestamp appender appends, for each position of the range, the
    value seconds * 10^9 + nanoseconds (an [int64_t]), whatever the unit of
    the builder it is given; and [GetArrowType] maps every ORC timestamp to a
    timestamp of nanosecond unit. *)
Theorem timestamp_decode_nanoseconds (double_to_float : Z -> Z)
  (unit : arrow.TimeUnit) (h : ColumnVectorBatch) (seconds nanos : DataBuffer Z)
  (offset length : Z) (bm : list bool) (vs : list Z)
  (subtypes : list liborc.Type_) (names : list string) (ml p s : Z) :
  let type := liborc.mk liborc.TIMESTAMP subtypes names ml p s in
  AppendBatch double_to_float type (TimestampVectorBatch h seconds nanos)
              offset length (NumericBuilder (arrow.TIMESTAMP unit) bm vs)
  = Ok (NumericBuilder (arrow.TIMESTAMP unit)
          (bm ++ validity_of (Z.to_nat length) (valid_bytes h offset length))
          (vs ++ map (fun i => int64_t (seconds i * 10 ^ 9 + nanos i))
                     (zseq offset length)))
  /\ (forall i, in_int 64 (seconds i * 10 ^ 9 + nanos i) ->
        int64_t (seconds i * 10 ^ 9 + nanos i) = seconds i * 10 ^ 9 + nanos i)
  /\ GetArrowType type = Ok (arrow.TIMESTAMP arrow.NANO).
Proof.
  intros type. split; [| split; [intros i; apply int64_t_id | reflexivity]].
  cbn. destruct (Z.eqb_spec length 0) as [-> | Hne].
  - cbn. rewrite !app_nil_r.
    unfold valid_bytes. destruct (hasNulls h); cbn; rewrite ?app_nil_r; reflexivity.
  - cbn. rewrite length_map, zseq_length. do 2 f_equal.
    f_equal. apply map_ext. intros i.
    unfold int64_t, kOneSecondNanos. apply wrap_congr; [lia |].
    rewrite Zplus_mod, wrap_mod, <- Zplus_mod by lia. reflexivity.
Qed.

Lemma timestamp_decode_nanoseconds_witness :
  in_int 64 (3 * 10 ^ 9 + 5)
  /\ int64_t (3 * 10 ^ 9 + 5) = 3 * 10 ^ 9 + 5.
Proof.
  split; [unfold in_int; lia |].
  apply (proj1 (proj2 (timestamp_decode_nanoseconds (fun x => x) arrow.SECOND
           (mkBase 1 0 (fun _ => true) false) (fun _ => 3) (fun _ => 5)
           0 1 [] [] [] [] 0 0 0)) 0).
  unfold in_int; lia.
Defined.

(** ** Unsupported types *)

(** C9: for a type kind that is not a case label of its [switch],
    [AppendBatch] fails with NotImplemented and names the kind; for an Arrow
    type that is not a case label of its [switch], [WriteBatch] fails with
    Invalid and names the type.  Neither gives a value. *)
Theorem unsupported_types_fail (float_to_double double_to_float : Z -> Z) :
  (forall kind subtypes names ml p s batch offset length builder,
      decode_supported kind = false ->
      AppendBatch double_to_float (liborc.mk kind subtypes names ml p s)
                  batch offset length builder
      = Raise (arrow.mkStatus arrow.NotImplemented
                 [arrow.Text "Not implemented type kind: "; arrow.Kind kind]))
  /\ (forall array arrow_offset arrow_length orc_offset batch normalized,
         encode_supported (ArrayOps.type array) = false ->
         WriteBatch float_to_double array arrow_offset arrow_length orc_offset
                    batch normalized
         = Raise (arrow.mkStatus arrow.Invalid
                    [arrow.Text "Unknown or unsupported Arrow type: ";
                     arrow.TypeToString (ArrayOps.type array)])).
Proof.
  split.
  - intros kind subtypes names ml p s batch offset length builder H.
    destruct kind; try discriminate H; reflexivity.
  - intros array o n oo batch nz H.
    destruct array as [t ? ? ?|t ? ? ?|t ? ? ?|t ? ? ? ?|t ? ? ? ? ?];
      cbn [ArrayOps.type] in H;
      destruct t; try discriminate H; reflexivity.
Qed.

Lemma unsupported_types_fail_witness :
  decode_supported liborc.UNION = false
  /\ encode_supported arrow.UINT8 = false
  /\ AppendBatch (fun x => x) (liborc.createUnionType [])
       (LongVectorBatch (mkBase 1 0 (fun _ => true) false) (fun _ => 0))
       0 1 (NumericBuilder arrow.INT64 [] [])
     = Raise (arrow.mkStatus arrow.NotImplemented
                [arrow.Text "Not implemented type kind: ";
                 arrow.Kind liborc.UNION])
  /\ WriteBatch (fun x => x) (PrimitiveArray arrow.UINT8 1 None [7]) 0 1 0
       (LongVectorBatch (mkBase 1 0 (fun _ => true) false) (fun _ => 0)) false
     = Raise (arrow.mkStatus arrow.Invalid
                [arrow.Text "Unknown or unsupported Arrow type: ";
                 arrow.TypeToString arrow.UINT8]).
Proof.
  split; [reflexivity |]. split; [reflexivity |].
  pose proof (unsupported_types_fail (fun x => x) (fun x => x)) as [Hd He].
  split.
  - apply Hd. reflexivity.
  - apply (He (PrimitiveArray arrow.UINT8 1 None [7])). reflexivity.
Defined.

(** ** Union types *)






(** ** The chunked encoder *)

Lemma NormalizeArray_from_length (a : Array) (n : Z) (bm : option (list bool)) :
  ArrayOps.length (NormalizeArray_from a n bm) = n.
Proof.
  destruct a as [t ? ? ?|t ? ? ?|t ? ? ?|t ? ? ? ?|t ? ? ? ? ?]; cbn.
  - reflexivity.
  - reflexivity.
  - destruct t; try reflexivity. destruct bm; try reflexivity.
    destruct (_ =? 0); reflexivity.
  - destruct t; reflexivity.
  - destruct t; reflexivity.
Qed.

Lemma NormalizeArray_length (a : Array) :
  ArrayOps.length (NormalizeArray a) = ArrayOps.length a.
Proof. apply NormalizeArray_from_length. Qed.

Lemma chunks_length_nonneg (chunks : list Array) :
  Forall (fun a => 0 <= ArrayOps.length a) chunks -> 0 <= chunks_length chunks.
Proof. induction 1; unfold chunks_length in *; cbn [fold_right]; lia. Qed.

(** The loop writes [min(length - orc_offset, what is left of the chunks)]
    values and leaves the cursor that many values further. *)
Lemma WriteBatch_while_count (float_to_double : Z -> Z) (rest : list Array) :
  Forall (fun a => 0 <= ArrayOps.length a) rest ->
  forall b idx c len o b' idx' c' o',
    0 <= idx ->
    match rest with
    | a :: _ => idx <= ArrayOps.length a
    | [] => idx = 0
    end ->
    o <= len ->
    WriteBatch_while float_to_double rest b idx c len o = Ok (b', idx', c', o') ->
    o' - o = Z.min (len - o) (chunks_length rest - idx)
    /\ c <= c' /\ 0 <= idx'
    /\ match skipn (Z.to_nat (c' - c)) rest with
       | a :: _ => idx' <= ArrayOps.length a
       | [] => idx' = 0
       end
    /\ chunks_length (firstn (Z.to_nat (c' - c)) rest) + idx' = idx + (o' - o).
Proof.
  induction 1 as [| a rest Ha Hrest IH]; intros b idx c len o b' idx' c' o' Hidx Hin Ho E.
  - cbn in E. injection E as <- <- <- <-. subst idx.
    replace (c - c) with 0 by lia. cbn. lia.
  - pose proof (chunks_length_nonneg Hrest) as Hnn.
    cbn [WriteBatch_while] in E. rewrite NormalizeArray_length in E.
    cbn [chunks_length fold_right]. fold (chunks_length rest).
    destruct (Z.ltb_spec o len) as [Hlt | Hge].
    + set (n := Z.min (len - o) (ArrayOps.length a - idx)) in *.
      assert (Hn : 0 <= n) by lia.
      assert (exists b1,
                 (if 0 <? n
                  then
                    let '(o0, n0) := ArrayOps.Slice 0 (ArrayOps.length a) idx n in
                    b0 <- WriteBatch float_to_double (NormalizeArray a) o0 n0 o b false ;;
                    Ok (b0, idx + n, o + n)
                  else Ok (b, idx, o)) = Ok (b1, idx + n, o + n)
                 \/ False) as [b1 [E1 | []]].
      { destruct (Z.ltb_spec 0 n).
        - cbn [ArrayOps.Slice] in *.
          destruct (WriteBatch float_to_double (NormalizeArray a) _ _ o b false);
            cbn [bind] in *; try discriminate E.
          eexists; left; reflexivity.
        - exists b. left. do 3 f_equal; lia. }
      rewrite E1 in E. cbn [bind] in E.
      destruct (Z.ltb_spec (o + n) len) as [Hlt' | Hge'].
      * apply IH in E; [| lia | destruct rest; [reflexivity | inversion Hrest; lia] | lia].
        destruct E as (Ew & Hc & Hi' & Hsk & Hpos).
        replace (Z.to_nat (c' - c)) with (S (Z.to_nat (c' - (c + 1)))) by lia.
        cbn [skipn firstn chunks_length fold_right].
        fold (chunks_length (firstn (Z.to_nat (c' - (c + 1))) rest)).
        repeat split; try lia. exact Hsk.
      * injection E as <- <- <- <-.
        replace (c - c) with 0 by lia. cbn [Z.to_nat skipn firstn chunks_length fold_right].
        repeat split; lia.
    + injection E as <- <- <- <-.
      replace (c - c) with 0 by lia. cbn [Z.to_nat skipn firstn chunks_length fold_right].
      repeat split; lia.
Qed.

Lemma base_with_base (b : Batch) (h : ColumnVectorBatch) :
  BatchOps.base (BatchOps.with_base b h) = h.
Proof. destruct b; reflexivity. Qed.

Lemma rows_set_numElements (b : Batch) (n : Z) :
  rows (BatchOps.set_numElements b n) = n.
Proof. unfold rows, BatchOps.set_numElements. rewrite base_with_base. reflexivity. Qed.

Lemma chunks_length_app (l r : list Array) :
  chunks_length (l ++ r) = chunks_length l + chunks_length r.
Proof.
  induction l as [| a l IH]; [reflexivity |].
  cbn [app]. unfold chunks_length in *. cbn [fold_right]. lia.
Qed.

Lemma chunks_length_split (chunks : list Array) (n : nat) :
  chunks_length chunks
  = chunks_length (firstn n chunks) + chunks_length (skipn n chunks).
Proof. rewrite <- chunks_length_app, firstn_skipn. reflexivity. Qed.

(** The count the chunked [WriteBatch] stores into [numElements], and the
    cursor it leaves. *)
Lemma WriteBatch_chunked_count (float_to_double : Z -> Z)
  (chunks : list Array) (b : Batch) (idx c len : Z) (b' : Batch) (idx' c' : Z) :
  Forall (fun a => 0 <= ArrayOps.length a) chunks ->
  cursor_ok chunks c idx ->
  0 <= len ->
  WriteBatch_chunked float_to_double b idx c len chunks = Ok (b', idx', c') ->
  rows b' = Z.min len (chunks_length chunks - position chunks c idx)
  /\ cursor_ok chunks c' idx'
  /\ position chunks c' idx' = position chunks c idx + rows b'.
Proof.
  intros Hnn (Hc & Hidx & Hin) Hlen E.
  unfold WriteBatch_chunked in E.
  destruct (WriteBatch_while float_to_double (skipn (Z.to_nat c) chunks) b idx c len 0)
    as [[[[b1 idx1] c1] o1] | |] eqn:Ew; cbn [bind] in E; try discriminate E.
  injection E as <- <- <-.
  assert (Hnn' : Forall (fun a => 0 <= ArrayOps.length a) (skipn (Z.to_nat c) chunks)).
  { rewrite <- (firstn_skipn (Z.to_nat c) chunks) in Hnn.
    apply Forall_app in Hnn. apply Hnn. }
  apply WriteBatch_while_count in Ew; [| exact Hnn' | lia | exact Hin | lia].
  destruct Ew as (Ew & Hc1 & Hi1 & Hsk & Hpos).
  rewrite skipn_skipn in Hsk.
  replace (Z.to_nat (c1 - c) + Z.to_nat c)%nat with (Z.to_nat c1) in Hsk by lia.
  rewrite rows_set_numElements. unfold position, cursor_ok.
  rewrite (chunks_length_split chunks (Z.to_nat c)) at 1.
  assert (Hf : chunks_length (firstn (Z.to_nat c1) chunks)
               = chunks_length (firstn (Z.to_nat c) chunks)
                 + chunks_length (firstn (Z.to_nat (c1 - c)) (skipn (Z.to_nat c) chunks))).
  { rewrite <- chunks_length_app.
    rewrite <- (firstn_skipn (Z.to_nat c) chunks) at 1.
    rewrite firstn_app.
    pose proof (firstn_le_length (Z.to_nat c) chunks) as Hle.
    destruct (Nat.le_gt_cases (List.length chunks) (Z.to_nat c)) as [Hbig | Hsmall].
    - rewrite (skipn_all2 chunks) by exact Hbig.
      rewrite !firstn_nil, !app_nil_r.
      rewrite !firstn_all2; try reflexivity; try lia.
    - rewrite length_firstn, Nat.min_l by lia.
      rewrite firstn_firstn, Nat.min_r by lia.
      replace (Z.to_nat c1 - Z.to_nat c)%nat with (Z.to_nat (c1 - c)) by lia.
      reflexivity. }
  repeat split; try lia. exact Hsk.
Qed.

(** ** The writer loop *)

Lemma write_columns_first (float_to_double : Z -> Z) (batch_size : Z)
  (col : ChunkedArray) (cols : list ChunkedArray) (fields : list Batch)
  (ios cos : list Z) (fields' : list Batch) (ios' cos' : list Z) :
  write_columns float_to_double batch_size (col :: cols) fields ios cos
  = Ok (fields', ios', cos') ->
  exists field io co fs ixs cs field' io' co' fs' ixs' cs',
    fields = field :: fs /\ ios = io :: ixs /\ cos = co :: cs
    /\ WriteBatch_chunked float_to_double field io co batch_size col
       = Ok (field', io', co')
    /\ fields' = field' :: fs' /\ ios' = io' :: ixs' /\ cos' = co' :: cs'.
Proof.
  cbn [write_columns]. intros E.
  destruct fields as [| field fs]; [discriminate E |].
  destruct ios as [| io ixs]; [discriminate E |].
  destruct cos as [| co cs]; [discriminate E |].
  destruct (WriteBatch_chunked float_to_double field io co batch_size col)
    as [[[field' io'] co'] | |] eqn:Ew; cbn [bind] in E; try discriminate E.
  destruct (write_columns float_to_double batch_size cols fs ixs cs)
    as [[[fs' ixs'] cs'] | |]; cbn [bind] in E; try discriminate E.
  injection E as <- <- <-.
  exists field, io, co, fs, ixs, cs, field', io', co', fs', ixs', cs'.
  repeat split; try reflexivity. exact Ew.
Qed.

(** One round of the loop adds one batch whose row count ixs that of the
    first column, and leaves a struct batch as the root. *)
Lemma Write_body_first (float_to_double : Z -> Z) (batch_size : Z)
  (col : ChunkedArray) (cols : list ChunkedArray) (st st' : WriterState) :
  Write_body float_to_double batch_size (col :: cols) st = Ok st' ->
  exists h field fs io ixs co cs field' io' ixs' co' cs' added1,
    root st = StructVectorBatch h (field :: fs)
    /\ arrow_index_offset st = io :: ixs /\ arrow_chunk_offset st = co :: cs
    /\ WriteBatch_chunked float_to_double field io co batch_size col
       = Ok (field', io', co')
    /\ arrow_index_offset st' = io' :: ixs' /\ arrow_chunk_offset st' = co' :: cs'
    /\ added st' = added1 :: added st /\ rows added1 = rows field'.
Proof.
  unfold Write_body. intros E.
  destruct (root st) as [| | | | | | h fields | |] eqn:Er; try discriminate E.
  destruct (write_columns float_to_double batch_size (col :: cols) fields
              (arrow_index_offset st) (arrow_chunk_offset st))
    as [[[fields' ios'] cos'] | |] eqn:Ec; cbn [bind] in E; try discriminate E.
  apply write_columns_first in Ec.
  destruct Ec as (field & io & co & fs & ixs & cs & field' & io' & co' & fs' & ixs'
                  & cs' & -> & Eio & Eco & Ew & -> & -> & ->).
  injection E as <-. cbn.
  exists h, field, fs, io, ixs, co, cs, field', io', ixs', co', cs'.
  eexists. repeat split; try eassumption; try reflexivity.
Qed.

Lemma ceil_step (nr C : Z) :
  0 < nr -> 0 < C ->
  (Z.max nr 0 + C - 1) / C = 1 + (Z.max (nr - C) 0 + C - 1) / C.
Proof.
  intros Hn HC. rewrite (Z.max_l nr 0) by lia.
  destruct (Z.le_gt_cases nr C) as [Hle | Hgt].
  - rewrite (Z.max_r (nr - C) 0) by lia.
    rewrite (Z.div_small (0 + C - 1)) by lia.
    replace (nr + C - 1) with ((nr - 1) + 1 * C) by lia.
    rewrite Z.div_add, Z.div_small by lia. lia.
  - rewrite (Z.max_l (nr - C) 0) by lia.
    replace (nr + C - 1) with ((nr - C + C - 1) + 1 * C) by lia.
    rewrite Z.div_add by lia. lia.
Qed.

(** The loop, one round unfolded. *)
Lemma Write_loop_round (float_to_double : Z -> Z) (batch_size : Z)
  (cols : list ChunkedArray) (numRows : Z) (st : WriterState) :
  Write_loop float_to_double batch_size cols numRows st
  = if Z_lt_dec 0 numRows then
      if Z_lt_dec 0 batch_size then
        st' <- Write_body float_to_double batch_size cols st ;;
        Write_loop float_to_double batch_size cols (numRows - batch_size) st'
      else Undefined
    else Ok st.
Proof.
  rewrite Write_loop_equation_1.
  destruct (Z_lt_dec 0 numRows); cbn; [| reflexivity].
  destruct (Z_lt_dec 0 batch_size); cbn; [| reflexivity].
  destruct (Write_body float_to_double batch_size cols st); reflexivity.
Qed.

(** The batches one run of the loop adds: [ceil(numRows / batch_size)] of
    them, batch [k] with [min(batch_size, numRows - k * batch_size)] rows,
    [numRows] rows in all, when the first column has [numRows] values left. *)
Lemma Write_loop_rows (float_to_double : Z -> Z) (batch_size : Z)
  (col : ChunkedArray) (cols' : list ChunkedArray) :
  0 < batch_size ->
  Forall (fun a => 0 <= ArrayOps.length a) col ->
  forall (m : nat) (numRows : Z) (st st' : WriterState) io ixs co cs,
    (Z.to_nat numRows <= m)%nat ->
    arrow_index_offset st = io :: ixs ->
    arrow_chunk_offset st = co :: cs ->
    cursor_ok col co io ->
    chunks_length col - position col co io = Z.max numRows 0 ->
    Write_loop float_to_double batch_size (col :: cols') numRows st = Ok st' ->
    exists new,
      added st' = rev new ++ added st
      /\ Z.of_nat (List.length new) = (Z.max numRows 0 + batch_size - 1) / batch_size
      /\ total_rows new = Z.max numRows 0
      /\ forall k d, 0 <= k < Z.of_nat (List.length new) ->
           rows (zth new k d) = Z.min batch_size (numRows - k * batch_size).
Proof.
  intros HC Hnn.
  induction m as [| m IH]; intros numRows st st' io ixs co cs Hm Hio Hco Hcur Hrem E;
    rewrite Write_loop_round in E;
    (destruct (Z_lt_dec 0 numRows) as [Hpos | Hneg];
     [| injection E as <-; exists []; cbn;
        rewrite Z.max_r by lia; rewrite Z.div_small by lia;
        repeat split; try reflexivity; intros k d Hk; lia]).
  - lia.
  - destruct (Z_lt_dec 0 batch_size) as [_ | Hb]; [| lia].
    destruct (Write_body float_to_double batch_size (col :: cols') st)
      as [st1 | |] eqn:Hbody; cbn [bind] in E; try discriminate E.
    apply Write_body_first in Hbody.
    destruct Hbody as (h & field & fs & io0 & ixs0 & co0 & cs0 & field' & io' & ixs'
                       & co' & cs' & added1 & Hroot & Hio0 & Hco0 & Hw & Hio' & Hco'
                       & Hadd & Hrows).
    rewrite Hio in Hio0. injection Hio0 as <- <-.
    rewrite Hco in Hco0. injection Hco0 as <- <-.
    apply WriteBatch_chunked_count in Hw; [| exact Hnn | exact Hcur | lia].
    destruct Hw as (Hr & Hcur' & Hpos').
    destruct (IH (numRows - batch_size) st1 st' io' ixs' co' cs')
      as (new & Ha & Hl & Ht & Hk); try assumption; try lia.
    exists (added1 :: new).
    rewrite Ha, Hadd. cbn [rev List.length total_rows fold_right].
    fold (total_rows new).
    rewrite <- app_assoc. cbn [app].
    split; [reflexivity |].
    split; [rewrite ceil_step by lia; lia |].
    split; [lia |].
    intros k d Hkr.
    destruct (Z.eq_dec k 0) as [-> | Hk0].
    + cbn. lia.
    + unfold zth. replace (Z.to_nat k) with (S (Z.to_nat (k - 1))) by lia.
      cbn [nth]. fold (zth new (k - 1) d). rewrite Hk by lia. lia.
Qed.

(** ** Results and loops *)

Lemma bind_Ok {A B} (r : result A) (k : A -> result B) (b : B) :
  bind r k = Ok b -> exists a, r = Ok a /\ k a = Ok b.
Proof. destruct r; cbn; intros E; try discriminate E. eauto. Qed.

Ltac bind_inv H :=
  let a := fresh "x" in
  let E := fresh "E" in
  apply bind_Ok in H; destruct H as (a & E & H).

Lemma for_loop_step {S} (n : nat) (i : Z) (body : Z -> S -> result S) (s : S) :
  for_loop (Datatypes.S n) i body s
  = s' <- body i s ;; for_loop n (i + 1) body s'.
Proof. reflexivity. Qed.

Lemma for_loop_S {S} (n : nat) (i : Z) (body : Z -> S -> result S) (s : S) :
  for_loop (Datatypes.S n) i body s
  = s' <- for_loop n i body s ;; body (i + Z.of_nat n) s'.
Proof.
  revert i s. induction n as [| n IH]; intros i s.
  - cbn. replace (i + 0) with i by lia. destruct (body i s); reflexivity.
  - rewrite for_loop_step. rewrite (for_loop_step n i).
    destruct (body i s) as [s1 | |]; cbn [bind]; try reflexivity.
    rewrite IH. replace (i + 1 + Z.of_nat n) with (i + Z.of_nat (Datatypes.S n)) by lia.
    reflexivity.
Qed.

(** A loop invariant: [P j s] holds before the round of index [j]. *)
Lemma for_loop_invariant {S} (P : Z -> S -> Prop) (body : Z -> S -> result S)
  (n : nat) (i : Z) (s s' : S) :
  P i s ->
  (forall j s0 s1, i <= j < i + Z.of_nat n -> P j s0 -> body j s0 = Ok s1 ->
                   P (j + 1) s1) ->
  for_loop n i body s = Ok s' ->
  P (i + Z.of_nat n) s'.
Proof.
  revert i s. induction n as [| n IH]; intros i s H0 Hstep E.
  - cbn in E. injection E as <-. replace (i + Z.of_nat 0) with i by lia. exact H0.
  - cbn [for_loop] in E. bind_inv E.
    replace (i + Z.of_nat (Datatypes.S n)) with (i + 1 + Z.of_nat n) by lia.
    apply (IH (i + 1) x).
    + apply (Hstep i s); [lia | exact H0 | exact E0].
    + intros j s0 s1 Hj. apply Hstep. lia.
    + exact E.
Qed.

(** ** The decode of lists and maps *)

Lemma zseq_of_nat_S (i : Z) (n : nat) :
  zseq i (Z.of_nat (S n)) = i :: zseq (i + 1) (Z.of_nat n).
Proof.
  rewrite zseq_cons by lia. do 2 f_equal. lia.
Qed.

Lemma zseq_to_nat (i n : Z) : zseq i (Z.of_nat (Z.to_nat n)) = zseq i n.
Proof. unfold zseq. rewrite Nat2Z.id. reflexivity. Qed.

Section ListDecode.

Variable rec : liborc.Type_ -> Batch -> Z -> Z -> ArrayBuilder -> result ArrayBuilder.

Lemma AppendListBatch_loop_spec (elemtype : liborc.Type_) (elements : Batch)
  (h : ColumnVectorBatch) (offs : DataBuffer Z) (t : arrow.DataType) (n : nat) :
  forall i bm o vb,
    for_loop n i
      (fun i builder =>
         if negb (hasNulls h) || notNull h i then
           let start := offs i in
           let end_ := offs (i + 1) in
           builder <- Append_slot builder true ;;
           match builder with
           | ListBuilder t bm o value_builder =>
               value_builder <- rec elemtype elements start (end_ - start)
                                    value_builder ;;
               Ok (ListBuilder t bm o value_builder)
           | _ => Undefined
           end
         else AppendNull builder)
      (ListBuilder t bm o vb)
    = r <- list_decode_spec (rec elemtype elements) h offs
             (zseq i (Z.of_nat n)) bm o vb ;;
      let '(bm', o', vb') := r in Ok (ListBuilder t bm' o' vb').
Proof.
  induction n as [| n IH]; intros i bm o vb.
  - reflexivity.
  - rewrite for_loop_step, zseq_of_nat_S. cbn [list_decode_spec].
    unfold position_valid.
    destruct (negb (hasNulls h) || notNull h i); cbn [Append_slot AppendNull bind].
    + destruct (rec elemtype elements (offs i) (offs (i + 1) - offs i) vb);
        cbn [bind]; try reflexivity.
      apply IH.
    + apply IH.
Qed.

Lemma AppendMapBatch_loop_spec (key_type item_type : liborc.Type_)
  (keys items : Batch) (h : ColumnVectorBatch) (offs : DataBuffer Z)
  (t : arrow.DataType) (n : nat) :
  forall i bm o kb ib,
    for_loop n i
      (fun i builder =>
         if negb (hasNulls h) || notNull h i then
           let start := offs i in
           let end_ := offs (i + 1) in
           builder <- Append_slot builder true ;;
           match builder with
           | MapBuilder t bm o key_builder item_builder =>
               key_builder <- rec key_type keys start (end_ - start) key_builder ;;
               item_builder <- rec item_type items start (end_ - start)
                                   item_builder ;;
               Ok (MapBuilder t bm o key_builder item_builder)
           | _ => Undefined
           end
         else AppendNull builder)
      (MapBuilder t bm o kb ib)
    = r <- map_decode_spec (rec key_type keys) (rec item_type items) h offs
             (zseq i (Z.of_nat n)) bm o kb ib ;;
      let '(bm', o', kb', ib') := r in Ok (MapBuilder t bm' o' kb' ib').
Proof.
  induction n as [| n IH]; intros i bm o kb ib.
  - reflexivity.
  - rewrite for_loop_step, zseq_of_nat_S. cbn [map_decode_spec].
    unfold position_valid.
    destruct (negb (hasNulls h) || notNull h i); cbn [Append_slot AppendNull bind].
    + destruct (rec key_type keys (offs i) (offs (i + 1) - offs i) kb);
        cbn [bind]; try reflexivity.
      destruct (rec item_type items (offs i) (offs (i + 1) - offs i) ib);
        cbn [bind]; try reflexivity.
      apply IH.
    + apply IH.
Qed.

End ListDecode.

(** What the specification's fold does to the slots: one slot for each
    position, valid exactly at the valid positions, and a child builder that
    null positions leave alone. *)
Lemma list_decode_spec_slots
  (child_append : Z -> Z -> ArrayBuilder -> result ArrayBuilder)
  (h : ColumnVectorBatch) (offs : DataBuffer Z) (positions : list Z) :
  forall bm offsets child bm' offsets' child',
    list_decode_spec child_append h offs positions bm offsets child
    = Ok (bm', offsets', child') ->
    bm' = bm ++ map (position_valid h) positions
    /\ List.length offsets' = (List.length offsets + List.length positions)%nat
    /\ (Forall (fun i => position_valid h i = false) positions -> child' = child).
Proof.
  induction positions as [| i rest IH]; intros bm offsets child bm' offsets' child' E.
  - cbn in E. injection E as <- <- <-. cbn. rewrite app_nil_r. auto.
  - cbn [list_decode_spec] in E. destruct (position_valid h i) eqn:Ev.
    + bind_inv E. apply IH in E.
      destruct E as (-> & Hl & Hc). rewrite <- app_assoc. cbn [map app]. rewrite Ev.
      split; [reflexivity |]. split.
      * rewrite Hl, length_app. cbn. lia.
      * intros Hall. inversion Hall; subst. congruence.
    + apply IH in E.
      destruct E as (-> & Hl & Hc). rewrite <- app_assoc. cbn [map app]. rewrite Ev.
      split; [reflexivity |]. split.
      * rewrite Hl, length_app. cbn. lia.
      * intros Hall. inversion Hall; subst. auto.
Qed.

Lemma map_decode_spec_slots
  (key_append item_append : Z -> Z -> ArrayBuilder -> result ArrayBuilder)
  (h : ColumnVectorBatch) (offs : DataBuffer Z) (positions : list Z) :
  forall bm offsets keys items bm' offsets' keys' items',
    map_decode_spec key_append item_append h offs positions bm offsets keys items
    = Ok (bm', offsets', keys', items') ->
    bm' = bm ++ map (position_valid h) positions
    /\ List.length offsets' = (List.length offsets + List.length positions)%nat
    /\ (Forall (fun i => position_valid h i = false) positions ->
        keys' = keys /\ items' = items).
Proof.
  induction positions as [| i rest IH];
    intros bm offsets keys items bm' offsets' keys' items' E.
  - cbn in E. injection E as <- <- <- <-. cbn. rewrite app_nil_r. auto.
  - cbn [map_decode_spec] in E. destruct (position_valid h i) eqn:Ev.
    + bind_inv E. bind_inv E. apply IH in E.
      destruct E as (-> & Hl & Hc). rewrite <- app_assoc. cbn [map app]. rewrite Ev.
      split; [reflexivity |]. split.
      * rewrite Hl, length_app. cbn. lia.
      * intros Hall. inversion Hall; subst. congruence.
    + apply IH in E.
      destruct E as (-> & Hl & Hc). rewrite <- app_assoc. cbn [map app]. rewrite Ev.
      split; [reflexivity |]. split.
      * rewrite Hl, length_app. cbn. lia.
      * intros Hall. inversion Hall; subst. auto.
Qed.

(** C7: the list decoder and the map decoder of [AppendBatch] are the fold
    of the specification over the positions [offset, offset + length): at a
    valid position one slot is opened and the child appender runs over
    [offsets[i], offsets[i+1]); at a null position one null slot is appended
    and the child builders are not touched.  They add exactly one slot for
    each position. *)
Theorem list_map_decode_follows_spec (double_to_float : Z -> Z)
  (h : ColumnVectorBatch) (offs : DataBuffer Z) (offset length : Z)
  (t : arrow.DataType) (bm : list bool) (o : list Z)
  (names : list string) (ml p s : Z) :
  (forall elemtype subtypes elements vb,
      AppendBatch double_to_float
        (liborc.mk liborc.LIST (elemtype :: subtypes) names ml p s)
        (ListVectorBatch h offs elements) offset length (ListBuilder t bm o vb)
      = r <- list_decode_spec (AppendBatch double_to_float elemtype elements)
               h offs (zseq offset length) bm o vb ;;
        let '(bm', o', vb') := r in Ok (ListBuilder t bm' o' vb'))
  /\ (forall key_type item_type subtypes keys items kb ib,
         AppendBatch double_to_float
           (liborc.mk liborc.MAP (key_type :: item_type :: subtypes) names ml p s)
           (MapVectorBatch h offs keys items) offset length
           (MapBuilder t bm o kb ib)
         = r <- map_decode_spec (AppendBatch double_to_float key_type keys)
                  (AppendBatch double_to_float item_type items)
                  h offs (zseq offset length) bm o kb ib ;;
           let '(bm', o', kb', ib') := r in Ok (MapBuilder t bm' o' kb' ib'))
  /\ (forall child_append vb bm' o' vb',
         list_decode_spec child_append h offs (zseq offset length) bm o vb
         = Ok (bm', o', vb') ->
         bm' = bm ++ map (position_valid h) (zseq offset length)
         /\ List.length o' = (List.length o + Z.to_nat length)%nat
         /\ (Forall (fun i => position_valid h i = false) (zseq offset length) ->
             vb' = vb))
  /\ (forall key_append item_append kb ib bm' o' kb' ib',
         map_decode_spec key_append item_append h offs (zseq offset length)
                         bm o kb ib
         = Ok (bm', o', kb', ib') ->
         bm' = bm ++ map (position_valid h) (zseq offset length)
         /\ List.length o' = (List.length o + Z.to_nat length)%nat
         /\ (Forall (fun i => position_valid h i = false) (zseq offset length) ->
             kb' = kb /\ ib' = ib)).
Proof.
  split; [| split; [| split]].
  - intros elemtype subtypes elements vb. cbn [AppendBatch AppendListBatch].
    rewrite <- (zseq_to_nat offset length). apply AppendListBatch_loop_spec.
  - intros key_type item_type subtypes keys items kb ib.
    cbn [AppendBatch AppendMapBatch].
    rewrite <- (zseq_to_nat offset length). apply AppendMapBatch_loop_spec.
  - intros child_append vb bm' o' vb' E.
    apply list_decode_spec_slots in E. rewrite zseq_length in E. exact E.
  - intros key_append item_append kb ib bm' o' kb' ib' E.
    apply map_decode_spec_slots in E. rewrite zseq_length in E. exact E.
Qed.

(** ** The offsets a list or map write leaves *)

Lemma checked_cast_Ok (c : BatchClass) (b b' : Batch) :
  BatchOps.checked_cast c b = Ok b' -> b' = b /\ BatchOps.class b = c.
Proof.
  unfold BatchOps.checked_cast. destruct (BatchOps.class_eqb (BatchOps.class b) c) eqn:E;
    intros H; [| discriminate H].
  injection H as <-. split; [reflexivity |].
  destruct (BatchOps.class b), c; try discriminate E; reflexivity.
Qed.

Lemma get_offset_with_base (b : Batch) (h : ColumnVectorBatch) (j : Z) :
  get_offset (BatchOps.with_base b h) j = get_offset b j.
Proof. destruct b; reflexivity. Qed.

Lemma class_with_base (b : Batch) (h : ColumnVectorBatch) :
  BatchOps.class (BatchOps.with_base b h) = BatchOps.class b.
Proof. destruct b; reflexivity. Qed.

Lemma set_notNull_Ok (b b' : Batch) (i : Z) (v : bool) :
  BatchOps.set_notNull b i v = Ok b' ->
  0 <= i < capacity (BatchOps.base b)
  /\ b' = BatchOps.with_base b
            (mkBase (capacity (BatchOps.base b)) (numElements (BatchOps.base b))
                    (upd (notNull (BatchOps.base b)) i v)
                    (hasNulls (BatchOps.base b))).
Proof.
  unfold BatchOps.set_notNull, BatchOps.in_capacity.
  destruct (Z.leb_spec 0 i); destruct (Z.ltb_spec i (capacity (BatchOps.base b)));
    cbn; intros E; try discriminate E.
  injection E as <-. split; [lia | reflexivity].
Qed.

Lemma get_offset_set_notNull (b b' : Batch) (i : Z) (v : bool) (j : Z) :
  BatchOps.set_notNull b i v = Ok b' -> get_offset b' j = get_offset b j.
Proof.
  intros H. apply set_notNull_Ok in H. destruct H as [_ ->].
  apply get_offset_with_base.
Qed.

Lemma get_offset_set_offset (b b' : Batch) (i v j : Z) :
  set_offset b i v = Ok b' ->
  get_offset b' j = if j =? i then v else get_offset b j.
Proof.
  unfold set_offset.
  destruct ((0 <=? i) && (i <=? capacity (BatchOps.base b))); [| discriminate].
  destruct b; intros H; try discriminate H; injection H as <-; reflexivity.
Qed.

Lemma get_offset_mark_hasNulls (array : Array) (o n : Z) (b : Batch) (j : Z) :
  get_offset (mark_hasNulls array o n b) j = get_offset b j.
Proof.
  unfold mark_hasNulls. destruct (_ =? 0); [reflexivity |].
  apply get_offset_with_base.
Qed.

Lemma offsets_written_step (array : Array) (arrow_offset orc_offset k : Z)
  (b b1 : Batch) (v : Z) :
  0 <= k -> 0 <= orc_offset ->
  offsets_written array arrow_offset orc_offset k b ->
  (forall j, j <> orc_offset + k + 1 -> get_offset b1 j = get_offset b j) ->
  get_offset b1 (orc_offset + k + 1) = get_offset b (orc_offset + k) + v ->
  0 <= v ->
  (ArrayOps.IsNull array (arrow_offset + k) = true -> v = 0) ->
  offsets_written array arrow_offset orc_offset (k + 1) b1.
Proof.
  intros Hk Ho [H0 Hj] Hsame Hnew Hv Hnull. split.
  - intros ->. rewrite Hsame by lia. auto.
  - intros j Hjk. destruct (Z.eq_dec j k) as [-> | Hne].
    + rewrite Hnew, (Hsame (orc_offset + k)) by lia. split; [lia |].
      intros Hn. rewrite (Hnull Hn). lia.
    + rewrite !Hsame by lia. apply Hj. lia.
Qed.

Section ListOffsets.

Variable rec : Array -> Z -> Z -> Z -> Batch -> bool -> result Batch.

Lemma WriteListBatch_offsets (array : Array) (arrow_offset arrow_length : Z)
  (orc_offset : Z) (b b' : Batch) :
  0 <= orc_offset ->
  (forall k, 0 <= k < arrow_length ->
     ArrayOps.value_offset array (arrow_offset + k)
     <= ArrayOps.value_offset array (arrow_offset + k + 1)) ->
  WriteListBatch rec array arrow_offset arrow_length orc_offset b = Ok b' ->
  offsets_written array arrow_offset orc_offset (Z.max arrow_length 0) b'.
Proof.
  intros Ho Hmono E. unfold WriteListBatch in E.
  destruct array as [| | | t len bm offs values |]; try discriminate E.
  set (array := ListArray t len bm offs values) in *.
  bind_inv E. apply checked_cast_Ok in E0. destruct E0 as [-> _].
  bind_inv E.
  replace (Z.max arrow_length 0) with (0 + Z.of_nat (Z.to_nat arrow_length)) by lia.
  revert E. apply for_loop_invariant.
  - split; [| intros j Hj; lia].
    intros ->. rewrite get_offset_mark_hasNulls. cbn [Z.eqb] in E0.
    rewrite (get_offset_set_offset _ _ _ 0 E0). reflexivity.
  - intros k b0 b1 Hk Hinv Hbody.
    destruct (ArrayOps.IsNull array (arrow_offset + k)) eqn:Hnull.
    + bind_inv Hbody.
      assert (Hsame : forall j, j <> orc_offset + k + 1 ->
                                get_offset b1 j = get_offset b0 j).
      { intros j Hj. rewrite (get_offset_set_offset _ _ _ j Hbody).
        destruct (Z.eqb_spec j (orc_offset + k + 1)); [lia |].
        apply (get_offset_set_notNull _ _ _ _ E). }
      assert (Hnew : get_offset b1 (orc_offset + k + 1)
                     = get_offset b0 (orc_offset + k) + 0).
      { rewrite (get_offset_set_offset _ _ _ _ Hbody), Z.eqb_refl.
        rewrite (get_offset_set_notNull _ _ _ _ E). lia. }
      apply (@offsets_written_step _ _ _ _ _ _ _ (proj1 Hk) Ho Hinv Hsame Hnew); [lia | reflexivity].
    + bind_inv Hbody. bind_inv Hbody.
      assert (Hoff : forall j, get_offset b1 j = get_offset x1 j).
      { destruct x1; try discriminate Hbody.
        cbn [ArrayOps.Slice] in Hbody. bind_inv Hbody. injection Hbody as <-.
        reflexivity. }
      assert (Hsame : forall j, j <> orc_offset + k + 1 ->
                                get_offset b1 j = get_offset b0 j).
      { intros j Hj. rewrite Hoff, (get_offset_set_offset _ _ _ j E1).
        destruct (Z.eqb_spec j (orc_offset + k + 1)); [lia |].
        apply (get_offset_set_notNull _ _ _ _ E). }
      assert (Hnew : get_offset b1 (orc_offset + k + 1)
                     = get_offset b0 (orc_offset + k)
                       + (ArrayOps.value_offset array (arrow_offset + k + 1)
                          - ArrayOps.value_offset array (arrow_offset + k))).
      { rewrite Hoff, (get_offset_set_offset _ _ _ _ E1), Z.eqb_refl.
        rewrite (get_offset_set_notNull _ _ _ _ E). lia. }
      apply (@offsets_written_step _ _ _ _ _ _ _ (proj1 Hk) Ho Hinv Hsame Hnew).
      * specialize (Hmono k). lia.
      * intros Hn. rewrite Hn in Hnull. discriminate Hnull.
Qed.

Lemma WriteMapBatch_offsets (array : Array) (arrow_offset arrow_length : Z)
  (orc_offset : Z) (b b' : Batch) :
  0 <= orc_offset ->
  (forall k, 0 <= k < arrow_length ->
     ArrayOps.value_offset array (arrow_offset + k)
     <= ArrayOps.value_offset array (arrow_offset + k + 1)) ->
  WriteMapBatch rec array arrow_offset arrow_length orc_offset b = Ok b' ->
  offsets_written array arrow_offset orc_offset (Z.max arrow_length 0) b'.
Proof.
  intros Ho Hmono E. unfold WriteMapBatch in E.
  destruct array as [| | | | t len bm offs keys items]; try discriminate E.
  set (array := MapArray t len bm offs keys items) in *.
  bind_inv E. apply checked_cast_Ok in E0. destruct E0 as [-> _].
  bind_inv E.
  replace (Z.max arrow_length 0) with (0 + Z.of_nat (Z.to_nat arrow_length)) by lia.
  revert E. apply for_loop_invariant.
  - split; [| intros j Hj; lia].
    intros ->. rewrite get_offset_mark_hasNulls. cbn [Z.eqb] in E0.
    rewrite (get_offset_set_offset _ _ _ 0 E0). reflexivity.
  - intros k b0 b1 Hk Hinv Hbody.
    destruct (ArrayOps.IsNull array (arrow_offset + k)) eqn:Hnull.
    + bind_inv Hbody.
      assert (Hsame : forall j, j <> orc_offset + k + 1 ->
                                get_offset b1 j = get_offset b0 j).
      { intros j Hj. rewrite (get_offset_set_offset _ _ _ j Hbody).
        destruct (Z.eqb_spec j (orc_offset + k + 1)); [lia |].
        apply (get_offset_set_notNull _ _ _ _ E). }
      assert (Hnew : get_offset b1 (orc_offset + k + 1)
                     = get_offset b0 (orc_offset + k) + 0).
      { rewrite (get_offset_set_offset _ _ _ _ Hbody), Z.eqb_refl.
        rewrite (get_offset_set_notNull _ _ _ _ E). lia. }
      apply (@offsets_written_step _ _ _ _ _ _ _ (proj1 Hk) Ho Hinv Hsame Hnew); [lia | reflexivity].
    + bind_inv Hbody. bind_inv Hbody.
      assert (Hoff : forall j, get_offset b1 j = get_offset x1 j).
      { destruct x1; try discriminate Hbody.
        cbn [ArrayOps.Slice] in Hbody. bind_inv Hbody. bind_inv Hbody.
        injection Hbody as <-. reflexivity. }
      assert (Hsame : forall j, j <> orc_offset + k + 1 ->
                                get_offset b1 j = get_offset b0 j).
      { intros j Hj. rewrite Hoff, (get_offset_set_offset _ _ _ j E1).
        destruct (Z.eqb_spec j (orc_offset + k + 1)); [lia |].
        apply (get_offset_set_notNull _ _ _ _ E). }
      assert (Hnew : get_offset b1 (orc_offset + k + 1)
                     = get_offset b0 (orc_offset + k)
                       + (ArrayOps.value_offset array (arrow_offset + k + 1)
                          - ArrayOps.value_offset array (arrow_offset + k))).
      { rewrite Hoff, (get_offset_set_offset _ _ _ _ E1), Z.eqb_refl.
        rewrite (get_offset_set_notNull _ _ _ _ E). lia. }
      apply (@offsets_written_step _ _ _ _ _ _ _ (proj1 Hk) Ho Hinv Hsame Hnew).
      * specialize (Hmono k). lia.
      * intros Hn. rewrite Hn in Hnull. discriminate Hnull.
Qed.

End ListOffsets.

(** C8: after a list or map write that starts at [orc_offset], the offsets
    of the batch do not decrease over the written range, a null position
    repeats the offset before it, and [offsets[0]] is 0 when the write is the
    first one into the batch ([orc_offset = 0]).  The offsets of the source
    array do not decrease, as Arrow requires of an array. *)
Theorem list_map_offsets_monotone (float_to_double : Z -> Z) (array : Array)
  (arrow_offset arrow_length orc_offset : Z) (b b' : Batch) (normalized : bool) :
  is_list_or_map (ArrayOps.type array) = true ->
  0 <= orc_offset ->
  (forall k, 0 <= k < arrow_length ->
     ArrayOps.value_offset array (arrow_offset + k)
     <= ArrayOps.value_offset array (arrow_offset + k + 1)) ->
  WriteBatch float_to_double array arrow_offset arrow_length orc_offset b normalized
  = Ok b' ->
  (orc_offset = 0 -> get_offset b' 0 = 0)
  /\ forall k, 0 <= k < arrow_length ->
       get_offset b' (orc_offset + k) <= get_offset b' (orc_offset + k + 1)
       /\ (ArrayOps.IsNull array (arrow_offset + k) = true ->
           get_offset b' (orc_offset + k + 1) = get_offset b' (orc_offset + k)).
Proof.
  intros Ht Ho Hmono E.
  assert (H : offsets_written array arrow_offset orc_offset (Z.max arrow_length 0) b').
  { destruct array as [t ? ? ?|t ? ? ?|t ? ? ?|t ? ? ? ?|t ? ? ? ? ?];
      cbn [ArrayOps.type] in Ht; destruct t; try discriminate Ht;
      cbn [WriteBatch ArrayOps.type] in E;
      try discriminate E;
      first [ eapply WriteListBatch_offsets; eassumption
            | eapply WriteMapBatch_offsets; eassumption ]. }
  destruct H as [H0 Hk]. split; [exact H0 |].
  intros k Hkr. apply Hk. lia.
Qed.

(** * The encoder against the decoder *)

Unset Implicit Arguments.

(** ** Induction over nested arrays and types *)

Lemma Array_induction (P : Array -> Prop) :
  (forall t n bm vs, P (PrimitiveArray t n bm vs)) ->
  (forall t n bm vs, P (BinaryArray t n bm vs)) ->
  (forall t n bm children, Forall P children -> P (StructArray t n bm children)) ->
  (forall t n bm offs values, P values -> P (ListArray t n bm offs values)) ->
  (forall t n bm offs keys items,
      P keys -> P items -> P (MapArray t n bm offs keys items)) ->
  forall a, P a.
Proof.
  intros Hp Hb Hs Hl Hm. fix IH 1. intros [t n bm vs|t n bm vs|t n bm cs|t n bm o v|t n bm o k i].
  - apply Hp.
  - apply Hb.
  - apply Hs. induction cs as [| c cs IHcs]; constructor; [apply IH | exact IHcs].
  - apply Hl, IH.
  - apply Hm; apply IH.
Qed.

Lemma Type_induction (P : liborc.Type_ -> Prop) :
  P liborc.nullptr ->
  (forall kind subtypes names ml p s,
      Forall P subtypes -> P (liborc.mk kind subtypes names ml p s)) ->
  forall T, P T.
Proof.
  intros Hn Hm. fix IH 1. intros [| kind subtypes names ml p s].
  - exact Hn.
  - apply Hm. induction subtypes as [| t ts IHts]; constructor; [apply IH | exact IHts].
Qed.

(** ** Lists indexed by [Z] *)

Lemma zth_app_l {A} (l r : list A) (i : Z) (d : A) :
  0 <= i < Z.of_nat (List.length l) -> zth (l ++ r) i d = zth l i d.
Proof. intros H. unfold zth. apply app_nth1. lia. Qed.

Lemma zth_app_r {A} (l r : list A) (i : Z) (d : A) :
  Z.of_nat (List.length l) <= i ->
  zth (l ++ r) i d = zth r (i - Z.of_nat (List.length l)) d.
Proof.
  intros H. unfold zth. rewrite app_nth2 by lia. f_equal. lia.
Qed.

Lemma zth_map_zseq {A} (g : Z -> A) (s n i : Z) (d : A) :
  0 <= i < n -> zth (map g (zseq s n)) i d = g (s + i).
Proof.
  intros H. unfold zth.
  rewrite nth_indep with (d' := g 0) by (rewrite length_map, zseq_length; lia).
  rewrite map_nth. fold (zth (zseq s n) i 0). rewrite zth_zseq by lia. reflexivity.
Qed.

Lemma logical_length leaf a o n : List.length (logical leaf a o n) = Z.to_nat n.
Proof. unfold logical. rewrite length_map, zseq_length. reflexivity. Qed.

Lemma zth_logical leaf a o n i :
  0 <= i < n -> zth (logical leaf a o n) i LNull = logical_at leaf a (o + i).
Proof. intros H. unfold logical. apply zth_map_zseq. exact H. Qed.

Lemma logical_snoc leaf a o n :
  0 <= n -> logical leaf a o (n + 1) = logical leaf a o n ++ [logical_at leaf a (o + n)].
Proof. intros H. unfold logical. rewrite zseq_snoc by lia. rewrite map_app. reflexivity. Qed.

Lemma slice_length vs o n : List.length (slice vs o n) = Z.to_nat n.
Proof. unfold slice. rewrite length_map, zseq_length. reflexivity. Qed.

(** ** Batches *)

Lemma leaf_value_with_base d2f kind p b h i :
  leaf_value d2f kind p (BatchOps.with_base b h) i = leaf_value d2f kind p b i.
Proof. destruct b; reflexivity. Qed.

Lemma marked_header (h h' : ColumnVectorBatch) (i : Z) (v : LVal) :
  notNull h' i = notNull h i ->
  (hasNulls h = true -> hasNulls h' = true) ->
  marked h i v -> marked h' i v.
Proof.
  unfold marked. intros -> Hn [[H1 H2] | (H1 & H2 & H3)]; [left | right]; auto.
Qed.

(** A change of the header that keeps the marks of the positions held, and
    does not take back that the batch has nulls, keeps what the batch holds. *)
Lemma holds_header d2f T b vs h' :
  (forall i, 0 <= i < Z.of_nat (List.length vs) ->
             notNull h' i = notNull (BatchOps.base b) i) ->
  (hasNulls (BatchOps.base b) = true -> hasNulls h' = true) ->
  holds d2f T b vs -> holds d2f T (BatchOps.with_base b h') vs.
Proof.
  intros Hnn Hhn. destruct T as [| kind subtypes names ml p s]; [exact (fun x => x) |].
  cbn [holds]. intros [Hm Hb]. rewrite base_with_base. split.
  - intros i Hi. apply (marked_header (BatchOps.base b)); auto.
  - destruct kind;
      try (destruct Hb as [Hv Hb]; split;
           [rewrite leaf_value_with_base; exact Hv
           | intros i Hi Hn; rewrite leaf_value_with_base; apply Hb;
             [exact Hi | rewrite <- Hnn by exact Hi; exact Hn]]).
    + (* LIST *)
      destruct b; try contradiction. cbn [BatchOps.with_base BatchOps.base] in *.
      destruct subtypes as [| e [| ? ?]]; try contradiction.
      destruct Hb as (flat & He & Hl & Hi). exists flat. split; [exact He |].
      split; [exact Hl |]. intros i Hir. destruct (Hi i Hir) as (H1 & H2 & H3 & H4).
      repeat split; try assumption. intros Hn. apply H4. rewrite <- Hnn by exact Hir. exact Hn.
    + (* MAP *)
      destruct b; try contradiction. cbn [BatchOps.with_base BatchOps.base] in *.
      destruct subtypes as [| k [| it [| ? ?]]]; try contradiction.
      destruct Hb as (kf & itf & Hk & Hit & Hlk & Hli & Hi). exists kf, itf.
      repeat split; try assumption; destruct (Hi i H) as (H1 & H2 & H3 & H4); try assumption.
      intros Hn. apply H4. rewrite <- Hnn by assumption. exact Hn.
    + (* STRUCT *)
      destruct b; try contradiction. cbn [BatchOps.with_base BatchOps.base] in *.
      destruct Hb as (cols & Hf & Hr). exists cols. split; [exact Hf |].
      intros i Hi Hn. apply Hr; [exact Hi |]. rewrite <- Hnn by exact Hi. exact Hn.
Qed.

(** ** Writing the leaves *)

Lemma holds_leaf d2f kind subtypes names ml p s b vs :
  is_leaf kind = true ->
  holds d2f (liborc.mk kind subtypes names ml p s) b vs
  <-> (forall i, 0 <= i < Z.of_nat (List.length vs) ->
                 marked (BatchOps.base b) i (zth vs i LNull))
      /\ (exists v, leaf_value d2f kind p b 0 = Some v)
      /\ forall i, 0 <= i < Z.of_nat (List.length vs) ->
           notNull (BatchOps.base b) i = true ->
           leaf_value d2f kind p b i = Some (zth vs i LNull).
Proof. intros H. destruct kind; try discriminate H; reflexivity. Qed.

Lemma leaf_value_not_null d2f kind p b i v :
  leaf_value d2f kind p b i = Some v -> v <> LNull.
Proof.
  destruct kind, b; cbn; try discriminate;
    try (destruct (decode_uses_wide p); try discriminate);
    intros E; injection E as <-; discriminate.
Qed.

(** The positions of a leaf batch after one more element: position [ro],
    the first one not held yet, gets the mark [x] and, when valid, the value
    [v]; the other positions keep theirs. *)
Lemma holds_leaf_snoc d2f kind subtypes names ml p s b b' vs x v :
  is_leaf kind = true ->
  holds d2f (liborc.mk kind subtypes names ml p s) b vs ->
  let ro := Z.of_nat (List.length vs) in
  (forall j, j <> ro -> notNull (BatchOps.base b') j = notNull (BatchOps.base b) j) ->
  notNull (BatchOps.base b') ro = x ->
  hasNulls (BatchOps.base b') = hasNulls (BatchOps.base b) ->
  (forall j, j <> ro -> leaf_value d2f kind p b' j = leaf_value d2f kind p b j) ->
  (x = true -> leaf_value d2f kind p b' ro = Some v) ->
  (x = false -> v = LNull /\ hasNulls (BatchOps.base b) = true
                /\ leaf_value d2f kind p b' ro = leaf_value d2f kind p b ro) ->
  holds d2f (liborc.mk kind subtypes names ml p s) b' (vs ++ [v]).
Proof.
  intros Hk Hh ro Hnn Hx Hhn Hlv Hval Hnull.
  rewrite holds_leaf in * by exact Hk. destruct Hh as (Hm & [v0 Hv0] & Hv).
  rewrite length_app. cbn [List.length]. fold ro.
  replace (Z.of_nat (List.length vs + 1)) with (ro + 1) by (unfold ro; lia).
  split; [| split].
  - intros i Hi. destruct (Z.eq_dec i ro) as [-> | Hne].
    + rewrite zth_app_r by (fold ro; lia). fold ro.
      replace (ro - ro) with 0 by lia. cbn.
      unfold marked. rewrite Hx, Hhn. destruct x.
      * left. split; [reflexivity |]. eapply leaf_value_not_null. apply Hval. reflexivity.
      * right. destruct Hnull as (-> & Hn & _); auto.
    + rewrite zth_app_l by (fold ro; lia).
      apply (marked_header (BatchOps.base b));
        [apply Hnn; exact Hne | rewrite Hhn; auto | apply Hm; lia].
  - destruct (Z.eq_dec 0 ro) as [E0 | Hne].
    + destruct x.
      * exists v. rewrite E0. apply Hval. reflexivity.
      * exists v0. rewrite E0. destruct Hnull as (_ & _ & ->); auto. rewrite <- E0. exact Hv0.
    + exists v0. rewrite Hlv by exact Hne. exact Hv0.
  - intros i Hi Hn. destruct (Z.eq_dec i ro) as [-> | Hne].
    + rewrite zth_app_r by (fold ro; lia). fold ro.
      replace (ro - ro) with 0 by lia. cbn. apply Hval. congruence.
    + rewrite zth_app_l by (fold ro; lia). rewrite Hlv by exact Hne. apply Hv; [lia |].
      rewrite <- Hnn by exact Hne. exact Hn.
Qed.

Lemma logical_at_null leaf a i :
  ArrayOps.IsNull a i = true -> logical_at leaf a i = LNull.
Proof. intros H. destruct a; cbn [logical_at]; rewrite H; reflexivity. Qed.

Lemma set_notNull_in (b : Batch) (i : Z) (v : bool) :
  0 <= i < capacity (BatchOps.base b) ->
  BatchOps.set_notNull b i v
  = Ok (BatchOps.with_base b
          (mkBase (capacity (BatchOps.base b)) (numElements (BatchOps.base b))
                  (upd (notNull (BatchOps.base b)) i v)
                  (hasNulls (BatchOps.base b)))).
Proof.
  intros H. unfold BatchOps.set_notNull, BatchOps.in_capacity.
  destruct (Z.leb_spec 0 i); [| lia].
  destruct (Z.ltb_spec i (capacity (BatchOps.base b))); [| lia]. reflexivity.
Qed.

Lemma upd_same {A} (m : DataBuffer A) i v : upd m i v i = v.
Proof. unfold upd. rewrite Z.eqb_refl. reflexivity. Qed.

Lemma upd_other {A} (m : DataBuffer A) i v j : j <> i -> upd m i v j = m j.
Proof. unfold upd. intros H. destruct (Z.eqb_spec j i); [contradiction | reflexivity]. Qed.

Lemma Visit_leaf d2f kind subtypes names ml p s leaf a aoff alen vv :
  is_leaf kind = true ->
  step_ok d2f kind p leaf a aoff alen vv ->
  forall (n : nat) b vs,
    Z.of_nat n <= alen ->
    holds d2f (liborc.mk kind subtypes names ml p s) b vs ->
    Z.of_nat (List.length vs) + Z.of_nat n <= capacity (BatchOps.base b) ->
    (forall k, 0 <= k < Z.of_nat n -> ArrayOps.IsNull a (aoff + k) = true ->
               hasNulls (BatchOps.base b) = true) ->
    exists b',
      for_loop n aoff
        (fun i st => if ArrayOps.IsNull a i then VisitNull st else vv st)
        (mkAppender b (Z.of_nat (List.length vs)) 0)
      = Ok (mkAppender b' (Z.of_nat (List.length vs) + Z.of_nat n) (Z.of_nat n))
      /\ holds d2f (liborc.mk kind subtypes names ml p s) b'
               (vs ++ logical leaf a aoff (Z.of_nat n))
      /\ capacity (BatchOps.base b') = capacity (BatchOps.base b)
      /\ hasNulls (BatchOps.base b') = hasNulls (BatchOps.base b).
Proof.
  intros Hk Hstep. induction n as [| n IH]; intros b vs Hn Hh Hcap Hnull.
  - exists b. cbn [for_loop]. replace (Z.of_nat 0) with 0 by lia.
    rewrite Z.add_0_r. unfold logical. cbn. rewrite app_nil_r. auto.
  - destruct (IH b vs) as (b1 & E1 & Hh1 & Hc1 & Hn1); try assumption; try lia.
    { intros k Hkr. apply Hnull. lia. }
    rewrite for_loop_S, E1. cbn [bind].
    set (ro := Z.of_nat (List.length vs) + Z.of_nat n) in *.
    assert (Hlen : Z.of_nat (List.length (vs ++ logical leaf a aoff (Z.of_nat n))) = ro).
    { rewrite length_app, logical_length. unfold ro. lia. }
    replace (Z.of_nat (S n)) with (Z.of_nat n + 1) by lia.
    rewrite logical_snoc, app_assoc by lia.
    replace (Z.of_nat (List.length vs) + (Z.of_nat n + 1)) with (ro + 1) by (unfold ro; lia).
    destruct (ArrayOps.IsNull a (aoff + Z.of_nat n)) eqn:En.
    + unfold VisitNull. cbn [batch running_orc_offset running_arrow_offset].
      rewrite set_notNull_in by lia. cbn [bind].
      eexists. split; [reflexivity |]. rewrite base_with_base. cbn [capacity hasNulls].
      split; [| split; [exact Hc1 | exact Hn1]].
      rewrite (logical_at_null leaf a _ En).
        (eapply holds_leaf_snoc with (x := false);
         [ exact Hk | exact Hh1
         | rewrite Hlen; intros j Hj; rewrite base_with_base; cbn [notNull];
           apply upd_other; exact Hj
         | rewrite Hlen, base_with_base; cbn [notNull]; apply upd_same
         | rewrite base_with_base; reflexivity
         | intros j Hj; apply leaf_value_with_base
         | discriminate
         | intros _; split; [reflexivity |]; split;
           [rewrite Hn1; apply (Hnull (Z.of_nat n)); [lia | exact En]
           | apply leaf_value_with_base] ]).
    + destruct (Hstep b1 ro (Z.of_nat n)) as (b2 & E2 & Hb2 & Hv2 & Hf2); try lia.
      { rewrite holds_leaf in Hh1 by exact Hk. apply Hh1. }
      { exact En. }
      rewrite E2. exists b2. split; [reflexivity |].
      split; [| rewrite Hb2; cbn [capacity hasNulls]; auto].
      eapply holds_leaf_snoc with (x := true);
        [ exact Hk | exact Hh1
        | rewrite Hlen, Hb2; intros j Hj; cbn [notNull]; apply upd_other; exact Hj
        | rewrite Hlen, Hb2; cbn [notNull]; apply upd_same
        | rewrite Hb2; reflexivity
        | rewrite Hlen; exact Hf2
        | rewrite Hlen; intros _; exact Hv2
        | discriminate ].
Qed.

Lemma in_capacity_true b i :
  0 <= i < capacity (BatchOps.base b) -> BatchOps.in_capacity b i = true.
Proof. intros H. unfold BatchOps.in_capacity. apply andb_true_intro. split; lia. Qed.

Lemma null_count_pos a aoff alen k :
  0 <= k < alen -> ArrayOps.IsNull a (aoff + k) = true ->
  ArrayOps.null_count a aoff alen <> 0.
Proof.
  intros Hk Hn. unfold ArrayOps.null_count.
  assert (In (aoff + k) (filter (ArrayOps.IsNull a) (zseq aoff alen))) as Hin.
  { apply filter_In. split; [apply in_zseq; lia | exact Hn]. }
  destruct (filter (ArrayOps.IsNull a) (zseq aoff alen)); [destruct Hin | cbn; lia].
Qed.

Lemma mark_hasNulls_base a aoff alen b :
  BatchOps.base (mark_hasNulls a aoff alen b)
  = mkBase (capacity (BatchOps.base b)) (numElements (BatchOps.base b))
           (notNull (BatchOps.base b))
           (if ArrayOps.null_count a aoff alen =? 0 then hasNulls (BatchOps.base b)
            else true).
Proof.
  unfold mark_hasNulls, BatchOps.set_hasNulls.
  destruct (_ =? 0); [destruct (BatchOps.base b); reflexivity |].
  rewrite base_with_base. reflexivity.
Qed.

Lemma mark_hasNulls_eq a aoff alen b :
  mark_hasNulls a aoff alen b
  = BatchOps.with_base b (BatchOps.base (mark_hasNulls a aoff alen b)).
Proof.
  unfold mark_hasNulls, BatchOps.set_hasNulls.
  destruct (_ =? 0); [destruct b; reflexivity |].
  rewrite base_with_base. reflexivity.
Qed.

Lemma holds_mark_hasNulls d2f T a aoff alen b vs :
  holds d2f T b vs -> holds d2f T (mark_hasNulls a aoff alen b) vs.
Proof.
  intros H. rewrite mark_hasNulls_eq. apply holds_header; [| | exact H];
    rewrite mark_hasNulls_base; cbn [notNull hasNulls]; auto.
  intros ->. destruct (_ =? 0); reflexivity.
Qed.

Lemma mark_hasNulls_marks a aoff alen b k :
  0 <= k < alen -> ArrayOps.IsNull a (aoff + k) = true ->
  hasNulls (BatchOps.base (mark_hasNulls a aoff alen b)) = true.
Proof.
  intros Hk Hn. rewrite mark_hasNulls_base. cbn [hasNulls].
  pose proof (null_count_pos a aoff alen k Hk Hn) as Hc.
  destruct (Z.eqb_spec (ArrayOps.null_count a aoff alen) 0); [contradiction | reflexivity].
Qed.

Lemma class_mark_hasNulls a aoff alen b :
  BatchOps.class (mark_hasNulls a aoff alen b) = BatchOps.class b.
Proof. rewrite mark_hasNulls_eq. apply class_with_base. Qed.

Lemma holds_set_numElements d2f T b vs n :
  holds d2f T b vs -> holds d2f T (BatchOps.set_numElements b n) vs.
Proof. intros H. apply holds_header; cbn [notNull hasNulls]; auto. Qed.

Lemma checked_cast_class c b :
  BatchOps.class b = c -> BatchOps.checked_cast c b = Ok b.
Proof.
  intros <-. unfold BatchOps.checked_cast. destruct (BatchOps.class b); reflexivity.
Qed.

(** The common part of the leaf writers: the cast, the mark that the batch
    has nulls and the visit of the window. *)
Lemma leaf_writer d2f kind subtypes names ml p s leaf a aoff alen vv c b vs :
  is_leaf kind = true ->
  step_ok d2f kind p leaf a aoff alen vv ->
  BatchOps.class b = c ->
  0 <= alen ->
  holds d2f (liborc.mk kind subtypes names ml p s) b vs ->
  Z.of_nat (List.length vs) + alen <= capacity (BatchOps.base b) ->
  exists b',
    (b0 <- BatchOps.checked_cast c b ;;
     let b0 := mark_hasNulls a aoff alen b0 in
     st <- Visit a aoff alen VisitNull vv
             (mkAppender b0 (Z.of_nat (List.length vs)) 0) ;;
     Ok (batch st)) = Ok b'
    /\ holds d2f (liborc.mk kind subtypes names ml p s) b'
             (vs ++ logical leaf a aoff alen)
    /\ capacity (BatchOps.base b') = capacity (BatchOps.base b).
Proof.
  intros Hk Hstep Hc Hlen Hh Hcap.
  rewrite (checked_cast_class c b Hc). cbn [bind]. unfold Visit.
  destruct (Visit_leaf d2f kind subtypes names ml p s leaf a aoff alen vv Hk Hstep
              (Z.to_nat alen) (mark_hasNulls a aoff alen b) vs)
    as (b' & E & Hh' & Hc' & _).
  - lia.
  - apply holds_mark_hasNulls. exact Hh.
  - rewrite mark_hasNulls_base. cbn [capacity]. lia.
  - intros k Hkr. apply mark_hasNulls_marks. lia.
  - rewrite E. cbn [bind batch]. exists b'.
    replace (Z.of_nat (Z.to_nat alen)) with alen in Hh' by lia.
    split; [reflexivity |]. split; [exact Hh' |].
    rewrite Hc', mark_hasNulls_base. reflexivity.
Qed.

Ltac step_start b Hshape Hclass :=
  let v0 := fresh "v0" in
  let Hv0 := fresh "Hv0" in
  destruct Hshape as [v0 Hv0];
  pose proof (Hclass b v0 Hv0) as Hclass';
  destruct b; try discriminate Hclass'; clear Hclass'.

Ltac step_finish Hro :=
  cbn [batch running_orc_offset running_arrow_offset];
  unfold set_data, set_values, set_string, set_timestamp;
  repeat (first [ rewrite in_capacity_true by exact Hro
                | rewrite set_notNull_in by exact Hro ];
          cbn [bind BatchOps.base BatchOps.with_base capacity numElements
               notNull hasNulls]).

Lemma step_ok_long d2f f kind p leaf a aoff alen cast :
  (forall h d i,
      leaf_value d2f kind p (LongVectorBatch h d) i = Some (LNum (cast (d i)))) ->
  (forall b v, leaf_value d2f kind p b 0 = Some v -> BatchOps.class b = LongClass) ->
  (forall ra, 0 <= ra < alen -> ArrayOps.IsNull a (aoff + ra) = false ->
     LNum (cast (to_batch_value f (ArrayOps.type a) (ArrayOps.Value a (aoff + ra))))
     = logical_at leaf a (aoff + ra)) ->
  step_ok d2f kind p leaf a aoff alen (Appender_VisitValue f a aoff).
Proof.
  intros Hlv Hclass Hval b ro ra Hro Hshape Hra Hnn.
  step_start b Hshape Hclass. unfold Appender_VisitValue. step_finish Hro.
  eexists. split; [reflexivity |]. cbn [BatchOps.base].
  split; [reflexivity |]. rewrite !Hlv. split.
  - rewrite upd_same. f_equal. apply Hval; assumption.
  - intros j Hj. rewrite !Hlv, upd_other by exact Hj. reflexivity.
Qed.

Lemma step_ok_double d2f f kind p leaf a aoff alen cast :
  (forall h d i,
      leaf_value d2f kind p (DoubleVectorBatch h d) i = Some (LNum (cast (d i)))) ->
  (forall b v, leaf_value d2f kind p b 0 = Some v -> BatchOps.class b = DoubleClass) ->
  (forall ra, 0 <= ra < alen -> ArrayOps.IsNull a (aoff + ra) = false ->
     LNum (cast (to_batch_value f (ArrayOps.type a) (ArrayOps.Value a (aoff + ra))))
     = logical_at leaf a (aoff + ra)) ->
  step_ok d2f kind p leaf a aoff alen (Appender_VisitValue f a aoff).
Proof.
  intros Hlv Hclass Hval b ro ra Hro Hshape Hra Hnn.
  step_start b Hshape Hclass. unfold Appender_VisitValue. step_finish Hro.
  eexists. split; [reflexivity |]. cbn [BatchOps.base].
  split; [reflexivity |]. rewrite !Hlv. split.
  - rewrite upd_same. f_equal. apply Hval; assumption.
  - intros j Hj. rewrite !Hlv, upd_other by exact Hj. reflexivity.
Qed.

Lemma step_ok_decimal64 d2f kind p leaf a aoff alen :
  (forall h d i,
      leaf_value d2f kind p (Decimal64VectorBatch h d) i = Some (LNum (d i))) ->
  (forall b v, leaf_value d2f kind p b 0 = Some v -> BatchOps.class b = Decimal64Class) ->
  (forall ra, 0 <= ra < alen -> ArrayOps.IsNull a (aoff + ra) = false ->
     LNum (lower_bits_signed (ArrayOps.Value a (aoff + ra)))
     = logical_at leaf a (aoff + ra)) ->
  step_ok d2f kind p leaf a aoff alen (Decimal64Appender_VisitValue a aoff).
Proof.
  intros Hlv Hclass Hval b ro ra Hro Hshape Hra Hnn.
  step_start b Hshape Hclass. unfold Decimal64Appender_VisitValue. step_finish Hro.
  eexists. split; [reflexivity |]. cbn [BatchOps.base].
  split; [reflexivity |]. rewrite !Hlv. split.
  - rewrite upd_same. f_equal. apply Hval; assumption.
  - intros j Hj. rewrite !Hlv, upd_other by exact Hj. reflexivity.
Qed.

Lemma step_ok_decimal128 d2f kind p leaf a aoff alen :
  (forall h d i,
      leaf_value d2f kind p (Decimal128VectorBatch h d) i
      = Some (LNum (Decimal128_of_words (getHighBits (d i)) (getLowBits (d i))))) ->
  (forall b v, leaf_value d2f kind p b 0 = Some v -> BatchOps.class b = Decimal128Class) ->
  (forall ra, 0 <= ra < alen -> ArrayOps.IsNull a (aoff + ra) = false ->
     let x := Int128 (higher_bits (ArrayOps.Value a (aoff + ra)))
                     (lower_bits (ArrayOps.Value a (aoff + ra))) in
     LNum (Decimal128_of_words (getHighBits x) (getLowBits x))
     = logical_at leaf a (aoff + ra)) ->
  step_ok d2f kind p leaf a aoff alen (Decimal128Appender_VisitValue a aoff).
Proof.
  intros Hlv Hclass Hval b ro ra Hro Hshape Hra Hnn.
  step_start b Hshape Hclass. unfold Decimal128Appender_VisitValue. step_finish Hro.
  eexists. split; [reflexivity |]. cbn [BatchOps.base].
  split; [reflexivity |]. rewrite !Hlv. split.
  - rewrite upd_same. f_equal. apply Hval; assumption.
  - intros j Hj. rewrite !Hlv, upd_other by exact Hj. reflexivity.
Qed.

Lemma step_ok_timestamp d2f leaf a aoff alen p from_second to_nano :
  (forall ra, 0 <= ra < alen -> ArrayOps.IsNull a (aoff + ra) = false ->
     let data := ArrayOps.Value a (aoff + ra) in
     let sec := timestamp_seconds data from_second in
     LNum (int64_t (int64_t (sec * kOneSecondNanos)
                    + timestamp_nanoseconds data from_second to_nano sec))
     = logical_at leaf a (aoff + ra)) ->
  step_ok d2f liborc.TIMESTAMP p leaf a aoff alen
          (TimestampAppender_VisitValue a aoff from_second to_nano).
Proof.
  intros Hval b ro ra Hro Hshape Hra Hnn.
  destruct Hshape as [v0 Hv0]. destruct b; try discriminate Hv0.
  unfold TimestampAppender_VisitValue. step_finish Hro.
  eexists. split; [reflexivity |]. cbn [BatchOps.base leaf_value].
  split; [reflexivity |]. split.
  - rewrite !upd_same. f_equal. apply Hval; assumption.
  - intros j Hj. rewrite !upd_other by exact Hj. reflexivity.
Qed.

Lemma step_ok_string d2f kind p leaf a aoff alen vv (len : Z -> Z) :
  (forall h d l i,
      leaf_value d2f kind p (StringVectorBatch h d l) i
      = Some (LBin (bytes_at (d i) (int32_t (l i))))) ->
  (forall b v, leaf_value d2f kind p b 0 = Some v -> BatchOps.class b = StringClass) ->
  (forall b ro ra,
      vv (mkAppender b ro ra)
      = (b1 <- BatchOps.set_notNull b ro true ;;
         b2 <- set_string b1 ro (ArrayOps.GetValue a (aoff + ra)) (len ra) ;;
         Ok (mkAppender b2 (ro + 1) (ra + 1)))) ->
  (forall ra, 0 <= ra < alen -> ArrayOps.IsNull a (aoff + ra) = false ->
     LBin (bytes_at (ArrayOps.GetValue a (aoff + ra)) (int32_t (len ra)))
     = logical_at leaf a (aoff + ra)) ->
  step_ok d2f kind p leaf a aoff alen vv.
Proof.
  intros Hlv Hclass Hvv Hval b ro ra Hro Hshape Hra Hnn.
  step_start b Hshape Hclass. rewrite Hvv. step_finish Hro.
  eexists. split; [reflexivity |]. cbn [BatchOps.base].
  split; [reflexivity |]. rewrite !Hlv. split.
  - rewrite !upd_same. f_equal. apply Hval; assumption.
  - intros j Hj. rewrite !Hlv, !upd_other by exact Hj. reflexivity.
Qed.

(** ** The numbers that come back *)

Lemma wrap_spec (w x : Z) : 0 < w -> exists k, wrap w x = x + k * 2 ^ w.
Proof.
  intros Hw. unfold wrap.
  assert (0 < 2 ^ w) by (apply Z.pow_pos_nonneg; lia).
  exists (- ((x + 2 ^ (w - 1)) / 2 ^ w)).
  pose proof (Z.div_mod (x + 2 ^ (w - 1)) (2 ^ w)). lia.
Qed.

Lemma wrap_of_multiple (w x y k : Z) :
  0 < w -> x = y + k * 2 ^ w -> wrap w x = wrap w y.
Proof.
  intros Hw ->. apply wrap_congr; [exact Hw |]. apply Z_mod_plus_full.
Qed.

(** Whatever seconds the writer stored, the pair it stores decodes to the
    value in nanoseconds. *)
Lemma timestamp_pair_decodes (data f n sec : Z) :
  f * n = kOneSecondNanos ->
  int64_t (int64_t (sec * kOneSecondNanos) + timestamp_nanoseconds data f n sec)
  = int64_t (data * n).
Proof.
  intros Hfn. unfold timestamp_nanoseconds, int64_t.
  destruct (wrap_spec 64 (sec * kOneSecondNanos)) as [k1 E1]; [lia |].
  destruct (wrap_spec 64 (f * sec)) as [k2 E2]; [lia |].
  destruct (wrap_spec 64 (data - wrap 64 (f * sec))) as [k3 E3]; [lia |].
  destruct (wrap_spec 64 (wrap 64 (data - wrap 64 (f * sec)) * n)) as [k4 E4]; [lia |].
  apply (wrap_of_multiple 64 _ _ (k1 + (k3 - k2) * n + k4)); [lia |].
  rewrite E1, E4, E3, E2. rewrite <- Hfn. ring.
Qed.

Lemma to_bool_id (v : Z) : v = 0 \/ v = 1 -> to_bool v = v.
Proof. intros [-> | ->]; reflexivity. Qed.

Lemma pow10_le (p q : Z) : 0 <= p <= q -> 10 ^ p <= 10 ^ q.
Proof. intros H. apply Z.pow_le_mono_r; lia. Qed.

Lemma decimal64_back (p v : Z) :
  1 <= p <= 18 -> - 10 ^ p < v < 10 ^ p -> lower_bits_signed v = v.
Proof.
  intros Hp Hv. pose proof (pow10_le p 18 ltac:(lia)) as H.
  apply int64_t_id. unfold in_int.
  assert (10 ^ 18 < 2 ^ (64 - 1)) by reflexivity. lia.
Qed.

Lemma decimal128_back (p v : Z) :
  1 <= p <= 38 -> - 10 ^ p < v < 10 ^ p ->
  let x := Int128 (higher_bits v) (lower_bits v) in
  Decimal128_of_words (getHighBits x) (getLowBits x) = v.
Proof.
  intros Hp Hv. pose proof (pow10_le p 38 ltac:(lia)) as H.
  assert (H38 : 10 ^ 38 < 2 ^ 127) by reflexivity.
  assert (E64 : 2 ^ 127 = 2 ^ 63 * 2 ^ 64) by reflexivity.
  assert (Hx : Int128 (higher_bits v) (lower_bits v) = v).
  { unfold Int128, higher_bits, lower_bits.
    rewrite int64_t_id.
    - pose proof (Z.div_mod v (2 ^ 64)). lia.
    - unfold in_int. change (2 ^ (64 - 1)) with (2 ^ 63).
      split.
      + apply Z.div_le_lower_bound; lia.
      + apply Z.div_lt_upper_bound; lia. }
  cbv zeta. rewrite Hx. unfold Decimal128_of_words, getHighBits, getLowBits.
  rewrite int64_t_id.
  - pose proof (Z.div_mod v (2 ^ 64)). lia.
  - unfold in_int. change (2 ^ (64 - 1)) with (2 ^ 63).
    split.
    + apply Z.div_le_lower_bound; lia.
    + apply Z.div_lt_upper_bound; lia.
Qed.

Lemma bytes_at_all (v : list byte) (n : Z) :
  n = Z.of_nat (List.length v) -> n < 2 ^ 31 -> bytes_at v (int32_t n) = v.
Proof.
  intros -> Hn. unfold bytes_at, int32_t. rewrite wrap_id; [| lia |].
  - rewrite Nat2Z.id. apply firstn_all.
  - unfold in_int. change (2 ^ (32 - 1)) with (2 ^ 31). lia.
Qed.

Section Leaves.

Variable float_to_double double_to_float : Z -> Z.
Hypothesis float_exact : forall x, double_to_float (float_to_double x) = x.

Lemma class_of_shape kind p b v c :
  leaf_value double_to_float kind p b 0 = Some v ->
  (forall b' v', leaf_value double_to_float kind p b' 0 = Some v' ->
                 BatchOps.class b' = c) ->
  BatchOps.class b = c.
Proof. intros H Hc. exact (Hc b v H). Qed.

Lemma capacity_set_numElements b n :
  capacity (BatchOps.base (BatchOps.set_numElements b n)) = capacity (BatchOps.base b).
Proof. unfold BatchOps.set_numElements. rewrite base_with_base. reflexivity. Qed.

Lemma class_set_numElements b n :
  BatchOps.class (BatchOps.set_numElements b n) = BatchOps.class b.
Proof. apply class_with_base. Qed.

(** Finish a leaf case: the writer is the common part with the appender
    [vv] and class [c]. *)
Ltac leaf_case kind p c b Hclass Hstep Hh Hcap :=
  match goal with
  | |- exists b', _ = Ok b' /\ holds _ (liborc.mk _ ?subs ?names ?ml _ ?s) _ (?vs ++ logical ?leaf ?a ?aoff ?alen) /\ _ =>
      let Hs := fresh "Hs" in
      pose proof Hh as Hs;
      rewrite (holds_leaf double_to_float kind subs names ml p s) in Hs by reflexivity;
      destruct Hs as (_ & [? Hs] & _);
      destruct (leaf_writer double_to_float kind subs names ml p s leaf a aoff alen
                  _ c (BatchOps.set_numElements b (Z.of_nat (List.length vs))) vs
                  eq_refl Hstep)
        as (b' & E & Hh' & Hc');
      [ rewrite class_set_numElements;
        exact (Hclass _ _ Hs)
      | assumption
      | apply holds_set_numElements; exact Hh
      | rewrite capacity_set_numElements; exact Hcap
      | exists b'; split; [exact E |]; split; [exact Hh' |];
        rewrite Hc'; apply capacity_set_numElements ]
  end.

Lemma leaf_class_long kind p :
  match kind with
  | liborc.LONG | liborc.INT | liborc.SHORT | liborc.BYTE | liborc.BOOLEAN
  | liborc.DATE => True
  | _ => False
  end ->
  forall b v, leaf_value double_to_float kind p b 0 = Some v ->
              BatchOps.class b = LongClass.
Proof.
  intros Hk b v H. destruct kind; try contradiction;
    destruct b; try discriminate H; reflexivity.
Qed.

Lemma leaf_class_double kind p :
  match kind with
  | liborc.DOUBLE | liborc.FLOAT => True
  | _ => False
  end ->
  forall b v, leaf_value double_to_float kind p b 0 = Some v ->
              BatchOps.class b = DoubleClass.
Proof.
  intros Hk b v H. destruct kind; try contradiction;
    destruct b; try discriminate H; reflexivity.
Qed.

Lemma leaf_class_timestamp b v :
  leaf_value double_to_float liborc.TIMESTAMP 0 b 0 = Some v ->
  BatchOps.class b = TimestampClass.
Proof. intros H. destruct b; try discriminate H; reflexivity. Qed.

Lemma leaf_class_string kind p :
  match kind with
  | liborc.STRING | liborc.BINARY | liborc.VARCHAR => True
  | _ => False
  end ->
  forall b v, leaf_value double_to_float kind p b 0 = Some v ->
              BatchOps.class b = StringClass.
Proof.
  intros Hk b v H. destruct kind; try contradiction;
    destruct b; try discriminate H; reflexivity.
Qed.

Lemma logical_at_primitive leaf t n bm vs i :
  ArrayOps.IsNull (PrimitiveArray t n bm vs) i = false ->
  logical_at leaf (PrimitiveArray t n bm vs) i = LNum (leaf t (zth vs i 0)).
Proof. intros H. cbn [logical_at]. rewrite H. reflexivity. Qed.

Lemma logical_at_binary leaf t n bm vs i :
  ArrayOps.IsNull (BinaryArray t n bm vs) i = false ->
  logical_at leaf (BinaryArray t n bm vs) i = LBin (zth vs i []).
Proof. intros H. cbn [logical_at]. rewrite H. reflexivity. Qed.

Lemma uint64_t_small p : 0 <= p < 2 ^ 64 -> uint64_t p = p.
Proof. intros H. unfold uint64_t. apply Z.mod_small. exact H. Qed.

(** The encoder on a well-formed primitive array. *)
Lemma WriteBatch_primitive t n bm vs :
  let a := PrimitiveArray t n bm vs in
  wf_array a ->
  forall T, GetORCType t = Ok T ->
  forall aoff alen b vs0 nz,
    0 <= aoff -> 0 <= alen -> aoff + alen <= n ->
    holds double_to_float T b vs0 ->
    Z.of_nat (List.length vs0) + alen <= capacity (BatchOps.base b) ->
    exists b',
      WriteBatch float_to_double a aoff alen (Z.of_nat (List.length vs0)) b nz = Ok b'
      /\ holds double_to_float T b' (vs0 ++ logical in_nanoseconds a aoff alen)
      /\ capacity (BatchOps.base b') = capacity (BatchOps.base b).
Proof.
  intros a (Hlen & Hbm & Hty & Hval) T HT aoff alen b vs0 nz Hao Hal Hwin Hh Hcap.
  assert (Hv : forall ra, 0 <= ra < alen -> ArrayOps.IsNull a (aoff + ra) = false ->
                          value_ok t (zth vs (aoff + ra) 0)).
  { intros ra Hra Hn. apply Hval; [lia | exact Hn]. }
  clear Hval.
  destruct t; try discriminate Hty; cbn [GetORCType] in HT; injection HT as <-;
    unfold liborc.createPrimitiveType, liborc.createDecimalType in *;
    cbn [WriteBatch ArrayOps.type a];
    unfold WriteGenericBatch, WriteTimestampBatch; cbn [is_primitive negb].
  - (* BOOL *)
    assert (Hstep : step_ok double_to_float liborc.BOOLEAN 0 in_nanoseconds a aoff alen
                      (Appender_VisitValue float_to_double a aoff)).
    { apply (step_ok_long _ _ _ _ _ _ _ _ to_bool);
        [reflexivity | apply leaf_class_long; exact I |].
      intros ra Hra Hn. unfold a. rewrite logical_at_primitive by exact Hn.
      cbn. f_equal. apply to_bool_id. apply (Hv ra Hra Hn). }
    leaf_case liborc.BOOLEAN 0 LongClass b (leaf_class_long liborc.BOOLEAN 0 I) Hstep Hh Hcap.
  - (* INT8 *)
    assert (Hstep : step_ok double_to_float liborc.BYTE 0 in_nanoseconds a aoff alen
                      (Appender_VisitValue float_to_double a aoff)).
    { apply (step_ok_long _ _ _ _ _ _ _ _ int8_t);
        [reflexivity | apply leaf_class_long; exact I |].
      intros ra Hra Hn. unfold a. rewrite logical_at_primitive by exact Hn.
      cbn. f_equal. apply wrap_id; [lia | apply (Hv ra Hra Hn)]. }
    leaf_case liborc.BYTE 0 LongClass b (leaf_class_long liborc.BYTE 0 I) Hstep Hh Hcap.
  - (* INT16 *)
    assert (Hstep : step_ok double_to_float liborc.SHORT 0 in_nanoseconds a aoff alen
                      (Appender_VisitValue float_to_double a aoff)).
    { apply (step_ok_long _ _ _ _ _ _ _ _ int16_t);
        [reflexivity | apply leaf_class_long; exact I |].
      intros ra Hra Hn. unfold a. rewrite logical_at_primitive by exact Hn.
      cbn. f_equal. apply wrap_id; [lia | apply (Hv ra Hra Hn)]. }
    leaf_case liborc.SHORT 0 LongClass b (leaf_class_long liborc.SHORT 0 I) Hstep Hh Hcap.
  - (* INT32 *)
    assert (Hstep : step_ok double_to_float liborc.INT 0 in_nanoseconds a aoff alen
                      (Appender_VisitValue float_to_double a aoff)).
    { apply (step_ok_long _ _ _ _ _ _ _ _ int32_t);
        [reflexivity | apply leaf_class_long; exact I |].
      intros ra Hra Hn. unfold a. rewrite logical_at_primitive by exact Hn.
      cbn. f_equal. apply wrap_id; [lia | apply (Hv ra Hra Hn)]. }
    leaf_case liborc.INT 0 LongClass b (leaf_class_long liborc.INT 0 I) Hstep Hh Hcap.
  - (* INT64 *)
    assert (Hstep : step_ok double_to_float liborc.LONG 0 in_nanoseconds a aoff alen
                      (Appender_VisitValue float_to_double a aoff)).
    { apply (step_ok_long _ _ _ _ _ _ _ _ (fun x => x));
        [reflexivity | apply leaf_class_long; exact I |].
      intros ra Hra Hn. unfold a. rewrite logical_at_primitive by exact Hn. reflexivity. }
    leaf_case liborc.LONG 0 LongClass b (leaf_class_long liborc.LONG 0 I) Hstep Hh Hcap.
  - (* FLOAT *)
    assert (Hstep : step_ok double_to_float liborc.FLOAT 0 in_nanoseconds a aoff alen
                      (Appender_VisitValue float_to_double a aoff)).
    { apply (step_ok_double _ _ _ _ _ _ _ _ double_to_float);
        [reflexivity | apply leaf_class_double; exact I |].
      intros ra Hra Hn. unfold a. rewrite logical_at_primitive by exact Hn.
      cbn. f_equal. apply float_exact. }
    leaf_case liborc.FLOAT 0 DoubleClass b (leaf_class_double liborc.FLOAT 0 I) Hstep Hh Hcap.
  - (* DOUBLE *)
    assert (Hstep : step_ok double_to_float liborc.DOUBLE 0 in_nanoseconds a aoff alen
                      (Appender_VisitValue float_to_double a aoff)).
    { apply (step_ok_double _ _ _ _ _ _ _ _ (fun x => x));
        [reflexivity | apply leaf_class_double; exact I |].
      intros ra Hra Hn. unfold a. rewrite logical_at_primitive by exact Hn. reflexivity. }
    leaf_case liborc.DOUBLE 0 DoubleClass b (leaf_class_double liborc.DOUBLE 0 I) Hstep Hh Hcap.
  - (* DATE32 *)
    assert (Hstep : step_ok double_to_float liborc.DATE 0 in_nanoseconds a aoff alen
                      (Appender_VisitValue float_to_double a aoff)).
    { apply (step_ok_long _ _ _ _ _ _ _ _ int32_t);
        [reflexivity | apply leaf_class_long; exact I |].
      intros ra Hra Hn. unfold a. rewrite logical_at_primitive by exact Hn.
      cbn. f_equal. apply wrap_id; [lia | apply (Hv ra Hra Hn)]. }
    leaf_case liborc.DATE 0 LongClass b (leaf_class_long liborc.DATE 0 I) Hstep Hh Hcap.
  - (* DATE64 *)
    assert (Hstep : step_ok double_to_float liborc.TIMESTAMP 0 in_nanoseconds a aoff alen
                      (TimestampAppender_VisitValue a aoff kOneSecondMillis kOneMilliNanos)).
    { apply step_ok_timestamp.
      intros ra Hra Hn. unfold a. rewrite logical_at_primitive by exact Hn.
      cbv zeta. f_equal. apply timestamp_pair_decodes. reflexivity. }
    leaf_case liborc.TIMESTAMP 0 TimestampClass b leaf_class_timestamp Hstep Hh Hcap.
  - (* TIMESTAMP *)
    destruct unit.
    + assert (Hstep : step_ok double_to_float liborc.TIMESTAMP 0 in_nanoseconds a aoff alen
                        (TimestampAppender_VisitValue a aoff 1 kOneSecondNanos)).
      { apply step_ok_timestamp.
        intros ra Hra Hn. unfold a. rewrite logical_at_primitive by exact Hn.
        cbv zeta. f_equal. apply timestamp_pair_decodes. reflexivity. }
      leaf_case liborc.TIMESTAMP 0 TimestampClass b leaf_class_timestamp Hstep Hh Hcap.
    + assert (Hstep : step_ok double_to_float liborc.TIMESTAMP 0 in_nanoseconds a aoff alen
                        (TimestampAppender_VisitValue a aoff kOneSecondMillis kOneMilliNanos)).
      { apply step_ok_timestamp.
        intros ra Hra Hn. unfold a. rewrite logical_at_primitive by exact Hn.
        cbv zeta. f_equal. apply timestamp_pair_decodes. reflexivity. }
      leaf_case liborc.TIMESTAMP 0 TimestampClass b leaf_class_timestamp Hstep Hh Hcap.
    + assert (Hstep : step_ok double_to_float liborc.TIMESTAMP 0 in_nanoseconds a aoff alen
                        (TimestampAppender_VisitValue a aoff kOneSecondMicros kOneMicroNanos)).
      { apply step_ok_timestamp.
        intros ra Hra Hn. unfold a. rewrite logical_at_primitive by exact Hn.
        cbv zeta. f_equal. apply timestamp_pair_decodes. reflexivity. }
      leaf_case liborc.TIMESTAMP 0 TimestampClass b leaf_class_timestamp Hstep Hh Hcap.
    + assert (Hstep : step_ok double_to_float liborc.TIMESTAMP 0 in_nanoseconds a aoff alen
                        (TimestampAppender_VisitValue a aoff kOneSecondNanos 1)).
      { apply step_ok_timestamp.
        intros ra Hra Hn. unfold a. rewrite logical_at_primitive by exact Hn.
        cbv zeta. f_equal. apply timestamp_pair_decodes. reflexivity. }
      leaf_case liborc.TIMESTAMP 0 TimestampClass b leaf_class_timestamp Hstep Hh Hcap.
  - (* DECIMAL128 *)
    cbn [primitive_type] in Hty.
    apply andb_prop in Hty. destruct Hty as [Hty Hs2].
    apply andb_prop in Hty. destruct Hty as [Hty Hs1].
    apply andb_prop in Hty. destruct Hty as [Hp1 Hp2].
    assert (Hp : 1 <= precision <= 38) by lia.
    rewrite (uint64_t_small precision) in * by lia.
    assert (Hw : decode_uses_wide precision = encode_uses_wide precision).
    { unfold decode_uses_wide, encode_uses_wide.
      destruct (Z.eqb_spec precision 0); [lia | reflexivity]. }
    destruct (encode_uses_wide precision) eqn:Ew.
    + assert (Hcl : forall b0 v0,
                 leaf_value double_to_float liborc.DECIMAL precision b0 0 = Some v0 ->
                 BatchOps.class b0 = Decimal128Class).
      { intros b0 v0 H0. destruct b0; cbn [leaf_value] in H0; try discriminate H0;
          rewrite Hw in H0; try discriminate H0; reflexivity. }
      assert (Hstep : step_ok double_to_float liborc.DECIMAL precision in_nanoseconds
                        a aoff alen (Decimal128Appender_VisitValue a aoff)).
      { apply step_ok_decimal128.
        - intros h d i. cbn [leaf_value]. rewrite Hw. reflexivity.
        - exact Hcl.
        - intros ra Hra Hn. unfold a. rewrite logical_at_primitive by exact Hn.
          cbv zeta. f_equal. cbn [in_nanoseconds].
          apply (decimal128_back precision); [exact Hp |]. apply (Hv ra Hra Hn). }
      leaf_case liborc.DECIMAL precision Decimal128Class b Hcl Hstep Hh Hcap.
    + assert (Hcl : forall b0 v0,
                 leaf_value double_to_float liborc.DECIMAL precision b0 0 = Some v0 ->
                 BatchOps.class b0 = Decimal64Class).
      { intros b0 v0 H0. destruct b0; cbn [leaf_value] in H0; try discriminate H0;
          rewrite Hw in H0; try discriminate H0; reflexivity. }
      assert (Hstep : step_ok double_to_float liborc.DECIMAL precision in_nanoseconds
                        a aoff alen (Decimal64Appender_VisitValue a aoff)).
      { apply step_ok_decimal64.
        - intros h d i. cbn [leaf_value]. rewrite Hw. reflexivity.
        - exact Hcl.
        - intros ra Hra Hn. unfold a. rewrite logical_at_primitive by exact Hn.
          f_equal. cbn [in_nanoseconds].
          apply (decimal64_back precision).
          + unfold encode_uses_wide in Ew. lia.
          + apply (Hv ra Hra Hn). }
      leaf_case liborc.DECIMAL precision Decimal64Class b Hcl Hstep Hh Hcap.
Qed.

(** The encoder on a well-formed binary array. *)
Lemma WriteBatch_binary t n bm vs :
  let a := BinaryArray t n bm vs in
  wf_array a ->
  forall T, GetORCType t = Ok T ->
  forall aoff alen b vs0 nz,
    0 <= aoff -> 0 <= alen -> aoff + alen <= n ->
    holds double_to_float T b vs0 ->
    Z.of_nat (List.length vs0) + alen <= capacity (BatchOps.base b) ->
    exists b',
      WriteBatch float_to_double a aoff alen (Z.of_nat (List.length vs0)) b nz = Ok b'
      /\ holds double_to_float T b' (vs0 ++ logical in_nanoseconds a aoff alen)
      /\ capacity (BatchOps.base b') = capacity (BatchOps.base b).
Proof.
  intros a (Hlen & Hbm & Hty & Hval) T HT aoff alen b vs0 nz Hao Hal Hwin Hh Hcap.
  assert (Hv : forall ra, 0 <= ra < alen -> ArrayOps.IsNull a (aoff + ra) = false ->
                          bytes_ok t (zth vs (aoff + ra) [])).
  { intros ra Hra Hn. apply Hval; [lia | exact Hn]. }
  clear Hval.
  assert (Hgen : forall kind,
             match kind with
             | liborc.STRING | liborc.BINARY => True
             | _ => False
             end ->
             (forall ra, 0 <= ra < alen -> ArrayOps.IsNull a (aoff + ra) = false ->
                         Z.of_nat (List.length (zth vs (aoff + ra) [])) < 2 ^ 31) ->
             step_ok double_to_float kind 0 in_nanoseconds a aoff alen
                     (BinaryAppender_VisitValue a aoff)).
  { intros kind Hk Hb.
    apply (step_ok_string _ _ _ _ _ _ _ _
             (fun ra => Z.of_nat (List.length (ArrayOps.GetValue a (aoff + ra))))).
    - intros h d l i. destruct kind; try contradiction; reflexivity.
    - apply leaf_class_string. destruct kind; try contradiction; exact I.
    - reflexivity.
    - intros ra Hra Hn. unfold a. rewrite logical_at_binary by exact Hn.
      cbn [ArrayOps.GetValue]. f_equal. apply bytes_at_all; [reflexivity |].
      apply Hb; assumption. }
  destruct t; try discriminate Hty; cbn [GetORCType] in HT; injection HT as <-;
    unfold liborc.createPrimitiveType in *;
    cbn [WriteBatch ArrayOps.type a];
    unfold WriteGenericBatch, WriteFixedSizeBinaryBatch; cbn [is_binary negb].
  - (* STRING *)
    assert (Hstep := Hgen liborc.STRING I Hv).
    leaf_case liborc.STRING 0 StringClass b (leaf_class_string liborc.STRING 0 I)
              Hstep Hh Hcap.
  - (* BINARY *)
    assert (Hstep := Hgen liborc.BINARY I Hv).
    leaf_case liborc.BINARY 0 StringClass b (leaf_class_string liborc.BINARY 0 I)
              Hstep Hh Hcap.
  - (* FIXED_SIZE_BINARY *)
    match type of Hty with
    | binary_type (arrow.FIXED_SIZE_BINARY ?w) = true =>
        assert (Hstep : step_ok double_to_float liborc.BINARY 0 in_nanoseconds a aoff alen
                          (FixedSizeBinaryAppender_VisitValue a aoff w));
        [ apply (step_ok_string _ _ _ _ _ _ _ _ (fun _ => w));
          [ reflexivity
          | apply leaf_class_string; exact I
          | reflexivity
          | intros ra Hra Hn; unfold a; rewrite logical_at_binary by exact Hn;
            cbn [ArrayOps.GetValue]; f_equal;
            destruct (Hv ra Hra Hn) as [Hl Hw];
            apply bytes_at_all; [symmetry; exact Hl | exact Hw] ]
        | ]
    end.
    leaf_case liborc.BINARY 0 StringClass b (leaf_class_string liborc.BINARY 0 I)
              Hstep Hh Hcap.
  - (* LARGE_STRING *)
    assert (Hstep := Hgen liborc.STRING I Hv).
    leaf_case liborc.STRING 0 StringClass b (leaf_class_string liborc.STRING 0 I)
              Hstep Hh Hcap.
  - (* LARGE_BINARY *)
    assert (Hstep := Hgen liborc.BINARY I Hv).
    leaf_case liborc.BINARY 0 StringClass b (leaf_class_string liborc.BINARY 0 I)
              Hstep Hh Hcap.
Qed.

End Leaves.

(** ** Writing a struct *)

Lemma ValueOrDie_Ok {A} (r : result A) (x : A) : ValueOrDie r = Ok x -> r = Ok x.
Proof. destruct r; cbn; intros H; try discriminate H. exact H. Qed.

Lemma orc_children_spec (fs : list (string * arrow.DataType)) :
  forall fs',
    orc_children (fun t => GetORCType t) fs = Ok fs' ->
    Forall2 (fun f f' => GetORCType (snd f) = Ok (snd f')) fs fs'.
Proof.
  induction fs as [| [name t] fs IH]; intros fs' E; cbn [orc_children] in E.
  - injection E as <-. constructor.
  - bind_inv E. bind_inv E. injection E as <-.
    constructor; [apply ValueOrDie_Ok; exact E0 | apply IH; exact E1].
Qed.

(** The loop of the struct writer that fills [notNull]. *)
Lemma notNull_loop (a : Array) (aoff o : Z) (n : nat) :
  forall b, 0 <= o -> o + Z.of_nat n <= capacity (BatchOps.base b) ->
    exists nn,
      for_loop n 0
        (fun k b => BatchOps.set_notNull b (o + k) (negb (ArrayOps.IsNull a (aoff + k))))
        b
      = Ok (BatchOps.with_base b
              (mkBase (capacity (BatchOps.base b)) (numElements (BatchOps.base b))
                      nn (hasNulls (BatchOps.base b))))
      /\ (forall j, j < o \/ o + Z.of_nat n <= j -> nn j = notNull (BatchOps.base b) j)
      /\ (forall k, 0 <= k < Z.of_nat n ->
                    nn (o + k) = negb (ArrayOps.IsNull a (aoff + k))).
Proof.
  induction n as [| n IH]; intros b Ho Hcap.
  - exists (notNull (BatchOps.base b)). cbn [for_loop]. split; [| split].
    + f_equal. destruct b as [[] ?|[] ?|[] ? ?|[] ? ?|[] ?|[] ?|[] ?|[] ? ?|[] ? ? ?];
        reflexivity.
    + reflexivity.
    + intros k Hk. lia.
  - destruct (IH b Ho) as (nn & E & Hold & Hnew); [lia |].
    rewrite for_loop_S, E. cbn [bind].
    rewrite set_notNull_in by (rewrite base_with_base; cbn [capacity]; lia).
    rewrite base_with_base. cbn [capacity numElements notNull hasNulls].
    eexists. split; [| split].
    + f_equal. destruct b; reflexivity.
    + intros j Hj. rewrite upd_other by lia. apply Hold. lia.
    + intros k Hk. destruct (Z.eq_dec k (Z.of_nat n)) as [-> | Hne].
      * rewrite Z.add_0_l. apply upd_same.
      * rewrite upd_other by lia. apply Hnew. lia.
Qed.

Lemma capacity_resize b n : n <= capacity (BatchOps.base (BatchOps.resize b n)).
Proof.
  unfold BatchOps.resize. destruct (Z.ltb_spec (capacity (BatchOps.base b)) n).
  - rewrite base_with_base. cbn. lia.
  - exact H.
Qed.

Lemma holds_resize d2f T b vs n :
  holds d2f T b vs -> holds d2f T (BatchOps.resize b n) vs.
Proof.
  intros H. unfold BatchOps.resize. destruct (_ <? n); [| exact H].
  apply holds_header; cbn [notNull hasNulls]; auto.
Qed.

Section Struct.

Variable float_to_double double_to_float : Z -> Z.

Lemma holds_null_marked T b vs i :
  holds double_to_float T b vs -> 0 <= i < Z.of_nat (List.length vs) ->
  zth vs i LNull = LNull -> notNull (BatchOps.base b) i = false.
Proof.
  intros Hh Hi Hv. destruct T as [| kind subtypes names ml p s]; [contradiction |].
  cbn [holds] in Hh. destruct Hh as [Hm _]. destruct (Hm i Hi) as [[_ Hne] | [Hn _]].
  - contradiction.
  - exact Hn.
Qed.

Lemma write_fields_holds (n aoff alen len : Z) (children : list Array) :
  Forall (writes float_to_double double_to_float) children ->
  0 <= aoff -> 0 <= alen -> aoff + alen <= len -> 0 <= n ->
  forall fs ts bfs cols,
    children_wf (fun c => wf_array c) len children fs ->
    Forall2 (fun f t => GetORCType (snd f) = Ok t) fs ts ->
    fields_hold (fun t f c => holds double_to_float t f c) n ts bfs cols ->
    exists bfs',
      write_fields
        (fun child field =>
           let '(o, m) := ArrayOps.Slice 0 (ArrayOps.length child) aoff alen in
           WriteBatch float_to_double child o m n
                      (BatchOps.resize field (n + alen)) true)
        children bfs = Ok bfs'
      /\ fields_hold (fun t f c => holds double_to_float t f c) (n + alen) ts bfs'
                     (extend_columns in_nanoseconds aoff alen children cols)
      /\ forall k, 0 <= k < alen ->
           forallb (fun c => deep_null c (aoff + k)) children = true ->
           forallb (fun f => negb (notNull (BatchOps.base f) (n + k))
                             && fields_null f (n + k)) bfs' = true.
Proof.
  intros Hall Hao Hal Hwin Hn.
  induction Hall as [| c children Hc _ IH]; intros fs ts bfs cols Hwf Hty Hh.
  - destruct fs; [| contradiction]. inversion Hty; subst.
    destruct bfs, cols; try contradiction. exists [].
    split; [reflexivity |]. split; [exact I | reflexivity].
  - destruct fs as [| f fs]; [contradiction |].
    destruct Hwf as (Hct & Hcl & Hcw & Hwf).
    inversion Hty as [| ? t ? ts' Ht Hty']; subst.
    destruct bfs as [| bf bfs]; [contradiction |].
    destruct cols as [| col cols]; [contradiction |].
    destruct Hh as (Hh1 & Hl1 & Hh).
    cbn [write_fields ArrayOps.Slice].
    replace (Z.min (ArrayOps.length c - aoff) alen) with alen by lia.
    rewrite Z.add_0_l.
    destruct (Hc Hcw t) with (aoff := aoff) (alen := alen)
      (b := BatchOps.resize bf (n + alen)) (vs0 := col) (nz := true)
      as (bf' & E & Hh' & _ & Hd'); try assumption; try lia.
    { rewrite Hct. exact Ht. }
    { apply holds_resize. exact Hh1. }
    { rewrite Hl1. apply capacity_resize. }
    rewrite Hl1 in E, Hd'. rewrite E. cbn [bind].
    destruct (IH fs ts' bfs cols Hwf Hty' Hh) as (bfs' & E' & Hh'' & Hd'').
    cbn [ArrayOps.Slice] in E'. rewrite Z.add_0_l in E'. rewrite E'. cbn [bind].
    exists (bf' :: bfs'). split; [reflexivity |].
    cbn [extend_columns fields_hold]. split; [split; [exact Hh' |]; split; [| exact Hh''] |].
    { rewrite length_app, logical_length. lia. }
    intros k Hk Hdn. cbn [forallb] in *. apply andb_prop in Hdn. destruct Hdn as [Hdc Hdn].
    rewrite (Hd'' k Hk Hdn), (Hd' k Hk Hdc), andb_true_r, andb_true_r.
    apply negb_true_iff.
    apply (holds_null_marked _ _ _ _ Hh').
    { rewrite length_app, logical_length. lia. }
    rewrite zth_app_r by lia. rewrite Hl1. replace (n + k - n) with k by lia.
    rewrite zth_logical by lia. apply logical_at_null.
    destruct c; cbn [deep_null] in Hdc; apply andb_prop in Hdc; apply Hdc.
Qed.

End Struct.

Lemma fields_hold_lengths H n ts bfs cols :
  fields_hold H n ts bfs cols ->
  List.length ts = List.length cols
  /\ Forall (fun c => Z.of_nat (List.length c) = n) cols.
Proof.
  revert bfs cols. induction ts as [| t ts IH]; intros bfs cols Hh;
    destruct bfs, cols; try contradiction.
  - split; [reflexivity | constructor].
  - destruct Hh as (_ & Hl & Hh). destruct (IH _ _ Hh) as [E F].
    split; [cbn; lia | constructor; assumption].
Qed.

Lemma children_wf_length W n cs fs :
  children_wf W n cs fs -> List.length cs = List.length fs.
Proof.
  revert fs. induction cs as [| c cs IH]; intros fs H; destruct fs; try contradiction.
  - reflexivity.
  - destruct H as (_ & _ & _ & H). cbn. f_equal. apply IH. exact H.
Qed.

Lemma extend_columns_old leaf aoff alen children cols n i :
  List.length children = List.length cols ->
  Forall (fun c => Z.of_nat (List.length c) = n) cols ->
  0 <= i < n ->
  map (fun col => zth col i LNull) (extend_columns leaf aoff alen children cols)
  = map (fun col => zth col i LNull) cols.
Proof.
  revert cols. induction children as [| c cs IH]; intros cols Hl Hall Hi;
    destruct cols as [| col cols]; try discriminate Hl; [reflexivity |].
  inversion Hall; subst. cbn [extend_columns map]. f_equal.
  - apply zth_app_l. lia.
  - apply IH; [cbn in Hl; lia | assumption | assumption].
Qed.

Lemma extend_columns_new leaf aoff alen children cols n k :
  List.length children = List.length cols ->
  Forall (fun c => Z.of_nat (List.length c) = n) cols ->
  0 <= k < alen ->
  map (fun col => zth col (n + k) LNull) (extend_columns leaf aoff alen children cols)
  = map (fun c => logical_at leaf c (aoff + k)) children.
Proof.
  revert cols. induction children as [| c cs IH]; intros cols Hl Hall Hk;
    destruct cols as [| col cols]; try discriminate Hl; [reflexivity |].
  inversion Hall; subst. cbn [extend_columns map]. f_equal.
  - rewrite zth_app_r by lia.
    replace (Z.of_nat (List.length col) + k - Z.of_nat (List.length col)) with k by lia.
    apply zth_logical. exact Hk.
  - apply IH; [cbn in Hl; lia | assumption | assumption].
Qed.

Lemma Forall2_map_r {A B C} (R : A -> C -> Prop) (g : B -> C) l r :
  Forall2 (fun x y => R x (g y)) l r -> Forall2 R l (map g r).
Proof. induction 1; cbn; constructor; assumption. Qed.

Section StructCase.

Variable float_to_double double_to_float : Z -> Z.

Lemma writes_struct t n bm children :
  Forall (writes float_to_double double_to_float) children ->
  writes float_to_double double_to_float (StructArray t n bm children).
Proof.
  intros Hall Hwf T HT aoff alen b vs0 nz Hao Hal Hwin Hh Hcap.
  destruct Hwf as (Hlen & Hbm & fs & -> & Hcwf).
  cbn [ArrayOps.type ArrayOps.length] in *.
  cbn [GetORCType] in HT. bind_inv HT. injection HT as <-.
  apply orc_children_spec in E.
  apply (Forall2_map_r (fun f t => GetORCType (snd f) = Ok t) snd) in E.
  unfold liborc.createStructType in *.
  set (a := StructArray (arrow.STRUCT fs) n bm children) in *.
  set (o := Z.of_nat (List.length vs0)) in *.
  cbn [holds] in Hh. fold o in Hh. destruct Hh as [Hm Hbody].
  destruct b as [| | | | | | h bfs | |]; try contradiction.
  destruct Hbody as (cols & Hf & Hrows).
  cbn [BatchOps.base] in *.
  destruct (fields_hold_lengths _ _ _ _ _ Hf) as [Hlc Hcl].
  rewrite length_map in Hlc.
  pose proof (children_wf_length _ _ _ _ Hcwf) as Hlf.
  pose proof (Forall2_length E) as Hle. rewrite length_map in Hle.
  (* the header *)
  set (b0 := mark_hasNulls a aoff alen
               (BatchOps.set_numElements (StructVectorBatch h bfs) o)).
  assert (Hb0 : BatchOps.base b0
                = mkBase (capacity h) o (notNull h)
                    (if ArrayOps.null_count a aoff alen =? 0 then hasNulls h else true)).
  { unfold b0. rewrite mark_hasNulls_base. reflexivity. }
  assert (Eb0 : b0 = StructVectorBatch (BatchOps.base b0) bfs).
  { unfold b0. rewrite mark_hasNulls_eq at 1. reflexivity. }
  destruct (notNull_loop a aoff o (Z.to_nat alen) b0) as (nn & Eloop & Hold & Hnew).
  { unfold o. lia. }
  { rewrite Hb0. cbn [capacity]. lia. }
  replace (Z.of_nat (Z.to_nat alen)) with alen in * by lia.
  (* the fields *)
  destruct (write_fields_holds float_to_double double_to_float o aoff alen n children
              Hall Hao Hal Hwin ltac:(unfold o; lia) fs (map snd x) bfs cols Hcwf E Hf)
    as (bfs' & Ef & Hf' & Hd').
  exists (StructVectorBatch
            (mkBase (capacity h) o nn
               (if ArrayOps.null_count a aoff alen =? 0 then hasNulls h else true))
            bfs').
  split; [| split; [| split; [reflexivity |]]].
  3: { intros k Hk Hdn. cbn [fields_null]. apply Hd'; [exact Hk |].
       unfold a in Hdn. cbn [deep_null] in Hdn. apply andb_prop in Hdn. apply Hdn. }
  - cbn [WriteBatch ArrayOps.type a]. unfold WriteStructBatch.
    cbn [BatchOps.checked_cast BatchOps.class BatchOps.class_eqb
         BatchOps.set_numElements BatchOps.with_base bind].
    change (mark_hasNulls (StructArray (arrow.STRUCT fs) n bm children) aoff alen
              (StructVectorBatch
                 (mkBase (capacity (BatchOps.base (StructVectorBatch h bfs))) o
                    (notNull (BatchOps.base (StructVectorBatch h bfs)))
                    (hasNulls (BatchOps.base (StructVectorBatch h bfs)))) bfs))
      with b0.
    fold a. rewrite Eloop. rewrite Eb0 at 1. rewrite Hb0.
    cbn [bind BatchOps.with_base capacity numElements hasNulls num_fields].
    replace (Z.of_nat (List.length fs) =? Z.of_nat (List.length children)) with true
      by (symmetry; apply Z.eqb_eq; lia).
    rewrite Ef. reflexivity.
  - cbn [holds BatchOps.base notNull hasNulls].
    rewrite length_app, logical_length.
    replace (Z.of_nat (List.length vs0 + Z.to_nat alen)) with (o + alen) by (unfold o; lia).
    rewrite Hb0 in Hold. cbn [notNull] in Hold.
    split.
    + intros i Hi. destruct (Z.lt_ge_cases i o) as [Hlt | Hge].
      * rewrite zth_app_l by (fold o; lia).
        apply (marked_header h); cbn [notNull hasNulls].
        -- apply Hold. lia.
        -- intros ->. destruct (_ =? 0); reflexivity.
        -- apply Hm. lia.
      * assert (exists k, i = o + k /\ 0 <= k < alen) as (k & -> & Hk)
          by (exists (i - o); lia).
        rewrite zth_app_r by (fold o; lia). fold o.
        replace (o + k - o) with k by lia.
        rewrite zth_logical by lia.
        specialize (Hnew k Hk).
        unfold marked. cbn [notNull hasNulls]. rewrite Hnew.
        destruct (ArrayOps.IsNull a (aoff + k)) eqn:En.
        -- right. rewrite (logical_at_null _ _ _ En).
           pose proof (null_count_pos a aoff alen k Hk En) as Hc.
           destruct (Z.eqb_spec (ArrayOps.null_count a aoff alen) 0); [contradiction |].
           auto.
        -- left. split; [reflexivity |]. unfold a. cbn [logical_at]. fold a.
           rewrite En. discriminate.
    + exists (extend_columns in_nanoseconds aoff alen children cols).
      split; [exact Hf' |].
      intros i Hi Hn. destruct (Z.lt_ge_cases i o) as [Hlt | Hge].
      * rewrite zth_app_l by (fold o; lia).
        rewrite (extend_columns_old _ _ _ _ _ o) by (try assumption; lia).
        apply Hrows; [lia |]. rewrite <- Hold by lia. exact Hn.
      * assert (exists k, i = o + k /\ 0 <= k < alen) as (k & -> & Hk)
          by (exists (i - o); lia).
        rewrite zth_app_r by (fold o; lia). fold o.
        replace (o + k - o) with k by lia.
        rewrite zth_logical by lia.
        specialize (Hnew k Hk).
        rewrite Hnew in Hn. apply negb_true_iff in Hn.
        unfold a. cbn [logical_at]. fold a. rewrite Hn. f_equal.
        rewrite (extend_columns_new _ _ _ _ _ o) by (try assumption; lia).
        reflexivity.
Qed.

End StructCase.

(** ** Writing a list *)

Lemma slice_app_l vs ws o n :
  0 <= o -> o + n <= Z.of_nat (List.length vs) ->
  slice (vs ++ ws) o n = slice vs o n.
Proof.
  intros Ho Hn. unfold slice. apply map_ext_in. intros i Hi.
  apply in_zseq in Hi. apply zth_app_l. lia.
Qed.

Lemma slice_all ws : slice ws 0 (Z.of_nat (List.length ws)) = ws.
Proof.
  apply nth_ext with (d := LNull) (d' := LNull).
  - rewrite slice_length. lia.
  - intros k Hk. rewrite slice_length in Hk.
    transitivity (zth (slice ws 0 (Z.of_nat (List.length ws))) (Z.of_nat k) LNull).
    { unfold zth. rewrite Nat2Z.id. reflexivity. }
    unfold slice. rewrite zth_map_zseq by lia. unfold zth. f_equal. lia.
Qed.

Lemma slice_app_r vs ws o n :
  o = Z.of_nat (List.length vs) -> n = Z.of_nat (List.length ws) ->
  slice (vs ++ ws) o n = ws.
Proof.
  intros -> ->.
  transitivity (slice ws 0 (Z.of_nat (List.length ws))); [| apply slice_all].
  unfold slice, zseq. rewrite !map_map. apply map_ext. intros k.
  rewrite zth_app_r by lia. f_equal. lia.
Qed.

Lemma set_offset_list h offs e i v :
  0 <= i <= capacity h ->
  set_offset (ListVectorBatch h offs e) i v = Ok (ListVectorBatch h (upd offs i v) e).
Proof.
  intros H. unfold set_offset. cbn [BatchOps.base].
  destruct (Z.leb_spec 0 i); [| lia]. destruct (Z.leb_spec i (capacity h)); [| lia].
  reflexivity.
Qed.

Lemma set_offset_map h offs k e i v :
  0 <= i <= capacity h ->
  set_offset (MapVectorBatch h offs k e) i v = Ok (MapVectorBatch h (upd offs i v) k e).
Proof.
  intros H. unfold set_offset. cbn [BatchOps.base].
  destruct (Z.leb_spec 0 i); [| lia]. destruct (Z.leb_spec i (capacity h)); [| lia].
  reflexivity.
Qed.

Lemma marked_snoc h h' vs v ro :
  ro = Z.of_nat (List.length vs) ->
  (forall j, j <> ro -> notNull h' j = notNull h j) ->
  (hasNulls h = true -> hasNulls h' = true) ->
  marked h' ro v ->
  (forall i, 0 <= i < ro -> marked h i (zth vs i LNull)) ->
  forall i, 0 <= i < ro + 1 -> marked h' i (zth (vs ++ [v]) i LNull).
Proof.
  intros -> Hnn Hhn Hv Hm i Hi.
  destruct (Z.eq_dec i (Z.of_nat (List.length vs))) as [-> | Hne].
  - rewrite zth_app_r by lia. replace (_ - _) with 0 by lia. exact Hv.
  - rewrite zth_app_l by lia. apply (marked_header h); auto. apply Hm. lia.
Qed.

Section ListCase.

Variable float_to_double double_to_float : Z -> Z.

(** One round of the loop of the list writer, at the first position not
    held yet. *)
Lemma list_round t n bm aoffs values elemtype names ml p s :
  let a := ListArray t n bm aoffs values in
  let T := liborc.mk liborc.LIST [elemtype] names ml p s in
  writes float_to_double double_to_float values -> wf_array a ->
  GetORCType (ArrayOps.type values) = Ok elemtype ->
  forall (rec : Array -> Z -> Z -> Z -> Batch -> bool -> result Batch),
    rec = (fun a o n oo b nz => WriteBatch float_to_double a o n oo b nz) ->
  forall i b vs,
    0 <= i < n ->
    holds double_to_float T b vs ->
    let ro := Z.of_nat (List.length vs) in
    ro < capacity (BatchOps.base b) ->
    (ro = 0 -> get_offset b 0 = 0) ->
    (ArrayOps.IsNull a i = true -> hasNulls (BatchOps.base b) = true) ->
    exists b',
      (if ArrayOps.IsNull a i then
         b <- BatchOps.set_notNull b ro false ;;
         set_offset b (ro + 1) (get_offset b ro)
       else
         b <- BatchOps.set_notNull b ro true ;;
         b <- set_offset b (ro + 1)
                (get_offset b ro
                 + ArrayOps.value_offset a (i + 1)
                 - ArrayOps.value_offset a i) ;;
         match b with
         | ListVectorBatch h offs element_batch =>
             let element_batch :=
               BatchOps.resize element_batch (offs (ro + 1)) in
             let subarray_arrow_offset := ArrayOps.value_offset a i in
             let subarray_orc_offset := offs ro in
             let subarray_orc_length := offs (ro + 1) - subarray_orc_offset in
             let '(o, n) :=
               ArrayOps.Slice 0 (ArrayOps.length values)
                              subarray_arrow_offset subarray_orc_length in
             element_batch <-
               rec values o n subarray_orc_offset element_batch false ;;
             Ok (ListVectorBatch h offs element_batch)
         | _ => Undefined
         end) = Ok b'
      /\ holds double_to_float T b' (vs ++ [logical_at in_nanoseconds a i])
      /\ capacity (BatchOps.base b') = capacity (BatchOps.base b)
      /\ hasNulls (BatchOps.base b') = hasNulls (BatchOps.base b).
Proof.
  intros a T Hw Hwf HT rec -> i b vs Hi Hh ro Hcap H0 Hnull.
  destruct Hwf as (Hlen & Hbm & Hvt & Hwfv & Hoffs).
  cbn [ArrayOps.length] in Hlen.
  destruct (Hoffs i Hi) as (Ho1 & Ho2 & Ho3). fold a in Ho1, Ho2, Ho3.
  unfold T in Hh. cbn [holds] in Hh. fold ro in Hh. destruct Hh as [Hm Hbody].
  destruct b as [| | | | | | | h boffs elems |]; try contradiction.
  destruct Hbody as (flat & Hflat & Hfl & Hslots).
  cbn [BatchOps.base get_offset] in *.
  assert (Hfl' : Z.of_nat (List.length flat) = boffs ro).
  { destruct (Z.eqb_spec ro 0) as [E | E]; [| exact Hfl]. rewrite E, H0; assumption. }
  assert (Hro : 0 <= ro) by (unfold ro; lia).
  destruct (ArrayOps.IsNull a i) eqn:En;
    rewrite set_notNull_in by (cbn [BatchOps.base]; lia);
    cbn [bind BatchOps.with_base BatchOps.base capacity numElements notNull hasNulls
         get_offset].
  - rewrite set_offset_list by (cbn [capacity]; lia).
    eexists. split; [reflexivity |]. cbn [BatchOps.base capacity hasNulls].
    split; [| split; reflexivity].
    rewrite (logical_at_null _ _ _ En).
    unfold T. cbn [holds BatchOps.base]. rewrite length_app. cbn [List.length].
    replace (Z.of_nat (List.length vs + 1)) with (ro + 1) by (unfold ro; lia).
    split.
    + apply (marked_snoc h); cbn [notNull hasNulls]; auto.
      * intros j Hj. apply upd_other. exact Hj.
      * right. cbn [notNull hasNulls]. rewrite upd_same. auto.
    + exists flat. split; [exact Hflat |]. split.
      * destruct (Z.eqb_spec (ro + 1) 0); [lia |]. rewrite upd_same. exact Hfl'.
      * intros j Hj. cbn [notNull].
        destruct (Z.eq_dec j ro) as [-> | Hne].
        -- rewrite upd_same, (upd_other _ _ _ ro) by lia.
           rewrite (upd_same (notNull h)).
           split; [| split; [| split]]; try lia.
        -- rewrite !(upd_other boffs) by lia. rewrite (upd_other (notNull h)) by lia.
           destruct (Hslots j) as (A & B & C & D); [lia |].
           split; [| split; [| split]]; try assumption.
           intros Hn. rewrite zth_app_l by (fold ro; lia). apply D. exact Hn.
  - rewrite set_offset_list by (cbn [capacity]; lia).
    cbn [bind]. rewrite upd_same, (upd_other _ _ _ ro) by lia.
    set (m := ArrayOps.value_offset a (i + 1) - ArrayOps.value_offset a i) in *.
    replace (boffs ro + ArrayOps.value_offset a (i + 1) - ArrayOps.value_offset a i)
      with (boffs ro + m) by (unfold m; lia).
    replace (boffs ro + m - boffs ro) with m by lia.
    cbn [ArrayOps.Slice]. rewrite Z.add_0_l.
    replace (Z.min (ArrayOps.length values - ArrayOps.value_offset a i) m)
      with m by (unfold m; lia).
    destruct (Hw Hwfv elemtype HT (ArrayOps.value_offset a i) m
                 (BatchOps.resize elems (boffs ro + m)) flat false)
      as (elems' & E & Hflat' & _ & _); try (unfold m; lia).
    { apply holds_resize. exact Hflat. }
    { rewrite Hfl'. apply capacity_resize. }
    rewrite Hfl' in E. rewrite E. cbn [bind].
    eexists. split; [reflexivity |]. cbn [BatchOps.base capacity hasNulls].
    split; [| split; reflexivity].
    unfold T. cbn [holds BatchOps.base]. rewrite length_app. cbn [List.length].
    replace (Z.of_nat (List.length vs + 1)) with (ro + 1) by (unfold ro; lia).
    assert (Hat : logical_at in_nanoseconds a i
                  = LList (logical in_nanoseconds values (ArrayOps.value_offset a i) m)).
    { unfold a at 1. cbn [logical_at]. fold a. rewrite En. reflexivity. }
    split.
    + apply (marked_snoc h); cbn [notNull hasNulls]; auto.
      * intros j Hj. apply upd_other. exact Hj.
      * left. cbn [notNull hasNulls]. rewrite upd_same. split; [reflexivity |]. rewrite Hat. discriminate.
    + exists (flat ++ logical in_nanoseconds values (ArrayOps.value_offset a i) m).
      split; [exact Hflat' |].
      assert (Hl' : Z.of_nat (List.length
                      (flat ++ logical in_nanoseconds values (ArrayOps.value_offset a i) m))
                    = boffs ro + m).
      { rewrite length_app, logical_length. unfold m. lia. }
      rewrite Hl'. split.
      * destruct (Z.eqb_spec (ro + 1) 0); [lia |]. rewrite upd_same. reflexivity.
      * intros j Hj. cbn [notNull].
        destruct (Z.eq_dec j ro) as [-> | Hne].
        -- rewrite upd_same, (upd_other _ _ _ ro) by lia.
           rewrite (upd_same (notNull h)).
           split; [| split; [| split]]; try (unfold m; lia).
           intros _. rewrite zth_app_r by (fold ro; lia). fold ro.
           replace (ro - ro) with 0 by lia. cbn [zth Z.to_nat nth].
           rewrite Hat. f_equal.
           replace (boffs ro + m - boffs ro) with m by lia.
           symmetry. apply slice_app_r; [lia |].
           rewrite logical_length. unfold m. lia.
        -- rewrite !(upd_other boffs) by lia. rewrite (upd_other (notNull h)) by lia.
           destruct (Hslots j) as (A & B & C & D); [lia |].
           split; [| split; [| split]]; try assumption; try (unfold m; lia).
           intros Hn. rewrite zth_app_l by (fold ro; lia).
           rewrite slice_app_l by lia. apply D. exact Hn.
Qed.

End ListCase.

(** The loop of the list writer and of the map writer, from its rounds. *)
Lemma rounds_loop d2f T leaf a aoff alen (body : Z -> Batch -> result Batch) vs0 :
  let o := Z.of_nat (List.length vs0) in
  (forall k b vs,
      0 <= k < alen -> holds d2f T b vs -> Z.of_nat (List.length vs) = o + k ->
      o + k < capacity (BatchOps.base b) ->
      (o + k = 0 -> get_offset b 0 = 0) ->
      (ArrayOps.IsNull a (aoff + k) = true -> hasNulls (BatchOps.base b) = true) ->
      exists b',
        body k b = Ok b'
        /\ holds d2f T b' (vs ++ [logical_at leaf a (aoff + k)])
        /\ capacity (BatchOps.base b') = capacity (BatchOps.base b)
        /\ hasNulls (BatchOps.base b') = hasNulls (BatchOps.base b)) ->
  forall (n : nat) b,
    Z.of_nat n <= alen ->
    holds d2f T b vs0 ->
    o + Z.of_nat n <= capacity (BatchOps.base b) ->
    (o = 0 -> get_offset b 0 = 0) ->
    (forall k, 0 <= k < Z.of_nat n -> ArrayOps.IsNull a (aoff + k) = true ->
               hasNulls (BatchOps.base b) = true) ->
    exists b',
      for_loop n 0 body b = Ok b'
      /\ holds d2f T b' (vs0 ++ logical leaf a aoff (Z.of_nat n))
      /\ capacity (BatchOps.base b') = capacity (BatchOps.base b)
      /\ hasNulls (BatchOps.base b') = hasNulls (BatchOps.base b)
      /\ (o + Z.of_nat n = 0 -> get_offset b' 0 = 0).
Proof.
  intros o Hround. induction n as [| n IH]; intros b Hn Hh Hcap H0 Hnull.
  - exists b. cbn [for_loop]. unfold logical. cbn. rewrite app_nil_r.
    repeat split; auto. intros E. apply H0. lia.
  - destruct (IH b) as (b1 & E1 & Hh1 & Hc1 & Hn1 & H01); try assumption; try lia.
    { intros k Hk. apply Hnull. lia. }
    rewrite for_loop_S, E1. cbn [bind]. rewrite Z.add_0_l.
    destruct (Hround (Z.of_nat n) b1 (vs0 ++ logical leaf a aoff (Z.of_nat n)))
      as (b2 & E2 & Hh2 & Hc2 & Hn2); try assumption; try lia.
    { rewrite length_app, logical_length. unfold o. lia. }
    { rewrite Hn1. apply Hnull. lia. }
    exists b2. split; [exact E2 |].
    replace (Z.of_nat (S n)) with (Z.of_nat n + 1) by lia.
    rewrite logical_snoc, app_assoc by lia.
    split; [exact Hh2 |]. split; [congruence |]. split; [congruence |].
    unfold o. lia.
Qed.

Lemma holds_list_offset0 d2f elemtype names ml p s h offs e :
  holds d2f (liborc.mk liborc.LIST [elemtype] names ml p s) (ListVectorBatch h offs e) [] ->
  holds d2f (liborc.mk liborc.LIST [elemtype] names ml p s)
        (ListVectorBatch h (upd offs 0 0) e) [].
Proof.
  cbn [holds List.length BatchOps.base]. intros (Hm & flat & Hf & Hl & Hs).
  split; [exact Hm |]. exists flat. split; [exact Hf |]. split; [exact Hl |].
  intros i Hi. cbn in Hi. lia.
Qed.

Lemma holds_map_offset0 d2f kt it names ml p s h offs k e :
  holds d2f (liborc.mk liborc.MAP [kt; it] names ml p s) (MapVectorBatch h offs k e) [] ->
  holds d2f (liborc.mk liborc.MAP [kt; it] names ml p s)
        (MapVectorBatch h (upd offs 0 0) k e) [].
Proof.
  cbn [holds List.length BatchOps.base]. intros (Hm & kf & itf & Hk & Hit & Hlk & Hli & Hs).
  split; [exact Hm |]. exists kf, itf. repeat split; try assumption; cbn in *; lia.
Qed.

Section ListWriter.

Variable float_to_double double_to_float : Z -> Z.

Lemma writes_list t n bm aoffs values :
  writes float_to_double double_to_float values ->
  writes float_to_double double_to_float (ListArray t n bm aoffs values).
Proof.
  intros Hw Hwf T HT aoff alen b vs0 nz Hao Hal Hwin Hh Hcap.
  pose proof Hwf as (Hlen & Hbm & Hvt & Hwfv & Hoffs).
  cbn [ArrayOps.type ArrayOps.length] in *.
  set (a := ListArray t n bm aoffs values) in *.
  set (o := Z.of_nat (List.length vs0)) in *.
  assert (exists elemtype,
             GetORCType (ArrayOps.type values) = Ok elemtype
             /\ T = liborc.createListType elemtype
             /\ WriteBatch float_to_double a aoff alen o b nz
                = WriteListBatch
                    (fun a o n oo b nz => WriteBatch float_to_double a o n oo b nz)
                    a aoff alen o (BatchOps.set_numElements b o))
    as (elemtype & HTe & -> & ->).
  { destruct t; try discriminate Hvt; cbn [list_value_type] in Hvt;
      injection Hvt as ->; cbn [GetORCType] in HT; bind_inv HT;
      injection HT as <-; apply ValueOrDie_Ok in E;
      (exists x; split; [exact E | split; reflexivity]). }
  unfold liborc.createListType in *.
  assert (Hh0 := holds_set_numElements _ _ _ _ o Hh).
  remember (BatchOps.set_numElements b o) as b0 eqn:Eb0.
  assert (Hc0 : capacity (BatchOps.base b0) = capacity (BatchOps.base b)).
  { subst b0. unfold BatchOps.set_numElements. rewrite base_with_base. reflexivity. }
  clear Eb0 Hh. rewrite <- Hc0 in Hcap. rewrite <- Hc0. clear Hc0 b.
  pose proof Hh0 as Hshape. cbn [holds] in Hshape. destruct Hshape as [_ Hshape].
  destruct b0 as [| | | | | | | h boffs elems |]; try contradiction. clear Hshape.
  unfold WriteListBatch. unfold a at 1.
  cbn [BatchOps.checked_cast BatchOps.class BatchOps.class_eqb bind].
  cbn [BatchOps.base] in Hcap.
  (* the first offset *)
  assert (exists boffs',
             (if o =? 0 then set_offset (ListVectorBatch h boffs elems) 0 0
              else Ok (ListVectorBatch h boffs elems))
             = Ok (ListVectorBatch h boffs' elems)
             /\ holds double_to_float (liborc.mk liborc.LIST [elemtype] [] 0 0 0)
                      (ListVectorBatch h boffs' elems) vs0
             /\ (o = 0 -> boffs' 0 = 0)) as (boffs' & -> & Hh1 & H01).
  { destruct (Z.eqb_spec o 0) as [E | E].
    - exists (upd boffs 0 0). rewrite set_offset_list by lia.
      split; [reflexivity |]. split; [| intros _; apply upd_same].
      destruct vs0; [| cbn in E; lia]. apply holds_list_offset0. exact Hh0.
    - exists boffs. split; [reflexivity |]. split; [exact Hh0 | contradiction]. }
  cbn [bind]. fold a.
  set (b1 := mark_hasNulls a aoff alen (ListVectorBatch h boffs' elems)).
  assert (Hc1 : capacity (BatchOps.base b1) = capacity h).
  { unfold b1. rewrite mark_hasNulls_base. reflexivity. }
  edestruct (rounds_loop double_to_float (liborc.mk liborc.LIST [elemtype] [] 0 0 0)
               in_nanoseconds a aoff alen) with (vs0 := vs0) (n := Z.to_nat alen) (b := b1)
    as (b' & E & Hh' & Hc' & _).
  2: lia.
  2: { apply holds_mark_hasNulls. exact Hh1. }
  2: { rewrite Hc1. fold o. lia. }
  2: { intros E0. unfold b1. rewrite get_offset_mark_hasNulls. apply H01. exact E0. }
  2: { intros k Hk. apply mark_hasNulls_marks. lia. }
  2: { exists b'. split; [exact E |].
       replace (Z.of_nat (Z.to_nat alen)) with alen in Hh' by lia.
       split; [exact Hh' |]. split; [rewrite Hc', Hc1; reflexivity |].
       intros k _ _. cbn [holds] in Hh'. destruct Hh' as [_ Hb'].
       destruct b'; try contradiction. reflexivity. }
  fold o. intros k bk vs Hk Hhk Hlk Hck H0k Hnk. cbv beta zeta.
  rewrite <- Hlk.
  apply (list_round float_to_double double_to_float t n bm aoffs values elemtype
           [] 0 0 0 Hw Hwf HTe _ eq_refl (aoff + k) bk vs); try assumption; try lia.
Qed.

End ListWriter.

(** ** Writing a map *)

Section MapCase.

Variable float_to_double double_to_float : Z -> Z.

(** One round of the loop of the map writer, at the first position not held
    yet. *)
Lemma map_round t n bm aoffs keys items kt it names ml p s :
  let a := MapArray t n bm aoffs keys items in
  let T := liborc.mk liborc.MAP [kt; it] names ml p s in
  writes float_to_double double_to_float keys ->
  writes float_to_double double_to_float items ->
  wf_array a ->
  GetORCType (ArrayOps.type keys) = Ok kt ->
  GetORCType (ArrayOps.type items) = Ok it ->
  forall (rec : Array -> Z -> Z -> Z -> Batch -> bool -> result Batch),
    rec = (fun a o n oo b nz => WriteBatch float_to_double a o n oo b nz) ->
  forall i b vs,
    0 <= i < n ->
    holds double_to_float T b vs ->
    let ro := Z.of_nat (List.length vs) in
    ro < capacity (BatchOps.base b) ->
    (ro = 0 -> get_offset b 0 = 0) ->
    (ArrayOps.IsNull a i = true -> hasNulls (BatchOps.base b) = true) ->
    exists b',
      (if ArrayOps.IsNull a i then
         b <- BatchOps.set_notNull b ro false ;;
         set_offset b (ro + 1) (get_offset b ro)
       else
         b <- BatchOps.set_notNull b ro true ;;
         b <- set_offset b (ro + 1)
                (get_offset b ro
                 + ArrayOps.value_offset a (i + 1)
                 - ArrayOps.value_offset a i) ;;
         match b with
         | MapVectorBatch h offs key_batch element_batch =>
             let subarray_arrow_offset := ArrayOps.value_offset a i in
             let subarray_orc_offset := offs ro in
             let new_subarray_orc_offset := offs (ro + 1) in
             let subarray_orc_length :=
               new_subarray_orc_offset - subarray_orc_offset in
             let key_batch := BatchOps.resize key_batch new_subarray_orc_offset in
             let element_batch :=
               BatchOps.resize element_batch new_subarray_orc_offset in
             let '(ko, kn) :=
               ArrayOps.Slice 0 (ArrayOps.length keys)
                              subarray_arrow_offset subarray_orc_length in
             key_batch <-
               rec keys ko kn subarray_orc_offset key_batch false ;;
             let '(eo, en) :=
               ArrayOps.Slice 0 (ArrayOps.length items)
                              subarray_arrow_offset subarray_orc_length in
             element_batch <-
               rec items eo en subarray_orc_offset element_batch false ;;
             Ok (MapVectorBatch h offs key_batch element_batch)
         | _ => Undefined
         end) = Ok b'
      /\ holds double_to_float T b' (vs ++ [logical_at in_nanoseconds a i])
      /\ capacity (BatchOps.base b') = capacity (BatchOps.base b)
      /\ hasNulls (BatchOps.base b') = hasNulls (BatchOps.base b).
Proof.
  intros a T Hwk Hwi Hwf HTk HTi rec -> i b vs Hi Hh ro Hcap H0 Hnull.
  destruct Hwf as (Hlen & Hbm & Ht & Hwfk & Hwfi & Hoffs).
  cbn [ArrayOps.length] in Hlen.
  destruct (Hoffs i Hi) as (Ho1 & Ho2 & Ho3 & Ho4). fold a in Ho1, Ho2, Ho3, Ho4.
  unfold T in Hh. cbn [holds] in Hh. fold ro in Hh. destruct Hh as [Hm Hbody].
  destruct b as [| | | | | | | | h boffs kb ib]; try contradiction.
  destruct Hbody as (kflat & iflat & Hkflat & Hiflat & Hkl & Hil & Hslots).
  cbn [BatchOps.base get_offset] in *.
  assert (Hkl' : Z.of_nat (List.length kflat) = boffs ro).
  { destruct (Z.eqb_spec ro 0) as [E | E]; [| exact Hkl]. rewrite E, H0; assumption. }
  assert (Hil' : Z.of_nat (List.length iflat) = boffs ro).
  { destruct (Z.eqb_spec ro 0) as [E | E]; [| exact Hil]. rewrite E, H0; assumption. }
  assert (Hro : 0 <= ro) by (unfold ro; lia).
  destruct (ArrayOps.IsNull a i) eqn:En;
    rewrite set_notNull_in by (cbn [BatchOps.base]; lia);
    cbn [bind BatchOps.with_base BatchOps.base capacity numElements notNull hasNulls
         get_offset].
  - rewrite set_offset_map by (cbn [capacity]; lia).
    eexists. split; [reflexivity |]. cbn [BatchOps.base capacity hasNulls].
    split; [| split; reflexivity].
    rewrite (logical_at_null _ _ _ En).
    unfold T. cbn [holds BatchOps.base]. rewrite length_app. cbn [List.length].
    replace (Z.of_nat (List.length vs + 1)) with (ro + 1) by (unfold ro; lia).
    split.
    + apply (marked_snoc h); cbn [notNull hasNulls]; auto.
      * intros j Hj. apply upd_other. exact Hj.
      * right. cbn [notNull hasNulls]. rewrite upd_same. auto.
    + exists kflat, iflat. split; [exact Hkflat |]. split; [exact Hiflat |].
      destruct (Z.eqb_spec (ro + 1) 0); [lia |]. rewrite upd_same.
      split; [exact Hkl' |]. split; [exact Hil' |].
      intros j Hj. cbn [notNull].
      destruct (Z.eq_dec j ro) as [-> | Hne].
      * rewrite upd_same, (upd_other _ _ _ ro) by lia.
        rewrite (upd_same (notNull h)).
        split; [| split; [| split]]; try lia.
      * rewrite !(upd_other boffs) by lia. rewrite (upd_other (notNull h)) by lia.
        destruct (Hslots j) as (A & B & C & D); [lia |].
        split; [| split; [| split]]; try assumption.
        intros Hn. rewrite zth_app_l by (fold ro; lia). apply D. exact Hn.
  - rewrite set_offset_map by (cbn [capacity]; lia).
    cbn [bind]. rewrite upd_same, (upd_other _ _ _ ro) by lia.
    set (m := ArrayOps.value_offset a (i + 1) - ArrayOps.value_offset a i) in *.
    replace (boffs ro + ArrayOps.value_offset a (i + 1) - ArrayOps.value_offset a i)
      with (boffs ro + m) by (unfold m; lia).
    replace (boffs ro + m - boffs ro) with m by lia.
    cbn [ArrayOps.Slice]. rewrite Z.add_0_l.
    replace (Z.min (ArrayOps.length keys - ArrayOps.value_offset a i) m)
      with m by (unfold m; lia).
    replace (Z.min (ArrayOps.length items - ArrayOps.value_offset a i) m)
      with m by (unfold m; lia).
    destruct (Hwk Hwfk kt HTk (ArrayOps.value_offset a i) m
                 (BatchOps.resize kb (boffs ro + m)) kflat false)
      as (kb' & Ek & Hkflat' & _ & _); try (unfold m; lia).
    { apply holds_resize. exact Hkflat. }
    { rewrite Hkl'. apply capacity_resize. }
    destruct (Hwi Hwfi it HTi (ArrayOps.value_offset a i) m
                 (BatchOps.resize ib (boffs ro + m)) iflat false)
      as (ib' & Ei & Hiflat' & _ & _); try (unfold m; lia).
    { apply holds_resize. exact Hiflat. }
    { rewrite Hil'. apply capacity_resize. }
    rewrite Hkl' in Ek. rewrite Ek. cbn [bind].
    rewrite Hil' in Ei. rewrite Ei. cbn [bind].
    eexists. split; [reflexivity |]. cbn [BatchOps.base capacity hasNulls].
    split; [| split; reflexivity].
    unfold T. cbn [holds BatchOps.base]. rewrite length_app. cbn [List.length].
    replace (Z.of_nat (List.length vs + 1)) with (ro + 1) by (unfold ro; lia).
    assert (Hat : logical_at in_nanoseconds a i
                  = LMap (logical in_nanoseconds keys (ArrayOps.value_offset a i) m)
                         (logical in_nanoseconds items (ArrayOps.value_offset a i) m)).
    { unfold a at 1. cbn [logical_at]. fold a. rewrite En. reflexivity. }
    split.
    + apply (marked_snoc h); cbn [notNull hasNulls]; auto.
      * intros j Hj. apply upd_other. exact Hj.
      * left. cbn [notNull hasNulls]. rewrite upd_same. split; [reflexivity |].
        rewrite Hat. discriminate.
    + exists (kflat ++ logical in_nanoseconds keys (ArrayOps.value_offset a i) m),
             (iflat ++ logical in_nanoseconds items (ArrayOps.value_offset a i) m).
      split; [exact Hkflat' |]. split; [exact Hiflat' |].
      rewrite !length_app, !logical_length.
      destruct (Z.eqb_spec (ro + 1) 0); [lia |]. rewrite upd_same.
      split; [unfold m; lia |]. split; [unfold m; lia |].
      intros j Hj. cbn [notNull].
      destruct (Z.eq_dec j ro) as [-> | Hne].
      * rewrite upd_same, (upd_other _ _ _ ro) by lia.
        rewrite (upd_same (notNull h)).
        split; [| split; [| split]]; try (unfold m; lia).
        intros _. rewrite zth_app_r by (fold ro; lia). fold ro.
        replace (ro - ro) with 0 by lia. cbn [zth Z.to_nat nth].
        rewrite Hat.
        replace (boffs ro + m - boffs ro) with m by lia.
        f_equal; symmetry; apply slice_app_r; try lia;
          rewrite logical_length; unfold m; lia.
      * rewrite !(upd_other boffs) by lia. rewrite (upd_other (notNull h)) by lia.
        destruct (Hslots j) as (A & B & C & D); [lia |].
        split; [| split; [| split]]; try assumption; try (unfold m; lia).
        intros Hn. rewrite zth_app_l by (fold ro; lia).
        rewrite !slice_app_l by lia. apply D. exact Hn.
Qed.

Lemma writes_map t n bm aoffs keys items :
  writes float_to_double double_to_float keys ->
  writes float_to_double double_to_float items ->
  writes float_to_double double_to_float (MapArray t n bm aoffs keys items).
Proof.
  intros Hwk Hwi Hwf T HT aoff alen b vs0 nz Hao Hal Hwin Hh Hcap.
  pose proof Hwf as (Hlen & Hbm & Ht & Hwfk & Hwfi & Hoffs).
  cbn [ArrayOps.type ArrayOps.length] in *.
  set (a := MapArray t n bm aoffs keys items) in *.
  set (o := Z.of_nat (List.length vs0)) in *.
  assert (exists kt it,
             GetORCType (ArrayOps.type keys) = Ok kt
             /\ GetORCType (ArrayOps.type items) = Ok it
             /\ T = liborc.createMapType kt it
             /\ WriteBatch float_to_double a aoff alen o b nz
                = WriteMapBatch
                    (fun a o n oo b nz => WriteBatch float_to_double a o n oo b nz)
                    a aoff alen o (BatchOps.set_numElements b o))
    as (kt & it & HTk & HTi & -> & ->).
  { unfold a. rewrite Ht in *. cbn [GetORCType] in HT. bind_inv HT. bind_inv HT.
    injection HT as <-. apply ValueOrDie_Ok in E, E0.
    exists x, x0. repeat split; try assumption; reflexivity. }
  unfold liborc.createMapType in *.
  assert (Hh0 := holds_set_numElements _ _ _ _ o Hh).
  remember (BatchOps.set_numElements b o) as b0 eqn:Eb0.
  assert (Hc0 : capacity (BatchOps.base b0) = capacity (BatchOps.base b)).
  { subst b0. unfold BatchOps.set_numElements. rewrite base_with_base. reflexivity. }
  clear Eb0 Hh. rewrite <- Hc0 in Hcap. rewrite <- Hc0. clear Hc0 b.
  pose proof Hh0 as Hshape. cbn [holds] in Hshape. destruct Hshape as [_ Hshape].
  destruct b0 as [| | | | | | | | h boffs kb ib]; try contradiction. clear Hshape.
  unfold WriteMapBatch. unfold a at 1.
  cbn [BatchOps.checked_cast BatchOps.class BatchOps.class_eqb bind].
  cbn [BatchOps.base] in Hcap.
  assert (exists boffs',
             (if o =? 0 then set_offset (MapVectorBatch h boffs kb ib) 0 0
              else Ok (MapVectorBatch h boffs kb ib))
             = Ok (MapVectorBatch h boffs' kb ib)
             /\ holds double_to_float (liborc.mk liborc.MAP [kt; it] [] 0 0 0)
                      (MapVectorBatch h boffs' kb ib) vs0
             /\ (o = 0 -> boffs' 0 = 0)) as (boffs' & -> & Hh1 & H01).
  { destruct (Z.eqb_spec o 0) as [E | E].
    - exists (upd boffs 0 0). rewrite set_offset_map by lia.
      split; [reflexivity |]. split; [| intros _; apply upd_same].
      destruct vs0; [| cbn in E; lia]. apply holds_map_offset0. exact Hh0.
    - exists boffs. split; [reflexivity |]. split; [exact Hh0 | contradiction]. }
  cbn [bind]. fold a.
  set (b1 := mark_hasNulls a aoff alen (MapVectorBatch h boffs' kb ib)).
  assert (Hc1 : capacity (BatchOps.base b1) = capacity h).
  { unfold b1. rewrite mark_hasNulls_base. reflexivity. }
  edestruct (rounds_loop double_to_float (liborc.mk liborc.MAP [kt; it] [] 0 0 0)
               in_nanoseconds a aoff alen) with (vs0 := vs0) (n := Z.to_nat alen) (b := b1)
    as (b' & E & Hh' & Hc' & _).
  2: lia.
  2: { apply holds_mark_hasNulls. exact Hh1. }
  2: { rewrite Hc1. fold o. lia. }
  2: { intros E0. unfold b1. rewrite get_offset_mark_hasNulls. apply H01. exact E0. }
  2: { intros k Hk. apply mark_hasNulls_marks. lia. }
  2: { exists b'. split; [exact E |].
       replace (Z.of_nat (Z.to_nat alen)) with alen in Hh' by lia.
       split; [exact Hh' |]. split; [rewrite Hc', Hc1; reflexivity |].
       intros k _ _. cbn [holds] in Hh'. destruct Hh' as [_ Hb'].
       destruct b'; try contradiction. reflexivity. }
  fold o. intros k bk vs Hk Hhk Hlk Hck H0k Hnk. cbv beta zeta.
  rewrite <- Hlk.
  apply (map_round t n bm aoffs keys items kt it
           [] 0 0 0 Hwk Hwi Hwf HTk HTi _ eq_refl (aoff + k) bk vs); try assumption; try lia.
Qed.

Lemma holds_leaf_fields_null T b vs j :
  match T with
  | liborc.mk liborc.STRUCT _ _ _ _ _ => False
  | _ => True
  end ->
  holds double_to_float T b vs -> fields_null b j = true.
Proof.
  intros HT Hh. destruct T as [| kind subtypes names ml p s]; [contradiction |].
  cbn [holds] in Hh. destruct Hh as [_ Hb].
  destruct kind; try contradiction;
    try (destruct Hb as [[v Hv] _]; destruct b; try discriminate Hv; reflexivity);
    destruct b; try contradiction; reflexivity.
Qed.

(** The encoder writes a window of any well-formed array after the values
    the batch holds, and the batch then holds them all. *)
Lemma WriteBatch_holds (a : Array) :
  (forall x, double_to_float (float_to_double x) = x) ->
  writes float_to_double double_to_float a.
Proof.
  intros float_exact. induction a using Array_induction.
  - intros Hwf T HT aoff alen b vs0 nz Hao Hal Hwin Hh Hcap.
    destruct (WriteBatch_primitive float_to_double double_to_float float_exact
                t n bm vs Hwf T HT aoff alen b vs0 nz Hao Hal Hwin Hh Hcap)
      as (b' & E & Hh' & Hc').
    exists b'. repeat split; try assumption.
    intros k _ _. destruct Hwf as (_ & _ & Hty & _).
    eapply holds_leaf_fields_null; [| exact Hh'].
    cbn [ArrayOps.type] in HT.
    destruct t; try discriminate Hty; cbn [GetORCType] in HT; injection HT as <-;
      reflexivity.
  - intros Hwf T HT aoff alen b vs0 nz Hao Hal Hwin Hh Hcap.
    destruct (WriteBatch_binary float_to_double double_to_float
                t n bm vs Hwf T HT aoff alen b vs0 nz Hao Hal Hwin Hh Hcap)
      as (b' & E & Hh' & Hc').
    exists b'. repeat split; try assumption.
    intros k _ _. destruct Hwf as (_ & _ & Hty & _).
    eapply holds_leaf_fields_null; [| exact Hh'].
    cbn [ArrayOps.type] in HT.
    destruct t; try discriminate Hty; cbn [GetORCType] in HT; injection HT as <-;
      reflexivity.
  - apply writes_struct. assumption.
  - apply writes_list. assumption.
  - apply writes_map; assumption.
Qed.

End MapCase.

(** ** Normalisation *)

Lemma NormalizeArray_from_type a len bm :
  ArrayOps.type (NormalizeArray_from a len bm) = ArrayOps.type a.
Proof.
  destruct a as [t n b vs|t n b vs|t n b cs|t n b o v|t n b o k i]; cbn [NormalizeArray_from].
  - reflexivity.
  - reflexivity.
  - destruct t, bm; try reflexivity. destruct (_ =? 0); reflexivity.
  - destruct t; reflexivity.
  - destruct t; reflexivity.
Qed.

Lemma NormalizeArray_from_bitmap a len bm :
  ArrayOps.null_bitmap (NormalizeArray_from a len bm) = bm.
Proof.
  destruct a as [t n b vs|t n b vs|t n b cs|t n b o v|t n b o k i]; cbn [NormalizeArray_from].
  - reflexivity.
  - reflexivity.
  - destruct t, bm; try reflexivity. destruct (_ =? 0); reflexivity.
  - destruct t; reflexivity.
  - destruct t; reflexivity.
Qed.

Lemma IsNull_NormalizeArray_from a len bm i :
  ArrayOps.IsNull (NormalizeArray_from a len bm) i = null_in bm i.
Proof. unfold ArrayOps.IsNull. rewrite NormalizeArray_from_bitmap. reflexivity. Qed.

Lemma NormalizeArray_from_value_offset a len bm i :
  ArrayOps.value_offset (NormalizeArray_from a len bm) i = ArrayOps.value_offset a i.
Proof.
  destruct a as [t n b vs|t n b vs|t n b cs|t n b o v|t n b o k j]; cbn [NormalizeArray_from].
  - reflexivity.
  - reflexivity.
  - destruct t, bm; try reflexivity. destruct (_ =? 0); reflexivity.
  - destruct t; reflexivity.
  - destruct t; reflexivity.
Qed.

Lemma bitmap_null_count_zero bits len i :
  bitmap_null_count (Some bits) len = 0 -> 0 <= i < len -> zth bits i false = true.
Proof.
  unfold bitmap_null_count. intros H Hi.
  destruct (zth bits i false) eqn:E; [reflexivity |].
  assert (In i (filter (fun i => negb (zth bits i false)) (zseq 0 len))) as Hin.
  { apply filter_In. split; [apply in_zseq; lia | rewrite E; reflexivity]. }
  destruct (filter _ (zseq 0 len)); [destruct Hin | cbn in H; lia].
Qed.

Lemma zth_BitmapAnd l r len i :
  0 <= i < len -> zth (BitmapAnd l r len) i false = zth l i false && zth r i false.
Proof. intros H. unfold BitmapAnd. rewrite zth_map_zseq by lia. reflexivity. Qed.

Lemma children_wf_weaken (W W' : Array -> Prop) n n' cs cs' fs :
  Forall2 (fun c c' => ArrayOps.type c' = ArrayOps.type c
                       /\ (n <= ArrayOps.length c -> n' <= ArrayOps.length c')
                       /\ (W c -> n <= ArrayOps.length c -> W' c')) cs cs' ->
  children_wf W n cs fs -> children_wf W' n' cs' fs.
Proof.
  intros H. revert fs. induction H as [| c c' cs cs' (Ht & Hl & Hw) _ IH]; intros fs Hwf.
  - exact Hwf.
  - destruct fs as [| f fs]; [contradiction |]. destruct Hwf as (A & B & C & D).
    cbn [children_wf]. rewrite Ht. auto.
Qed.

Lemma Forall2_map_self {A B} (R : A -> B -> Prop) (g : A -> B) l :
  Forall (fun x => R x (g x)) l -> Forall2 R l (map g l).
Proof. induction 1; cbn; constructor; assumption. Qed.

Lemma Forall2_refl {A} (R : A -> A -> Prop) l :
  Forall (fun x => R x x) l -> Forall2 R l l.
Proof. induction 1; constructor; assumption. Qed.

Lemma children_wf_Forall W n cs fs :
  children_wf W n cs fs -> Forall (fun c => W c /\ n <= ArrayOps.length c) cs.
Proof.
  revert fs. induction cs as [| c cs IH]; intros fs H; [constructor |].
  destruct fs; [contradiction |]. destruct H as (_ & Hl & Hw & H).
  constructor; [auto | eapply IH; exact H].
Qed.

Lemma narrows_self a : wf_array a -> narrows a (ArrayOps.length a) (ArrayOps.null_bitmap a).
Proof.
  intros Hwf. assert (H : 0 <= ArrayOps.length a
                          /\ match ArrayOps.null_bitmap a with
                             | Some bm => ArrayOps.length a <= Z.of_nat (List.length bm)
                             | None => True
                             end).
  { destruct a; cbn [wf_array] in Hwf; split; apply Hwf. }
  destruct H as [H1 H2]. split; [lia |]. split; [exact H2 |].
  intros i _ Hn. exact Hn.
Qed.

Lemma normalises_primitive leaf t n b vs : normalises leaf (PrimitiveArray t n b vs).
Proof.
  intros len bm (Hlen & Hbm & Hty & Hval) (Hl & Hb & Hn). cbn [ArrayOps.length] in *.
  cbn [NormalizeArray_from]. split; [| split].
  - cbn [wf_array ArrayOps.length ArrayOps.null_bitmap]. repeat split; try lia; try assumption.
    intros i Hi Hnull. apply Hval; [lia |]. apply Hn; [exact Hi | exact Hnull].
  - intros i Hi. cbn [logical_at]. unfold ArrayOps.IsNull at 1. cbn [ArrayOps.null_bitmap].
    fold (null_in bm i). destruct (null_in bm i) eqn:E; [reflexivity |].
    rewrite (Hn i Hi E). reflexivity.
  - intros i Hi Hnull. cbn [deep_null]. unfold ArrayOps.IsNull. cbn [ArrayOps.null_bitmap].
    fold (null_in bm i). rewrite Hnull. reflexivity.
Qed.

Lemma normalises_binary leaf t n b vs : normalises leaf (BinaryArray t n b vs).
Proof.
  intros len bm (Hlen & Hbm & Hty & Hval) (Hl & Hb & Hn). cbn [ArrayOps.length] in *.
  cbn [NormalizeArray_from]. split; [| split].
  - cbn [wf_array ArrayOps.length ArrayOps.null_bitmap]. repeat split; try lia; try assumption.
    intros i Hi Hnull. apply Hval; [lia |]. apply Hn; [exact Hi | exact Hnull].
  - intros i Hi. cbn [logical_at]. unfold ArrayOps.IsNull at 1. cbn [ArrayOps.null_bitmap].
    fold (null_in bm i). destruct (null_in bm i) eqn:E; [reflexivity |].
    rewrite (Hn i Hi E). reflexivity.
  - intros i Hi Hnull. cbn [deep_null]. unfold ArrayOps.IsNull. cbn [ArrayOps.null_bitmap].
    fold (null_in bm i). rewrite Hnull. reflexivity.
Qed.

Lemma logical_at_IsNull leaf a i :
  (if ArrayOps.IsNull a i then LNull else logical_at leaf a i) = logical_at leaf a i.
Proof.
  destruct (ArrayOps.IsNull a i) eqn:E; [| reflexivity].
  symmetry. apply logical_at_null. exact E.
Qed.

Lemma deep_null_IsNull a i : deep_null a i = true -> ArrayOps.IsNull a i = true.
Proof. destruct a; cbn [deep_null]; intros H; apply andb_prop in H; apply H. Qed.

Lemma final_child_bitmap_at bits len child i :
  0 <= i < len ->
  zth (final_child_bitmap bits len child) i false
  = zth bits i false && negb (ArrayOps.IsNull child i).
Proof.
  intros Hi. unfold final_child_bitmap, ArrayOps.IsNull.
  destruct (ArrayOps.null_bitmap child) as [cb |].
  - rewrite zth_BitmapAnd by exact Hi. rewrite negb_involutive. reflexivity.
  - cbn. rewrite andb_true_r. reflexivity.
Qed.

Lemma narrows_child bits len child :
  0 <= len <= ArrayOps.length child ->
  len <= Z.of_nat (List.length bits) ->
  narrows child (Z.min (ArrayOps.length child) len)
          (Some (final_child_bitmap bits len child)).
Proof.
  intros Hl Hb. replace (Z.min (ArrayOps.length child) len) with len by lia.
  split; [lia |]. split.
  - unfold final_child_bitmap. destruct (ArrayOps.null_bitmap child); [| exact Hb].
    unfold BitmapAnd. rewrite length_map, zseq_length. lia.
  - intros i Hi Hn. cbn [null_in] in Hn. rewrite final_child_bitmap_at in Hn by exact Hi.
    apply negb_false_iff, andb_prop in Hn. destruct Hn as [_ Hn].
    apply negb_true_iff in Hn. exact Hn.
Qed.

Lemma normalises_struct leaf t n b children :
  Forall (normalises leaf) children -> normalises leaf (StructArray t n b children).
Proof.
  intros Hall len bm Hwf (Hl & Hb & Hn).
  pose proof Hwf as (Hlen & Hbm & fs & -> & Hcwf). cbn [ArrayOps.length] in *.
  pose proof (children_wf_Forall _ _ _ _ Hcwf) as Hcs.
  (* the array with its children as they are *)
  assert (Hsame :
            let a' := StructArray (arrow.STRUCT fs) len bm children in
            wf_array a'
            /\ forall i, 0 <= i < len ->
                 logical_at leaf a' i
                 = if null_in bm i then LNull
                   else logical_at leaf (StructArray (arrow.STRUCT fs) n b children) i).
  { split.
    - cbn [wf_array ArrayOps.length ArrayOps.null_bitmap]. split; [lia |]. split; [exact Hb |].
      exists fs. split; [reflexivity |].
      apply (children_wf_weaken (fun c => wf_array c) (fun c => wf_array c) n len
               children children fs); [| exact Hcwf].
      apply Forall2_refl. apply Forall_forall. intros c _. repeat split; auto. lia.
    - intros i Hi. cbn [logical_at]. unfold ArrayOps.IsNull at 1.
      cbn [ArrayOps.null_bitmap]. fold (null_in bm i).
      destruct (null_in bm i) eqn:E; [reflexivity |]. rewrite (Hn i Hi E). reflexivity. }
  cbv zeta in Hsame. destruct Hsame as [Hwf' Hlog'].
  cbn [NormalizeArray_from].
  destruct bm as [bits |].
  2: { split; [exact Hwf' |]. split; [exact Hlog' |]. intros i _ Hnull. discriminate Hnull. }
  destruct (Z.eqb_spec (bitmap_null_count (Some bits) len) 0) as [Hz | Hnz].
  { split; [exact Hwf' |]. split; [exact Hlog' |]. intros i Hi Hnull. cbn [null_in] in Hnull.
    rewrite (bitmap_null_count_zero bits len i Hz Hi) in Hnull. discriminate Hnull. }
  change (map _ children)
    with (map (fun child =>
                 NormalizeArray_from child (Z.min (ArrayOps.length child) len)
                                     (Some (final_child_bitmap bits len child)))
              children).
  set (norm := fun child =>
                 NormalizeArray_from child (Z.min (ArrayOps.length child) len)
                                     (Some (final_child_bitmap bits len child))).
  assert (Hch : Forall (fun c =>
                          wf_array (norm c)
                          /\ (forall i, 0 <= i < len ->
                                logical_at leaf (norm c) i
                                = if zth bits i false then logical_at leaf c i else LNull)
                          /\ (forall i, 0 <= i < len -> zth bits i false = false ->
                                deep_null (norm c) i = true)) children).
  { rewrite Forall_forall in *. intros c Hin.
    destruct (Hcs c Hin) as [Hwc Hlc].
    destruct (Hall c Hin (Z.min (ArrayOps.length c) len)
                (Some (final_child_bitmap bits len c)) Hwc) as (A & B & C).
    { apply narrows_child; lia. }
    split; [exact A |]. split.
    - intros i Hi. unfold norm.
      rewrite (B i) by lia. cbn [null_in]. rewrite final_child_bitmap_at by exact Hi.
      destruct (zth bits i false); cbn [andb negb]; [| reflexivity].
      rewrite negb_involutive. apply logical_at_IsNull.
    - intros i Hi Hbit. unfold norm.
      apply C; [lia |]. cbn [null_in]. rewrite final_child_bitmap_at by exact Hi.
      rewrite Hbit. reflexivity. }
  split; [| split].
  - cbn [wf_array ArrayOps.length ArrayOps.null_bitmap]. split; [lia |]. split; [exact Hb |].
    exists fs. split; [reflexivity |].
    apply (children_wf_weaken (fun c => wf_array c) (fun c => wf_array c) n len
             children (map norm children) fs); [| exact Hcwf].
    apply Forall2_map_self. rewrite Forall_forall in *. intros c Hin.
    destruct (Hcs c Hin) as [Hwc Hlc]. destruct (Hch c Hin) as (A & _ & _).
    unfold norm at 1 2. rewrite NormalizeArray_from_type, NormalizeArray_from_length.
    repeat split; auto. lia.
  - intros i Hi. cbn [logical_at]. unfold ArrayOps.IsNull at 1.
    cbn [ArrayOps.null_bitmap null_in].
    destruct (zth bits i false) eqn:Hbit; cbn [negb]; [| reflexivity].
    rewrite (Hn i Hi) by (cbn [null_in]; rewrite Hbit; reflexivity).
    f_equal. rewrite map_map. apply map_ext_in. intros c Hin.
    rewrite Forall_forall in Hch. destruct (Hch c Hin) as (_ & B & _).
    rewrite (B i Hi), Hbit. reflexivity.
  - intros i Hi Hnull. cbn [null_in] in Hnull. apply negb_true_iff in Hnull.
    cbn [deep_null]. unfold ArrayOps.IsNull. cbn [ArrayOps.null_bitmap]. rewrite Hnull.
    cbn [negb andb]. rewrite forallb_forall. intros c' Hin'.
    apply in_map_iff in Hin'. destruct Hin' as (c & <- & Hin).
    rewrite Forall_forall in Hch. destruct (Hch c Hin) as (_ & _ & C).
    apply C; assumption.
Qed.

Lemma normalises_values leaf values :
  normalises leaf values -> wf_array values ->
  let values' := NormalizeArray_from values (ArrayOps.length values)
                                     (ArrayOps.null_bitmap values) in
  wf_array values'
  /\ ArrayOps.type values' = ArrayOps.type values
  /\ ArrayOps.length values' = ArrayOps.length values
  /\ forall j, 0 <= j < ArrayOps.length values ->
       logical_at leaf values' j = logical_at leaf values j.
Proof.
  intros Hn Hwf values'.
  destruct (Hn _ _ Hwf (narrows_self values Hwf)) as (A & B & _).
  split; [exact A |]. split; [apply NormalizeArray_from_type |].
  split; [apply NormalizeArray_from_length |].
  intros j Hj. unfold values'. rewrite (B j Hj).
  change (null_in (ArrayOps.null_bitmap values) j) with (ArrayOps.IsNull values j).
  apply logical_at_IsNull.
Qed.

Lemma map_logical_at_ext leaf v v' o m :
  0 <= o -> o + m <= ArrayOps.length v ->
  (forall j, 0 <= j < ArrayOps.length v -> logical_at leaf v' j = logical_at leaf v j) ->
  map (logical_at leaf v') (zseq o m) = map (logical_at leaf v) (zseq o m).
Proof.
  intros Ho Hm H. apply map_ext_in. intros j Hj. apply in_zseq in Hj. apply H. lia.
Qed.

Lemma normalises_list leaf t n b offs values :
  normalises leaf values -> normalises leaf (ListArray t n b offs values).
Proof.
  intros Hv len bm Hwf (Hl & Hb & Hn).
  pose proof Hwf as (Hlen & Hbm & Hvt & Hwfv & Hoffs). cbn [ArrayOps.length] in *.
  destruct (normalises_values leaf values Hv Hwfv) as (A & B & C & D).
  set (a := ListArray t n b offs values) in *.
  assert (E : NormalizeArray_from a len bm
              = ListArray t len bm offs
                  (NormalizeArray_from values (ArrayOps.length values)
                                       (ArrayOps.null_bitmap values))).
  { unfold a. cbn [NormalizeArray_from]. destruct t; try discriminate Hvt; reflexivity. }
  cbv zeta. rewrite E.
  set (values' := NormalizeArray_from values (ArrayOps.length values)
                                      (ArrayOps.null_bitmap values)) in *.
  assert (Hvo : forall i, ArrayOps.value_offset (ListArray t len bm offs values') i
                          = ArrayOps.value_offset a i) by reflexivity.
  split; [| split].
  - cbn [wf_array ArrayOps.length ArrayOps.null_bitmap]. split; [lia |]. split; [exact Hb |].
    rewrite B. split; [exact Hvt |]. split; [exact A |].
    intros i Hi. rewrite C.
    change (ArrayOps.value_offset (ListArray t len bm offs values') i)
      with (ArrayOps.value_offset a i).
    change (ArrayOps.value_offset (ListArray t len bm offs values') (i + 1))
      with (ArrayOps.value_offset a (i + 1)).
    apply Hoffs. lia.
  - intros i Hi. cbn [logical_at]. unfold ArrayOps.IsNull at 1.
    cbn [ArrayOps.null_bitmap]. fold (null_in bm i).
    destruct (null_in bm i) eqn:En; [reflexivity |].
    unfold a at 1. cbn [logical_at]. fold a. rewrite (Hn i Hi En).
    rewrite !Hvo. f_equal. destruct (Hoffs i) as (H1 & H2 & H3); [lia |].
    apply map_logical_at_ext; [exact H1 | fold a; lia | exact D].
  - intros i Hi Hnull. cbn [deep_null]. unfold ArrayOps.IsNull. cbn [ArrayOps.null_bitmap].
    fold (null_in bm i). rewrite Hnull. reflexivity.
Qed.

Lemma normalises_map leaf t n b offs keys items :
  normalises leaf keys -> normalises leaf items ->
  normalises leaf (MapArray t n b offs keys items).
Proof.
  intros Hk Hi len bm Hwf (Hl & Hb & Hn).
  pose proof Hwf as (Hlen & Hbm & Ht & Hwfk & Hwfi & Hoffs). cbn [ArrayOps.length] in *.
  destruct (normalises_values leaf keys Hk Hwfk) as (Ak & Bk & Ck & Dk).
  destruct (normalises_values leaf items Hi Hwfi) as (Ai & Bi & Ci & Di).
  set (a := MapArray t n b offs keys items) in *.
  assert (E : NormalizeArray_from a len bm
              = MapArray t len bm offs
                  (NormalizeArray_from keys (ArrayOps.length keys)
                                       (ArrayOps.null_bitmap keys))
                  (NormalizeArray_from items (ArrayOps.length items)
                                       (ArrayOps.null_bitmap items))).
  { unfold a. cbn [NormalizeArray_from]. rewrite Ht. reflexivity. }
  cbv zeta. rewrite E.
  set (keys' := NormalizeArray_from keys (ArrayOps.length keys)
                                    (ArrayOps.null_bitmap keys)) in *.
  set (items' := NormalizeArray_from items (ArrayOps.length items)
                                     (ArrayOps.null_bitmap items)) in *.
  assert (Hvo : forall i, ArrayOps.value_offset (MapArray t len bm offs keys' items') i
                          = ArrayOps.value_offset a i) by reflexivity.
  split; [| split].
  - cbn [wf_array ArrayOps.length ArrayOps.null_bitmap]. split; [lia |]. split; [exact Hb |].
    rewrite Bk, Bi. split; [exact Ht |]. split; [exact Ak |]. split; [exact Ai |].
    intros i Hir. rewrite Ck, Ci.
    change (ArrayOps.value_offset (MapArray t len bm offs keys' items') i)
      with (ArrayOps.value_offset a i).
    change (ArrayOps.value_offset (MapArray t len bm offs keys' items') (i + 1))
      with (ArrayOps.value_offset a (i + 1)).
    apply Hoffs. lia.
  - intros i Hir. cbn [logical_at]. unfold ArrayOps.IsNull at 1.
    cbn [ArrayOps.null_bitmap]. fold (null_in bm i).
    destruct (null_in bm i) eqn:En; [reflexivity |].
    unfold a at 1. cbn [logical_at]. fold a. rewrite (Hn i Hir En).
    rewrite !Hvo. destruct (Hoffs i) as (H1 & H2 & H3 & H4); [lia |].
    f_equal; apply map_logical_at_ext; try assumption; fold a; lia.
  - intros i Hir Hnull. cbn [deep_null]. unfold ArrayOps.IsNull. cbn [ArrayOps.null_bitmap].
    fold (null_in bm i). rewrite Hnull. reflexivity.
Qed.

Lemma NormalizeArray_from_normalises leaf a : normalises leaf a.
Proof.
  induction a using Array_induction.
  - apply normalises_primitive.
  - apply normalises_binary.
  - apply normalises_struct. assumption.
  - apply normalises_list. assumption.
  - apply normalises_map; assumption.
Qed.

(** [NormalizeArray] keeps an array well formed, of its type and length,
    with the elements it had; a null element is then null in every field
    below it. *)
Lemma NormalizeArray_keeps leaf a :
  wf_array a ->
  wf_array (NormalizeArray a)
  /\ ArrayOps.type (NormalizeArray a) = ArrayOps.type a
  /\ ArrayOps.length (NormalizeArray a) = ArrayOps.length a
  /\ (forall o n, 0 <= o -> o + n <= ArrayOps.length a ->
        logical leaf (NormalizeArray a) o n = logical leaf a o n)
  /\ (forall i, 0 <= i < ArrayOps.length a -> ArrayOps.IsNull a i = true ->
        deep_null (NormalizeArray a) i = true).
Proof.
  intros Hwf. unfold NormalizeArray.
  destruct (NormalizeArray_from_normalises leaf a _ _ Hwf (narrows_self a Hwf))
    as (A & B & C).
  split; [exact A |]. split; [apply NormalizeArray_from_type |].
  split; [apply NormalizeArray_from_length |]. split.
  - intros o n Ho Hn. unfold logical. apply map_ext_in. intros i Hi.
    apply in_zseq in Hi. rewrite B by lia.
    change (null_in (ArrayOps.null_bitmap a) i) with (ArrayOps.IsNull a i).
    apply logical_at_IsNull.
  - intros i Hi Hnull. apply C; [exact Hi | exact Hnull].
Qed.

(** ** Builders that match a type *)

Lemma built_length bld : Z.of_nat (List.length (built bld)) = BuilderOps.length bld.
Proof. unfold built. rewrite logical_length. unfold BuilderOps.length. lia. Qed.

Lemma built_at bld j :
  0 <= j < BuilderOps.length bld ->
  zth (built bld) j LNull = logical_at as_stored (BuilderOps.Finish bld) j.
Proof. intros H. unfold built. rewrite zth_logical by exact H. reflexivity. Qed.

Lemma zth_snoc_l {A} (l : list A) x i d :
  0 <= i < Z.of_nat (List.length l) -> zth (l ++ [x]) i d = zth l i d.
Proof. apply zth_app_l. Qed.

Lemma zth_snoc_r {A} (l : list A) x i d :
  i = Z.of_nat (List.length l) -> zth (l ++ [x]) i d = x.
Proof.
  intros ->. rewrite zth_app_r by lia. replace (_ - _) with 0 by lia. reflexivity.
Qed.

Lemma Finish_null_bitmap bld :
  ArrayOps.null_bitmap (BuilderOps.Finish bld) = Some (BuilderOps.null_bitmap bld).
Proof. destruct bld; reflexivity. Qed.

(** The elements of a builder after more appends, from its bits: the ones
    it had, then those of the new bits. *)
Lemma built_app (bld bld' : ArrayBuilder) (bits : list bool) (news : list LVal) :
  BuilderOps.null_bitmap bld' = BuilderOps.null_bitmap bld ++ bits ->
  List.length news = List.length bits ->
  (forall i, 0 <= i < BuilderOps.length bld ->
     logical_at as_stored (BuilderOps.Finish bld') i
     = logical_at as_stored (BuilderOps.Finish bld) i) ->
  (forall k, 0 <= k < Z.of_nat (List.length bits) ->
     logical_at as_stored (BuilderOps.Finish bld') (BuilderOps.length bld + k)
     = zth news k LNull) ->
  built bld' = built bld ++ news.
Proof.
  intros Hbm Hlen Hold Hnew.
  apply nth_ext with (d := LNull) (d' := LNull).
  - rewrite length_app. unfold built. rewrite !logical_length.
    unfold BuilderOps.length. rewrite Hbm, length_app. lia.
  - intros k Hk. unfold built in Hk. rewrite logical_length in Hk.
    unfold BuilderOps.length in Hk. rewrite Hbm, length_app in Hk.
    change (nth k ?l LNull) with (nth k l LNull).
    transitivity (zth (built bld') (Z.of_nat k) LNull);
      [unfold zth; rewrite Nat2Z.id; reflexivity |].
    transitivity (zth (built bld ++ news) (Z.of_nat k) LNull);
      [| unfold zth; rewrite Nat2Z.id; reflexivity].
    rewrite built_at by (unfold BuilderOps.length; rewrite Hbm, length_app; lia).
    destruct (Z.lt_ge_cases (Z.of_nat k) (BuilderOps.length bld)) as [Hlt | Hge].
    + rewrite zth_app_l by (rewrite built_length; lia).
      rewrite built_at by lia. apply Hold. lia.
    + rewrite zth_app_r by (rewrite built_length; lia). rewrite built_length.
      replace (Z.of_nat k) with (BuilderOps.length bld + (Z.of_nat k - BuilderOps.length bld))
        at 1 by lia.
      apply Hnew. unfold BuilderOps.length in *. lia.
Qed.

(** ** Reading the leaves *)

Lemma validity_length h off len :
  0 <= len ->
  List.length (validity_of (Z.to_nat len) (valid_bytes h off len)) = Z.to_nat len.
Proof.
  intros H. unfold valid_bytes, validity_of. destruct (hasNulls h).
  - rewrite length_map, zseq_length. reflexivity.
  - apply repeat_length.
Qed.

Lemma zth_repeat {A} (x d : A) n i : 0 <= i < Z.of_nat n -> zth (repeat x n) i d = x.
Proof.
  intros H. unfold zth. apply nth_repeat_lt. lia.
Qed.

(** The validity bit the decoder reads at a position, by the value the
    batch holds there. *)
Lemma validity_at h off len k v :
  0 <= k < len -> marked h (off + k) v ->
  zth (validity_of (Z.to_nat len) (valid_bytes h off len)) k false
  = match v with LNull => false | _ => true end
  /\ notNull h (off + k) = match v with LNull => false | _ => true end.
Proof.
  intros Hk Hm. unfold valid_bytes, validity_of.
  destruct Hm as [[Hn Hv] | (Hn & Hh & ->)].
  - assert (E : match v with LNull => false | _ => true end = true)
      by (destruct v; try reflexivity; contradiction).
    rewrite E. split; [| exact Hn]. destruct (hasNulls h).
    + rewrite zth_map_zseq by lia. exact Hn.
    + apply zth_repeat. lia.
  - rewrite Hh. rewrite zth_map_zseq by lia. auto.
Qed.

Lemma position_valid_at h i v :
  marked h i v ->
  negb (hasNulls h) || notNull h i = match v with LNull => false | _ => true end.
Proof.
  intros [[Hn Hv] | (Hn & Hh & ->)].
  - rewrite Hn, orb_true_r. destruct v; try reflexivity. contradiction.
  - rewrite Hn, Hh. reflexivity.
Qed.

Lemma slice_at vs off len k :
  0 <= k < len -> zth (slice vs off len) k LNull = zth vs (off + k) LNull.
Proof. intros H. unfold slice. apply zth_map_zseq. exact H. Qed.

Lemma numeric_append t bm vs h (g : Z -> Z) off len vsl :
  List.length vs = List.length bm ->
  0 <= len ->
  (forall i, off <= i < off + len -> marked h i (zth vsl i LNull)) ->
  (forall i, off <= i < off + len -> notNull h i = true ->
             zth vsl i LNull = LNum (g i)) ->
  built (NumericBuilder t
           (bm ++ validity_of (List.length (map g (zseq off len)))
                              (valid_bytes h off len))
           (vs ++ map g (zseq off len)))
  = built (NumericBuilder t bm vs) ++ slice vsl off len.
Proof.
  intros Hl Hlen Hm Hv. rewrite length_map, zseq_length.
  apply built_app with (bits := validity_of (Z.to_nat len) (valid_bytes h off len)).
  - reflexivity.
  - rewrite slice_length, validity_length by exact Hlen. reflexivity.
  - intros i Hi. unfold BuilderOps.length in Hi. cbn [BuilderOps.null_bitmap] in Hi.
    cbn [BuilderOps.Finish logical_at]. unfold ArrayOps.IsNull. cbn [ArrayOps.null_bitmap].
    rewrite !zth_app_l by lia. reflexivity.
  - intros k Hk. rewrite validity_length in Hk by exact Hlen.
    unfold BuilderOps.length. cbn [BuilderOps.null_bitmap].
    cbn [BuilderOps.Finish logical_at]. unfold ArrayOps.IsNull. cbn [ArrayOps.null_bitmap].
    rewrite !zth_app_r by lia. rewrite Hl.
    replace (Z.of_nat (List.length bm) + k - Z.of_nat (List.length bm)) with k by lia.
    rewrite slice_at by lia.
    destruct (validity_at h off len k (zth vsl (off + k) LNull)) as [Hbit Hnn];
      [lia | apply Hm; lia |].
    rewrite Hbit. destruct (zth vsl (off + k) LNull) eqn:Ev; cbn [negb]; try reflexivity;
      rewrite zth_map_zseq by lia; unfold as_stored;
      rewrite <- Ev; symmetry; apply Hv; try lia; exact Hnn.
Qed.

Lemma appended_lengths {A} (bvs : list A) bm (g : Z -> A) h off len :
  List.length bvs = List.length bm -> 0 <= len ->
  List.length (bvs ++ map g (zseq off len))
  = List.length (bm ++ validity_of (List.length (map g (zseq off len)))
                                   (valid_bytes h off len)).
Proof.
  intros H Hlen. rewrite !length_app, length_map, zseq_length.
  rewrite validity_length by exact Hlen. lia.
Qed.

Lemma reads_numeric d2f kind subtypes names ml p s :
  numeric_kind kind = true -> reads d2f (liborc.mk kind subtypes names ml p s).
Proof.
  intros Hk b vs bld off len Hh Hf Hoff Hlen Hwin.
  cbn [holds] in Hh. destruct Hh as [Hm Hb].
  destruct kind; try discriminate Hk; destruct Hb as [[v0 Hv0] Hval];
    cbn [fits] in Hf; destruct Hf as [Hty Hshape];
    (destruct bld as [t bm bvs | | | |]; try contradiction);
    cbn [GetArrowType BuilderOps.type] in Hty; injection Hty as <-;
    (destruct b; try discriminate Hv0);
    cbn [AppendBatch AppendNumericBatch AppendNumericBatchCast AppendBoolBatch
         AppendTimestampBatch builds
         is_INT64 is_INT32 is_INT16 is_INT8 is_DOUBLE is_FLOAT is_BOOL is_DATE32
         is_TIMESTAMP negb BatchOps.checked_cast BatchOps.class BatchOps.class_eqb bind];
    cbn [BatchOps.base] in *;
    (destruct (Z.eqb_spec len 0) as [-> | Hne];
     [ eexists; split; [reflexivity |]; split; [split; [reflexivity | exact Hshape] |];
       unfold slice; cbn; rewrite app_nil_r; reflexivity
     | cbv beta; unfold AppendValues;
       eexists; split; [reflexivity |]; split;
       [ split; [reflexivity |]; apply appended_lengths; [exact Hshape | lia]
       | apply numeric_append; try assumption;
         [ intros i Hi; apply Hm; lia
         | intros i Hi Hn; specialize (Hval i ltac:(lia) Hn); cbn [leaf_value] in Hval;
           injection Hval as <-; reflexivity ] ] ]).
Qed.

Lemma slice_snoc vs off n :
  0 <= n -> slice vs off (n + 1) = slice vs off n ++ [zth vs (off + n) LNull].
Proof. intros H. unfold slice. rewrite zseq_snoc by lia. rewrite map_app. reflexivity. Qed.

(** A loop that appends one element for each position of a range. *)
Lemma element_loop (P : ArrayBuilder -> Prop)
  (step : Z -> ArrayBuilder -> result ArrayBuilder) (vs : list LVal) (off len : Z) :
  (forall k bld, 0 <= k < len -> P bld ->
     exists bld', step (off + k) bld = Ok bld' /\ P bld'
                  /\ built bld' = built bld ++ [zth vs (off + k) LNull]) ->
  forall (n : nat) bld, Z.of_nat n <= len -> P bld ->
    exists bld', for_loop n off step bld = Ok bld' /\ P bld'
                 /\ built bld' = built bld ++ slice vs off (Z.of_nat n).
Proof.
  intros Hstep. induction n as [| n IH]; intros bld Hn HP.
  - exists bld. cbn [for_loop]. unfold slice. cbn. rewrite app_nil_r. auto.
  - destruct (IH bld) as (b1 & E1 & P1 & B1); [lia | exact HP |].
    destruct (Hstep (Z.of_nat n) b1) as (b2 & E2 & P2 & B2); [lia | exact P1 |].
    exists b2. rewrite for_loop_S, E1. cbn [bind]. split; [exact E2 |]. split; [exact P2 |].
    replace (Z.of_nat (S n)) with (Z.of_nat n + 1) by lia.
    rewrite slice_snoc, app_assoc by lia. rewrite <- B1. exact B2.
Qed.

Lemma built_binary_snoc t bm vs (bit : bool) x :
  List.length vs = List.length bm ->
  built (BinaryBuilder t (bm ++ [bit]) (vs ++ [x]))
  = built (BinaryBuilder t bm vs) ++ [if bit then LBin x else LNull].
Proof.
  intros Hl. apply built_app with (bits := [bit]).
  - reflexivity.
  - reflexivity.
  - intros i Hi. unfold BuilderOps.length in Hi. cbn [BuilderOps.null_bitmap] in Hi.
    cbn [BuilderOps.Finish logical_at]. unfold ArrayOps.IsNull. cbn [ArrayOps.null_bitmap].
    rewrite !zth_app_l by lia. reflexivity.
  - intros k Hk. cbn [List.length] in Hk. assert (k = 0) as -> by lia.
    unfold BuilderOps.length. cbn [BuilderOps.null_bitmap]. rewrite Z.add_0_r.
    cbn [BuilderOps.Finish logical_at]. unfold ArrayOps.IsNull. cbn [ArrayOps.null_bitmap].
    rewrite zth_snoc_r by reflexivity. rewrite zth_snoc_r by lia.
    destruct bit; reflexivity.
Qed.

Lemma built_numeric_snoc t bm vs (bit : bool) x :
  List.length vs = List.length bm ->
  built (NumericBuilder t (bm ++ [bit]) (vs ++ [x]))
  = built (NumericBuilder t bm vs) ++ [if bit then LNum x else LNull].
Proof.
  intros Hl. apply built_app with (bits := [bit]).
  - reflexivity.
  - reflexivity.
  - intros i Hi. unfold BuilderOps.length in Hi. cbn [BuilderOps.null_bitmap] in Hi.
    cbn [BuilderOps.Finish logical_at]. unfold ArrayOps.IsNull. cbn [ArrayOps.null_bitmap].
    rewrite !zth_app_l by lia. reflexivity.
  - intros k Hk. cbn [List.length] in Hk. assert (k = 0) as -> by lia.
    unfold BuilderOps.length. cbn [BuilderOps.null_bitmap]. rewrite Z.add_0_r.
    cbn [BuilderOps.Finish logical_at]. unfold ArrayOps.IsNull. cbn [ArrayOps.null_bitmap].
    rewrite zth_snoc_r by reflexivity. rewrite zth_snoc_r by lia.
    destruct bit; reflexivity.
Qed.

(** One step of the loops of the binary and decimal decoders. *)
Lemma binary_step t h (val : Z -> list byte) vs off len k bld :
  (forall i, off <= i < off + len -> marked h i (zth vs i LNull)) ->
  (forall i, off <= i < off + len -> notNull h i = true ->
             zth vs i LNull = LBin (val i)) ->
  0 <= k < len ->
  (exists bm bvs, bld = BinaryBuilder t bm bvs /\ List.length bvs = List.length bm) ->
  exists bld',
    (if negb (hasNulls h) || notNull h (off + k)
     then Append_bytes bld (val (off + k)) else AppendNull bld) = Ok bld'
    /\ (exists bm bvs, bld' = BinaryBuilder t bm bvs /\ List.length bvs = List.length bm)
    /\ built bld' = built bld ++ [zth vs (off + k) LNull].
Proof.
  intros Hm Hv Hk (bm & bvs & -> & Hl).
  specialize (Hm (off + k) ltac:(lia)). specialize (Hv (off + k) ltac:(lia)).
  rewrite (position_valid_at _ _ _ Hm).
  destruct Hm as [[Hn Hne] | (Hn & Hh & Ev)].
  - rewrite (Hv Hn) in *. cbn [Append_bytes]. eexists. split; [reflexivity |]. split.
    + do 2 eexists. split; [reflexivity |]. rewrite !length_app. cbn. lia.
    + apply (built_binary_snoc t bm bvs true). exact Hl.
  - rewrite Ev. cbn [AppendNull]. eexists. split; [reflexivity |]. split.
    + do 2 eexists. split; [reflexivity |]. rewrite !length_app. cbn. lia.
    + apply (built_binary_snoc t bm bvs false). exact Hl.
Qed.

Lemma numeric_step t h (val : Z -> Z) vs off len k bld :
  (forall i, off <= i < off + len -> marked h i (zth vs i LNull)) ->
  (forall i, off <= i < off + len -> notNull h i = true ->
             zth vs i LNull = LNum (val i)) ->
  0 <= k < len ->
  (exists bm bvs, bld = NumericBuilder t bm bvs /\ List.length bvs = List.length bm) ->
  exists bld',
    (if negb (hasNulls h) || notNull h (off + k)
     then Append_value bld (val (off + k)) else AppendNull bld) = Ok bld'
    /\ (exists bm bvs, bld' = NumericBuilder t bm bvs /\ List.length bvs = List.length bm)
    /\ built bld' = built bld ++ [zth vs (off + k) LNull].
Proof.
  intros Hm Hv Hk (bm & bvs & -> & Hl).
  specialize (Hm (off + k) ltac:(lia)). specialize (Hv (off + k) ltac:(lia)).
  rewrite (position_valid_at _ _ _ Hm).
  destruct Hm as [[Hn Hne] | (Hn & Hh & Ev)].
  - rewrite (Hv Hn) in *. cbn [Append_value]. eexists. split; [reflexivity |]. split.
    + do 2 eexists. split; [reflexivity |]. rewrite !length_app. cbn. lia.
    + apply (built_numeric_snoc t bm bvs true). exact Hl.
  - rewrite Ev. cbn [AppendNull]. eexists. split; [reflexivity |]. split.
    + do 2 eexists. split; [reflexivity |]. rewrite !length_app. cbn. lia.
    + apply (built_numeric_snoc t bm bvs false). exact Hl.
Qed.

Lemma reads_binary d2f kind subtypes names ml p s :
  binary_kind kind = true -> reads d2f (liborc.mk kind subtypes names ml p s).
Proof.
  intros Hk b vs bld off len Hh Hf Hoff Hlen Hwin.
  cbn [holds] in Hh. destruct Hh as [Hm Hb].
  destruct kind; try discriminate Hk; destruct Hb as [[v0 Hv0] Hval];
    cbn [fits] in Hf; destruct Hf as [Hty Hshape];
    (destruct bld as [| t bm bvs | | |]; try contradiction);
    cbn [GetArrowType BuilderOps.type] in Hty; injection Hty as <-;
    (destruct b as [| | h data dlen | | | | | |]; try discriminate Hv0);
    cbn [AppendBatch AppendBinaryBatch builds is_STRING is_BINARY negb];
    cbn [BatchOps.base] in *;
    match goal with
    | |- context [BinaryBuilder ?t bm bvs] =>
        destruct (element_loop
                (fun bld => exists bm bvs, bld = BinaryBuilder t bm bvs
                                           /\ List.length bvs = List.length bm)
                (fun i builder =>
                   if negb (hasNulls h) || notNull h i
                   then Append_bytes builder (bytes_at (data i) (int32_t (dlen i)))
                   else AppendNull builder)
                vs off len) with (n := Z.to_nat len) (bld := BinaryBuilder t bm bvs)
          as (bld' & E & (bm' & bvs' & -> & Hl') & Hb');
        [ intros k bld0 Hk0 HP;
          apply (binary_step t h (fun i => bytes_at (data i) (int32_t (dlen i)))
                             vs off len k bld0); try assumption;
          [ intros i Hi; apply Hm; lia
          | intros i Hi Hn; specialize (Hval i ltac:(lia) Hn); cbn [leaf_value] in Hval;
            injection Hval as <-; reflexivity ]
        | lia
        | do 2 eexists; split; [reflexivity | exact Hshape]
        | eexists; split; [exact E |]; split;
          [ split; [reflexivity | exact Hl']
          | rewrite Hb'; replace (Z.of_nat (Z.to_nat len)) with len by lia; reflexivity ] ]
    end.
Qed.

Lemma reads_decimal d2f subtypes names ml p s :
  reads d2f (liborc.mk liborc.DECIMAL subtypes names ml p s).
Proof.
  intros b vs bld off len Hh Hf Hoff Hlen Hwin.
  cbn [holds] in Hh. destruct Hh as [Hm [[v0 Hv0] Hval]].
  cbn [fits] in Hf. destruct Hf as [Hty Hshape].
  destruct bld as [t bm bvs | | | |]; try contradiction.
  cbn [BuilderOps.type] in Hty.
  assert (Hdec : is_DECIMAL128 t = true).
  { cbn [GetArrowType] in Hty. destruct (int32_t p =? 0); injection Hty as <-; reflexivity. }
  cbn [AppendBatch AppendDecimalBatch]. unfold builds. rewrite Hdec. cbn [negb].
  cbn [leaf_value] in Hv0, Hval.
  destruct b as [| | | | h data | h data | | |]; try discriminate Hv0;
    destruct (decode_uses_wide p) eqn:Ew; try discriminate Hv0; cbn [BatchOps.base] in *.
  - destruct (element_loop
                (fun bld => exists bm bvs, bld = NumericBuilder t bm bvs
                                           /\ List.length bvs = List.length bm)
                (fun i builder =>
                   if negb (hasNulls h) || notNull h i
                   then Append_value builder (Decimal128_of_int64 (data i))
                   else AppendNull builder)
                vs off len) with (n := Z.to_nat len) (bld := NumericBuilder t bm bvs)
      as (bld' & E & (bm' & bvs' & -> & Hl') & Hb').
    + intros k bld0 Hk0 HP.
      apply (numeric_step t h (fun i => Decimal128_of_int64 (data i)) vs off len k bld0);
        try assumption.
      * intros i Hi. apply Hm. lia.
      * intros i Hi Hn. specialize (Hval i ltac:(lia) Hn). injection Hval as <-. reflexivity.
    + lia.
    + do 2 eexists. split; [reflexivity | exact Hshape].
    + eexists. split; [exact E |]. split.
      * split; [exact Hty | exact Hl'].
      * rewrite Hb'. replace (Z.of_nat (Z.to_nat len)) with len by lia. reflexivity.
  - destruct (element_loop
                (fun bld => exists bm bvs, bld = NumericBuilder t bm bvs
                                           /\ List.length bvs = List.length bm)
                (fun i builder =>
                   if negb (hasNulls h) || notNull h i
                   then Append_value builder
                          (Decimal128_of_words (getHighBits (data i)) (getLowBits (data i)))
                   else AppendNull builder)
                vs off len) with (n := Z.to_nat len) (bld := NumericBuilder t bm bvs)
      as (bld' & E & (bm' & bvs' & -> & Hl') & Hb').
    + intros k bld0 Hk0 HP.
      apply (numeric_step t h
               (fun i => Decimal128_of_words (getHighBits (data i)) (getLowBits (data i)))
               vs off len k bld0); try assumption.
      * intros i Hi. apply Hm. lia.
      * intros i Hi Hn. specialize (Hval i ltac:(lia) Hn). injection Hval as <-. reflexivity.
    + lia.
    + do 2 eexists. split; [reflexivity | exact Hshape].
    + eexists. split; [exact E |]. split.
      * split; [exact Hty | exact Hl'].
      * rewrite Hb'. replace (Z.of_nat (Z.to_nat len)) with len by lia. reflexivity.
Qed.

(** ** Reading a struct *)

Lemma fields_fit_lengths F n ts bs :
  fields_fit F n ts bs -> Forall (fun b => BuilderOps.length b = n) bs.
Proof.
  revert bs. induction ts as [| t ts IH]; intros bs H; destruct bs; try contradiction.
  - constructor.
  - destruct H as (_ & Hl & H). constructor; [exact Hl | apply IH; exact H].
Qed.

Lemma append_fields_reads d2f (subtypes : list liborc.Type_) off len n :
  Forall (reads d2f) subtypes ->
  0 <= off -> 0 <= len -> off + len <= n ->
  forall fields cols fbs m,
    fields_hold (fun t f c => holds d2f t f c) n subtypes fields cols ->
    fields_fit (fun t b => fits t b) m subtypes fbs ->
    exists fbs',
      append_fields
        (fun subtype field builder => AppendBatch d2f subtype field off len builder)
        subtypes fields fbs = Ok fbs'
      /\ fields_fit (fun t b => fits t b) (m + len) subtypes fbs'
      /\ (forall i, 0 <= i < m ->
            map (fun fb => zth (built fb) i LNull) fbs'
            = map (fun fb => zth (built fb) i LNull) fbs)
      /\ (forall k, 0 <= k < len ->
            map (fun fb => zth (built fb) (m + k) LNull) fbs'
            = map (fun col => zth col (off + k) LNull) cols).
Proof.
  intros Hall Hoff Hlen Hwin.
  induction Hall as [| T ts HT _ IH]; intros fields cols fbs m Hh Hf.
  - destruct fields, cols; try contradiction. destruct fbs; [| contradiction].
    exists []. cbn. auto.
  - destruct fields as [| f fields]; [contradiction |].
    destruct cols as [| col cols]; [contradiction |].
    destruct fbs as [| fb fbs]; [contradiction |].
    destruct Hh as (Hh1 & Hl1 & Hh). destruct Hf as (Hf1 & Hm1 & Hf).
    destruct (HT f col fb off len Hh1 Hf1 Hoff Hlen) as (fb' & E1 & Hf1' & Hb1); [lia |].
    destruct (IH fields cols fbs m Hh Hf) as (fbs' & E & Hf' & Hold & Hnew).
    exists (fb' :: fbs'). cbn [append_fields]. rewrite E1. cbn [bind]. rewrite E. cbn [bind].
    split; [reflexivity |].
    assert (Hbl : Z.of_nat (List.length (built fb)) = m) by (rewrite built_length; exact Hm1).
    split; [| split].
    + cbn [fields_fit]. split; [exact Hf1' |]. split; [| exact Hf'].
      rewrite <- built_length, Hb1, length_app, slice_length. lia.
    + intros i Hi. cbn [map]. f_equal; [| apply Hold; exact Hi].
      rewrite Hb1. apply zth_app_l. lia.
    + intros k Hk. cbn [map]. f_equal; [| apply Hnew; exact Hk].
      rewrite Hb1, zth_app_r by lia. rewrite Hbl. replace (m + k - m) with k by lia.
      apply slice_at. exact Hk.
Qed.

Lemma map_Finish_at (fbs : list ArrayBuilder) n i :
  Forall (fun b => BuilderOps.length b = n) fbs -> 0 <= i < n ->
  map (fun child => logical_at as_stored child i) (map BuilderOps.Finish fbs)
  = map (fun fb => zth (built fb) i LNull) fbs.
Proof.
  intros H Hi. rewrite map_map. apply map_ext_in. intros fb Hin.
  rewrite Forall_forall in H. symmetry. apply built_at. rewrite (H fb Hin). exact Hi.
Qed.

Lemma reads_struct d2f subtypes names ml p s :
  Forall (reads d2f) subtypes ->
  reads d2f (liborc.mk liborc.STRUCT subtypes names ml p s).
Proof.
  intros Hall b vs bld off len Hh Hf Hoff Hlen Hwin.
  cbn [holds] in Hh. destruct Hh as [Hm Hb].
  destruct b as [| | | | | | h fields | |]; try contradiction.
  destruct Hb as (cols & Hfh & Hrows). cbn [BatchOps.base] in *.
  pose proof Hf as Hf0. cbn [fits] in Hf. destruct Hf as [Hty Hshape].
  destruct bld as [| | t bm fbs | |]; try contradiction.
  destruct (append_fields_reads d2f subtypes off len (Z.of_nat (List.length vs)) Hall
              Hoff Hlen Hwin fields cols fbs (Z.of_nat (List.length bm)) Hfh Hshape)
    as (fbs' & E & Hf' & Hold & Hnew).
  cbn [AppendBatch AppendStructBatch]. rewrite E. cbn [bind].
  eexists. split; [reflexivity |].
  pose proof (fields_fit_lengths _ _ _ _ Hshape) as Hls.
  pose proof (fields_fit_lengths _ _ _ _ Hf') as Hls'.
  split.
  - cbn [fits]. split; [exact Hty |].
    rewrite length_app, validity_length by exact Hlen.
    replace (Z.of_nat (List.length bm + Z.to_nat len))
      with (Z.of_nat (List.length bm) + len) by lia.
    exact Hf'.
  - apply built_app with (bits := validity_of (Z.to_nat len) (valid_bytes h off len)).
    + reflexivity.
    + rewrite slice_length, validity_length by exact Hlen. reflexivity.
    + intros i Hi. unfold BuilderOps.length in Hi. cbn [BuilderOps.null_bitmap] in Hi.
      cbn [BuilderOps.Finish logical_at]. unfold ArrayOps.IsNull. cbn [ArrayOps.null_bitmap].
      rewrite !zth_app_l by lia. destruct (negb (zth bm i false)); [reflexivity |].
      f_equal. rewrite (map_Finish_at fbs' (Z.of_nat (List.length bm) + len)) by (auto; lia).
      rewrite (map_Finish_at fbs (Z.of_nat (List.length bm))) by (auto; lia).
      apply Hold. exact Hi.
    + intros k Hk. rewrite validity_length in Hk by exact Hlen.
      assert (Hk' : 0 <= k < len) by lia. clear Hk.
      unfold BuilderOps.length. cbn [BuilderOps.null_bitmap].
      cbn [BuilderOps.Finish logical_at]. unfold ArrayOps.IsNull. cbn [ArrayOps.null_bitmap].
      rewrite zth_app_r by lia.
      replace (Z.of_nat (List.length bm) + k - Z.of_nat (List.length bm)) with k by lia.
      rewrite slice_at by lia.
      destruct (validity_at h off len k (zth vs (off + k) LNull)) as [Hbit Hnn];
        [lia | apply Hm; lia |].
      rewrite Hbit.
      destruct (zth vs (off + k) LNull) eqn:Ev; cbn [negb]; try reflexivity;
        (pose proof (Hrows (off + k) ltac:(lia) Hnn) as Hr; rewrite Ev in Hr; rewrite Hr;
         f_equal;
         rewrite (map_Finish_at fbs' (Z.of_nat (List.length bm) + len)) by (auto; lia);
         apply Hnew; exact Hk').
Qed.

(** ** Reading a list and a map *)

(** The elements [o, o + m) of the array of a builder, from what it has
    built. *)
Lemma Finish_range vb o m :
  0 <= o -> o + m <= BuilderOps.length vb ->
  map (logical_at as_stored (BuilderOps.Finish vb)) (zseq o m) = slice (built vb) o m.
Proof.
  intros Ho Hm. unfold slice. apply map_ext_in. intros j Hj. apply in_zseq in Hj.
  symmetry. apply built_at. lia.
Qed.

Lemma offsets_fit_snoc offs L L' :
  offsets_fit offs L -> 0 <= L <= L' -> offsets_fit (offs ++ [L]) L'.
Proof.
  intros H HL i Hi. rewrite length_app in Hi. cbn [List.length] in Hi.
  destruct (Z.eq_dec i (Z.of_nat (List.length offs))) as [-> | Hne].
  - rewrite zth_snoc_r by reflexivity. split; [lia |].
    rewrite zth_snoc_r; [lia |]. rewrite length_app. cbn. lia.
  - destruct (H i) as [H1 H2]; [lia |]. rewrite zth_snoc_l by lia. split; [exact H1 |].
    rewrite zth_snoc_l by (rewrite length_app; cbn; lia). lia.
Qed.

Lemma built_list_snoc et bm boffs vb vb' (bit : bool) X :
  List.length boffs = List.length bm ->
  offsets_fit boffs (BuilderOps.length vb) ->
  built vb' = built vb ++ X ->
  built (ListBuilder (arrow.LIST et) (bm ++ [bit]) (boffs ++ [BuilderOps.length vb]) vb')
  = built (ListBuilder (arrow.LIST et) bm boffs vb) ++ [if bit then LList X else LNull].
Proof.
  intros Hl Hfit Hb.
  assert (HL' : BuilderOps.length vb' = BuilderOps.length vb + Z.of_nat (List.length X)).
  { rewrite <- !built_length, Hb, length_app. lia. }
  assert (HL : 0 <= BuilderOps.length vb) by (unfold BuilderOps.length; lia).
  apply built_app with (bits := [bit]).
  - reflexivity.
  - reflexivity.
  - intros i Hi. unfold BuilderOps.length in Hi. cbn [BuilderOps.null_bitmap] in Hi.
    cbn [BuilderOps.Finish logical_at]. unfold ArrayOps.IsNull.
    cbn [ArrayOps.null_bitmap ArrayOps.value_offset].
    rewrite (zth_app_l bm) by lia. destruct (negb (zth bm i false)); [reflexivity |].
    f_equal. fold (BuilderOps.length vb) (BuilderOps.length vb').
    rewrite !(zth_snoc_l (boffs ++ [BuilderOps.length vb]))
      by (rewrite length_app; cbn; lia).
    destruct (Hfit i) as [H1 H2]; [lia |].
    rewrite (zth_snoc_l boffs) in * by lia.
    set (o := zth boffs i 0) in *.
    set (e := zth (boffs ++ [BuilderOps.length vb]) (i + 1) 0) in *.
    destruct (Z.le_gt_cases (e - o) 0) as [Hz | Hp].
    { rewrite !(zseq_nil _ Hz). reflexivity. }
    rewrite !Finish_range by lia. rewrite Hb. apply slice_app_l; [lia |].
    rewrite built_length. lia.
  - intros k Hk. cbn [List.length] in Hk. assert (k = 0) as -> by lia.
    replace (BuilderOps.length (ListBuilder (arrow.LIST et) bm boffs vb) + 0)
      with (Z.of_nat (List.length bm)) by (unfold BuilderOps.length; cbn; lia).
    cbn [BuilderOps.Finish logical_at]. unfold ArrayOps.IsNull.
    cbn [ArrayOps.null_bitmap ArrayOps.value_offset].
    rewrite (zth_snoc_r bm) by reflexivity.
    destruct bit; cbn [negb]; [| reflexivity].
    change (zth [LList X] 0 LNull) with (LList X). f_equal.
    fold (BuilderOps.length vb) (BuilderOps.length vb').
    rewrite (zth_snoc_l (boffs ++ [BuilderOps.length vb]))
      by (rewrite length_app; cbn; lia).
    rewrite (zth_snoc_r boffs) by lia.
    rewrite (zth_snoc_r (boffs ++ [BuilderOps.length vb]))
      by (rewrite length_app; cbn; lia).
    rewrite Finish_range by lia. rewrite Hb.
    apply slice_app_r; [rewrite built_length; reflexivity | lia].
Qed.

Lemma built_map_snoc kt it bm boffs kb kb' ib ib' (bit : bool) X Y :
  List.length boffs = List.length bm ->
  offsets_fit boffs (BuilderOps.length kb) ->
  BuilderOps.length ib = BuilderOps.length kb ->
  List.length Y = List.length X ->
  built kb' = built kb ++ X ->
  built ib' = built ib ++ Y ->
  built (MapBuilder (arrow.MAP kt it) (bm ++ [bit]) (boffs ++ [BuilderOps.length kb])
                    kb' ib')
  = built (MapBuilder (arrow.MAP kt it) bm boffs kb ib)
    ++ [if bit then LMap X Y else LNull].
Proof.
  intros Hl Hfit Hib HY Hbk Hbi.
  assert (HLk : BuilderOps.length kb' = BuilderOps.length kb + Z.of_nat (List.length X)).
  { rewrite <- !built_length, Hbk, length_app. lia. }
  assert (HLi : BuilderOps.length ib' = BuilderOps.length kb + Z.of_nat (List.length X)).
  { rewrite <- Hib, <- !built_length, Hbi, length_app. lia. }
  assert (HL : 0 <= BuilderOps.length kb) by (unfold BuilderOps.length; lia).
  apply built_app with (bits := [bit]).
  - reflexivity.
  - reflexivity.
  - intros i Hi. unfold BuilderOps.length in Hi. cbn [BuilderOps.null_bitmap] in Hi.
    cbn [BuilderOps.Finish logical_at]. unfold ArrayOps.IsNull.
    cbn [ArrayOps.null_bitmap ArrayOps.value_offset].
    rewrite (zth_app_l bm) by lia. destruct (negb (zth bm i false)); [reflexivity |].
    fold (BuilderOps.length kb) (BuilderOps.length kb').
    rewrite !(zth_snoc_l (boffs ++ [BuilderOps.length kb]))
      by (rewrite length_app; cbn; lia).
    destruct (Hfit i) as [H1 H2]; [lia |].
    rewrite (zth_snoc_l boffs) in * by lia.
    set (o := zth boffs i 0) in *.
    set (e := zth (boffs ++ [BuilderOps.length kb]) (i + 1) 0) in *.
    destruct (Z.le_gt_cases (e - o) 0) as [Hz | Hp].
    { rewrite !(zseq_nil _ Hz). reflexivity. }
    rewrite !Finish_range by lia. rewrite Hbk, Hbi.
    f_equal; (apply slice_app_l; [lia |]); rewrite built_length; lia.
  - intros k Hk. cbn [List.length] in Hk. assert (k = 0) as -> by lia.
    replace (BuilderOps.length (MapBuilder (arrow.MAP kt it) bm boffs kb ib) + 0)
      with (Z.of_nat (List.length bm)) by (unfold BuilderOps.length; cbn; lia).
    cbn [BuilderOps.Finish logical_at]. unfold ArrayOps.IsNull.
    cbn [ArrayOps.null_bitmap ArrayOps.value_offset].
    rewrite (zth_snoc_r bm) by reflexivity.
    destruct bit; cbn [negb]; [| reflexivity].
    change (zth [LMap X Y] 0 LNull) with (LMap X Y).
    fold (BuilderOps.length kb) (BuilderOps.length kb').
    rewrite (zth_snoc_l (boffs ++ [BuilderOps.length kb]))
      by (rewrite length_app; cbn; lia).
    rewrite (zth_snoc_r boffs) by lia.
    rewrite (zth_snoc_r (boffs ++ [BuilderOps.length kb]))
      by (rewrite length_app; cbn; lia).
    rewrite !Finish_range by lia. rewrite Hbk, Hbi.
    f_equal; apply slice_app_r; rewrite ?built_length; lia.
Qed.

Lemma GetArrowType_list e names ml p s t :
  GetArrowType (liborc.mk liborc.LIST [e] names ml p s) = Ok t ->
  exists et, t = arrow.LIST et /\ GetArrowType e = Ok et.
Proof.
  cbn [GetArrowType]. change (int32_t (Z.of_nat (List.length [e])) =? 1) with true.
  cbn [negb]. intros H. bind_inv H. injection H as <-. exists x. auto.
Qed.

Lemma GetArrowType_map k i names ml p s t :
  GetArrowType (liborc.mk liborc.MAP [k; i] names ml p s) = Ok t ->
  exists kt it, t = arrow.MAP kt it /\ GetArrowType k = Ok kt /\ GetArrowType i = Ok it.
Proof.
  cbn [GetArrowType]. change (int32_t (Z.of_nat (List.length [k; i])) =? 2) with true.
  cbn [negb]. intros H. bind_inv H. bind_inv H. injection H as <-. exists x, x0. auto.
Qed.

Lemma reads_list d2f subtypes names ml p s :
  Forall (reads d2f) subtypes ->
  reads d2f (liborc.mk liborc.LIST subtypes names ml p s).
Proof.
  intros Hall b vs bld off len Hh Hf Hoff Hlen Hwin.
  cbn [holds] in Hh. destruct Hh as [Hm Hb].
  destruct b as [| | | | | | | h offs elements |]; try contradiction.
  destruct subtypes as [| elemtype [| ? ?]]; try contradiction.
  destruct Hb as (flat & Hflat & Hfl & Hslots). cbn [BatchOps.base] in *.
  inversion Hall as [| ? ? He _]; subst.
  set (T := liborc.mk liborc.LIST [elemtype] names ml p s) in *.
  assert (Hstep : forall k bld0, 0 <= k < len -> fits T bld0 ->
            exists bld',
              (if negb (hasNulls h) || notNull h (off + k)
               then
                 builder <- Append_slot bld0 true ;;
                 match builder with
                 | ListBuilder t bm o value_builder =>
                     value_builder <-
                       AppendBatch d2f elemtype elements (offs (off + k))
                                   (offs (off + k + 1) - offs (off + k)) value_builder ;;
                     Ok (ListBuilder t bm o value_builder)
                 | _ => Undefined
                 end
               else AppendNull bld0) = Ok bld'
              /\ fits T bld' /\ built bld' = built bld0 ++ [zth vs (off + k) LNull]).
  { intros k bld0 Hk Hf0. pose proof Hf0 as Hf0'. unfold T in Hf0'. cbn [fits] in Hf0'.
    destruct Hf0' as [Hty Hshape].
    destruct bld0 as [| | | t0 bm0 boffs0 vb0 |]; try contradiction.
    destruct Hshape as (Hl0 & Hfv & Hof).
    cbn [BuilderOps.type] in Hty. pose proof Hty as Hty'.
    apply GetArrowType_list in Hty'. destruct Hty' as (et & -> & Het).
    specialize (Hm (off + k) ltac:(lia)).
    destruct (Hslots (off + k)) as (H1 & H2 & H3 & H4); [lia |].
    rewrite (position_valid_at _ _ _ Hm).
    assert (HL : 0 <= BuilderOps.length vb0) by (unfold BuilderOps.length; lia).
    destruct Hm as [[Hn Hne] | (Hn & Hhn & Ev)].
    - rewrite (H4 Hn) in *. cbn [Append_slot bind].
      destruct (He elements flat vb0 (offs (off + k))
                   (offs (off + k + 1) - offs (off + k)) Hflat Hfv)
        as (vb' & E & Hfv' & Hb'); try lia.
      rewrite E. cbn [bind]. eexists. split; [reflexivity |].
      assert (HL' : BuilderOps.length vb0 <= BuilderOps.length vb').
      { rewrite <- !built_length, Hb', length_app. lia. }
      split.
      + unfold T. cbn [fits]. split; [exact Hty |].
        split; [rewrite !length_app; cbn; lia |]. split; [exact Hfv' |].
        apply offsets_fit_snoc; [exact Hof | lia].
      + apply built_list_snoc with (bit := true); assumption.
    - rewrite Ev. cbn [AppendNull Append_slot]. eexists. split; [reflexivity |]. split.
      + unfold T. cbn [fits]. split; [exact Hty |].
        split; [rewrite !length_app; cbn; lia |]. split; [exact Hfv |].
        apply offsets_fit_snoc; [exact Hof | lia].
      + apply (built_list_snoc et bm0 boffs0 vb0 vb0 false []); try assumption.
        rewrite app_nil_r. reflexivity. }
  pose proof Hf as Hf'. unfold T in Hf'. cbn [fits] in Hf'. destruct Hf' as [_ Hshape].
  destruct bld as [| | | t0 bm0 boffs0 vb0 |]; try contradiction.
  destruct (element_loop (fits T)
              (fun i builder =>
                 if negb (hasNulls h) || notNull h i
                 then
                   builder <- Append_slot builder true ;;
                   match builder with
                   | ListBuilder t bm o value_builder =>
                       value_builder <-
                         AppendBatch d2f elemtype elements (offs i)
                                     (offs (i + 1) - offs i) value_builder ;;
                       Ok (ListBuilder t bm o value_builder)
                   | _ => Undefined
                   end
                 else AppendNull builder)
              vs off len Hstep (Z.to_nat len) (ListBuilder t0 bm0 boffs0 vb0))
    as (bld' & E & Hf' & Hb'); [lia | exact Hf |].
  exists bld'. split; [exact E |]. split; [exact Hf' |].
  rewrite Hb'. replace (Z.of_nat (Z.to_nat len)) with len by lia. reflexivity.
Qed.

Lemma reads_map d2f subtypes names ml p s :
  Forall (reads d2f) subtypes ->
  reads d2f (liborc.mk liborc.MAP subtypes names ml p s).
Proof.
  intros Hall b vs bld off len Hh Hf Hoff Hlen Hwin.
  cbn [holds] in Hh. destruct Hh as [Hm Hb].
  destruct b as [| | | | | | | | h offs keys items]; try contradiction.
  destruct subtypes as [| key_type [| item_type [| ? ?]]]; try contradiction.
  destruct Hb as (kflat & iflat & Hkflat & Hiflat & Hkl & Hil & Hslots).
  cbn [BatchOps.base] in *.
  inversion Hall as [| ? ? Hrk Hall']; subst.
  inversion Hall' as [| ? ? Hri _]; subst.
  assert (Hflats : Z.of_nat (List.length iflat) = Z.of_nat (List.length kflat)) by lia.
  set (T := liborc.mk liborc.MAP [key_type; item_type] names ml p s) in *.
  assert (Hstep : forall k bld0, 0 <= k < len -> fits T bld0 ->
            exists bld',
              (if negb (hasNulls h) || notNull h (off + k)
               then
                 builder <- Append_slot bld0 true ;;
                 match builder with
                 | MapBuilder t bm o key_builder item_builder =>
                     key_builder <-
                       AppendBatch d2f key_type keys (offs (off + k))
                                   (offs (off + k + 1) - offs (off + k)) key_builder ;;
                     item_builder <-
                       AppendBatch d2f item_type items (offs (off + k))
                                   (offs (off + k + 1) - offs (off + k)) item_builder ;;
                     Ok (MapBuilder t bm o key_builder item_builder)
                 | _ => Undefined
                 end
               else AppendNull bld0) = Ok bld'
              /\ fits T bld' /\ built bld' = built bld0 ++ [zth vs (off + k) LNull]).
  { intros k bld0 Hk Hf0. pose proof Hf0 as Hf0'. unfold T in Hf0'. cbn [fits] in Hf0'.
    destruct Hf0' as [Hty Hshape].
    destruct bld0 as [| | | | t0 bm0 boffs0 kb0 ib0]; try contradiction.
    destruct Hshape as (Hl0 & Hfk & Hfi & Hlen0 & Hof).
    cbn [BuilderOps.type] in Hty. pose proof Hty as Hty'.
    apply GetArrowType_map in Hty'. destruct Hty' as (kt & it & -> & Hkt & Hit).
    specialize (Hm (off + k) ltac:(lia)).
    destruct (Hslots (off + k)) as (H1 & H2 & H3 & H4); [lia |].
    rewrite (position_valid_at _ _ _ Hm).
    assert (HL : 0 <= BuilderOps.length kb0) by (unfold BuilderOps.length; lia).
    destruct Hm as [[Hn Hne] | (Hn & Hhn & Ev)].
    - rewrite (H4 Hn) in *. cbn [Append_slot bind].
      destruct (Hrk keys kflat kb0 (offs (off + k))
                    (offs (off + k + 1) - offs (off + k)) Hkflat Hfk)
        as (kb' & Ek & Hfk' & Hbk'); try lia.
      destruct (Hri items iflat ib0 (offs (off + k))
                    (offs (off + k + 1) - offs (off + k)) Hiflat Hfi)
        as (ib' & Ei & Hfi' & Hbi'); try lia.
      rewrite Ek. cbn [bind]. rewrite Ei. cbn [bind]. eexists. split; [reflexivity |].
      assert (HLk : BuilderOps.length kb'
                    = BuilderOps.length kb0 + (offs (off + k + 1) - offs (off + k))).
      { rewrite <- !built_length, Hbk', length_app, slice_length. lia. }
      assert (HLi : BuilderOps.length ib'
                    = BuilderOps.length ib0 + (offs (off + k + 1) - offs (off + k))).
      { rewrite <- !built_length, Hbi', length_app, slice_length. lia. }
      split.
      + unfold T. cbn [fits]. split; [exact Hty |].
        split; [rewrite !length_app; cbn; lia |]. split; [exact Hfk' |].
        split; [exact Hfi' |]. split; [lia |].
        apply offsets_fit_snoc; [exact Hof | lia].
      + apply built_map_snoc with (bit := true) (ib := ib0); try assumption.
        rewrite !slice_length. reflexivity.
    - rewrite Ev. cbn [AppendNull Append_slot]. eexists. split; [reflexivity |]. split.
      + unfold T. cbn [fits]. split; [exact Hty |].
        split; [rewrite !length_app; cbn; lia |]. split; [exact Hfk |].
        split; [exact Hfi |]. split; [exact Hlen0 |].
        apply offsets_fit_snoc; [exact Hof | lia].
      + apply (built_map_snoc kt it bm0 boffs0 kb0 kb0 ib0 ib0 false [] []);
          try assumption; try reflexivity; rewrite app_nil_r; reflexivity. }
  pose proof Hf as Hf'. unfold T in Hf'. cbn [fits] in Hf'. destruct Hf' as [_ Hshape].
  destruct bld as [| | | | t0 bm0 boffs0 kb0 ib0]; try contradiction.
  destruct (element_loop (fits T)
              (fun i builder =>
                 if negb (hasNulls h) || notNull h i
                 then
                   builder <- Append_slot builder true ;;
                   match builder with
                   | MapBuilder t bm o key_builder item_builder =>
                       key_builder <-
                         AppendBatch d2f key_type keys (offs i)
                                     (offs (i + 1) - offs i) key_builder ;;
                       item_builder <-
                         AppendBatch d2f item_type items (offs i)
                                     (offs (i + 1) - offs i) item_builder ;;
                       Ok (MapBuilder t bm o key_builder item_builder)
                   | _ => Undefined
                   end
                 else AppendNull builder)
              vs off len Hstep (Z.to_nat len) (MapBuilder t0 bm0 boffs0 kb0 ib0))
    as (bld' & E & Hf' & Hb'); [lia | exact Hf |].
  exists bld'. split; [exact E |]. split; [exact Hf' |].
  rewrite Hb'. replace (Z.of_nat (Z.to_nat len)) with len by lia. reflexivity.
Qed.

(** The decoder appends to a builder that matches the type the values a
    range of the batch holds. *)
Lemma AppendBatch_reads d2f (T : liborc.Type_) : reads d2f T.
Proof.
  induction T as [| kind subtypes names ml p s IH] using Type_induction.
  - intros b vs bld off len Hh. contradiction.
  - destruct (numeric_kind kind) eqn:Hn; [apply reads_numeric; exact Hn |].
    destruct (binary_kind kind) eqn:Hb; [apply reads_binary; exact Hb |].
    destruct kind; try discriminate Hn; try discriminate Hb.
    + apply reads_list. exact IH.
    + apply reads_map. exact IH.
    + apply reads_struct. exact IH.
    + (* UNION *)
      intros b vs bld off len Hh. cbn [holds] in Hh.
      destruct Hh as [_ [[v Hv] _]]. destruct b; discriminate Hv.
    + apply reads_decimal.
    + (* CHAR *)
      intros b vs bld off len Hh. cbn [holds] in Hh.
      destruct Hh as [_ [[v Hv] _]]. destruct b; discriminate Hv.
Qed.

(** ** The chunked encoder *)

Lemma logical_nil leaf a o n : n <= 0 -> logical leaf a o n = [].
Proof. intros H. unfold logical. rewrite (zseq_nil _ H). reflexivity. Qed.

Section Chunked.

Variable float_to_double double_to_float : Z -> Z.
Hypothesis float_exact : forall x, double_to_float (float_to_double x) = x.

(** One array out of its normal form: the encoder on a window of
    [NormalizeArray a]. *)
Lemma WriteBatch_normalized (a : Array) (T : liborc.Type_) :
  wf_array a -> GetORCType (ArrayOps.type a) = Ok T ->
  forall aoff alen b vs0 nz,
    0 <= aoff -> 0 <= alen -> aoff + alen <= ArrayOps.length a ->
    holds double_to_float T b vs0 ->
    Z.of_nat (List.length vs0) + alen <= capacity (BatchOps.base b) ->
    exists b',
      WriteBatch float_to_double (NormalizeArray a) aoff alen
                 (Z.of_nat (List.length vs0)) b nz = Ok b'
      /\ holds double_to_float T b' (vs0 ++ logical in_nanoseconds a aoff alen)
      /\ capacity (BatchOps.base b') = capacity (BatchOps.base b)
      /\ forall k, 0 <= k < alen -> ArrayOps.IsNull a (aoff + k) = true ->
           notNull (BatchOps.base b') (Z.of_nat (List.length vs0) + k) = false
           /\ fields_null b' (Z.of_nat (List.length vs0) + k) = true.
Proof.
  intros Hwf HT aoff alen b vs0 nz Hao Hal Hwin Hh Hcap.
  destruct (NormalizeArray_keeps in_nanoseconds a Hwf) as (Hwf' & Hty & Hlen & Hlog & Hdn).
  destruct (WriteBatch_holds float_to_double double_to_float (NormalizeArray a) float_exact
              Hwf' T) with (aoff := aoff) (alen := alen) (b := b) (vs0 := vs0) (nz := nz)
    as (b' & E & Hh' & Hc' & Hn'); try assumption; try lia.
  { rewrite Hty. exact HT. }
  exists b'. split; [exact E |]. rewrite Hlog in Hh' by lia.
  split; [exact Hh' |]. split; [exact Hc' |].
  intros k Hk Hnull. split.
  - apply (holds_null_marked double_to_float _ _ _ _ Hh').
    + rewrite length_app, logical_length. lia.
    + rewrite zth_app_r by lia.
      replace (Z.of_nat (List.length vs0) + k - Z.of_nat (List.length vs0)) with k by lia.
      rewrite zth_logical by lia. apply logical_at_null. exact Hnull.
  - apply Hn'; [exact Hk |]. apply Hdn; [lia | exact Hnull].
Qed.

Lemma WriteBatch_while_holds (T : liborc.Type_) (rest : list Array) :
  Forall (fun a => wf_array a /\ GetORCType (ArrayOps.type a) = Ok T) rest ->
  forall b idx c len vs0,
    holds double_to_float T b vs0 ->
    0 <= idx ->
    match rest with
    | a :: _ => idx <= ArrayOps.length a
    | [] => idx = 0
    end ->
    Z.of_nat (List.length vs0) <= len -> len <= capacity (BatchOps.base b) ->
    let vs := chunk_values rest idx (len - Z.of_nat (List.length vs0)) in
    exists b' idx' c',
      WriteBatch_while float_to_double rest b idx c len (Z.of_nat (List.length vs0))
      = Ok (b', idx', c', Z.of_nat (List.length (vs0 ++ vs)))
      /\ holds double_to_float T b' (vs0 ++ vs)
      /\ capacity (BatchOps.base b') = capacity (BatchOps.base b).
Proof.
  induction 1 as [| a rest [Hwf HT] Hall IH]; intros b idx c len vs0 Hh Hidx Hfirst Ho Hcap.
  - cbn [chunk_values WriteBatch_while]. rewrite app_nil_r. do 3 eexists.
    split; [reflexivity |]. auto.
  - cbn [WriteBatch_while].
    set (o := Z.of_nat (List.length vs0)) in *.
    destruct (Z.ltb_spec o len) as [Hlt | Hge].
    2: { cbn [chunk_values]. cbv zeta.
         rewrite logical_nil by lia.
         destruct (Z.ltb_spec (Z.min (len - o) (ArrayOps.length a - idx)) (len - o));
           [lia |].
         cbn [app]. rewrite app_nil_r. do 3 eexists. split; [reflexivity |]. auto. }
    destruct (NormalizeArray_keeps in_nanoseconds a Hwf) as (_ & _ & Hlen & _).
    rewrite Hlen. cbn [ArrayOps.Slice chunk_values]. cbv zeta.
    set (m := Z.min (len - o) (ArrayOps.length a - idx)).
    assert (Hm : 0 <= m) by (unfold m; lia).
    assert (exists b1,
               (if 0 <? m
                then b0 <- WriteBatch float_to_double (NormalizeArray a) (0 + idx)
                             (Z.min (ArrayOps.length a - idx) m) o b false ;;
                     Ok (b0, idx + m, o + m)
                else Ok (b, idx, o))
               = Ok (b1, (if 0 <? m then idx + m else idx), o + m)
               /\ holds double_to_float T b1 (vs0 ++ logical in_nanoseconds a idx m)
               /\ capacity (BatchOps.base b1) = capacity (BatchOps.base b))
      as (b1 & -> & Hh1 & Hc1).
    { destruct (Z.ltb_spec 0 m) as [Hp | Hz].
      - rewrite Z.add_0_l. replace (Z.min (ArrayOps.length a - idx) m) with m by lia.
        destruct (WriteBatch_normalized a T Hwf HT idx m b vs0 false)
          as (b1 & E & Hh1 & Hc1 & _); try assumption; try (unfold m; lia).
        fold o in E. rewrite E. cbn [bind]. exists b1. auto.
      - exists b. replace m with 0 by lia. rewrite Z.add_0_r.
        rewrite logical_nil by lia. rewrite app_nil_r. auto. }
    cbn [bind].
    assert (Hl1 : Z.of_nat (List.length (vs0 ++ logical in_nanoseconds a idx m)) = o + m).
    { rewrite length_app, logical_length. unfold o. lia. }
    destruct (Z.ltb_spec (o + m) len) as [Hmore | Hdone].
    + destruct (Z.ltb_spec m (len - o)) as [_ |]; [| lia].
      destruct (IH b1 0 (c + 1) len (vs0 ++ logical in_nanoseconds a idx m))
        as (b' & idx' & c' & E & Hh' & Hc'); try assumption; try lia.
      { destruct rest as [| a' rest']; [reflexivity |].
        inversion Hall as [| ? ? [Hwf' _] _]; subst.
        destruct a'; cbn [wf_array ArrayOps.length] in *; lia. }
      rewrite Hl1 in E, Hh'.
      replace (len - (o + m)) with (len - o - m) in E, Hh' by lia.
      rewrite <- app_assoc in E, Hh'.
      exists b', idx', c'. split; [exact E |]. split; [exact Hh' | congruence].
    + destruct (Z.ltb_spec m (len - o)) as [| _]; [lia |].
      rewrite app_nil_r. do 3 eexists. rewrite Hl1. split; [reflexivity |]. auto.
Qed.

End Chunked.

(** ** Encoding, then decoding *)

Lemma fields_null_with_base b h j :
  fields_null (BatchOps.with_base b h) j = fields_null b j.
Proof. destruct b; reflexivity. Qed.

Lemma int64_t_small v : in_int 64 v -> int64_t v = v.
Proof.
  unfold in_int, int64_t, wrap. intros H.
  change (2 ^ (64 - 1)) with 9223372036854775808 in *.
  change (2 ^ 64) with 18446744073709551616.
  rewrite Z.mod_small by lia. lia.
Qed.

(** The elements of an array without such leaves are what they are stored
    as. *)
Lemma exact_units_logical (a : Array) :
  wf_array a -> exact_units a = true ->
  forall i, 0 <= i < ArrayOps.length a ->
    logical_at in_nanoseconds a i = logical_at as_stored a i.
Proof.
  induction a as [t n bm vs | t n bm vs | t n bm children IH | t n bm offs values IH
                 | t n bm offs keys items IHk IHi] using Array_induction;
    intros Hwf Hex i Hi; cbn [ArrayOps.length] in Hi.
  - cbn [logical_at]. destruct (ArrayOps.IsNull _ i) eqn:En; [reflexivity |].
    destruct Hwf as (_ & _ & Hty & Hval). specialize (Hval i Hi En).
    unfold as_stored. f_equal.
    destruct t; try reflexivity; try discriminate Hex.
    destruct unit; try discriminate Hex. cbn [in_nanoseconds unit_nanos value_ok] in *.
    rewrite Z.mul_1_r. apply int64_t_small. exact Hval.
  - reflexivity.
  - cbn [logical_at]. destruct (ArrayOps.IsNull _ i); [reflexivity |].
    f_equal. apply map_ext_in. intros c Hin.
    destruct Hwf as (_ & _ & fs & _ & Hcwf).
    pose proof (children_wf_Forall _ _ _ _ Hcwf) as Hcs.
    rewrite Forall_forall in IH, Hcs. destruct (Hcs c Hin) as [Hwc Hlc].
    cbn [exact_units] in Hex. rewrite forallb_forall in Hex.
    apply IH; auto. lia.
  - cbn [logical_at]. destruct (ArrayOps.IsNull _ i); [reflexivity |].
    destruct Hwf as (_ & _ & _ & Hwfv & Hoffs). destruct (Hoffs i Hi) as (H1 & H2 & H3).
    f_equal. apply map_ext_in. intros j Hj. apply in_zseq in Hj.
    apply IH; auto. lia.
  - cbn [logical_at]. destruct (ArrayOps.IsNull _ i); [reflexivity |].
    destruct Hwf as (_ & _ & _ & Hwfk & Hwfi & Hoffs).
    destruct (Hoffs i Hi) as (H1 & H2 & H3 & H4).
    cbn [exact_units] in Hex. apply andb_prop in Hex. destruct Hex as [Hek Hei].
    f_equal; apply map_ext_in; intros j Hj; apply in_zseq in Hj;
      [apply IHk | apply IHi]; auto; lia.
Qed.

Section RoundTrip.

Variable float_to_double double_to_float : Z -> Z.
Hypothesis float_exact : forall x, double_to_float (float_to_double x) = x.

(** The chunked encoder on a column of one array. *)
Lemma WriteBatch_chunked_array (a : Array) (T : liborc.Type_) (L : Z) (b : Batch) :
  wf_array a -> GetORCType (ArrayOps.type a) = Ok T ->
  holds double_to_float T b [] ->
  0 <= L <= capacity (BatchOps.base b) ->
  let m := Z.min L (ArrayOps.length a) in
  exists b' idx' c',
    WriteBatch_chunked float_to_double b 0 0 L [a] = Ok (b', idx', c')
    /\ holds double_to_float T b' (logical in_nanoseconds a 0 m)
    /\ rows b' = m
    /\ forall k, 0 <= k < m -> ArrayOps.IsNull a k = true ->
         notNull (BatchOps.base b') k = false /\ fields_null b' k = true.
Proof.
  intros Hwf HT Hh HL m.
  assert (Hlen : 0 <= ArrayOps.length a) by (destruct a; apply Hwf).
  unfold WriteBatch_chunked. cbn [Z.to_nat skipn WriteBatch_while].
  destruct (NormalizeArray_keeps in_nanoseconds a Hwf) as (_ & _ & Hl & _).
  rewrite Hl. rewrite !Z.sub_0_r. fold m. cbn [ArrayOps.Slice].
  rewrite !Z.sub_0_r, !Z.add_0_l.
  replace (Z.min (ArrayOps.length a) m) with m by (unfold m; lia).
  destruct (Z.ltb_spec 0 L) as [HLp | HLz].
  2: { cbn [bind]. do 3 eexists. split; [reflexivity |].
       assert (m = 0) as -> by (unfold m; lia).
       split; [apply holds_set_numElements; exact Hh |].
       split; [apply rows_set_numElements | intros k Hk; lia]. }
  destruct (Z.ltb_spec 0 m) as [Hmp | Hmz].
  - destruct (WriteBatch_normalized float_to_double double_to_float float_exact
                a T Hwf HT 0 m b [] false)
      as (b1 & E & Hh1 & Hc1 & Hn1); try assumption; try (unfold m; cbn; lia).
    cbn [List.length Z.of_nat app] in E, Hh1, Hn1. rewrite E. cbn [bind].
    exists (BatchOps.set_numElements b1 m).
    destruct (m <? L); cbn [WriteBatch_while bind]; do 2 eexists;
      (split; [reflexivity |]); (split; [apply holds_set_numElements; exact Hh1 |]);
      (split; [apply rows_set_numElements |]);
      intros k Hk Hnull; destruct (Hn1 k Hk Hnull) as [A B];
      unfold BatchOps.set_numElements; rewrite base_with_base, fields_null_with_base;
      cbn [notNull]; rewrite !Z.add_0_l in *; auto.
  - cbn [bind]. assert (m = 0) as -> by (unfold m in *; lia).
    exists (BatchOps.set_numElements b 0).
    destruct (0 <? L); cbn [WriteBatch_while bind]; do 2 eexists;
      (split; [reflexivity |]); (split; [apply holds_set_numElements; exact Hh |]);
      (split; [apply rows_set_numElements | intros k Hk; lia]).
Qed.

(** Decoding what the encoder wrote: the array that comes back has the Arrow
    type of the ORC type of the column and the length of the array, and its
    elements are those of the array with each date64 and timestamp in
    nanoseconds. *)
Lemma decode_encode_values (a : Array) (T : liborc.Type_) (L : Z) (b : Batch)
  (bld : ArrayBuilder) :
  wf_array a -> GetORCType (ArrayOps.type a) = Ok T ->
  holds double_to_float T b [] ->
  ArrayOps.length a <= L -> L <= capacity (BatchOps.base b) ->
  fits T bld -> BuilderOps.length bld = 0 ->
  exists r,
    decode_encode float_to_double double_to_float a L b bld = Ok r
    /\ GetArrowType T = Ok (ArrayOps.type r)
    /\ ArrayOps.length r = ArrayOps.length a
    /\ logical as_stored r 0 (ArrayOps.length r)
       = logical in_nanoseconds a 0 (ArrayOps.length a)
    /\ (exact_units a = true ->
        logical as_stored r 0 (ArrayOps.length r)
        = logical as_stored a 0 (ArrayOps.length a)).
Proof.
  intros Hwf HT Hh HaL HLc Hf Hb0.
  assert (Hlen : 0 <= ArrayOps.length a) by (destruct a; apply Hwf).
  destruct (WriteBatch_chunked_array a T L b Hwf HT Hh ltac:(lia))
    as (b' & idx' & c' & E & Hh' & Hr & _).
  replace (Z.min L (ArrayOps.length a)) with (ArrayOps.length a) in * by lia.
  destruct (AppendBatch_reads double_to_float T b' _ bld 0 (ArrayOps.length a) Hh' Hf)
    as (bld' & E' & Hf' & Hb'); try lia.
  { rewrite logical_length. lia. }
  unfold decode_encode. rewrite HT. cbn [bind]. rewrite E. cbn [bind].
  unfold rows in Hr. rewrite Hr, E'. cbn [bind].
  exists (BuilderOps.Finish bld').
  assert (Hnil : built bld = []).
  { apply length_zero_iff_nil. pose proof (built_length bld). lia. }
  rewrite Hnil in Hb'. cbn [app] in Hb'.
  assert (Hsl : slice (logical in_nanoseconds a 0 (ArrayOps.length a)) 0 (ArrayOps.length a)
                = logical in_nanoseconds a 0 (ArrayOps.length a)).
  { rewrite <- (slice_all (logical in_nanoseconds a 0 (ArrayOps.length a))) at 2.
    rewrite logical_length. f_equal. lia. }
  rewrite Hsl in Hb'.
  assert (Hl' : ArrayOps.length (BuilderOps.Finish bld') = BuilderOps.length bld').
  { destruct bld'; reflexivity. }
  assert (Hlb : BuilderOps.length bld' = ArrayOps.length a).
  { rewrite <- built_length, Hb', logical_length. lia. }
  assert (Hty : ArrayOps.type (BuilderOps.Finish bld') = BuilderOps.type bld').
  { destruct bld'; reflexivity. }
  split; [reflexivity |]. split.
  { rewrite Hty. destruct T; [contradiction |]. cbn [fits] in Hf'. apply Hf'. }
  split; [congruence |]. rewrite Hl'. split; [exact Hb' |].
  intros Hex. fold (built bld'). rewrite Hb'. unfold logical. apply map_ext_in.
  intros i Hi. apply in_zseq in Hi. apply exact_units_logical; auto; lia.
Qed.

End RoundTrip.

(** ** The writer loop runs *)

Lemma fields_hold_nil (H : liborc.Type_ -> Batch -> list LVal -> Prop) ts :
  Forall (fun t => forall b vs, H t b vs -> H t b []) ts ->
  forall n fs cs, fields_hold H n ts fs cs ->
    fields_hold H 0 ts fs (map (fun _ => []) cs).
Proof.
  induction 1 as [| t ts Ht _ IH]; intros n fs cs Hh; destruct fs, cs; try contradiction.
  - exact I.
  - destruct Hh as (A & B & C). cbn [map fields_hold]. split; [eapply Ht; exact A |].
    split; [reflexivity | eapply IH; exact C].
Qed.

(** A batch that holds values holds none as well: it is a batch of the
    type. *)
Lemma holds_nil d2f (T : liborc.Type_) : forall b vs, holds d2f T b vs -> holds d2f T b [].
Proof.
  induction T as [| kind subtypes names ml p s IH] using Type_induction; intros b vs Hh.
  - contradiction.
  - cbn [holds] in *. destruct Hh as [Hm Hb]. split; [intros i Hi; cbn in Hi; lia |].
    cbn [List.length Z.of_nat].
    destruct kind;
      try (destruct Hb as [Hv _]; split; [exact Hv | intros i Hi; lia]).
    + destruct b; try contradiction. destruct subtypes as [| e [| ? ?]]; try contradiction.
      destruct Hb as (flat & Hf & _). inversion IH; subst.
      exists []. split; [eauto |]. split; [reflexivity | intros i Hi; lia].
    + destruct b; try contradiction.
      destruct subtypes as [| k [| it [| ? ?]]]; try contradiction.
      destruct Hb as (kf & itf & Hk & Hit & _).
      inversion IH as [| ? ? IHk IH']; subst. inversion IH' as [| ? ? IHi _]; subst.
      exists [], []. repeat split; eauto; try (intros; lia); cbn in *; lia.
    + destruct b; try contradiction. destruct Hb as (cols & Hf & _).
      exists (map (fun _ => []) cols). split; [| intros i Hi; lia].
      apply (fields_hold_nil (fun t f c => holds d2f t f c) subtypes IH _ _ _ Hf).
Qed.

Lemma Forall_skipn {A} (P : A -> Prop) n l : Forall P l -> Forall P (skipn n l).
Proof.
  revert l. induction n as [| n IH]; intros l H; [exact H |].
  destruct l; [constructor |]. inversion H; subst. cbn. apply IH. assumption.
Qed.

Section Writer.

Variable float_to_double double_to_float : Z -> Z.
Hypothesis float_exact : forall x, double_to_float (float_to_double x) = x.

Lemma column_lengths T (col : list Array) :
  Forall (fun a => wf_array a /\ GetORCType (ArrayOps.type a) = Ok T) col ->
  Forall (fun a => 0 <= ArrayOps.length a) col.
Proof.
  intros H. eapply Forall_impl; [| exact H]. intros a [Hwf _]. destruct a; apply Hwf.
Qed.

(** The chunked encoder returns, with the count of the values it wrote and
    the cursor pair advanced by that count. *)
Lemma WriteBatch_chunked_runs (col : ChunkedArray) (b : Batch) (idx c len : Z) :
  column_fits double_to_float len col b ->
  cursor_ok col c idx -> 0 <= len ->
  exists b' idx' c',
    WriteBatch_chunked float_to_double b idx c len col = Ok (b', idx', c')
    /\ column_fits double_to_float len col b'
    /\ rows b' = Z.min len (chunks_length col - position col c idx)
    /\ cursor_ok col c' idx'
    /\ position col c' idx' = position col c idx + rows b'.
Proof.
  intros (T & vs & Hcol & Hh & Hcap) Hcur Hlen.
  pose proof Hcur as (Hc & Hidx & Hfirst).
  destruct (WriteBatch_while_holds float_to_double double_to_float float_exact T
              (skipn (Z.to_nat c) col) (Forall_skipn _ _ _ Hcol) b idx c len []
              (holds_nil _ _ _ _ Hh) Hidx Hfirst)
    as (b' & idx' & c' & E & Hh' & Hc'); cbn [List.length Z.of_nat]; try lia.
  cbn [List.length Z.of_nat app] in E, Hh'.
  assert (Eq : WriteBatch_chunked float_to_double b idx c len col
               = Ok (BatchOps.set_numElements b'
                       (Z.of_nat (List.length
                          (chunk_values (skipn (Z.to_nat c) col) idx (len - 0)))),
                     idx', c')).
  { unfold WriteBatch_chunked. rewrite E. reflexivity. }
  do 3 eexists. split; [exact Eq |]. split.
  - exists T. eexists. split; [exact Hcol |]. split.
    + apply holds_set_numElements. exact Hh'.
    + unfold BatchOps.set_numElements. rewrite base_with_base. cbn [capacity]. lia.
  - eapply WriteBatch_chunked_count; try eassumption.
    eapply column_lengths. exact Hcol.
Qed.

Lemma write_columns_runs (C : Z) (cols : list ChunkedArray) :
  0 <= C ->
  forall fields ios cos,
    columns_ready double_to_float C cols fields ios cos ->
    exists fields' ios' cos',
      write_columns float_to_double C cols fields ios cos = Ok (fields', ios', cos')
      /\ columns_ready double_to_float C cols fields' ios' cos'
      /\ (cols <> [] -> fields' <> []).
Proof.
  intros HC. induction cols as [| col cols IH]; intros fields ios cos Hr.
  - do 3 eexists. split; [reflexivity |]. split; [exact I | congruence].
  - destruct fields as [| field fields]; [contradiction |].
    destruct ios as [| io ios]; [contradiction |].
    destruct cos as [| co cos]; [contradiction |].
    destruct Hr as (Hfit & Hcur & Hr).
    destruct (WriteBatch_chunked_runs col field io co C Hfit Hcur HC)
      as (f' & io' & co' & E & Hfit' & _ & Hcur' & _).
    destruct (IH fields ios cos Hr) as (fs' & ios' & cos' & E' & Hr' & _).
    cbn [write_columns]. rewrite E. cbn [bind]. rewrite E'. cbn [bind].
    do 3 eexists. split; [reflexivity |]. split; [| discriminate].
    cbn [columns_ready]. auto.
Qed.

Lemma columns_ready_reset (C : Z) (cols : list ChunkedArray) :
  forall fields ios cos,
    columns_ready double_to_float C cols fields ios cos ->
    columns_ready double_to_float C cols
      (map (fun f => BatchOps.set_numElements f 0) fields) ios cos.
Proof.
  induction cols as [| col cols IH]; intros fields ios cos Hr; [exact I |].
  destruct fields as [| field fields]; [contradiction |].
  destruct ios as [| io ios]; [contradiction |].
  destruct cos as [| co cos]; [contradiction |].
  destruct Hr as ((T & vs & Hcol & Hh & Hcap) & Hcur & Hr).
  cbn [map columns_ready]. split; [| split; [exact Hcur | apply IH; exact Hr]].
  exists T, vs. split; [exact Hcol |]. split; [apply holds_set_numElements; exact Hh |].
  unfold BatchOps.set_numElements. rewrite base_with_base. exact Hcap.
Qed.

Lemma Write_body_runs (C : Z) (cols : list ChunkedArray) (st : WriterState) :
  0 <= C -> cols <> [] ->
  writer_ready double_to_float C cols st ->
  exists st',
    Write_body float_to_double C cols st = Ok st'
    /\ writer_ready double_to_float C cols st'.
Proof.
  intros HC Hne (h & fields & Hroot & Hr).
  destruct (write_columns_runs C cols HC _ _ _ Hr) as (fs' & ios' & cos' & E & Hr' & Hf).
  unfold Write_body. rewrite Hroot, E. cbn [bind].
  destruct fs' as [| field0 fs']; [exfalso; apply (Hf Hne); reflexivity |].
  eexists. split; [reflexivity |].
  unfold writer_ready. cbn [root arrow_index_offset arrow_chunk_offset].
  unfold clear. cbn [BatchOps.set_numElements BatchOps.with_base BatchOps.base].
  do 2 eexists. split; [reflexivity |]. apply columns_ready_reset. exact Hr'.
Qed.

Lemma Write_loop_runs (C : Z) (cols : list ChunkedArray) :
  0 < C -> cols <> [] ->
  forall (m : nat) (numRows : Z) (st : WriterState),
    (Z.to_nat numRows <= m)%nat ->
    writer_ready double_to_float C cols st ->
    exists st', Write_loop float_to_double C cols numRows st = Ok st'.
Proof.
  intros HC Hne. induction m as [| m IH]; intros numRows st Hm Hr;
    rewrite Write_loop_round; destruct (Z_lt_dec 0 numRows) as [Hp | Hz];
    try (eexists; reflexivity); try lia.
  destruct (Z_lt_dec 0 C) as [_ |]; [| lia].
  destruct (Write_body_runs C cols st ltac:(lia) Hne Hr) as (st1 & E & Hr1).
  rewrite E. cbn [bind]. apply IH; [lia | exact Hr1].
Qed.

End Writer.

(** The positions below a small bound, one by one. *)
Ltac below H :=
  match type of H with
  | 0 <= ?i < ?n =>
      let rec go k :=
        first [ assert (i = k) as -> by lia
              | let E := fresh "E" in
                let k' := eval compute in (k + 1) in
                destruct (Z.eq_dec i k) as [-> | E]; [| go k'] ]
      in go 0
  end.

(** A closed goal of comparisons and equations, by evaluation. *)
Ltac evaluated :=
  vm_compute; repeat first [ reflexivity | discriminate | exact I | split ].

(** A primitive example array is well formed. *)
Ltac wf_leaf :=
  split; [cbn; lia |];
  split; [cbn; try exact I; lia |];
  split; [reflexivity |];
  let i := fresh "i" in
  let Hi := fresh "Hi" in
  intros i Hi _; below Hi; evaluated.

(** ** The round trip *)

(** The counterexample of C1: a timestamp array in seconds that holds 1
    comes back, through a batch and a builder of its column, as a timestamp
    array in nanoseconds that holds 1000000000: neither its type nor its
    element is the one of the array. *)
Lemma round_trip_rescales_seconds :
  wf_array example_seconds_array
  /\ decode_encode (fun x => x) (fun x => x) example_seconds_array 1
       (TimestampVectorBatch (example_header 1) (fun _ => 0) (fun _ => 0))
       (NumericBuilder (arrow.TIMESTAMP arrow.NANO) [] [])
     = Ok (PrimitiveArray (arrow.TIMESTAMP arrow.NANO) 1 (Some [true]) [1000000000])
  /\ logical as_stored
       (PrimitiveArray (arrow.TIMESTAMP arrow.NANO) 1 (Some [true]) [1000000000]) 0 1
     <> logical as_stored example_seconds_array 0 1.
Proof.
  split; [| split].
  - wf_leaf.
  - vm_compute. reflexivity.
  - vm_compute. discriminate.
Qed.

(** C1, amended: for a well-formed array of a type the encoder supports,
    a batch of its column with room for it and an empty builder matching the
    column, decoding the result of encoding the array succeeds; the array
    that comes back has the Arrow type [GetArrowType] gives the ORC type of
    the column and the length of the array, and its elements, valid and
    null, at every level of nesting, are those of the array with each date64
    and timestamp converted to nanoseconds.  It has the elements of the array
    itself when the array has no date64 and no timestamp of a unit other
    than the nanosecond. *)
Theorem round_trip_in_nanoseconds (float_to_double double_to_float : Z -> Z)
  (a : Array) (T : liborc.Type_) (L : Z) (b : Batch) (bld : ArrayBuilder) :
  (forall x, double_to_float (float_to_double x) = x) ->
  wf_array a -> GetORCType (ArrayOps.type a) = Ok T ->
  holds double_to_float T b [] ->
  ArrayOps.length a <= L -> L <= capacity (BatchOps.base b) ->
  fits T bld -> BuilderOps.length bld = 0 ->
  exists r,
    decode_encode float_to_double double_to_float a L b bld = Ok r
    /\ GetArrowType T = Ok (ArrayOps.type r)
    /\ ArrayOps.length r = ArrayOps.length a
    /\ logical as_stored r 0 (ArrayOps.length r)
       = logical in_nanoseconds a 0 (ArrayOps.length a)
    /\ (exact_units a = true ->
        logical as_stored r 0 (ArrayOps.length r)
        = logical as_stored a 0 (ArrayOps.length a)).
Proof.
  intros float_exact. apply decode_encode_values. exact float_exact.
Qed.

Lemma example_list_array_wf : wf_array example_list_array.
Proof.
  split; [cbn; lia |]. split; [cbn; lia |]. split; [reflexivity |].
  split; [wf_leaf |].
  intros i Hi. below Hi; evaluated.
Qed.

Lemma example_list_batch_holds (capacity : Z) :
  holds (fun x => x)
        (liborc.createListType (liborc.createPrimitiveType liborc.LONG))
        (example_list_batch capacity) [].
Proof.
  cbn. split; [intros i Hi; lia |]. exists []. cbn.
  split; [| split; [reflexivity | intros i Hi; lia]].
  split; [intros i Hi; lia |]. split; [| intros i Hi; lia]. eexists. reflexivity.
Qed.

Lemma example_list_builder_fits :
  fits (liborc.createListType (liborc.createPrimitiveType liborc.LONG))
       example_list_builder.
Proof.
  split; [reflexivity |]. split; [reflexivity |].
  split; [split; reflexivity |]. intros i Hi. cbn in Hi. lia.
Qed.

Lemma round_trip_in_nanoseconds_witness :
  wf_array example_list_array
  /\ holds (fun x => x)
           (liborc.createListType (liborc.createPrimitiveType liborc.LONG))
           (example_list_batch 4) []
  /\ fits (liborc.createListType (liborc.createPrimitiveType liborc.LONG))
          example_list_builder
  /\ exists r,
       decode_encode (fun x => x) (fun x => x) example_list_array 4
                     (example_list_batch 4) example_list_builder = Ok r
       /\ GetArrowType (liborc.createListType (liborc.createPrimitiveType liborc.LONG))
          = Ok (ArrayOps.type r)
       /\ ArrayOps.length r = 3
       /\ logical as_stored r 0 (ArrayOps.length r)
          = [LList [LNum 5; LNull]; LNull; LList []].
Proof.
  split; [exact example_list_array_wf |].
  split; [exact (example_list_batch_holds 4) |].
  split; [exact example_list_builder_fits |].
  destruct (round_trip_in_nanoseconds (fun x => x) (fun x => x) example_list_array
              (liborc.createListType (liborc.createPrimitiveType liborc.LONG))
              4 (example_list_batch 4) example_list_builder
              (fun x => eq_refl) example_list_array_wf eq_refl
              (example_list_batch_holds 4) ltac:(cbn; lia) ltac:(cbn; lia)
              example_list_builder_fits eq_refl)
    as (r & E & Ht & Hl & Hv & _).
  exists r. split; [exact E |]. split; [exact Ht |]. split; [exact Hl |]. exact Hv.
Defined.

(** ** Null propagation *)

Lemma child_nulls_combined (a : Array) (i : Z) :
  wf_array a -> 0 <= i < ArrayOps.length a -> ArrayOps.IsNull a i = true ->
  forall j, 0 <= j < ArrayOps.length a ->
    map (fun c => ArrayOps.IsNull c j) (child_arrays (NormalizeArray a))
    = map (fun c => ArrayOps.IsNull a j || ArrayOps.IsNull c j) (child_arrays a).
Proof.
  intros Hwf Hi Hnull j Hj. unfold NormalizeArray.
  destruct a as [t n bm vs | t n bm vs | t n bm children | t n bm offs values
                | t n bm offs keys items]; cbn [NormalizeArray_from child_arrays];
    try reflexivity.
  - destruct Hwf as (Hlen & Hbm & fs & -> & Hcwf).
    cbn [ArrayOps.length ArrayOps.null_bitmap] in *.
    unfold ArrayOps.IsNull in Hnull |- *. cbn [ArrayOps.null_bitmap] in Hnull |- *.
    destruct bm as [bits |]; [| discriminate Hnull].
    destruct (Z.eqb_spec (bitmap_null_count (Some bits) n) 0) as [Hz | Hnz].
    { rewrite (bitmap_null_count_zero bits n i Hz Hi) in Hnull. discriminate Hnull. }
    cbn [child_arrays]. rewrite map_map. apply map_ext_in. intros c Hin.
    rewrite NormalizeArray_from_bitmap.
    change (match ArrayOps.null_bitmap c with
            | Some child_bitmap => BitmapAnd bits child_bitmap n
            | None => bits
            end) with (final_child_bitmap bits n c).
    rewrite final_child_bitmap_at by exact Hj.
    rewrite negb_andb, negb_involutive. reflexivity.
  - destruct t; reflexivity.
  - destruct t; reflexivity.
Qed.

(** C2: when slot [i] of an array is null, the chunked encoder, which
    normalises the array first, leaves position [i] marked null in the batch
    and in every field batch below it through nested structs, whatever the
    children of the array report for that slot; and the children of the
    normalised array are null where the array or the child is: their validity
    is the conjunction of the two. *)
Theorem struct_null_propagates (float_to_double double_to_float : Z -> Z)
  (a : Array) (T : liborc.Type_) (L : Z) (b : Batch) (i : Z) :
  (forall x, double_to_float (float_to_double x) = x) ->
  wf_array a -> GetORCType (ArrayOps.type a) = Ok T ->
  holds double_to_float T b [] ->
  0 <= L <= capacity (BatchOps.base b) ->
  0 <= i < Z.min L (ArrayOps.length a) ->
  ArrayOps.IsNull a i = true ->
  (forall j, 0 <= j < ArrayOps.length a ->
     map (fun c => ArrayOps.IsNull c j) (child_arrays (NormalizeArray a))
     = map (fun c => ArrayOps.IsNull a j || ArrayOps.IsNull c j) (child_arrays a))
  /\ deep_null (NormalizeArray a) i = true
  /\ exists b' idx' c',
       WriteBatch_chunked float_to_double b 0 0 L [a] = Ok (b', idx', c')
       /\ notNull (BatchOps.base b') i = false
       /\ fields_null b' i = true.
Proof.
  intros float_exact Hwf HT Hh HL Hi Hnull.
  split; [apply (child_nulls_combined a i); try assumption; lia |].
  destruct (NormalizeArray_keeps in_nanoseconds a Hwf) as (_ & _ & _ & _ & Hdn).
  split; [apply Hdn; [lia | exact Hnull] |].
  destruct (WriteBatch_chunked_array float_to_double double_to_float float_exact
              a T L b Hwf HT Hh HL) as (b' & idx' & c' & E & _ & _ & Hn).
  exists b', idx', c'. split; [exact E |]. apply Hn; assumption.
Qed.

Lemma example_struct_array_wf : wf_array example_struct_array.
Proof.
  split; [cbn; lia |]. split; [cbn; lia |].
  exists [("x"%string, arrow.INT64);
          ("s"%string, arrow.STRUCT [("y"%string, arrow.INT64)])].
  split; [reflexivity |].
  split; [reflexivity |]. split; [cbn; lia |]. split; [wf_leaf |].
  split; [reflexivity |]. split; [cbn; lia |]. split; [| exact I].
  split; [cbn; lia |]. split; [exact I |].
  exists [("y"%string, arrow.INT64)]. split; [reflexivity |].
  split; [reflexivity |]. split; [cbn; lia |]. split; [wf_leaf | exact I].
Qed.

Lemma example_long_batch_holds (capacity : Z) :
  holds (fun x => x) (liborc.createPrimitiveType liborc.LONG)
        (example_long_batch capacity) [].
Proof.
  split; [intros i Hi; cbn in Hi; lia |].
  split; [eexists; reflexivity | intros i Hi; cbn in Hi; lia].
Qed.

Lemma example_struct_batch_holds (capacity : Z) :
  holds (fun x => x)
        (liborc.createStructType
           [("x"%string, liborc.createPrimitiveType liborc.LONG);
            ("s"%string,
             liborc.createStructType
               [("y"%string, liborc.createPrimitiveType liborc.LONG)])])
        (example_struct_batch capacity) [].
Proof.
  split; [intros i Hi; cbn in Hi; lia |].
  exists [[]; []]. split; [| intros i Hi; cbn in Hi; lia].
  split; [exact (example_long_batch_holds capacity) |]. split; [reflexivity |].
  split; [| split; [reflexivity | exact I]].
  split; [intros i Hi; cbn in Hi; lia |].
  exists [[]]. split; [| intros i Hi; cbn in Hi; lia].
  split; [exact (example_long_batch_holds capacity) |]. split; [reflexivity | exact I].
Qed.

Lemma struct_null_propagates_witness :
  wf_array example_struct_array
  /\ ArrayOps.IsNull example_struct_array 1 = true
  /\ map (fun c => ArrayOps.IsNull c 1) (child_arrays example_struct_array)
     = [false; false]
  /\ map (fun c => ArrayOps.IsNull c 1)
         (child_arrays (NormalizeArray example_struct_array))
     = [true; true]
  /\ exists b' idx' c',
       WriteBatch_chunked (fun x => x) (example_struct_batch 2) 0 0 2
                          [example_struct_array] = Ok (b', idx', c')
       /\ notNull (BatchOps.base b') 1 = false
       /\ fields_null b' 1 = true.
Proof.
  split; [exact example_struct_array_wf |].
  split; [reflexivity |]. split; [reflexivity |].
  destruct (struct_null_propagates (fun x => x) (fun x => x) example_struct_array
              (liborc.createStructType
                 [("x"%string, liborc.createPrimitiveType liborc.LONG);
                  ("s"%string,
                   liborc.createStructType
                     [("y"%string, liborc.createPrimitiveType liborc.LONG)])])
              2 (example_struct_batch 2) 1
              (fun x => eq_refl) example_struct_array_wf eq_refl
              (example_struct_batch_holds 2) ltac:(cbn; lia) ltac:(cbn; lia) eq_refl)
    as (Hc & _ & Hw).
  split; [exact (Hc 1 ltac:(cbn; lia)) | exact Hw].
Defined.

(** ** Batches of a chunked column *)

(** C3: the chunked [WriteBatch] returns, and the count of the values it
    wrote, which it stores into [numElements], is the minimum of the batch
    size and the length the column has left after the cursor pair; the
    cursor pair it gives back is that many values further.  The loop of
    [Write] over a column of [L] rows in batches of [C] rows therefore adds
    ceil(L / C) batches, of [C] rows each but the last, with [L] rows in
    all. *)
Theorem chunked_write_counts (float_to_double double_to_float : Z -> Z) :
  (forall x, double_to_float (float_to_double x) = x) ->
  (forall col b idx c len,
      column_fits double_to_float len col b -> cursor_ok col c idx -> 0 <= len ->
      exists b' idx' c',
        WriteBatch_chunked float_to_double b idx c len col = Ok (b', idx', c')
        /\ rows b' = Z.min len (chunks_length col - position col c idx)
        /\ cursor_ok col c' idx'
        /\ position col c' idx' = position col c idx + rows b')
  /\ (forall C L col cols root,
         0 < C -> 0 <= L -> chunks_length col = L ->
         writer_ready double_to_float C (col :: cols)
           (mkWriter root (repeat 0 (S (List.length cols)))
                     (repeat 0 (S (List.length cols))) []) ->
         exists batches,
           Write_with float_to_double C root (mkTable L (col :: cols)) = Ok batches
           /\ Z.of_nat (List.length batches) = (L + C - 1) / C
           /\ total_rows batches = L
           /\ forall k d, 0 <= k < Z.of_nat (List.length batches) ->
                rows (zth batches k d) = Z.min C (L - k * C)).
Proof.
  intros float_exact. split.
  - intros col b idx c len Hfit Hcur Hlen.
    destruct (WriteBatch_chunked_runs float_to_double double_to_float float_exact
                col b idx c len Hfit Hcur Hlen)
      as (b' & idx' & c' & E & _ & Hrows & Hcur' & Hpos).
    exists b', idx', c'. auto.
  - intros C L col cols root HC HL Hcol Hready.
    destruct (Write_loop_runs float_to_double double_to_float float_exact C (col :: cols)
                HC ltac:(discriminate) (Z.to_nat L) L _ (Nat.le_refl _) Hready)
      as (st' & E).
    pose proof Hready as (h & fields & _ & Hcols).
    cbn [arrow_index_offset arrow_chunk_offset repeat columns_ready] in Hcols.
    destruct fields as [| field fields]; [contradiction |].
    destruct Hcols as ((T & vs & Hwf & _ & _) & Hcur & _).
    destruct (@Write_loop_rows float_to_double C col cols HC
                (column_lengths T col Hwf) (Z.to_nat L) L
                (mkWriter root (repeat 0 (S (List.length cols)))
                          (repeat 0 (S (List.length cols))) []) st'
                0 (repeat 0 (List.length cols)) 0 (repeat 0 (List.length cols))
                (Nat.le_refl _) eq_refl eq_refl Hcur)
      as (new & Hadded & Hlen & Htotal & Hrows).
    { unfold position. cbn [Z.to_nat firstn chunks_length fold_right]. lia. }
    { exact E. }
    cbn [added] in Hadded. rewrite app_nil_r in Hadded.
    exists new. unfold Write_with. cbn [num_rows columns List.length].
    match goal with
    | |- (bind ?x _ = _) /\ _ => replace x with (Ok st') by (symmetry; exact E)
    end.
    cbn [bind]. rewrite Hadded, rev_involutive.
    replace (Z.max L 0) with L in * by lia. auto.
Qed.

Lemma example_column_fits :
  column_fits (fun x => x) 2 example_column (example_long_batch 2).
Proof.
  exists (liborc.createPrimitiveType liborc.LONG), [].
  split; [| split; [exact (example_long_batch_holds 2) | cbn; lia]].
  unfold example_column.
  constructor; [split; [wf_leaf | reflexivity] |].
  constructor; [split; [wf_leaf | reflexivity] | constructor].
Qed.

Lemma chunked_write_counts_witness :
  column_fits (fun x => x) 2 example_column (example_long_batch 2)
  /\ cursor_ok example_column 0 1
  /\ (exists b' idx' c',
         WriteBatch_chunked (fun x => x) (example_long_batch 2) 1 0 2 example_column
         = Ok (b', idx', c')
         /\ rows b' = 2 /\ position example_column c' idx' = 3)
  /\ exists batches,
       Write_with (fun x => x) 2
         (StructVectorBatch (example_header 2) [example_long_batch 2])
         (mkTable 3 [example_column]) = Ok batches
       /\ Z.of_nat (List.length batches) = 2
       /\ total_rows batches = 3.
Proof.
  assert (Hcur : cursor_ok example_column 0 1) by (repeat split; cbn; lia).
  assert (Hcur0 : cursor_ok example_column 0 0) by (repeat split; cbn; lia).
  split; [exact example_column_fits |]. split; [exact Hcur |].
  destruct (chunked_write_counts (fun x => x) (fun x => x) (fun x => eq_refl))
    as [Hcall Hloop].
  split.
  - destruct (Hcall example_column (example_long_batch 2) 1 0 2
                example_column_fits Hcur ltac:(lia))
      as (b' & idx' & c' & E & Hrows & _ & Hpos).
    exists b', idx', c'. split; [exact E |]. split; [exact Hrows |].
    rewrite Hpos, Hrows. reflexivity.
  - destruct (Hloop 2 3 example_column []
                (StructVectorBatch (example_header 2) [example_long_batch 2])
                ltac:(lia) ltac:(lia) eq_refl)
      as (batches & E & Hlen & Htotal & _).
    { exists (example_header 2), [example_long_batch 2].
      split; [reflexivity |]. split; [exact example_column_fits |].
      split; [exact Hcur0 | exact I]. }
    exists batches. split; [exact E |]. split; [exact Hlen | exact Htotal].
Defined.

(** ** The list and map theorems on an example *)

Lemma list_map_decode_follows_spec_witness :
  AppendBatch (fun x => x)
    (liborc.createListType (liborc.createPrimitiveType liborc.LONG))
    (ListVectorBatch (mkBase 2 2 (fun i => i =? 0) true)
                     (fun i => if i =? 0 then 0 else 1)
                     (LongVectorBatch (mkBase 1 1 (fun _ => true) false) (fun _ => 7)))
    0 2 example_list_builder
  = Ok (ListBuilder (arrow.LIST arrow.INT64) [true; false] [0; 1]
                    (NumericBuilder arrow.INT64 [true] [7]))
  /\ list_decode_spec (fun _ _ vb => Ok vb) (mkBase 2 2 (fun _ => false) true)
       (fun _ => 0) (zseq 0 2) [] [] (NumericBuilder arrow.INT64 [] [])
     = Ok ([false; false], [0; 0], NumericBuilder arrow.INT64 [] [])
  /\ [false; false]
     = [] ++ map (position_valid (mkBase 2 2 (fun _ => false) true)) (zseq 0 2).
Proof.
  destruct (list_map_decode_follows_spec (fun x => x)
              (mkBase 2 2 (fun i => i =? 0) true) (fun i => if i =? 0 then 0 else 1)
              0 2 (arrow.LIST arrow.INT64) [] [] [] 0 0 0) as (Hlist & _).
  destruct (list_map_decode_follows_spec (fun x => x)
              (mkBase 2 2 (fun _ => false) true) (fun _ => 0)
              0 2 (arrow.LIST arrow.INT64) [] [] [] 0 0 0) as (_ & _ & Hslots & _).
  split; [| split; [reflexivity |]].
  - unfold liborc.createListType, example_list_builder. rewrite Hlist. reflexivity.
  - exact (proj1 (Hslots (fun _ _ vb => Ok vb) (NumericBuilder arrow.INT64 [] [])
                         [false; false] [0; 0] (NumericBuilder arrow.INT64 [] [])
                         eq_refl)).
Defined.

Lemma list_map_offsets_monotone_witness :
  exists b',
    is_list_or_map (ArrayOps.type example_list_array) = true
    /\ WriteBatch (fun x => x) example_list_array 0 3 0 (example_list_batch 3) false
       = Ok b'
    /\ get_offset b' 0 = 0
    /\ get_offset b' 1 <= get_offset b' 2
    /\ get_offset b' 2 = get_offset b' 1.
Proof.
  destruct (WriteBatch_holds (fun x => x) (fun x => x) example_list_array
              (fun x => eq_refl) example_list_array_wf
              (liborc.createListType (liborc.createPrimitiveType liborc.LONG)) eq_refl
              0 3 (example_list_batch 3) [] false
              ltac:(lia) ltac:(lia) ltac:(cbn; lia)
              (example_list_batch_holds 3) ltac:(cbn; lia))
    as (b' & E & _).
  cbn [List.length Z.of_nat] in E.
  exists b'. split; [reflexivity |]. split; [exact E |].
  assert (Hmono : forall k, 0 <= k < 3 ->
                    ArrayOps.value_offset example_list_array (0 + k)
                    <= ArrayOps.value_offset example_list_array (0 + k + 1)).
  { intros k Hk. below Hk; evaluated. }
  destruct (@list_map_offsets_monotone (fun x => x) example_list_array 0 3 0
              (example_list_batch 3) b' false eq_refl ltac:(lia) Hmono E)
    as [H0 Hk].
  split; [exact (H0 eq_refl) |].
  destruct (Hk 1 ltac:(lia)) as [Hle Hnull].
  split; [exact Hle | exact (Hnull eq_refl)].
Defined.

(** * The schema translators, one after the other *)

(** ** Induction over nested types *)

Lemma DataType_induction (P : arrow.DataType -> Prop) :
  (forall t, Forall P (visited_types t) -> P t) -> forall t, P t.
Proof.
  intros H. fix IH 1. intros t. apply H.
  destruct t as [| | | | | | | | | | | | | | | w | | | u | | | | | p s | p s
                 | v | fs | fs cs | fs cs | ix v | k i | | v n | | | | v];
    cbn [visited_types]; try constructor; try apply IH; try constructor;
    try apply IH; try constructor.
  all: induction fs as [| [name t] fs IHfs]; cbn [map snd]; constructor;
    [apply IH | exact IHfs].
Qed.

Lemma forallb_fields (f : arrow.DataType -> bool) (fs : list (string * arrow.DataType)) :
  forallb (fun field => let '(_, t) := field in f t) fs = true ->
  Forall (fun t => f t = true) (map snd fs).
Proof.
  induction fs as [| [name t] fs IH]; cbn [forallb map snd]; intros H; constructor.
  - apply andb_prop in H. apply H.
  - apply IH. apply andb_prop in H. apply H.
Qed.

(** ** What comes back for a type written to ORC *)

Lemma int32_of_uint64 (x : Z) : - 2 ^ 31 <= x < 2 ^ 31 -> int32_t (uint64_t x) = x.
Proof.
  intros H. unfold int32_t, uint64_t, wrap.
  change (2 ^ (32 - 1)) with (2 ^ 31).
  replace (x mod 2 ^ 64 + 2 ^ 31)
    with (x + 2 ^ 31 + - (x / 2 ^ 64 * 2 ^ 32) * 2 ^ 32)
    by (pose proof (Z.div_mod x (2 ^ 64) ltac:(lia)); lia).
  rewrite Z_mod_plus_full, Z.mod_small; lia.
Qed.

Lemma decimal_in_range_spec (p s : Z) :
  decimal_in_range p s = true ->
  - 2 ^ 31 <= p < 2 ^ 31 /\ p <> 0 /\ - 2 ^ 31 <= s < 2 ^ 31.
Proof.
  unfold decimal_in_range. intros H.
  repeat (apply andb_prop in H; destruct H as [H ?]).
  apply negb_true_iff in H2. lia.
Qed.

(** The struct loop of [GetArrowType] on the names and types the struct
    loop of [GetORCType] gave. *)
Lemma struct_fields_view (get : liborc.Type_ -> result arrow.DataType)
  (view : arrow.DataType -> arrow.DataType)
  (fs : list (string * arrow.DataType)) :
  forall (ofs : list (string * liborc.Type_)) (pre : list string),
    Forall2 (fun f f' => fst f' = fst f /\ get (snd f') = Ok (view (snd f))) fs ofs ->
    struct_fields get (pre ++ map fst ofs) (map snd ofs) (Z.of_nat (List.length pre))
    = Ok (map (fun field => let '(name, t) := field in (name, view t)) fs).
Proof.
  induction fs as [| [name t] fs IH]; intros ofs pre H;
    inversion H as [| ? [name' T] ? ofs' [Hn Hg] Hrest]; subst.
  - reflexivity.
  - cbn [fst snd] in Hn, Hg. subst name'. cbn [map fst snd struct_fields].
    rewrite Hg. cbn [bind].
    replace (Z.of_nat (List.length pre) + 1)
      with (Z.of_nat (List.length (pre ++ [name])))
      by (rewrite length_app; cbn [List.length]; lia).
    replace (pre ++ name :: map fst ofs') with ((pre ++ [name]) ++ map fst ofs')
      by (rewrite <- app_assoc; reflexivity).
    rewrite (IH ofs' (pre ++ [name]) Hrest). cbn [bind].
    do 3 f_equal. unfold getFieldName, zth. rewrite <- app_assoc. cbn [app].
    rewrite Nat2Z.id, nth_middle. reflexivity.
Qed.

(** The union loop of [GetArrowType] on the types the union loop of
    [GetORCType] gave. *)
Lemma union_fields_view (get : liborc.Type_ -> result arrow.DataType)
  (view : arrow.DataType -> arrow.DataType)
  (fs : list (string * arrow.DataType)) :
  forall (ofs : list (string * liborc.Type_)) (child : Z),
    Forall2 (fun f f' => get (snd f') = Ok (view (snd f))) fs ofs ->
    exists fields,
      union_fields get (map snd ofs) child = Ok fields
      /\ map fst fields = union_view view fs child
      /\ map snd fields = map int8_t (zseq child (Z.of_nat (List.length fs))).
Proof.
  induction fs as [| [name t] fs IH]; intros ofs child H;
    inversion H as [| ? [name' T] ? ofs' Hg Hrest]; subst.
  - exists []. repeat split.
  - cbn [snd] in Hg. destruct (IH ofs' (child + 1) Hrest) as (fields & E & Hf & Hc).
    cbn [map snd union_fields]. rewrite Hg. cbn [bind]. rewrite E. cbn [bind].
    eexists. split; [reflexivity |].
    rewrite zseq_cons by (cbn [List.length]; lia).
    replace (Z.of_nat (List.length ((name, t) :: fs)) - 1)
      with (Z.of_nat (List.length fs)) by (cbn [List.length]; lia).
    cbn [map fst snd union_view]. rewrite Hf, Hc. split; reflexivity.
Qed.

Lemma orc_children_names (get : arrow.DataType -> result liborc.Type_)
  (fs : list (string * arrow.DataType)) :
  forall ofs, orc_children get fs = Ok ofs -> map fst ofs = map fst fs.
Proof.
  induction fs as [| [name t] fs IH]; intros ofs E; cbn [orc_children] in E.
  - injection E as <-. reflexivity.
  - bind_inv E. bind_inv E. injection E as <-. cbn [map fst]. f_equal. apply IH. exact E1.
Qed.

Lemma GetORCType_view (t : arrow.DataType) :
  decimals_in_range t = true ->
  forall T, GetORCType t = Ok T -> GetArrowType T = Ok (orc_view t).
Proof.
  induction t as [t IH] using DataType_induction. intros Hd T HT.
  destruct t as [| | | | | | | | | | | | | | | w | | | u | | | | | p s | p s
                 | v | fs | fs cs | fs cs | ix v | k i | | v n | | | | v];
    cbn [GetORCType] in HT; try discriminate HT;
    try (injection HT as <-; reflexivity).
  - (* DECIMAL128 *)
    injection HT as <-. cbn [decimals_in_range] in Hd.
    apply decimal_in_range_spec in Hd. destruct Hd as (Hp & Hp0 & Hs).
    cbn [GetArrowType liborc.createDecimalType orc_view].
    rewrite !int32_of_uint64 by assumption.
    destruct (Z.eqb_spec p 0); [contradiction | reflexivity].
  - (* LIST *)
    bind_inv HT. injection HT as <-. apply ValueOrDie_Ok in E.
    cbn [visited_types decimals_in_range] in IH, Hd. inversion IH as [| ? ? IHv _]; subst.
    unfold liborc.createListType. cbn [GetArrowType].
    change (int32_t (Z.of_nat (List.length [x])) =? 1) with true. cbn [negb].
    rewrite (IHv Hd x E). reflexivity.
  - (* STRUCT *)
    bind_inv HT. injection HT as <-.
    cbn [visited_types decimals_in_range] in IH, Hd.
    pose proof (orc_children_names _ _ _ E) as Hnames.
    apply orc_children_spec in E.
    apply forallb_fields in Hd.
    assert (Hall : Forall (fun t => forall T, GetORCType t = Ok T ->
                                     GetArrowType T = Ok (orc_view t)) (map snd fs)).
    { clear E Hnames. induction fs as [| [name t] fs IHfs]; cbn [map snd] in *; constructor.
      - inversion IH; inversion Hd; subst. auto.
      - inversion IH; inversion Hd; subst. auto. }
    unfold liborc.createStructType. cbn [GetArrowType orc_view].
    change (struct_fields (fun subtype => GetArrowType subtype) (map fst x) (map snd x) 0)
      with (struct_fields GetArrowType ([] ++ map fst x) (map snd x)
                          (Z.of_nat (List.length (@nil string)))).
    rewrite (struct_fields_view GetArrowType orc_view fs x []); [reflexivity |].
    clear Hd IH. revert Hnames Hall. induction E as [| [n t] [n' T] fs ofs Hf _ IHE];
      intros Hnames Hall; constructor.
    + cbn [map fst snd] in *. split; [congruence |]. inversion Hall; subst. auto.
    + cbn [map fst snd] in *. apply IHE; [congruence | inversion Hall; assumption].
  - (* SPARSE_UNION *)
    bind_inv HT. injection HT as <-.
    cbn [visited_types decimals_in_range] in IH, Hd.
    apply orc_children_spec in E. apply forallb_fields in Hd.
    assert (H2 : Forall2 (fun f f' => GetArrowType (snd f') = Ok (orc_view (snd f))) fs x).
    { clear cs. induction E as [| [n t] [n' T] fs ofs Hf _ IHE]; constructor.
      - cbn [map snd] in *. inversion IH; inversion Hd; subst. auto.
      - cbn [map snd] in *. inversion IH; inversion Hd; subst. auto. }
    destruct (union_fields_view GetArrowType orc_view fs x 0 H2) as (fields & Eu & Hf & Hc).
    unfold liborc.createUnionType. cbn [GetArrowType orc_view].
    change (union_fields (fun subtype => GetArrowType subtype) (map snd x) 0)
      with (union_fields GetArrowType (map snd x) 0).
    rewrite Eu. cbn [bind]. rewrite Hf, Hc. reflexivity.
  - (* DENSE_UNION *)
    bind_inv HT. injection HT as <-.
    cbn [visited_types decimals_in_range] in IH, Hd.
    apply orc_children_spec in E. apply forallb_fields in Hd.
    assert (H2 : Forall2 (fun f f' => GetArrowType (snd f') = Ok (orc_view (snd f))) fs x).
    { clear cs. induction E as [| [n t] [n' T] fs ofs Hf _ IHE]; constructor.
      - cbn [map snd] in *. inversion IH; inversion Hd; subst. auto.
      - cbn [map snd] in *. inversion IH; inversion Hd; subst. auto. }
    destruct (union_fields_view GetArrowType orc_view fs x 0 H2) as (fields & Eu & Hf & Hc).
    unfold liborc.createUnionType. cbn [GetArrowType orc_view].
    change (union_fields (fun subtype => GetArrowType subtype) (map snd x) 0)
      with (union_fields GetArrowType (map snd x) 0).
    rewrite Eu. cbn [bind]. rewrite Hf, Hc. reflexivity.
  - (* DICTIONARY *)
    apply ValueOrDie_Ok in HT.
    cbn [visited_types decimals_in_range orc_view] in *. inversion IH; subst. auto.
  - (* MAP *)
    bind_inv HT. bind_inv HT. injection HT as <-.
    apply ValueOrDie_Ok in E, E0.
    cbn [visited_types decimals_in_range] in IH, Hd.
    apply andb_prop in Hd. destruct Hd as [Hk Hi].
    inversion IH as [| ? ? IHk IH']; subst. inversion IH' as [| ? ? IHi _]; subst.
    unfold liborc.createMapType. cbn [GetArrowType orc_view].
    change (int32_t (Z.of_nat (List.length [x; x0])) =? 2) with true. cbn [negb].
    rewrite (IHk Hk x E), (IHi Hi x0 E0). reflexivity.
  - (* FIXED_SIZE_LIST *)
    bind_inv HT. injection HT as <-. apply ValueOrDie_Ok in E.
    cbn [visited_types decimals_in_range] in IH, Hd. inversion IH as [| ? ? IHv _]; subst.
    unfold liborc.createListType. cbn [GetArrowType].
    change (int32_t (Z.of_nat (List.length [x])) =? 1) with true. cbn [negb].
    rewrite (IHv Hd x E). reflexivity.
  - (* LARGE_LIST *)
    bind_inv HT. injection HT as <-. apply ValueOrDie_Ok in E.
    cbn [visited_types decimals_in_range] in IH, Hd. inversion IH as [| ? ? IHv _]; subst.
    unfold liborc.createListType. cbn [GetArrowType].
    change (int32_t (Z.of_nat (List.length [x])) =? 1) with true. cbn [negb].
    rewrite (IHv Hd x E). reflexivity.
Qed.

(** The type that comes back is written as the same ORC type. *)
Lemma orc_children_view (fs : list (string * arrow.DataType)) :
  Forall (fun t => forall T, GetORCType t = Ok T -> GetORCType (orc_view t) = Ok T)
         (map snd fs) ->
  forall ofs,
    orc_children (fun t => GetORCType t) fs = Ok ofs ->
    orc_children (fun t => GetORCType t)
      (map (fun field => let '(name, t) := field in (name, orc_view t)) fs) = Ok ofs.
Proof.
  induction fs as [| [name t] fs IH]; intros Hall ofs E; cbn [orc_children map] in *.
  - exact E.
  - bind_inv E. bind_inv E. injection E as <-. apply ValueOrDie_Ok in E0.
    inversion Hall as [| ? ? Ht Hrest]; subst.
    rewrite (Ht x E0). cbn [ValueOrDie bind]. rewrite (IH Hrest x0 E1). reflexivity.
Qed.

Lemma orc_children_union_view (fs : list (string * arrow.DataType)) :
  Forall (fun t => forall T, GetORCType t = Ok T -> GetORCType (orc_view t) = Ok T)
         (map snd fs) ->
  forall ofs child,
    orc_children (fun t => GetORCType t) fs = Ok ofs ->
    exists ofs',
      orc_children (fun t => GetORCType t) (union_view (fun t => orc_view t) fs child)
      = Ok ofs'
      /\ map snd ofs' = map snd ofs.
Proof.
  induction fs as [| [name t] fs IH]; intros Hall ofs child E;
    cbn [orc_children union_view map] in *.
  - injection E as <-. exists []. split; reflexivity.
  - bind_inv E. bind_inv E. injection E as <-. apply ValueOrDie_Ok in E0.
    inversion Hall as [| ? ? Ht Hrest]; subst.
    destruct (IH Hrest x0 (child + 1) E1) as (ofs' & E' & Hs).
    rewrite (Ht x E0). cbn [ValueOrDie bind]. rewrite E'. cbn [bind].
    eexists. split; [reflexivity |]. cbn [map snd]. rewrite Hs. reflexivity.
Qed.

Lemma GetORCType_of_view (t : arrow.DataType) :
  forall T, GetORCType t = Ok T -> GetORCType (orc_view t) = Ok T.
Proof.
  induction t as [t IH] using DataType_induction. intros T HT.
  destruct t as [| | | | | | | | | | | | | | | w | | | u | | | | | p s | p s
                 | v | fs | fs cs | fs cs | ix v | k i | | v n | | | | v];
    cbn [GetORCType] in HT; try discriminate HT; try exact HT;
    cbn [visited_types] in IH.
  - (* LIST *)
    bind_inv HT. injection HT as <-. apply ValueOrDie_Ok in E.
    inversion IH as [| ? ? IHv _]; subst.
    cbn [orc_view GetORCType]. rewrite (IHv x E). reflexivity.
  - (* STRUCT *)
    bind_inv HT. injection HT as <-.
    cbn [orc_view GetORCType]. rewrite (orc_children_view fs IH x E). reflexivity.
  - (* SPARSE_UNION *)
    bind_inv HT. injection HT as <-.
    destruct (orc_children_union_view fs IH x 0 E) as (ofs' & E' & Hs).
    cbn [orc_view GetORCType]. rewrite E'. cbn [bind]. rewrite Hs. reflexivity.
  - (* DENSE_UNION *)
    bind_inv HT. injection HT as <-.
    destruct (orc_children_union_view fs IH x 0 E) as (ofs' & E' & Hs).
    cbn [orc_view GetORCType]. rewrite E'. cbn [bind]. rewrite Hs. reflexivity.
  - (* DICTIONARY *)
    apply ValueOrDie_Ok in HT. inversion IH; subst. cbn [orc_view]. auto.
  - (* MAP *)
    bind_inv HT. bind_inv HT. injection HT as <-. apply ValueOrDie_Ok in E, E0.
    inversion IH as [| ? ? IHk IH']; subst. inversion IH' as [| ? ? IHi _]; subst.
    cbn [orc_view GetORCType]. rewrite (IHk x E), (IHi x0 E0). reflexivity.
  - (* FIXED_SIZE_LIST *)
    bind_inv HT. injection HT as <-. apply ValueOrDie_Ok in E.
    inversion IH as [| ? ? IHv _]; subst.
    cbn [orc_view GetORCType]. rewrite (IHv x E). reflexivity.
  - (* LARGE_LIST *)
    bind_inv HT. injection HT as <-. apply ValueOrDie_Ok in E.
    inversion IH as [| ? ? IHv _]; subst.
    cbn [orc_view GetORCType]. rewrite (IHv x E). reflexivity.
Qed.

(** ** The types GetORCType takes *)

Lemma GetORCType_outcome (t : arrow.DataType) :
  if translates t then exists T, GetORCType t = Ok T
  else if orc_type_supported t then GetORCType t = Undefined
  else GetORCType t
       = Raise (arrow.mkStatus arrow.Invalid
                  [arrow.Text "Unknown or unsupported Arrow type: ";
                   arrow.TypeToString t]).
Proof.
  induction t as [t IH] using DataType_induction.
  assert (Hfields : forall fs,
             Forall (fun t =>
                       if translates t then exists T, GetORCType t = Ok T
                       else if orc_type_supported t then GetORCType t = Undefined
                       else GetORCType t
                            = Raise (arrow.mkStatus arrow.Invalid
                                       [arrow.Text "Unknown or unsupported Arrow type: ";
                                        arrow.TypeToString t])) (map snd fs) ->
             if forallb (fun field => let '(_, t) := field in translates t) fs
             then exists ofs, orc_children (fun t => GetORCType t) fs = Ok ofs
             else orc_children (fun t => GetORCType t) fs = Undefined).
  { clear. induction fs as [| [name t] fs IHfs]; cbn [map snd forallb orc_children]; intros H.
    - eexists; reflexivity.
    - inversion H as [| ? ? Ht Hrest]; subst. specialize (IHfs Hrest).
      destruct (translates t).
      + destruct Ht as [T ET]. rewrite ET. cbn [ValueOrDie bind andb].
        destruct (forallb _ fs).
        * destruct IHfs as [ofs E]. rewrite E. eexists; reflexivity.
        * rewrite IHfs. reflexivity.
      + cbn [andb]. destruct (orc_type_supported t); rewrite Ht; reflexivity. }
  destruct t as [| | | | | | | | | | | | | | | w | | | u | | | | | p s | p s
                 | v | fs | fs cs | fs cs | ix v | k i | | v n | | | | v];
    cbn [translates orc_type_supported GetORCType visited_types] in *;
    try (eexists; reflexivity); try reflexivity.
  - inversion IH as [| ? ? IHv _]; subst. destruct (translates v).
    + destruct IHv as [T ET]. rewrite ET. eexists; reflexivity.
    + destruct (orc_type_supported v); rewrite IHv; reflexivity.
  - specialize (Hfields fs IH). destruct (forallb _ fs).
    + destruct Hfields as [ofs E]. rewrite E. eexists; reflexivity.
    + rewrite Hfields. reflexivity.
  - specialize (Hfields fs IH). destruct (forallb _ fs).
    + destruct Hfields as [ofs E]. rewrite E. eexists; reflexivity.
    + rewrite Hfields. reflexivity.
  - specialize (Hfields fs IH). destruct (forallb _ fs).
    + destruct Hfields as [ofs E]. rewrite E. eexists; reflexivity.
    + rewrite Hfields. reflexivity.
  - inversion IH as [| ? ? IHv _]; subst. destruct (translates v).
    + destruct IHv as [T ET]. rewrite ET. eexists; reflexivity.
    + destruct (orc_type_supported v); rewrite IHv; reflexivity.
  - inversion IH as [| ? ? IHk IH']; subst. inversion IH' as [| ? ? IHi _]; subst.
    destruct (translates k).
    + destruct IHk as [T ET]. rewrite ET. cbn [ValueOrDie bind andb].
      destruct (translates i).
      * destruct IHi as [T' ET']. rewrite ET'. eexists; reflexivity.
      * destruct (orc_type_supported i); rewrite IHi; reflexivity.
    + cbn [andb]. destruct (orc_type_supported k); rewrite IHk; reflexivity.
  - inversion IH as [| ? ? IHv _]; subst. destruct (translates v).
    + destruct IHv as [T ET]. rewrite ET. eexists; reflexivity.
    + destruct (orc_type_supported v); rewrite IHv; reflexivity.
  - inversion IH as [| ? ? IHv _]; subst. destruct (translates v).
    + destruct IHv as [T ET]. rewrite ET. eexists; reflexivity.
    + destruct (orc_type_supported v); rewrite IHv; reflexivity.
Qed.

Lemma translates_supported (t : arrow.DataType) :
  translates t = true -> orc_type_supported t = true.
Proof. destruct t; cbn [translates orc_type_supported]; auto. Qed.

(** [GetORCType] gives a type exactly for the types that have a case
    label at every level it visits.  For a type without a case label it
    returns the status Invalid that names the type; for a type with a case
    label that has such a type somewhere below, it returns no status:
    [ValueOrDie] ends the program. *)
Theorem GetORCType_outcomes (t : arrow.DataType) :
  (translates t = true <-> exists T, GetORCType t = Ok T)
  /\ (translates t = false -> orc_type_supported t = true ->
      GetORCType t = Undefined)
  /\ (orc_type_supported t = false ->
      GetORCType t
      = Raise (arrow.mkStatus arrow.Invalid
                 [arrow.Text "Unknown or unsupported Arrow type: ";
                  arrow.TypeToString t])).
Proof.
  pose proof (GetORCType_outcome t) as H.
  pose proof (translates_supported t) as Hs.
  destruct (translates t) eqn:Et.
  - split; [| split].
    + split; auto.
    + discriminate.
    + intros Hn. rewrite Hs in Hn by reflexivity. discriminate Hn.
  - destruct (orc_type_supported t) eqn:Eo.
    + split; [| split].
      * split; [discriminate |]. intros [T ET]. rewrite H in ET. discriminate ET.
      * auto.
      * discriminate.
    + split; [| split].
      * split; [discriminate |]. intros [T ET]. rewrite H in ET. discriminate ET.
      * discriminate.
      * auto.
Qed.

Lemma GetORCType_outcomes_witness :
  (exists T, GetORCType (arrow.MAP arrow.STRING (arrow.LIST arrow.INT8)) = Ok T)
  /\ GetORCType (arrow.STRUCT [("a"%string, arrow.INT8); ("b"%string, arrow.UINT8)])
     = Undefined
  /\ GetORCType arrow.UINT8
     = Raise (arrow.mkStatus arrow.Invalid
                [arrow.Text "Unknown or unsupported Arrow type: ";
                 arrow.TypeToString arrow.UINT8]).
Proof.
  split; [| split].
  - apply (proj1 (GetORCType_outcomes _)). reflexivity.
  - apply (proj1 (proj2 (GetORCType_outcomes _))); reflexivity.
  - apply (proj2 (proj2 (GetORCType_outcomes _))). reflexivity.
Defined.

(** The Arrow type that comes back for the ORC type of an Arrow type is the
    type with its large and fixed-size variants replaced by the plain ones,
    date64 and every timestamp by the timestamp in nanoseconds, each
    dictionary by its value type and each union by the sparse union of
    fields named after their index; the names of struct fields are kept. *)
Theorem written_type_comes_back (t : arrow.DataType) (T : liborc.Type_) :
  decimals_in_range t = true ->
  GetORCType t = Ok T ->
  GetArrowType T = Ok (orc_view t).
Proof. intros Hd HT. exact (GetORCType_view t Hd T HT). Qed.

Lemma written_type_comes_back_witness :
  exists T,
    GetORCType
      (arrow.STRUCT
         [("when"%string, arrow.LARGE_LIST arrow.DATE64);
          ("code"%string, arrow.DICTIONARY arrow.INT8 (arrow.FIXED_SIZE_BINARY 4));
          ("price"%string, arrow.DECIMAL128 20 2)]) = Ok T
    /\ GetArrowType T
       = Ok (arrow.STRUCT
               [("when"%string, arrow.LIST (arrow.TIMESTAMP arrow.NANO));
                ("code"%string, arrow.BINARY);
                ("price"%string, arrow.DECIMAL128 20 2)]).
Proof.
  eexists. split; [reflexivity |].
  apply (written_type_comes_back
           (arrow.STRUCT
              [("when"%string, arrow.LARGE_LIST arrow.DATE64);
               ("code"%string, arrow.DICTIONARY arrow.INT8 (arrow.FIXED_SIZE_BINARY 4));
               ("price"%string, arrow.DECIMAL128 20 2)])); reflexivity.
Defined.

(** Translating twice changes nothing more: the Arrow type that comes back
    for an ORC type [GetORCType] gave is translated to that ORC type
    again. *)
Theorem type_round_trip_is_stable (t t' : arrow.DataType) (T : liborc.Type_) :
  decimals_in_range t = true ->
  GetORCType t = Ok T ->
  GetArrowType T = Ok t' ->
  GetORCType t' = Ok T.
Proof.
  intros Hd HT Ht'. rewrite (GetORCType_view t Hd T HT) in Ht'.
  injection Ht' as <-. apply GetORCType_of_view. exact HT.
Qed.

Lemma type_round_trip_is_stable_witness :
  GetORCType (arrow.LIST (arrow.TIMESTAMP arrow.NANO))
  = Ok (liborc.createListType (liborc.createPrimitiveType liborc.TIMESTAMP)).
Proof.
  apply (type_round_trip_is_stable
           (arrow.FIXED_SIZE_LIST (arrow.TIMESTAMP arrow.SECOND) 3)
           (arrow.LIST (arrow.TIMESTAMP arrow.NANO))); reflexivity.
Defined.

Lemma orc_native_view (t : arrow.DataType) :
  orc_native t = true ->
  translates t = true /\ decimals_in_range t = true /\ orc_view t = t.
Proof.
  induction t as [t IH] using DataType_induction. intros Hn.
  assert (Hfields : forall fs : list (string * arrow.DataType),
             Forall (fun t => orc_native t = true ->
                              translates t = true /\ decimals_in_range t = true
                              /\ orc_view t = t) (map snd fs) ->
             forallb (fun field => let '(_, t) := field in orc_native t) fs = true ->
             forallb (fun field => let '(_, t) := field in translates t) fs = true
             /\ forallb (fun field => let '(_, t) := field in decimals_in_range t) fs = true
             /\ map (fun field => let '(name, t) := field in (name, orc_view t)) fs = fs).
  { clear. induction fs as [| [name t] fs IHfs]; cbn [map snd forallb]; intros H Hn.
    - auto.
    - apply andb_prop in Hn. destruct Hn as [Ht Hfs].
      inversion H as [| ? ? Hthis Hrest]; subst.
      destruct (Hthis Ht) as (H1 & H2 & H3). destruct (IHfs Hrest Hfs) as (H4 & H5 & H6).
      rewrite H1, H2, H3, H4, H5, H6. auto. }
  destruct t as [| | | | | | | | | | | | | | | w | | | u | | | | | p s | p s
                 | v | fs | fs cs | fs cs | ix v | k i | | v n | | | | v];
    cbn [orc_native] in Hn; try discriminate Hn;
    cbn [translates orc_type_supported decimals_in_range orc_view visited_types] in *;
    auto.
  - destruct u; try discriminate Hn. auto.
  - inversion IH as [| ? ? IHv _]; subst. destruct (IHv Hn) as (H1 & H2 & H3).
    rewrite H3. auto.
  - destruct (Hfields fs IH Hn) as (H1 & H2 & H3). rewrite H3. auto.
  - apply andb_prop in Hn. destruct Hn as [Hk Hi].
    inversion IH as [| ? ? IHk IH']; subst. inversion IH' as [| ? ? IHi _]; subst.
    destruct (IHk Hk) as (H1 & H2 & H3). destruct (IHi Hi) as (H4 & H5 & H6).
    rewrite H1, H2, H3, H4, H5, H6. auto.
Qed.

(** A type that ORC has as it is comes back as it was: for a type built
    from bool, the signed integers, float, double, string, binary, date32,
    the timestamp in nanoseconds, decimals, lists, maps and structs,
    [GetORCType] gives an ORC type and [GetArrowType] gives the type back
    for it, with the names of the struct fields. *)
Theorem native_types_round_trip (t : arrow.DataType) :
  orc_native t = true ->
  exists T, GetORCType t = Ok T /\ GetArrowType T = Ok t.
Proof.
  intros Hn. destruct (orc_native_view t Hn) as (Ht & Hd & Hv).
  pose proof (GetORCType_outcome t) as H. rewrite Ht in H. destruct H as [T HT].
  exists T. split; [exact HT |].
  rewrite <- Hv. exact (GetORCType_view t Hd T HT).
Qed.

Lemma native_types_round_trip_witness :
  exists T,
    GetORCType
      (arrow.STRUCT
         [("id"%string, arrow.INT64);
          ("tags"%string, arrow.MAP arrow.STRING (arrow.LIST arrow.DOUBLE))]) = Ok T
    /\ GetArrowType T
       = Ok (arrow.STRUCT
               [("id"%string, arrow.INT64);
                ("tags"%string, arrow.MAP arrow.STRING (arrow.LIST arrow.DOUBLE))]).
Proof.
  apply (native_types_round_trip
           (arrow.STRUCT
              [("id"%string, arrow.INT64);
               ("tags"%string, arrow.MAP arrow.STRING (arrow.LIST arrow.DOUBLE))])).
  reflexivity.
Defined.

(** ** Types without dictionaries *)

Lemma ValueOrDie_twice {A} (r : result A) : ValueOrDie (ValueOrDie r) = ValueOrDie r.
Proof. destruct r; reflexivity. Qed.

Lemma orc_children_Dedictionize (fs : list (string * arrow.DataType)) :
  Forall (fun t => ValueOrDie (GetORCType (DedictionizeType t))
                   = ValueOrDie (GetORCType t)) (map snd fs) ->
  orc_children (fun t => GetORCType t)
    (map (fun field => let '(name, t) := field in (name, DedictionizeType t)) fs)
  = orc_children (fun t => GetORCType t) fs.
Proof.
  induction fs as [| [name t] fs IH]; cbn [map snd orc_children]; intros H.
  - reflexivity.
  - inversion H as [| ? ? Ht Hrest]; subst. rewrite Ht, (IH Hrest). reflexivity.
Qed.

(** [DedictionizeType] does not change what is written: the type it gives
    has the ORC type of the type it was given, and [GetORCType] gives no
    ORC type for the one when it gives none for the other. *)
Theorem DedictionizeType_keeps_orc_type (t : arrow.DataType) :
  ValueOrDie (GetORCType (DedictionizeType t)) = ValueOrDie (GetORCType t).
Proof.
  induction t as [t IH] using DataType_induction.
  destruct t as [| | | | | | | | | | | | | | | w | | | u | | | | | p s | p s
                 | v | fs | fs cs | fs cs | ix v | k i | | v n | | | | v];
    cbn [DedictionizeType]; try reflexivity; cbn [visited_types] in IH.
  - inversion IH as [| ? ? IHv _]; subst. cbn [GetORCType]. rewrite IHv. reflexivity.
  - cbn [GetORCType]. rewrite (orc_children_Dedictionize fs IH). reflexivity.
  - cbn [GetORCType]. rewrite ValueOrDie_twice. reflexivity.
  - inversion IH as [| ? ? IHk IH']; subst. inversion IH' as [| ? ? IHi _]; subst.
    cbn [GetORCType]. rewrite IHk, IHi. reflexivity.
  - inversion IH as [| ? ? IHv _]; subst. cbn [GetORCType]. rewrite IHv. reflexivity.
  - inversion IH as [| ? ? IHv _]; subst. cbn [GetORCType]. rewrite IHv. reflexivity.
Qed.

(** [DedictionizeType] leaves a type without a dictionary as it is. *)
Theorem DedictionizeType_without_dictionary (t : arrow.DataType) :
  dictionary_free t = true -> DedictionizeType t = t.
Proof.
  induction t as [t IH] using DataType_induction. intros Hf.
  assert (Hfields : forall fs : list (string * arrow.DataType),
             Forall (fun t => dictionary_free t = true -> DedictionizeType t = t)
                    (map snd fs) ->
             forallb (fun field => let '(_, t) := field in dictionary_free t) fs = true ->
             map (fun field => let '(name, t) := field in (name, DedictionizeType t)) fs
             = fs).
  { clear. induction fs as [| [name t] fs IHfs]; cbn [map snd forallb]; intros H Hn.
    - reflexivity.
    - apply andb_prop in Hn. destruct Hn as [Ht Hfs].
      inversion H as [| ? ? Hthis Hrest]; subst.
      rewrite (Hthis Ht), (IHfs Hrest Hfs). reflexivity. }
  destruct t as [| | | | | | | | | | | | | | | w | | | u | | | | | p s | p s
                 | v | fs | fs cs | fs cs | ix v | k i | | v n | | | | v];
    cbn [dictionary_free] in Hf; try discriminate Hf;
    cbn [DedictionizeType visited_types] in *; try reflexivity.
  - inversion IH as [| ? ? IHv _]; subst. rewrite (IHv Hf). reflexivity.
  - rewrite (Hfields fs IH Hf). reflexivity.
  - apply andb_prop in Hf. destruct Hf as [Hk Hi].
    inversion IH as [| ? ? IHk IH']; subst. inversion IH' as [| ? ? IHi _]; subst.
    rewrite (IHk Hk), (IHi Hi). reflexivity.
  - inversion IH as [| ? ? IHv _]; subst. rewrite (IHv Hf). reflexivity.
  - inversion IH as [| ? ? IHv _]; subst. rewrite (IHv Hf). reflexivity.
Qed.

Lemma DedictionizeType_without_dictionary_witness :
  DedictionizeType
    (arrow.STRUCT [("a"%string, arrow.LIST arrow.INT8);
                   ("b"%string, arrow.SPARSE_UNION [("c"%string, arrow.STRING)] [0])])
  = arrow.STRUCT [("a"%string, arrow.LIST arrow.INT8);
                  ("b"%string, arrow.SPARSE_UNION [("c"%string, arrow.STRING)] [0])].
Proof.
  apply (DedictionizeType_without_dictionary
           (arrow.STRUCT
              [("a"%string, arrow.LIST arrow.INT8);
               ("b"%string, arrow.SPARSE_UNION [("c"%string, arrow.STRING)] [0])])).
  reflexivity.
Defined.

(** ** The ORC types GetArrowType takes *)

Lemma struct_fields_outcome (get : liborc.Type_ -> result arrow.DataType)
  (names : list string) (subtypes : list liborc.Type_) :
  forall child,
    (Forall (fun T => exists t, get T = Ok t) subtypes ->
     exists fields, struct_fields get names subtypes child = Ok fields)
    /\ (forall s, struct_fields get names subtypes child = Raise s ->
                  Exists (fun T => get T = Raise s) subtypes).
Proof.
  induction subtypes as [| T subtypes IH]; intros child; cbn [struct_fields].
  - split; [eexists; reflexivity | discriminate].
  - destruct (IH (child + 1)) as [IHok IHerr]. split.
    + intros H. inversion H as [| ? ? [t Ht] Hrest]; subst.
      destruct (IHok Hrest) as [fields E]. rewrite Ht. cbn [bind]. rewrite E.
      eexists; reflexivity.
    + intros s H. destruct (get T) as [t | s' |] eqn:Et; cbn [bind] in H;
        try discriminate H.
      * right. apply IHerr.
        destruct (struct_fields get names subtypes (child + 1)); cbn [bind] in H;
          try discriminate H. exact H.
      * left. congruence.
Qed.

Lemma union_fields_outcome (get : liborc.Type_ -> result arrow.DataType)
  (subtypes : list liborc.Type_) :
  forall child,
    (Forall (fun T => exists t, get T = Ok t) subtypes ->
     exists fields, union_fields get subtypes child = Ok fields)
    /\ (forall s, union_fields get subtypes child = Raise s ->
                  Exists (fun T => get T = Raise s) subtypes).
Proof.
  induction subtypes as [| T subtypes IH]; intros child; cbn [union_fields].
  - split; [eexists; reflexivity | discriminate].
  - destruct (IH (child + 1)) as [IHok IHerr]. split.
    + intros H. inversion H as [| ? ? [t Ht] Hrest]; subst.
      destruct (IHok Hrest) as [fields E]. rewrite Ht. cbn [bind]. rewrite E.
      eexists; reflexivity.
    + intros s H. destruct (get T) as [t | s' |] eqn:Et; cbn [bind] in H;
        try discriminate H.
      * right. apply IHerr.
        destruct (union_fields get subtypes (child + 1)); cbn [bind] in H;
          try discriminate H. exact H.
      * left. congruence.
Qed.

Lemma forallb_Forall_well_shaped (P : liborc.Type_ -> Prop) (subtypes : list liborc.Type_) :
  Forall (fun T => well_shaped T = true -> P T) subtypes ->
  forallb well_shaped subtypes = true ->
  Forall P subtypes.
Proof.
  induction 1 as [| T subtypes HT _ IH]; cbn [forallb]; intros H; constructor.
  - apply HT. apply andb_prop in H. apply H.
  - apply IH. apply andb_prop in H. apply H.
Qed.

Lemma Exists_Forall_status (Q : arrow.Status -> Prop) (get : liborc.Type_ -> result arrow.DataType)
  (subtypes : list liborc.Type_) (s : arrow.Status) :
  Forall (fun T => forall s, get T = Raise s -> Q s) subtypes ->
  Exists (fun T => get T = Raise s) subtypes -> Q s.
Proof.
  intros Hall Hex. rewrite Forall_forall in Hall. rewrite Exists_exists in Hex.
  destruct Hex as (T & Hin & HT). exact (Hall T Hin s HT).
Qed.

(** [GetArrowType] gives an Arrow type for every ORC type in which each
    list has one child and each map two; and whatever the type, the only
    statuses it fails with are Invalid "Invalid Orc List type" and Invalid
    "Invalid Orc Map type". *)
Theorem GetArrowType_fails_only_on_shape (T : liborc.Type_) :
  (well_shaped T = true -> exists t, GetArrowType T = Ok t)
  /\ (forall s, GetArrowType T = Raise s ->
        s = arrow.mkStatus arrow.Invalid [arrow.Text "Invalid Orc List type"]
        \/ s = arrow.mkStatus arrow.Invalid [arrow.Text "Invalid Orc Map type"]).
Proof.
  induction T as [| kind subtypes names ml p sc IH] using Type_induction.
  - split; [intros _; eexists; reflexivity | discriminate].
  - assert (IHok : Forall (fun T => well_shaped T = true -> exists t, GetArrowType T = Ok t)
                          subtypes)
      by (eapply Forall_impl; [| exact IH]; intros T' H; apply H).
    assert (IHerr : Forall (fun T => forall s, GetArrowType T = Raise s ->
                       s = arrow.mkStatus arrow.Invalid [arrow.Text "Invalid Orc List type"]
                       \/ s = arrow.mkStatus arrow.Invalid [arrow.Text "Invalid Orc Map type"])
                          subtypes)
      by (eapply Forall_impl; [| exact IH]; intros T' H; apply H).
    clear IH.
    destruct kind; cbn [GetArrowType well_shaped];
      try (split; [intros _; eexists; reflexivity | discriminate]).
    + (* LIST *)
      split.
      * intros Hw. destruct subtypes as [| e [| ? ?]]; try discriminate Hw.
        inversion IHok as [| ? ? He _]; subst. destruct (He Hw) as [t Ht].
        change (int32_t (Z.of_nat (List.length [e])) =? 1) with true. cbn [negb].
        rewrite Ht. eexists; reflexivity.
      * intros s H.
        destruct (negb (int32_t (Z.of_nat (List.length subtypes)) =? 1)).
        { injection H as <-. left. reflexivity. }
        destruct subtypes as [| e rest]; [discriminate H |].
        inversion IHerr as [| ? ? He _]; subst.
        destruct (GetArrowType e) as [t | s' |] eqn:Et; cbn [bind] in H;
          try discriminate H. apply He. exact H.
    + (* MAP *)
      split.
      * intros Hw. destruct subtypes as [| k [| i [| ? ?]]]; try discriminate Hw.
        apply andb_prop in Hw. destruct Hw as [Hk Hi].
        inversion IHok as [| ? ? Hek Hrest]; subst. inversion Hrest as [| ? ? Hei _]; subst.
        destruct (Hek Hk) as [tk Htk]. destruct (Hei Hi) as [ti Hti].
        change (int32_t (Z.of_nat (List.length [k; i])) =? 2) with true. cbn [negb].
        rewrite Htk, Hti. eexists; reflexivity.
      * intros s H.
        destruct (negb (int32_t (Z.of_nat (List.length subtypes)) =? 2)).
        { injection H as <-. right. reflexivity. }
        destruct subtypes as [| k [| i rest]]; try discriminate H.
        inversion IHerr as [| ? ? Hek Hrest]; subst. inversion Hrest as [| ? ? Hei _]; subst.
        destruct (GetArrowType k) as [tk | s' |] eqn:Etk; cbn [bind] in H;
          try discriminate H; [| apply Hek; exact H].
        destruct (GetArrowType i) as [ti | s' |] eqn:Eti; cbn [bind] in H;
          try discriminate H. apply Hei. exact H.
    + (* STRUCT *)
      destruct (struct_fields_outcome GetArrowType names subtypes 0) as [Hok Herr].
      change (struct_fields (fun subtype => GetArrowType subtype) names subtypes 0)
        with (struct_fields GetArrowType names subtypes 0).
      split.
      * intros Hw. destruct (Hok (forallb_Forall_well_shaped _ _ IHok Hw)) as [fields E].
        rewrite E. eexists; reflexivity.
      * intros s H.
        destruct (struct_fields GetArrowType names subtypes 0) as [fields | s' |] eqn:E;
          cbn [bind] in H; try discriminate H.
        injection H as <-.
        exact (Exists_Forall_status _ GetArrowType subtypes s' IHerr (Herr s' eq_refl)).
    + (* UNION *)
      destruct (union_fields_outcome GetArrowType subtypes 0) as [Hok Herr].
      change (union_fields (fun subtype => GetArrowType subtype) subtypes 0)
        with (union_fields GetArrowType subtypes 0).
      split.
      * intros Hw. destruct (Hok (forallb_Forall_well_shaped _ _ IHok Hw)) as [fields E].
        rewrite E. eexists; reflexivity.
      * intros s H.
        destruct (union_fields GetArrowType subtypes 0) as [fields | s' |] eqn:E;
          cbn [bind] in H; try discriminate H.
        injection H as <-.
        exact (Exists_Forall_status _ GetArrowType subtypes s' IHerr (Herr s' eq_refl)).
    + (* DECIMAL *)
      split; [intros _ | intros s H].
      * destruct (int32_t p =? 0); eexists; reflexivity.
      * destruct (int32_t p =? 0); discriminate H.
Qed.

Lemma GetArrowType_fails_only_on_shape_witness :
  (exists t,
      GetArrowType
        (liborc.createMapType (liborc.createPrimitiveType liborc.STRING)
                              (liborc.createUnionType
                                 [liborc.createPrimitiveType liborc.CHAR])) = Ok t)
  /\ (arrow.mkStatus arrow.Invalid [arrow.Text "Invalid Orc Map type"]
      = arrow.mkStatus arrow.Invalid [arrow.Text "Invalid Orc List type"]
      \/ arrow.mkStatus arrow.Invalid [arrow.Text "Invalid Orc Map type"]
         = arrow.mkStatus arrow.Invalid [arrow.Text "Invalid Orc Map type"]).
Proof.
  split.
  - apply (proj1 (GetArrowType_fails_only_on_shape _)). reflexivity.
  - apply (proj2 (GetArrowType_fails_only_on_shape
                    (liborc.createStructType
                       [("m"%string,
                         liborc.mk liborc.MAP [liborc.createPrimitiveType liborc.LONG]
                                   [] 0 0 0)]))).
    reflexivity.
Defined.

(** * Schemas *)

Lemma int32_t_small (n : Z) : 0 <= n < 2 ^ 31 -> int32_t n = n.
Proof. intros H. apply wrap_id; [lia |]. unfold in_int. cbn. lia. Qed.

Lemma createStructType_add (acc : list (string * liborc.Type_)) name T :
  addStructField (liborc.createStructType acc) name T
  = liborc.createStructType (acc ++ [(name, T)]).
Proof. unfold liborc.createStructType, addStructField. rewrite !map_app. reflexivity. Qed.

(** The loop of [GetORCType(const Schema&)] from field [length pre] on. *)
Lemma GetORCType_Schema_loop (fs : list (string * arrow.DataType)) :
  forall (pre : list (string * arrow.DataType)) (acc : list (string * liborc.Type_)),
    for_loop (List.length fs) (Z.of_nat (List.length pre))
      (fun i out_type =>
         match nth_error (pre ++ fs) (Z.to_nat i) with
         | Some (field_name, arrow_child_type) =>
             orc_subtype <- ValueOrDie (GetORCType arrow_child_type) ;;
             Ok (addStructField out_type field_name orc_subtype)
         | None => Undefined
         end)
      (liborc.createStructType acc)
    = (ofs <- orc_children (fun t => GetORCType t) fs ;;
       Ok (liborc.createStructType (acc ++ ofs))).
Proof.
  induction fs as [| [name t] fs IH]; intros pre acc.
  - cbn [List.length for_loop orc_children bind]. rewrite app_nil_r. reflexivity.
  - cbn [List.length for_loop orc_children].
    rewrite Nat2Z.id, nth_error_app2, Nat.sub_diag by lia. cbn [nth_error].
    destruct (GetORCType t) as [T | s |]; cbn [ValueOrDie bind]; try reflexivity.
    rewrite createStructType_add.
    replace (Z.of_nat (List.length pre) + 1)
      with (Z.of_nat (List.length (pre ++ [(name, t)])))
      by (rewrite length_app; cbn [List.length]; lia).
    replace (pre ++ (name, t) :: fs) with ((pre ++ [(name, t)]) ++ fs)
      by (rewrite <- app_assoc; reflexivity).
    rewrite IH. destruct (orc_children _ fs); cbn [bind]; try reflexivity.
    rewrite <- app_assoc. reflexivity.
Qed.

Lemma GetORCType_Schema_struct (schema : SchemaOps.Schema) :
  Z.of_nat (List.length (SchemaOps.fields schema)) < 2 ^ 31 ->
  GetORCType_Schema schema = GetORCType (arrow.STRUCT (SchemaOps.fields schema)).
Proof.
  intros Hn. unfold GetORCType_Schema, SchemaOps.num_fields.
  rewrite int32_t_small, Nat2Z.id by lia.
  pose proof (GetORCType_Schema_loop (SchemaOps.fields schema) [] []) as H.
  cbn [List.length Z.of_nat app] in H. rewrite H. reflexivity.
Qed.

(** The writer translates a schema as [GetORCType] translates the struct
    type of its fields, and it never returns a failed status: for a field
    whose type has no ORC type, [ValueOrDie] ends the program. *)
Theorem schema_is_written_as_struct (schema : SchemaOps.Schema) :
  Z.of_nat (List.length (SchemaOps.fields schema)) < 2 ^ 31 ->
  GetORCType_Schema schema = GetORCType (arrow.STRUCT (SchemaOps.fields schema))
  /\ forall s, GetORCType_Schema schema <> Raise s.
Proof.
  intros Hn. rewrite (GetORCType_Schema_struct schema Hn). split; [reflexivity |].
  intros s Hs. pose proof (GetORCType_outcome (arrow.STRUCT (SchemaOps.fields schema))) as H.
  destruct (translates _).
  - destruct H as [T HT]. congruence.
  - cbn [orc_type_supported] in H. congruence.
Qed.

Lemma schema_is_written_as_struct_witness :
  GetORCType_Schema
    (SchemaOps.mk [("a"%string, arrow.INT32); ("b"%string, arrow.UINT8)] None)
  = GetORCType (arrow.STRUCT [("a"%string, arrow.INT32); ("b"%string, arrow.UINT8)])
  /\ forall s,
       GetORCType_Schema
         (SchemaOps.mk [("a"%string, arrow.INT32); ("b"%string, arrow.UINT8)] None)
       <> Raise s.
Proof.
  apply (schema_is_written_as_struct
           (SchemaOps.mk [("a"%string, arrow.INT32); ("b"%string, arrow.UINT8)] None)).
  simpl. lia.
Defined.

Lemma Forall2_length_eq {A B} (R : A -> B -> Prop) l l' :
  Forall2 R l l' -> List.length l = List.length l'.
Proof. induction 1; cbn [List.length]; congruence. Qed.

(** The schema the writer translated is read back from the ORC type with
    the names of its fields, in order, and with each type as it comes back
    from ORC; the metadata are those of the file, absent when the file has no
    metadata key. *)
Theorem schema_comes_back (impl : ORCFileReader.Impl) (schema : SchemaOps.Schema)
  (T : liborc.Type_) :
  Z.of_nat (List.length (SchemaOps.fields schema)) < 2 ^ 31 ->
  decimals_in_range (arrow.STRUCT (SchemaOps.fields schema)) = true ->
  GetORCType_Schema schema = Ok T ->
  exists metadata,
    ORCFileReader.GetArrowSchema impl T
    = Ok (SchemaOps.mk
            (map (fun field => let '(name, t) := field in (name, orc_view t))
                 (SchemaOps.fields schema))
            metadata)
    /\ (metadata = None
        <-> liborc_reader.getMetadataKeys (ORCFileReader.reader_ impl) = []).
Proof.
  intros Hn Hd HT. rewrite (GetORCType_Schema_struct schema Hn) in HT.
  pose proof (GetORCType_view _ Hd T HT) as Hv.
  cbn [GetORCType] in HT. bind_inv HT. injection HT as <-.
  pose proof (Forall2_length_eq _ _ _ (orc_children_spec _ _ E)) as Hlen.
  unfold liborc.createStructType in *. cbn [GetArrowType orc_view] in Hv.
  bind_inv Hv. injection Hv as <-.
  unfold ORCFileReader.GetArrowSchema.
  rewrite length_map, <- Hlen, int32_t_small, Nat2Z.id by lia.
  rewrite Hlen, <- (length_map snd x), firstn_all, E0. cbn [bind].
  eexists. split; [reflexivity |].
  destruct (liborc_reader.getMetadataKeys (ORCFileReader.reader_ impl));
    split; intros H; try reflexivity; discriminate H.
Qed.

(** * The stripe index *)

Lemma int64_t_within (n : Z) : - 2 ^ 63 <= n < 2 ^ 63 -> int64_t n = n.
Proof. intros H. apply wrap_id; [lia |]. unfold in_int. cbn. lia. Qed.

Lemma uint64_t_id (n : Z) : 0 <= n < 2 ^ 64 -> uint64_t n = n.
Proof. intros H. unfold uint64_t. apply Z.mod_small. exact H. Qed.

Lemma assign_middle {A} (l r : list A) (x y : A) :
  assign (l ++ y :: r) (Z.of_nat (List.length l)) x = Ok (l ++ x :: r).
Proof.
  unfold assign. rewrite length_app. cbn [List.length].
  replace ((0 <=? Z.of_nat (List.length l))
           && (Z.of_nat (List.length l) <? Z.of_nat (List.length l + S (List.length r))))
    with true by (symmetry; apply andb_true_iff; split; [apply Z.leb_le | apply Z.ltb_lt]; lia).
  rewrite Nat2Z.id.
  replace (Z.to_nat (Z.of_nat (List.length l) + 1)) with (List.length l + 1)%nat by lia.
  rewrite firstn_app, firstn_all, Nat.sub_diag. cbn [firstn]. rewrite app_nil_r.
  rewrite skipn_app, skipn_all2 by lia.
  replace (List.length l + 1 - List.length l)%nat with 1%nat by lia.
  reflexivity.
Qed.

(** The loop of [Init] from stripe [length done] on. *)
Lemma Init_loop (reader : liborc_reader.Reader)
  (todo : list liborc_reader.Stripe.StripeInformation) :
  forall (done : list liborc_reader.Stripe.StripeInformation)
         (index rest : list ORCFileReader.StripeInformation) (first_row : Z),
    liborc_reader.stripes reader = done ++ todo ->
    List.length index = List.length done ->
    List.length rest = List.length todo ->
    Z.of_nat (List.length (done ++ todo)) < 2 ^ 31 ->
    exists last_row,
      for_loop (List.length todo) (Z.of_nat (List.length done))
        (fun i st =>
           let '(stripes_, first_row_of_stripe) := st in
           if 2 ^ 31 <=? i then Undefined
           else
             match liborc_reader.getStripe reader i with
             | Some stripe =>
                 stripes_ <-
                   assign stripes_ i
                     (ORCFileReader.mkStripeInformation
                        (liborc_reader.Stripe.getOffset stripe)
                        (liborc_reader.Stripe.getLength stripe)
                        (liborc_reader.Stripe.getNumberOfRows stripe)
                        first_row_of_stripe) ;;
                 Ok (stripes_,
                     uint64_t (first_row_of_stripe
                               + liborc_reader.Stripe.getNumberOfRows stripe))
             | None => Undefined
             end)
        (index ++ rest, first_row)
      = Ok (index ++ stripe_index todo first_row, last_row).
Proof.
  induction todo as [| stripe todo IH]; intros done index rest first_row Hs Hi Hr Hn.
  - destruct rest; [| discriminate Hr]. eexists. reflexivity.
  - destruct rest as [| y rest]; [discriminate Hr |].
    cbn [List.length for_loop stripe_index].
    rewrite length_app in Hn. cbn [List.length] in Hn.
    destruct (Z.leb_spec (2 ^ 31) (Z.of_nat (List.length done))) as [Hbig | _]; [lia |].
    unfold liborc_reader.getStripe at 1.
    destruct (Z.ltb_spec (Z.of_nat (List.length done)) 0) as [Hneg | _]; [lia |].
    rewrite Hs, Nat2Z.id, nth_error_app2, Nat.sub_diag by lia. cbn [nth_error].
    rewrite <- Hi, assign_middle. cbn [bind].
    replace (Z.of_nat (List.length index) + 1)
      with (Z.of_nat (List.length (done ++ [stripe])))
      by (rewrite length_app; cbn [List.length]; lia).
    destruct (IH (done ++ [stripe])
                 (index ++ [ORCFileReader.mkStripeInformation
                              (liborc_reader.Stripe.getOffset stripe)
                              (liborc_reader.Stripe.getLength stripe)
                              (liborc_reader.Stripe.getNumberOfRows stripe) first_row])
                 rest
                 (uint64_t (first_row + liborc_reader.Stripe.getNumberOfRows stripe)))
      as [last_row E].
    + rewrite <- app_assoc. exact Hs.
    + rewrite !length_app. cbn [List.length]. lia.
    + cbn [List.length] in Hr. lia.
    + rewrite !length_app. cbn [List.length]. lia.
    + exists last_row. rewrite <- !app_assoc in E. cbn [app] in E. exact E.
Qed.

Lemma Open_index (reader : liborc_reader.Reader) :
  Z.of_nat (List.length (liborc_reader.stripes reader)) < 2 ^ 31 ->
  ORCFileReader.Open (inr reader)
  = Ok (ORCFileReader.mkImpl reader
          (stripe_index (liborc_reader.stripes reader) 0) 0).
Proof.
  intros Hn. unfold ORCFileReader.Open, ORCFileReader.Init.
  cbn [ORCFileReader.reader_ ORCFileReader.stripes_ ORCFileReader.current_row_].
  unfold liborc_reader.getNumberOfStripes, resize.
  rewrite int64_t_within, !Nat2Z.id by lia.
  rewrite firstn_nil. cbn [app List.length]. rewrite Nat.sub_0_r.
  destruct (Init_loop reader (liborc_reader.stripes reader) [] []
              (repeat (ORCFileReader.mkStripeInformation 0 0 0 0)
                      (List.length (liborc_reader.stripes reader))) 0)
    as [last_row E]; try reflexivity.
  - apply repeat_length.
  - exact Hn.
  - cbn [List.length Z.of_nat app] in E. rewrite E. reflexivity.
Qed.

(** [Open] builds the stripe index the specification describes: one entry
    for each stripe of the file, in order, with the offset, the length and
    the number of rows of the stripe and the number of the first row of the
    stripe, which is the sum of the rows of the stripes before it (as a
    [uint64_t]); the current row is 0. *)
Theorem Open_builds_stripe_index (reader : liborc_reader.Reader) :
  Z.of_nat (List.length (liborc_reader.stripes reader)) < 2 ^ 31 ->
  ORCFileReader.Open (inr reader)
  = Ok (ORCFileReader.mkImpl reader
          (stripe_index (liborc_reader.stripes reader) 0) 0).
Proof. exact (Open_index reader). Qed.

(** * Rows and stripes *)

Lemma stripe_rows_nonneg (ss : list liborc_reader.Stripe.StripeInformation) :
  Forall (fun stripe => 0 <= liborc_reader.Stripe.getNumberOfRows stripe) ss ->
  0 <= stripe_rows ss.
Proof.
  induction 1 as [| s ss Hs _ IH]; cbn [stripe_rows fold_right]; [lia |].
  unfold stripe_rows in IH. lia.
Qed.

(** The loop of [SelectStripeWithRowNumber] over the index of the stripes
    [ss], the first of which starts at row [first_row]: a row number from
    [first_row] on and before the end of the last stripe is found in the
    stripe that contains it. *)
Lemma find_stripe_finds (opts : liborc_reader.RowReaderOptions) (row : Z)
  (ss : list liborc_reader.Stripe.StripeInformation) :
  Forall (fun stripe => 0 <= liborc_reader.Stripe.getNumberOfRows stripe) ss ->
  forall first_row,
    0 <= first_row <= row -> row < first_row + stripe_rows ss ->
    first_row + stripe_rows ss < 2 ^ 63 ->
    exists k s,
      nth_error ss k = Some s
      /\ first_row + rows_before ss k <= row
         < first_row + rows_before ss k + liborc_reader.Stripe.getNumberOfRows s
      /\ ORCFileReader.find_stripe opts row (stripe_index ss first_row)
         = Ok (liborc_reader.set_range opts (liborc_reader.Stripe.getOffset s)
                                       (liborc_reader.Stripe.getLength s),
               ORCFileReader.mkStripeInformation
                 (liborc_reader.Stripe.getOffset s) (liborc_reader.Stripe.getLength s)
                 (liborc_reader.Stripe.getNumberOfRows s)
                 (first_row + rows_before ss k)).
Proof.
  induction 1 as [| s ss Hs Hall IH]; intros first_row Hf Hrow Hmax;
    cbn [stripe_rows fold_right] in *; [lia |].
  fold (stripe_rows ss) in *.
  pose proof (stripe_rows_nonneg ss Hall) as Hrest.
  cbn [stripe_index ORCFileReader.find_stripe ORCFileReader.first_row_of_stripe
       ORCFileReader.num_rows ORCFileReader.offset ORCFileReader.length].
  rewrite (uint64_t_id row), (uint64_t_id (first_row + _)) by lia.
  destruct (Z.leb_spec first_row row) as [_ | Hlt]; [| lia].
  destruct (Z.ltb_spec row (first_row + liborc_reader.Stripe.getNumberOfRows s)) as [Hin | Hout];
    cbn [andb].
  - exists 0%nat, s. unfold rows_before. cbn [nth_error firstn stripe_rows fold_right].
    rewrite Z.add_0_r. split; [reflexivity |]. split; [lia | reflexivity].
  - destruct (IH (first_row + liborc_reader.Stripe.getNumberOfRows s)) as (k & s' & Hk & Hr & E);
      try lia.
    exists (S k), s'. unfold rows_before in *.
    cbn [nth_error firstn stripe_rows fold_right]. fold (stripe_rows (firstn k ss)).
    split; [exact Hk |]. split; [lia |].
    rewrite E. do 3 f_equal. lia.
Qed.

(** No entry of the index contains a number of 2^63 or more. *)
Lemma find_stripe_misses (opts : liborc_reader.RowReaderOptions) (row : Z)
  (ss : list liborc_reader.Stripe.StripeInformation) :
  Forall (fun stripe => 0 <= liborc_reader.Stripe.getNumberOfRows stripe) ss ->
  forall first_row,
    0 <= first_row -> first_row + stripe_rows ss < 2 ^ 63 ->
    2 ^ 63 <= uint64_t row ->
    ORCFileReader.find_stripe opts row (stripe_index ss first_row)
    = Raise (arrow.mkStatus arrow.Invalid
               [arrow.Text "Invalid row number";
                arrow.Text (int64_to_string row)]).
Proof.
  induction 1 as [| s ss Hs Hall IH]; intros first_row Hf Hmax Hrow;
    cbn [stripe_rows fold_right] in *; [reflexivity |].
  fold (stripe_rows ss) in *.
  pose proof (stripe_rows_nonneg ss Hall) as Hrest.
  cbn [stripe_index ORCFileReader.find_stripe ORCFileReader.first_row_of_stripe
       ORCFileReader.num_rows ORCFileReader.offset ORCFileReader.length].
  rewrite (uint64_t_id (first_row + _)) by lia.
  destruct (Z.ltb_spec (uint64_t row) (first_row + liborc_reader.Stripe.getNumberOfRows s))
    as [Hin | Hout]; [lia |].
  rewrite andb_false_r. apply IH; lia.
Qed.

Lemma SelectStripeWithRowNumber_finds (reader : liborc_reader.Reader)
  (impl : ORCFileReader.Impl) (opts : liborc_reader.RowReaderOptions) (row : Z) :
  file_ok reader ->
  ORCFileReader.Open (inr reader) = Ok impl ->
  0 <= row < liborc_reader.getNumberOfRows reader ->
  exists k s,
    nth_error (liborc_reader.stripes reader) k = Some s
    /\ rows_before (liborc_reader.stripes reader) k <= row
       < rows_before (liborc_reader.stripes reader) k
         + liborc_reader.Stripe.getNumberOfRows s
    /\ ORCFileReader.SelectStripeWithRowNumber impl opts row
       = Ok (liborc_reader.set_range opts (liborc_reader.Stripe.getOffset s)
                                     (liborc_reader.Stripe.getLength s),
             ORCFileReader.mkStripeInformation
               (liborc_reader.Stripe.getOffset s) (liborc_reader.Stripe.getLength s)
               (liborc_reader.Stripe.getNumberOfRows s)
               (rows_before (liborc_reader.stripes reader) k)).
Proof.
  intros (Hall & Hsum & Hmax & Hn) Hopen Hrow.
  rewrite (Open_index reader Hn) in Hopen. injection Hopen as <-.
  destruct (find_stripe_finds opts row (liborc_reader.stripes reader) Hall 0)
    as (k & s & Hk & Hr & E); try lia.
  exists k, s. split; [exact Hk |]. split; [lia |].
  unfold ORCFileReader.SelectStripeWithRowNumber, ORCFileReader.NumberOfRows.
  cbn [ORCFileReader.reader_ ORCFileReader.stripes_].
  rewrite int64_t_within by lia.
  destruct (Z.leb_spec (liborc_reader.getNumberOfRows reader) row) as [Hge | _]; [lia |].
  exact E.
Qed.

(** After [Open], a row number of the file is looked up in the stripe that
    contains it: the options get the byte range of that stripe, and the
    entry that comes back has its number of rows and the number of its first
    row, which is the sum of the rows of the stripes before it. *)
Theorem row_number_finds_its_stripe (reader : liborc_reader.Reader)
  (impl : ORCFileReader.Impl) (opts : liborc_reader.RowReaderOptions) (row : Z) :
  file_ok reader ->
  ORCFileReader.Open (inr reader) = Ok impl ->
  0 <= row < liborc_reader.getNumberOfRows reader ->
  exists k s,
    nth_error (liborc_reader.stripes reader) k = Some s
    /\ rows_before (liborc_reader.stripes reader) k <= row
       < rows_before (liborc_reader.stripes reader) k
         + liborc_reader.Stripe.getNumberOfRows s
    /\ ORCFileReader.SelectStripeWithRowNumber impl opts row
       = Ok (liborc_reader.set_range opts (liborc_reader.Stripe.getOffset s)
                                     (liborc_reader.Stripe.getLength s),
             ORCFileReader.mkStripeInformation
               (liborc_reader.Stripe.getOffset s) (liborc_reader.Stripe.getLength s)
               (liborc_reader.Stripe.getNumberOfRows s)
               (rows_before (liborc_reader.stripes reader) k)).
Proof. exact (SelectStripeWithRowNumber_finds reader impl opts row). Qed.


(** [Seek] takes a negative row number; the stripe reader that is asked
    for next is refused, with the status Invalid and the message "Invalid row
    number" followed by the number, whatever the file holds. *)
Theorem Seek_accepts_negative_row (reader : liborc_reader.Reader)
  (impl : ORCFileReader.Impl) (row batch_size : Z) :
  file_ok reader ->
  ORCFileReader.Open (inr reader) = Ok impl ->
  - 2 ^ 63 <= row < 0 ->
  exists impl',
    ORCFileReader.Seek impl row = Ok impl'
    /\ ORCFileReader.current_row_ impl' = row
    /\ ORCFileReader.NextStripeReader impl' batch_size []
       = Raise (arrow.mkStatus arrow.Invalid
                  [arrow.Text "Invalid row number";
                   arrow.Text (int64_to_string row)]).
Proof.
  intros (Hall & Hsum & Hmax & Hn) Hopen Hrow.
  rewrite (Open_index reader Hn) in Hopen. injection Hopen as <-.
  pose proof (stripe_rows_nonneg _ Hall) as Hnn.
  unfold ORCFileReader.Seek, ORCFileReader.NumberOfRows. cbn [ORCFileReader.reader_].
  rewrite int64_t_within by lia.
  destruct (Z.leb_spec (liborc_reader.getNumberOfRows reader) row) as [Hge | _]; [lia |].
  eexists. split; [reflexivity |]. split; [reflexivity |].
  unfold ORCFileReader.NextStripeReader, ORCFileReader.NumberOfRows.
  cbn [ORCFileReader.reader_ ORCFileReader.stripes_ ORCFileReader.current_row_ bind].
  rewrite int64_t_within by lia.
  destruct (Z.leb_spec (liborc_reader.getNumberOfRows reader) row) as [Hge | _]; [lia |].
  unfold ORCFileReader.SelectStripeWithRowNumber, ORCFileReader.NumberOfRows.
  cbn [ORCFileReader.reader_ ORCFileReader.stripes_].
  rewrite int64_t_within by lia.
  destruct (Z.leb_spec (liborc_reader.getNumberOfRows reader) row) as [Hge | _]; [lia |].
  rewrite (find_stripe_misses liborc_reader.default_options row
             (liborc_reader.stripes reader) Hall 0); try lia.
  - reflexivity.
  - unfold uint64_t.
    replace row with (row + 2 ^ 64 + - 1 * 2 ^ 64) by lia.
    rewrite Z_mod_plus_full, Z.mod_small; lia.
Qed.

Lemma rows_before_le (ss : list liborc_reader.Stripe.StripeInformation) (k : nat) s :
  Forall (fun stripe => 0 <= liborc_reader.Stripe.getNumberOfRows stripe) ss ->
  nth_error ss k = Some s ->
  0 <= rows_before ss k
  /\ rows_before ss k + liborc_reader.Stripe.getNumberOfRows s <= stripe_rows ss.
Proof.
  intros Hall. revert k. induction Hall as [| s0 ss Hs Hall IH]; intros k Hk.
  - destruct k; discriminate Hk.
  - destruct k as [| k]; unfold rows_before in *;
      cbn [nth_error firstn stripe_rows fold_right] in *.
    + injection Hk as <-. pose proof (stripe_rows_nonneg ss Hall) as H.
      unfold stripe_rows in H. lia.
    + specialize (IH k Hk). unfold stripe_rows in IH. lia.
Qed.

(** [NextStripeReader] at a row of the file: it asks the library for a
    row reader on the byte range of the stripe that contains the current
    row, moves that reader to the current row, and moves the current row to
    the end of that stripe, strictly forward and not beyond the rows of the
    file.  When that was the last row of the file, the next call gives no
    stripe reader and leaves the current row. *)
Theorem NextStripeReader_moves_to_end_of_stripe (reader : liborc_reader.Reader)
  (impl0 impl : ORCFileReader.Impl) (row batch_size : Z) :
  file_ok reader ->
  ORCFileReader.Open (inr reader) = Ok impl0 ->
  ORCFileReader.Seek impl0 row = Ok impl ->
  0 <= row ->
  exists k s,
    let end_of_stripe :=
      rows_before (liborc_reader.stripes reader) k
      + liborc_reader.Stripe.getNumberOfRows s in
    let impl' :=
      ORCFileReader.mkImpl reader (ORCFileReader.stripes_ impl) end_of_stripe in
    nth_error (liborc_reader.stripes reader) k = Some s
    /\ rows_before (liborc_reader.stripes reader) k <= row < end_of_stripe
    /\ end_of_stripe <= liborc_reader.getNumberOfRows reader
    /\ (forall row_reader schema batches,
           liborc_reader.createRowReader reader
             (liborc_reader.set_range liborc_reader.default_options
                (liborc_reader.Stripe.getOffset s) (liborc_reader.Stripe.getLength s))
           = inr row_reader ->
           ORCFileReader.GetArrowSchema impl
             (liborc_reader.getSelectedType row_reader) = Ok schema ->
           liborc_reader.rows_from row_reader row = inr batches ->
           ORCFileReader.NextStripeReader impl batch_size []
           = Ok (impl',
                 Some (ORCFileReader.mkOrcStripeReader
                         (liborc_reader.mkRowReader
                            (liborc_reader.getSelectedType row_reader)
                            (liborc_reader.createRowBatch row_reader)
                            batches (liborc_reader.rows_from row_reader))
                         schema batch_size)))
    /\ (end_of_stripe = liborc_reader.getNumberOfRows reader ->
        ORCFileReader.NextStripeReader impl' batch_size [] = Ok (impl', None)).
Proof.
  intros Hok Hopen Hseek Hrow. pose proof Hok as (Hall & Hsum & Hmax & Hn).
  pose proof (stripe_rows_nonneg _ Hall) as Hnn.
  assert (Hlt : row < liborc_reader.getNumberOfRows reader).
  { rewrite (Open_index reader Hn) in Hopen. injection Hopen as <-.
    unfold ORCFileReader.Seek, ORCFileReader.NumberOfRows in Hseek.
    cbn [ORCFileReader.reader_] in Hseek. rewrite int64_t_within in Hseek by lia.
    destruct (Z.leb_spec (liborc_reader.getNumberOfRows reader) row); [discriminate | lia]. }
  destruct (SelectStripeWithRowNumber_finds reader impl0 liborc_reader.default_options row
              Hok Hopen ltac:(lia)) as (k & s & Hk & Hr & E).
  exists k, s. cbv zeta. split; [exact Hk |]. split; [exact Hr |].
  pose proof (rows_before_le _ k s Hall Hk) as [Hb0 Hb1].
  split; [lia |].
  split.
  2: { intros Hend. unfold ORCFileReader.NextStripeReader, ORCFileReader.NumberOfRows.
       cbn [ORCFileReader.reader_ ORCFileReader.current_row_].
       rewrite int64_t_within by lia. rewrite Hend, Z.leb_refl. reflexivity. }
  intros row_reader schema batches Hrr Hschema Hfrom.
  rewrite (Open_index reader Hn) in Hopen. injection Hopen as <-.
  unfold ORCFileReader.Seek, ORCFileReader.NumberOfRows in Hseek.
  cbn [ORCFileReader.reader_ ORCFileReader.stripes_] in Hseek.
  rewrite int64_t_within in Hseek by lia.
  destruct (Z.leb_spec (liborc_reader.getNumberOfRows reader) row); [discriminate |].
  injection Hseek as <-.
  unfold ORCFileReader.NextStripeReader.
  unfold ORCFileReader.NumberOfRows at 1.
  cbn [ORCFileReader.reader_ ORCFileReader.stripes_ ORCFileReader.current_row_].
  rewrite int64_t_within by lia.
  destruct (Z.leb_spec (liborc_reader.getNumberOfRows reader) row); [lia |].
  cbn [bind].
  change (ORCFileReader.SelectStripeWithRowNumber
            (ORCFileReader.mkImpl reader
               (stripe_index (liborc_reader.stripes reader) 0) row)
            liborc_reader.default_options row)
    with (ORCFileReader.SelectStripeWithRowNumber
            (ORCFileReader.mkImpl reader
               (stripe_index (liborc_reader.stripes reader) 0) 0)
            liborc_reader.default_options row).
  rewrite E. cbn [bind].
  unfold ORCFileReader.ReadSchema_opts. cbn [ORCFileReader.reader_].
  rewrite Hrr, Hschema. cbn [bind].
  unfold liborc_reader.seekToRow. rewrite Hfrom.
  cbn [ORCFileReader.first_row_of_stripe ORCFileReader.num_rows].
  rewrite uint64_t_id, int64_t_within by lia. reflexivity.
Qed.

Lemma stripe_index_length ss first_row :
  List.length (stripe_index ss first_row) = List.length ss.
Proof.
  revert first_row. induction ss as [| s ss IH]; intros f; cbn [stripe_index List.length];
    [reflexivity | rewrite IH; reflexivity].
Qed.

Lemma uint64_t_add (a b : Z) : uint64_t (uint64_t a + b) = uint64_t (a + b).
Proof. unfold uint64_t. apply Zplus_mod_idemp_l. Qed.

Lemma stripe_index_nth (ss : list liborc_reader.Stripe.StripeInformation) :
  forall (k : nat) s first_row,
    nth_error ss k = Some s ->
    nth_error (stripe_index ss (uint64_t first_row)) k
    = Some (ORCFileReader.mkStripeInformation
              (liborc_reader.Stripe.getOffset s) (liborc_reader.Stripe.getLength s)
              (liborc_reader.Stripe.getNumberOfRows s)
              (uint64_t (first_row + rows_before ss k))).
Proof.
  induction ss as [| s0 ss IH]; intros k s f Hk; destruct k as [| k]; try discriminate Hk;
    unfold rows_before in *; cbn [nth_error stripe_index firstn stripe_rows fold_right] in *.
  - injection Hk as <-. rewrite Z.add_0_r. reflexivity.
  - fold (stripe_rows (firstn k ss)). rewrite uint64_t_add.
    rewrite (IH k s _ Hk). do 3 f_equal. lia.
Qed.

(** [ReadStripe] refuses a stripe number that is negative or not below the
    number of stripes, with the status Invalid that names it, before it asks
    the library for anything; for a stripe of the file it reads the schema
    and then the batch with the options set to the byte range of that stripe
    and with the number of rows of that stripe. *)
Theorem ReadStripe_reads_its_stripe (double_to_float : Z -> Z)
  (RecordBatch : Type)
  (Make : SchemaOps.Schema -> Z -> result (list ArrayBuilder))
  (Flush : list ArrayBuilder -> result RecordBatch)
  (reader : liborc_reader.Reader) (impl : ORCFileReader.Impl) (stripe : Z) :
  file_ok reader ->
  ORCFileReader.Open (inr reader) = Ok impl ->
  (stripe < 0 \/ Z.of_nat (List.length (liborc_reader.stripes reader)) <= stripe ->
   ORCFileReader.ReadStripe double_to_float RecordBatch Make Flush impl stripe
   = Raise (arrow.mkStatus arrow.Invalid
              [arrow.Text "Out of bounds stripe: ";
               arrow.Text (int64_to_string stripe)]))
  /\ (forall s,
        0 <= stripe ->
        nth_error (liborc_reader.stripes reader) (Z.to_nat stripe) = Some s ->
        let opts :=
          liborc_reader.set_range liborc_reader.default_options
            (liborc_reader.Stripe.getOffset s) (liborc_reader.Stripe.getLength s) in
        ORCFileReader.ReadStripe double_to_float RecordBatch Make Flush impl stripe
        = (schema <- ORCFileReader.ReadSchema_opts impl opts ;;
           ORCFileReader.ReadBatch double_to_float RecordBatch Make Flush impl opts
                                   schema (liborc_reader.Stripe.getNumberOfRows s))).
Proof.
  intros (Hall & Hsum & Hmax & Hn) Hopen.
  rewrite (Open_index reader Hn) in Hopen. injection Hopen as <-.
  pose proof (stripe_rows_nonneg _ Hall) as Hnn.
  unfold ORCFileReader.ReadStripe, ORCFileReader.SelectStripe, ORCFileReader.NumberOfStripes.
  cbn [ORCFileReader.stripes_]. rewrite stripe_index_length, int64_t_within by lia.
  split.
  - intros Hout.
    replace ((stripe <? 0)
             || (Z.of_nat (List.length (liborc_reader.stripes reader)) <=? stripe))
      with true; [reflexivity |].
    symmetry. apply orb_true_iff.
    destruct Hout; [left; apply Z.ltb_lt | right; apply Z.leb_le]; lia.
  - intros s H0 Hs.
    assert (Hlt : stripe < Z.of_nat (List.length (liborc_reader.stripes reader))).
    { assert (Hs' : nth_error (liborc_reader.stripes reader) (Z.to_nat stripe) <> None)
        by congruence.
      apply nth_error_Some in Hs'. lia. }
    replace ((stripe <? 0)
             || (Z.of_nat (List.length (liborc_reader.stripes reader)) <=? stripe))
      with false
      by (symmetry; apply orb_false_iff; split; [apply Z.ltb_ge | apply Z.leb_gt]; lia).
    pose proof (stripe_index_nth _ _ s 0 Hs) as Hi.
    change (uint64_t 0) with 0 in Hi. rewrite Hi.
    cbn [bind ORCFileReader.offset ORCFileReader.length ORCFileReader.num_rows].
    pose proof (rows_before_le _ _ s Hall Hs) as [Hb0 Hb1].
    assert (Hs0 : 0 <= liborc_reader.Stripe.getNumberOfRows s).
    { rewrite Forall_forall in Hall. apply Hall. eapply nth_error_In. exact Hs. }
    rewrite int64_t_within by lia. reflexivity.
Qed.

Lemma SelectIndices_loop_takes (include_indices : list Z) :
  Forall (fun it => 0 <= it < 2 ^ 31) include_indices ->
  forall acc,
    ORCFileReader.SelectIndices_loop include_indices acc = Ok (acc ++ include_indices).
Proof.
  induction 1 as [| it rest Hit _ IH]; intros acc; cbn [ORCFileReader.SelectIndices_loop].
  - rewrite app_nil_r. reflexivity.
  - destruct (Z.ltb_spec it 0) as [Hneg | _]; [lia |].
    rewrite IH, <- app_assoc, uint64_t_id by lia. reflexivity.
Qed.

Lemma SelectIndices_loop_refuses (include_indices : list Z) :
  Exists (fun it => it < 0) include_indices ->
  forall acc,
    ORCFileReader.SelectIndices_loop include_indices acc
    = Raise (arrow.mkStatus arrow.Invalid [arrow.Text "Negative field index"]).
Proof.
  induction 1 as [it rest Hit | it rest _ IH]; intros acc;
    cbn [ORCFileReader.SelectIndices_loop].
  - destruct (Z.ltb_spec it 0) as [_ | Hge]; [reflexivity | lia].
  - destruct (it <? 0); [reflexivity | apply IH].
Qed.

(** [SelectIndices] passes the indices to the library as they are, in
    order, and leaves the byte range of the options, when no index is
    negative; with a negative index anywhere in the list it passes nothing
    and returns the status Invalid. *)
Theorem SelectIndices_all_or_nothing (opts : liborc_reader.RowReaderOptions)
  (include_indices : list Z) :
  (Forall (fun it => 0 <= it < 2 ^ 31) include_indices ->
   ORCFileReader.SelectIndices opts include_indices
   = Ok (liborc_reader.mkOptions (liborc_reader.range opts) (Some include_indices)))
  /\ (Exists (fun it => it < 0) include_indices ->
      ORCFileReader.SelectIndices opts include_indices
      = Raise (arrow.mkStatus arrow.Invalid [arrow.Text "Negative field index"])).
Proof.
  unfold ORCFileReader.SelectIndices. split; intros H.
  - rewrite (SelectIndices_loop_takes include_indices H []). reflexivity.
  - rewrite (SelectIndices_loop_refuses include_indices H []). reflexivity.
Qed.

Lemma SelectIndices_all_or_nothing_witness :
  ORCFileReader.SelectIndices liborc_reader.default_options [2; 0; 5]
  = Ok (liborc_reader.mkOptions None (Some [2; 0; 5]))
  /\ ORCFileReader.SelectIndices liborc_reader.default_options [2; -1; 5]
     = Raise (arrow.mkStatus arrow.Invalid [arrow.Text "Negative field index"]).
Proof.
  split.
  - apply (proj1 (SelectIndices_all_or_nothing liborc_reader.default_options [2; 0; 5])).
    repeat constructor; lia.
  - apply (proj2 (SelectIndices_all_or_nothing liborc_reader.default_options [2; -1; 5])).
    right. left. lia.
Defined.

(** * Reading batches *)

(** The loop over the fields of a record batch builder appends to each
    field builder the column the field of the batch holds. *)
Lemma append_columns_reads d2f (ts : list liborc.Type_) (n : Z) :
  0 <= n ->
  forall fields cols builders,
    fields_hold (fun t f c => holds d2f t f c) n ts fields cols ->
    Forall2 (fun t bld => fits t bld) ts builders ->
    exists builders',
      append_fields
        (fun subtype field field_builder =>
           AppendBatch d2f subtype field 0 n field_builder)
        ts fields builders = Ok builders'
      /\ Forall2 (fun t bld => fits t bld) ts builders'
      /\ map built builders' = append_rows (map built builders) cols.
Proof.
  intros Hn. induction ts as [| t ts IH]; intros fields cols builders Hh Hf.
  - inversion Hf; subst. destruct fields, cols; try contradiction.
    exists []. cbn. auto.
  - inversion Hf as [| ? bld ? builders' Hfit Hrest]; subst.
    destruct fields as [| f fields]; [contradiction |].
    destruct cols as [| col cols]; [contradiction |].
    destruct Hh as (Hh1 & Hl1 & Hh).
    destruct (AppendBatch_reads d2f t f col bld 0 n Hh1 Hfit) as (bld' & E1 & Hf1 & Hb1);
      try lia.
    destruct (IH fields cols builders' Hh Hrest) as (bs' & E & Hf' & Hb).
    exists (bld' :: bs'). cbn [append_fields]. rewrite E1. cbn [bind]. rewrite E. cbn [bind].
    split; [reflexivity |]. split; [constructor; assumption |].
    cbn [map append_rows]. rewrite Hb1, Hb. rewrite <- Hl1, slice_all. reflexivity.
Qed.

Section ReadingBatches.

Variable double_to_float : Z -> Z.
Variable RecordBatch : Type.
Variable Make : SchemaOps.Schema -> Z -> result (list ArrayBuilder).
Variable Flush : list ArrayBuilder -> result RecordBatch.

Lemma append_columns_rows (type : liborc.Type_) h fields cols builders :
  batch_of_rows double_to_float type (StructVectorBatch h fields) cols ->
  builders_fit type builders ->
  exists builders',
    ORCFileReader.append_columns double_to_float type fields (numElements h) builders
    = Ok builders'
    /\ builders_fit type builders'
    /\ map built builders' = append_rows (map built builders) cols.
Proof.
  intros [Hn Hh] Hf. unfold ORCFileReader.append_columns.
  exact (append_columns_reads double_to_float _ _ Hn fields cols builders Hh Hf).
Qed.

Lemma ReadBatch_while_reads (type : liborc.Type_) (batches : list Batch) :
  forall colss builders,
    Forall2 (batch_of_rows double_to_float type) batches colss ->
    builders_fit type builders ->
    exists builders',
      ORCFileReader.ReadBatch_while double_to_float type batches builders = Ok builders'
      /\ builders_fit type builders'
      /\ map built builders' = fold_left append_rows colss (map built builders).
Proof.
  induction batches as [| b batches IH]; intros colss builders Hall Hf;
    inversion Hall as [| ? cols ? colss' Hb Hrest]; subst.
  - exists builders. cbn. auto.
  - destruct b as [| | | | | | h fields | |]; try contradiction.
    destruct (append_columns_rows type h fields cols builders Hb Hf) as (bs1 & E1 & Hf1 & Hb1).
    destruct (IH colss' bs1 Hrest Hf1) as (bs2 & E2 & Hf2 & Hb2).
    exists bs2. cbn [ORCFileReader.ReadBatch_while]. rewrite E1. cbn [bind].
    split; [exact E2 |]. split; [exact Hf2 |].
    cbn [fold_left]. rewrite Hb2, Hb1. reflexivity.
Qed.

Lemma ReadBatch_reads (impl : ORCFileReader.Impl)
  (opts : liborc_reader.RowReaderOptions) (schema : SchemaOps.Schema) (nrows : Z)
  (row_reader : liborc_reader.RowReader) (batch : Batch)
  (builders : list ArrayBuilder) (colss : list (list (list LVal))) :
  liborc_reader.createRowReader (ORCFileReader.reader_ impl) opts = inr row_reader ->
  liborc_reader.createRowBatch row_reader (Z.min nrows ORCFileReader.kReadRowsBatch)
  = inr batch ->
  BatchOps.class batch = StructClass ->
  Make schema nrows = Ok builders ->
  builders_fit (liborc_reader.getSelectedType row_reader) builders ->
  Forall2 (batch_of_rows double_to_float (liborc_reader.getSelectedType row_reader))
          (liborc_reader.pending row_reader) colss ->
  exists builders',
    ORCFileReader.ReadBatch double_to_float RecordBatch Make Flush impl opts schema nrows
    = Flush builders'
    /\ builders_fit (liborc_reader.getSelectedType row_reader) builders'
    /\ map built builders' = fold_left append_rows colss (map built builders).
Proof.
  intros Hrr Hb Hclass Hmake Hfit Hall.
  destruct (ReadBatch_while_reads _ _ colss builders Hall Hfit) as (bs' & E & Hf' & Hbuilt).
  exists bs'. unfold ORCFileReader.ReadBatch. rewrite Hrr, Hb, Hmake. cbn [bind].
  unfold BatchOps.checked_cast. rewrite Hclass. cbn [BatchOps.class_eqb bind].
  rewrite E. cbn [bind]. auto.
Qed.




End ReadingBatches.

(** * The rows the writer hands over *)

(** ** Windows of a column *)

Lemma seq_from (a b : nat) : seq a b = map (Nat.add a) (seq 0 b).
Proof.
  revert a. induction b as [| b IH]; intros a; [reflexivity |].
  cbn [seq map]. rewrite Nat.add_0_r. f_equal.
  rewrite (IH (S a)), (IH 1%nat), map_map. apply map_ext. intros k. lia.
Qed.

Lemma zseq_split (s n k : Z) :
  0 <= k <= n -> zseq s n = zseq s k ++ zseq (s + k) (n - k).
Proof.
  intros H. unfold zseq.
  replace (Z.to_nat n) with (Z.to_nat k + Z.to_nat (n - k))%nat by lia.
  rewrite seq_app, map_app. f_equal.
  cbn [Nat.add]. rewrite (seq_from (Z.to_nat k)), map_map.
  apply map_ext. intros j. lia.
Qed.

Lemma slice_split (vs : list LVal) (o n k : Z) :
  0 <= k <= n -> slice vs o n = slice vs o k ++ slice vs (o + k) (n - k).
Proof.
  intros H. unfold slice. rewrite (zseq_split o n k H), map_app. reflexivity.
Qed.

Lemma slice_nil (vs : list LVal) (o n : Z) : n <= 0 -> slice vs o n = [].
Proof. intros H. unfold slice. rewrite zseq_nil by exact H. reflexivity. Qed.

Lemma slice_skip (vs ws : list LVal) (o n : Z) :
  0 <= o -> slice (vs ++ ws) (Z.of_nat (List.length vs) + o) n = slice ws o n.
Proof.
  intros Ho. unfold slice, zseq. rewrite !map_map. apply map_ext. intros k.
  rewrite zth_app_r by lia. f_equal. lia.
Qed.

Lemma slice_logical leaf (a : Array) (len o n : Z) :
  0 <= o -> o + n <= len ->
  slice (logical leaf a 0 len) o n = logical leaf a o n.
Proof.
  intros Ho Hn. unfold slice, logical. apply map_ext_in. intros i Hi.
  apply in_zseq in Hi.
  change (zth (map (logical_at leaf a) (zseq 0 len)) i LNull)
    with (zth (logical leaf a 0 len) i LNull).
  rewrite zth_logical by lia. reflexivity.
Qed.

Lemma column_values_length (col : list Array) :
  Forall (fun a => 0 <= ArrayOps.length a) col ->
  Z.of_nat (List.length (column_values col)) = chunks_length col.
Proof.
  induction 1 as [| a col Ha _ IH]; [reflexivity |].
  unfold column_values, chunks_length in *. cbn [map List.concat fold_right].
  rewrite length_app, logical_length. lia.
Qed.

Lemma column_values_app (l r : list Array) :
  column_values (l ++ r) = column_values l ++ column_values r.
Proof. unfold column_values. rewrite map_app, concat_app. reflexivity. Qed.

(** The values the chunked encoder takes from a cursor on are a window of
    the values of the column. *)
Lemma chunk_values_window (chunks : list Array) :
  Forall (fun a => 0 <= ArrayOps.length a) chunks ->
  forall idx n,
    0 <= idx ->
    match chunks with
    | a :: _ => idx <= ArrayOps.length a
    | [] => idx = 0
    end ->
    0 <= n ->
    chunk_values chunks idx n
    = slice (column_values chunks) idx (Z.min n (chunks_length chunks - idx)).
Proof.
  induction 1 as [| a rest Ha Hrest IH]; intros idx n Hidx Hin Hn.
  - subst idx. cbn [chunk_values]. rewrite slice_nil; [reflexivity |].
    unfold chunks_length. cbn [fold_right]. lia.
  - pose proof (chunks_length_nonneg Hrest) as Hnn.
    cbn [chunk_values]. unfold column_values. cbn [map List.concat].
    fold (column_values rest).
    unfold chunks_length. cbn [fold_right]. fold (chunks_length rest).
    set (m := Z.min n (ArrayOps.length a - idx)).
    rewrite (slice_split _ idx _ m) by lia.
    rewrite slice_app_l by (rewrite ?logical_length; lia).
    rewrite slice_logical by lia. f_equal.
    replace (idx + m) with (Z.of_nat (List.length
                                        (logical in_nanoseconds a 0 (ArrayOps.length a)))
                            + (idx + m - ArrayOps.length a))
      by (rewrite logical_length; lia).
    destruct (Z.ltb_spec m n) as [Hlt | Hge].
    + assert (Hm : m = ArrayOps.length a - idx) by lia.
      rewrite slice_skip by lia.
      rewrite IH; try lia.
      * f_equal; lia.
      * destruct rest as [| a' rest']; [reflexivity |]. inversion Hrest; lia.
    + rewrite slice_nil; [reflexivity | lia].
Qed.

Lemma firstn_nonneg (col : list Array) (n : nat) :
  Forall (fun a => 0 <= ArrayOps.length a) col ->
  Forall (fun a => 0 <= ArrayOps.length a) (firstn n col).
Proof.
  intros H. rewrite <- (firstn_skipn n col) in H. apply Forall_app in H. apply H.
Qed.

Lemma skipn_nonneg (col : list Array) (n : nat) :
  Forall (fun a => 0 <= ArrayOps.length a) col ->
  Forall (fun a => 0 <= ArrayOps.length a) (skipn n col).
Proof.
  intros H. rewrite <- (firstn_skipn n col) in H. apply Forall_app in H. apply H.
Qed.

Lemma chunk_values_at_cursor (col : list Array) (c idx n : Z) :
  Forall (fun a => 0 <= ArrayOps.length a) col ->
  cursor_ok col c idx -> 0 <= n ->
  chunk_values (skipn (Z.to_nat c) col) idx n
  = slice (column_values col) (position col c idx)
          (Z.min n (chunks_length col - position col c idx)).
Proof.
  intros Hnn (Hc & Hidx & Hin) Hn.
  rewrite (chunk_values_window _ (skipn_nonneg col _ Hnn) idx n Hidx Hin Hn).
  unfold position.
  pose proof (chunks_length_split col (Z.to_nat c)) as Hsplit.
  replace (column_values col)
    with (column_values (firstn (Z.to_nat c) col)
          ++ column_values (skipn (Z.to_nat c) col))
    by (rewrite <- column_values_app, firstn_skipn; reflexivity).
  rewrite <- (column_values_length _ (firstn_nonneg col (Z.to_nat c) Hnn)) at 1.
  rewrite slice_skip by lia. f_equal. lia.
Qed.

(** ** One batch of the writer *)

Section WriterRows.

Variable float_to_double double_to_float : Z -> Z.
Hypothesis float_exact : forall x, double_to_float (float_to_double x) = x.

(** The chunked encoder on one column: the batch it gives holds the next
    rows of the column, as many as it counts. *)
Lemma WriteBatch_chunked_window (T : liborc.Type_) (col : ChunkedArray) (b : Batch)
  (vs0 : list LVal) (idx c len : Z) :
  Forall (fun a => wf_array a /\ GetORCType (ArrayOps.type a) = Ok T) col ->
  holds double_to_float T b vs0 ->
  len <= capacity (BatchOps.base b) ->
  cursor_ok col c idx -> 0 <= len ->
  let p := position col c idx in
  let n := Z.min len (chunks_length col - p) in
  exists b' idx' c',
    WriteBatch_chunked float_to_double b idx c len col = Ok (b', idx', c')
    /\ holds double_to_float T b' (slice (column_values col) p n)
    /\ rows b' = n
    /\ 0 <= n
    /\ capacity (BatchOps.base b') = capacity (BatchOps.base b)
    /\ cursor_ok col c' idx'
    /\ position col c' idx' = p + n.
Proof.
  intros Hcol Hh Hcap Hcur Hlen p n.
  pose proof Hcur as (Hc & Hidx & Hfirst).
  pose proof (column_lengths T col Hcol) as Hnn.
  destruct (WriteBatch_while_holds float_to_double double_to_float float_exact T
              (skipn (Z.to_nat c) col) (Forall_skipn _ _ _ Hcol) b idx c len []
              (holds_nil _ _ _ _ Hh) Hidx Hfirst)
    as (b' & idx' & c' & E & Hh' & Hc'); cbn [List.length Z.of_nat]; try lia.
  cbn [List.length Z.of_nat app] in E, Hh'.
  rewrite Z.sub_0_r in E, Hh'.
  rewrite (chunk_values_at_cursor col c idx len Hnn Hcur Hlen) in E, Hh'.
  fold p in E, Hh'. fold n in E, Hh'.
  assert (Eq : WriteBatch_chunked float_to_double b idx c len col
               = Ok (BatchOps.set_numElements b'
                       (Z.of_nat (List.length (slice (column_values col) p n))),
                     idx', c')).
  { unfold WriteBatch_chunked. rewrite E. reflexivity. }
  destruct (@WriteBatch_chunked_count float_to_double col b idx c len _ idx' c'
              Hnn Hcur Hlen Eq) as (Hrows & Hcur' & Hpos).
  fold p in Hrows, Hpos. fold n in Hrows.
  do 3 eexists. split; [exact Eq |].
  split; [apply holds_set_numElements; exact Hh' |].
  split; [exact Hrows |].
  split; [rewrite <- Hrows, rows_set_numElements; lia |].
  split; [unfold BatchOps.set_numElements; rewrite base_with_base; exact Hc' |].
  split; [exact Hcur' |]. rewrite Hpos, Hrows. reflexivity.
Qed.

(** One round over the columns: each field batch gets the next rows of
    its column. *)
Lemma write_columns_rows (C L p : Z) (cols : list ChunkedArray) :
  0 <= C ->
  Forall (fun col => chunks_length col = L) cols ->
  forall fields ts ios cos,
    table_fits double_to_float C cols fields ts ->
    cursors_at cols ios cos p ->
    let n := Z.min C (L - p) in
    exists fields' ios' cos',
      write_columns float_to_double C cols fields ios cos = Ok (fields', ios', cos')
      /\ table_fits double_to_float C cols fields' ts
      /\ cursors_at cols ios' cos' (p + n)
      /\ fields_hold (fun t f c => holds double_to_float t f c) n ts fields'
                     (rows_window cols p n)
      /\ Forall (fun f => rows f = n /\ 0 <= n) fields'.
Proof.
  intros HC HL. induction HL as [| col cols Hcol _ IH]; intros fields ts ios cos Hfit Hcur n.
  - destruct fields, ts; try contradiction. destruct ios, cos; try contradiction.
    exists [], [], []. cbn. auto.
  - destruct fields as [| field fields]; [contradiction |].
    destruct ts as [| t ts]; [contradiction |].
    destruct ios as [| io ios]; [contradiction |].
    destruct cos as [| co cos]; [contradiction |].
    destruct Hfit as (Hwf & (vs & Hh) & Hcap & Hfit).
    destruct Hcur as (Hcur1 & Hpos & Hcur).
    destruct (WriteBatch_chunked_window t col field vs io co C Hwf Hh Hcap Hcur1 HC)
      as (f' & io' & co' & E & Hh' & Hrows & Hn0 & Hcap' & Hcur' & Hpos').
    rewrite Hpos, Hcol in *. fold n in Hh', Hrows, Hn0, Hpos'.
    destruct (IH fields ts ios cos Hfit Hcur)
      as (fs' & ios' & cos' & E' & Hfit' & Hc' & Hhold & Hr).
    fold n in Hc', Hhold, Hr.
    exists (f' :: fs'), (io' :: ios'), (co' :: cos').
    cbn [write_columns]. rewrite E. cbn [bind]. rewrite E'. cbn [bind].
    split; [reflexivity |].
    split.
    { cbn [table_fits]. split; [exact Hwf |]. split; [eexists; exact Hh' |].
      split; [lia | exact Hfit']. }
    split; [cbn [cursors_at]; auto |].
    split.
    { unfold rows_window. cbn [map fields_hold]. split; [exact Hh' |].
      split; [rewrite slice_length; lia | exact Hhold]. }
    constructor; [split; assumption | exact Hr].
Qed.

Lemma table_fits_reset (C : Z) (cols : list ChunkedArray) :
  forall fields ts,
    table_fits double_to_float C cols fields ts ->
    table_fits double_to_float C cols
      (map (fun f => BatchOps.set_numElements f 0) fields) ts.
Proof.
  induction cols as [| col cols IH]; intros fields ts H;
    destruct fields as [| field fields]; destruct ts as [| t ts]; try contradiction.
  - exact I.
  - destruct H as (Hwf & (vs & Hh) & Hcap & H). cbn [map table_fits].
    split; [exact Hwf |]. split; [exists vs; apply holds_set_numElements; exact Hh |].
    split; [| apply IH; exact H].
    unfold BatchOps.set_numElements. rewrite base_with_base. exact Hcap.
Qed.

(** One round of the loop of [Write]: the batch it adds holds the next
    rows of the table. *)
Lemma Write_body_rows (C L p : Z) (cols : list ChunkedArray) (type : liborc.Type_)
  (st : WriterState) h fields :
  0 <= C -> cols <> [] ->
  Forall (fun col => chunks_length col = L) cols ->
  root st = StructVectorBatch h fields ->
  table_fits double_to_float C cols fields (liborc_reader.getSubtypes type) ->
  cursors_at cols (arrow_index_offset st) (arrow_chunk_offset st) p ->
  let n := Z.min C (L - p) in
  exists batch fields' ios' cos',
    Write_body float_to_double C cols st
    = Ok (mkWriter (StructVectorBatch (mkBase (capacity h) 0 (notNull h) (hasNulls h))
                                      fields')
                   ios' cos' (batch :: added st))
    /\ batch_of_rows double_to_float type batch (rows_window cols p n)
    /\ rows batch = n
    /\ table_fits double_to_float C cols fields' (liborc_reader.getSubtypes type)
    /\ cursors_at cols ios' cos' (p + n).
Proof.
  intros HC Hne HL Hroot Hfit Hcur n.
  destruct (write_columns_rows C L p cols HC HL fields _ _ _ Hfit Hcur)
    as (fs' & ios' & cos' & E & Hfit' & Hcur' & Hhold & Hrows).
  fold n in Hcur', Hhold, Hrows.
  unfold Write_body. rewrite Hroot, E. cbn [bind].
  destruct fs' as [| field0 fs'].
  { destruct cols; [congruence |]. destruct (liborc_reader.getSubtypes type);
      cbn [table_fits] in Hfit'; contradiction. }
  inversion Hrows as [| ? ? [Hr0 Hn0] _]; subst.
  unfold rows in Hr0.
  do 4 eexists. split; [reflexivity |].
  split.
  { unfold batch_of_rows, BatchOps.set_numElements.
    cbn [BatchOps.base BatchOps.with_base numElements]. rewrite Hr0.
    split; [exact Hn0 | exact Hhold]. }
  split.
  { unfold rows, BatchOps.set_numElements.
    cbn [BatchOps.base BatchOps.with_base numElements]. exact Hr0. }
  split; [| exact Hcur'].
  exact (table_fits_reset C cols _ _ Hfit').
Qed.

(** The loop of [Write]: the batches it adds hold the rows of the table
    from row [p] on, [batch_size] rows each but the last. *)
Lemma Write_loop_content (C L : Z) (cols : list ChunkedArray) (type : liborc.Type_) :
  0 < C -> cols <> [] ->
  Forall (fun col => chunks_length col = L) cols ->
  forall (m : nat) (numRows p : Z) (st : WriterState) h fields,
    (Z.to_nat numRows <= m)%nat ->
    L - p = Z.max numRows 0 ->
    root st = StructVectorBatch h fields ->
    table_fits double_to_float C cols fields (liborc_reader.getSubtypes type) ->
    cursors_at cols (arrow_index_offset st) (arrow_chunk_offset st) p ->
    exists st' new,
      Write_loop float_to_double C cols numRows st = Ok st'
      /\ added st' = rev new ++ added st
      /\ Z.of_nat (List.length new) = (Z.max numRows 0 + C - 1) / C
      /\ forall k d, 0 <= k < Z.of_nat (List.length new) ->
           batch_of_rows double_to_float type (zth new k d)
                         (rows_window cols (p + k * C) (Z.min C (L - (p + k * C)))).
Proof.
  intros HC Hne HL.
  induction m as [| m IH]; intros numRows p st h fields Hm Hrem Hroot Hfit Hcur;
    rewrite Write_loop_round;
    (destruct (Z_lt_dec 0 numRows) as [Hpos | Hneg];
     [| exists st, []; cbn [List.length Z.of_nat rev app];
        rewrite Z.max_r by lia; rewrite Z.div_small by lia;
        repeat split; try reflexivity; intros k d Hk; lia]).
  - lia.
  - destruct (Z_lt_dec 0 C) as [_ | Hb]; [| lia].
    destruct (Write_body_rows C L p cols type st h fields ltac:(lia) Hne HL Hroot Hfit Hcur)
      as (batch & fs' & ios' & cos' & E & Hb & Hr & Hfit' & Hcur').
    rewrite E. cbn [bind].
    assert (Hm' : (Z.to_nat (numRows - C) <= m)%nat) by lia.
    assert (Hrem' : L - (p + Z.min C (L - p)) = Z.max (numRows - C) 0) by lia.
    destruct (IH (numRows - C) (p + Z.min C (L - p))
                 (mkWriter (StructVectorBatch
                              (mkBase (capacity h) 0 (notNull h) (hasNulls h)) fs')
                           ios' cos' (batch :: added st))
                 _ fs' Hm' Hrem' eq_refl Hfit' Hcur')
      as (st' & new & E' & Ha & Hl & Hk).
    exists st', (batch :: new). split; [exact E' |].
    cbn [added] in Ha. rewrite Ha. cbn [rev List.length].
    rewrite <- app_assoc. cbn [app].
    split; [reflexivity |].
    split; [rewrite ceil_step by lia; lia |].
    intros k d Hkr.
    destruct (Z.eq_dec k 0) as [-> | Hk0].
    + cbn [zth Z.to_nat nth]. rewrite Z.mul_0_l, Z.add_0_r. exact Hb.
    + unfold zth. replace (Z.to_nat k) with (S (Z.to_nat (k - 1))) by lia.
      cbn [nth]. fold (zth new (k - 1) d).
      specialize (Hk (k - 1) d ltac:(lia)).
      replace (p + Z.min C (L - p) + (k - 1) * C) with (p + k * C) in Hk; [exact Hk |].
      assert (numRows - C > 0 \/ numRows - C <= 0) as [Hmore | Hlast] by lia.
      * lia.
      * rewrite (Z.max_r (numRows - C) 0) in Hl by lia.
        rewrite Z.div_small in Hl by lia. lia.
Qed.

End WriterRows.

(** ** All the batches of a table *)

Lemma zseq_shift (s n : Z) : zseq (s + 1) n = map (fun k => k + 1) (zseq s n).
Proof. unfold zseq. rewrite map_map. apply map_ext. intros k. lia. Qed.

Lemma Forall2_pointwise {A B} (R : A -> B -> Prop) (d : A) (l : list A) :
  forall f : Z -> B,
    (forall k, 0 <= k < Z.of_nat (List.length l) -> R (zth l k d) (f k)) ->
    Forall2 R l (map f (zseq 0 (Z.of_nat (List.length l)))).
Proof.
  induction l as [| a l IH]; intros f H.
  - constructor.
  - rewrite zseq_cons by (cbn [List.length]; lia).
    replace (Z.of_nat (List.length (a :: l)) - 1) with (Z.of_nat (List.length l))
      by (cbn [List.length]; lia).
    cbn [map]. constructor.
    + apply (H 0). cbn [List.length]. lia.
    + change (0 + 1) with (0 + 1). rewrite zseq_shift, map_map. apply IH.
      intros k Hk. specialize (H (k + 1)). cbn [List.length] in H.
      unfold zth in *. replace (Z.to_nat (k + 1)) with (S (Z.to_nat k)) in H by lia.
      cbn [nth] in H. apply H. lia.
Qed.

Lemma append_rows_window (cols : list ChunkedArray) (p n : Z) :
  0 <= p -> 0 <= n ->
  append_rows (rows_window cols 0 p) (rows_window cols p n) = rows_window cols 0 (p + n).
Proof.
  intros Hp Hn. unfold rows_window.
  induction cols as [| col cols IH]; cbn [map append_rows]; [reflexivity |].
  rewrite IH. f_equal.
  rewrite (slice_split (column_values col) 0 (p + n) p) by lia.
  cbn [Z.add]. replace (p + n - p) with n by lia. reflexivity.
Qed.

(** The batches of [batch_size] rows from row [p] on, one after the other,
    are the rows of the table. *)
Lemma batches_make_table (C L : Z) (cols : list ChunkedArray) :
  0 < C ->
  forall (count : nat) (p : Z),
    0 <= p <= L ->
    Z.of_nat count = (L - p + C - 1) / C ->
    fold_left append_rows
      (map (fun k => rows_window cols (p + k * C) (Z.min C (L - (p + k * C))))
           (zseq 0 (Z.of_nat count)))
      (rows_window cols 0 p)
    = rows_window cols 0 L.
Proof.
  intros HC. induction count as [| count IH]; intros p Hp Hcount.
  - cbn [Z.of_nat zseq Z.to_nat seq map fold_left].
    assert (L - p + C - 1 < C).
    { destruct (Z_lt_dec (L - p + C - 1) C) as [Hlt | Hge]; [exact Hlt |].
      assert (1 <= (L - p + C - 1) / C) by (apply Z.div_le_lower_bound; lia).
      cbn [Z.of_nat] in Hcount. lia. }
    replace p with L by lia. reflexivity.
  - assert (Hmore : 0 < L - p).
    { destruct (Z_lt_dec 0 (L - p)) as [Hlt | Hge]; [exact Hlt |].
      replace p with L in Hcount by lia.
      rewrite Z.div_small in Hcount by lia. lia. }
    rewrite zseq_cons by lia.
    replace (Z.of_nat (S count) - 1) with (Z.of_nat count) by lia.
    cbn [map fold_left]. rewrite Z.mul_0_l, Z.add_0_r.
    rewrite append_rows_window by lia.
    change (0 + 1) with (0 + 1). rewrite zseq_shift, map_map.
    destruct (Z_le_gt_dec (L - p) C) as [Hlast | Hnot].
    + assert (count = 0%nat).
      { replace (L - p + C - 1) with ((L - p - 1) + 1 * C) in Hcount by lia.
        rewrite Z.div_add, Z.div_small in Hcount by lia. lia. }
      subst count. cbn [Z.of_nat zseq Z.to_nat seq map fold_left].
      rewrite Z.min_r by lia. replace (p + (L - p)) with L by lia. reflexivity.
    + rewrite Z.min_l by lia.
      rewrite <- (IH (p + C)).
      * f_equal. apply map_ext. intros k.
        replace (p + (k + 1) * C) with (p + C + k * C) by lia. reflexivity.
      * lia.
      * replace (L - p + C - 1) with ((L - (p + C) + C - 1) + 1 * C) in Hcount by lia.
        rewrite Z.div_add in Hcount by lia. lia.
Qed.

Lemma table_fits_length d2f C cols :
  forall fields ts, table_fits d2f C cols fields ts -> List.length ts = List.length cols.
Proof.
  induction cols as [| col cols IH]; intros fields ts H;
    destruct fields, ts; try contradiction; [reflexivity |].
  cbn [List.length]. f_equal. apply (IH fields). apply H.
Qed.

Lemma rows_window_none (cols : list ChunkedArray) (ts : list liborc.Type_) :
  List.length ts = List.length cols ->
  rows_window cols 0 0 = map (fun _ => []) ts.
Proof.
  revert ts. induction cols as [| col cols IH]; intros ts H; destruct ts; try discriminate H.
  - reflexivity.
  - unfold rows_window in *. cbn [map]. rewrite slice_nil by lia. f_equal.
    apply IH. cbn [List.length] in H. lia.
Qed.

Lemma rows_window_all (L : Z) (cols : list ChunkedArray) :
  Forall (fun col => Forall (fun a => 0 <= ArrayOps.length a) col
                     /\ chunks_length col = L) cols ->
  rows_window cols 0 L = map column_values cols.
Proof.
  induction 1 as [| col cols [Hnn HL] _ IH]; [reflexivity |].
  unfold rows_window in *. cbn [map]. rewrite IH. f_equal.
  rewrite <- HL, <- (column_values_length col Hnn). apply slice_all.
Qed.

Lemma table_fits_nonneg d2f C cols :
  forall fields ts,
    table_fits d2f C cols fields ts ->
    Forall (fun col => Forall (fun a => 0 <= ArrayOps.length a) col) cols.
Proof.
  induction cols as [| col cols IH]; intros fields ts H;
    destruct fields, ts; try contradiction; constructor.
  - destruct H as (Hwf & _). eapply column_lengths. exact Hwf.
  - apply (IH fields ts). apply H.
Qed.

Lemma cursors_at_start (cols : list ChunkedArray) :
  Forall (fun col => Forall (fun a => 0 <= ArrayOps.length a) col) cols ->
  cursors_at cols (repeat 0 (List.length cols)) (repeat 0 (List.length cols)) 0.
Proof.
  induction 1 as [| col cols Hnn _ IH]; [exact I |].
  cbn [List.length repeat cursors_at]. split; [| split; [reflexivity | exact IH]].
  unfold cursor_ok. cbn [Z.to_nat skipn]. split; [lia |]. split; [lia |].
  destruct col as [| a col]; [reflexivity |]. inversion Hnn; assumption.
Qed.

Lemma Write_with_rows (float_to_double double_to_float : Z -> Z)
  (C L : Z) (cols : list ChunkedArray) (h : ColumnVectorBatch) (fields : list Batch)
  (type : liborc.Type_) :
  (forall x, double_to_float (float_to_double x) = x) ->
  0 < C -> 0 <= L -> cols <> [] ->
  Forall (fun col => chunks_length col = L) cols ->
  table_fits double_to_float C cols fields (liborc_reader.getSubtypes type) ->
  exists batches,
    Write_with float_to_double C (StructVectorBatch h fields) (mkTable L cols)
    = Ok batches
    /\ Z.of_nat (List.length batches) = (L + C - 1) / C
    /\ (forall k d, 0 <= k < Z.of_nat (List.length batches) ->
          batch_of_rows double_to_float type (zth batches k d)
                        (rows_window cols (k * C) (Z.min C (L - k * C))))
    /\ batches_hold double_to_float type batches (map column_values cols).
Proof.
  intros float_exact HC HL Hne Hlen Hfit.
  pose proof (table_fits_nonneg _ _ _ _ _ Hfit) as Hnn.
  assert (Hrem : L - 0 = Z.max L 0) by lia.
  destruct (Write_loop_content float_to_double double_to_float float_exact C L cols type
              HC Hne Hlen (Z.to_nat L) L 0
              (mkWriter (StructVectorBatch h fields) (repeat 0 (List.length cols))
                        (repeat 0 (List.length cols)) [])
              h fields (Nat.le_refl _) Hrem eq_refl Hfit (cursors_at_start cols Hnn))
    as (st' & new & E & Ha & Hl & Hk).
  cbn [added] in Ha. rewrite app_nil_r in Ha.
  rewrite Z.max_l in Hl by lia.
  exists new. unfold Write_with. cbn [num_rows columns].
  match goal with
  | |- (bind ?x _ = _) /\ _ => replace x with (Ok st') by (symmetry; exact E)
  end.
  cbn [bind]. rewrite Ha, rev_involutive.
  split; [reflexivity |]. split; [exact Hl |].
  split.
  { intros k d Hkr. specialize (Hk k d Hkr). rewrite Z.add_0_l in Hk. exact Hk. }
  exists (map (fun k => rows_window cols (0 + k * C) (Z.min C (L - (0 + k * C))))
              (zseq 0 (Z.of_nat (List.length new)))).
  split.
  - apply (Forall2_pointwise _ (StructVectorBatch h fields)).
    intros k Hkr. apply Hk. exact Hkr.
  - rewrite <- (rows_window_none cols _ (table_fits_length _ _ _ _ _ Hfit)).
    rewrite (batches_make_table C L cols HC (List.length new) 0);
      [| lia | rewrite Hl; f_equal; lia].
    apply rows_window_all.
    clear - Hnn Hlen. induction Hnn as [| col cols H _ IH]; constructor.
    + split; [exact H | inversion Hlen; assumption].
    + apply IH. inversion Hlen; assumption.
Qed.

(** [Write] hands the rows of the table to the ORC writer, in order: with
    a root batch whose fields match the columns, it adds ceil(L / batch_size)
    batches for a table of [L] rows; batch [k] holds the rows from
    [k * batch_size] on of every column, [batch_size] of them or what is left,
    each date64 and timestamp value in nanoseconds; one after the other the
    batches hold the values of every column. *)
Theorem Write_adds_the_rows_in_order (float_to_double double_to_float : Z -> Z)
  (C L : Z) (cols : list ChunkedArray) (h : ColumnVectorBatch) (fields : list Batch)
  (type : liborc.Type_) :
  (forall x, double_to_float (float_to_double x) = x) ->
  0 < C -> 0 <= L -> cols <> [] ->
  Forall (fun col => chunks_length col = L) cols ->
  table_fits double_to_float C cols fields (liborc_reader.getSubtypes type) ->
  exists batches,
    Write_with float_to_double C (StructVectorBatch h fields) (mkTable L cols)
    = Ok batches
    /\ Z.of_nat (List.length batches) = (L + C - 1) / C
    /\ (forall k d, 0 <= k < Z.of_nat (List.length batches) ->
          batch_of_rows double_to_float type (zth batches k d)
                        (rows_window cols (k * C) (Z.min C (L - k * C))))
    /\ batches_hold double_to_float type batches (map column_values cols).
Proof.
  exact (Write_with_rows float_to_double double_to_float C L cols h fields type).
Qed.

(** * A table written, then read *)

Lemma fresh_builders_built (ts : list liborc.Type_) (builders : list ArrayBuilder) :
  Forall2 (fun t bld => fits t bld) ts builders ->
  Forall (fun bld => built bld = []) builders ->
  map built builders = map (fun _ => []) ts.
Proof.
  induction 1 as [| t bld ts builders _ _ IH]; intros He; [reflexivity |].
  inversion He as [| ? ? Hb Hrest]; subst. cbn [map]. rewrite Hb, (IH Hrest). reflexivity.
Qed.

(** A table that [Write] wrote comes back from [ReadBatch], column by
    column, with each date64 and timestamp value in nanoseconds: when the row
    reader of the library gives, in batches of any size, the rows the batches
    [Write] added held, [ReadBatch] flushes field builders that hold the
    values of the columns of the table. *)
Theorem written_table_is_read_back (float_to_double double_to_float : Z -> Z)
  (RecordBatch : Type)
  (Make : SchemaOps.Schema -> Z -> result (list ArrayBuilder))
  (Flush : list ArrayBuilder -> result RecordBatch)
  (C L : Z) (cols : list ChunkedArray) (h : ColumnVectorBatch) (fields : list Batch)
  (type : liborc.Type_)
  (impl : ORCFileReader.Impl) (opts : liborc_reader.RowReaderOptions)
  (schema : SchemaOps.Schema) (nrows : Z) (row_reader : liborc_reader.RowReader)
  (created : Batch) (builders : list ArrayBuilder) :
  (forall x, double_to_float (float_to_double x) = x) ->
  0 < C -> 0 <= L -> cols <> [] ->
  Forall (fun col => chunks_length col = L) cols ->
  table_fits double_to_float C cols fields (liborc_reader.getSubtypes type) ->
  liborc_reader.createRowReader (ORCFileReader.reader_ impl) opts = inr row_reader ->
  liborc_reader.getSelectedType row_reader = type ->
  liborc_reader.createRowBatch row_reader (Z.min nrows ORCFileReader.kReadRowsBatch)
  = inr created ->
  BatchOps.class created = StructClass ->
  Make schema nrows = Ok builders ->
  builders_fit type builders ->
  Forall (fun bld => built bld = []) builders ->
  (forall batches columns,
      Write_with float_to_double C (StructVectorBatch h fields) (mkTable L cols)
      = Ok batches ->
      batches_hold double_to_float type batches columns ->
      batches_hold double_to_float type (liborc_reader.pending row_reader) columns) ->
  exists batches builders',
    Write_with float_to_double C (StructVectorBatch h fields) (mkTable L cols)
    = Ok batches
    /\ ORCFileReader.ReadBatch double_to_float RecordBatch Make Flush impl opts schema nrows
       = Flush builders'
    /\ map built builders' = map column_values cols.
Proof.
  intros float_exact HC HL Hne Hlen Hfit Hrr Htype Hcreated Hclass Hmake Hbf Hfresh Hstore.
  destruct (Write_with_rows float_to_double double_to_float C L cols h fields type
              float_exact HC HL Hne Hlen Hfit) as (batches & E & _ & _ & Hhold).
  destruct (Hstore batches _ E Hhold) as (colss & Hall & Hcols).
  subst type.
  destruct (ReadBatch_reads double_to_float RecordBatch Make Flush impl opts schema nrows
              row_reader created builders colss Hrr Hcreated Hclass Hmake Hbf Hall)
    as (builders' & Er & _ & Hbuilt).
  exists batches, builders'. split; [exact E |]. split; [exact Er |].
  rewrite Hbuilt, (fresh_builders_built _ _ Hbf Hfresh). exact Hcols.
Qed.

(** * The encoder, the decoder and the normalisation on their own *)

(** [WriteBatch] on a window of a well-formed array, into a batch of the
    ORC type of the array that holds values before row [orc_offset] and has
    room for the window: it returns, the batch then holds the values it held
    followed by the elements of the window (each date64 and timestamp value
    in nanoseconds), and its capacity is what it was. *)
Theorem WriteBatch_extends_the_batch (float_to_double double_to_float : Z -> Z)
  (array : Array) (T : liborc.Type_) (arrow_offset arrow_length : Z) (batch : Batch)
  (vs : list LVal) (normalized : bool) :
  (forall x, double_to_float (float_to_double x) = x) ->
  wf_array array ->
  GetORCType (ArrayOps.type array) = Ok T ->
  0 <= arrow_offset -> 0 <= arrow_length ->
  arrow_offset + arrow_length <= ArrayOps.length array ->
  holds double_to_float T batch vs ->
  Z.of_nat (List.length vs) + arrow_length <= capacity (BatchOps.base batch) ->
  exists batch',
    WriteBatch float_to_double array arrow_offset arrow_length
               (Z.of_nat (List.length vs)) batch normalized = Ok batch'
    /\ holds double_to_float T batch'
             (vs ++ logical in_nanoseconds array arrow_offset arrow_length)
    /\ capacity (BatchOps.base batch') = capacity (BatchOps.base batch).
Proof.
  intros float_exact Hwf HT Ho Hl Hwin Hh Hcap.
  destruct (WriteBatch_holds float_to_double double_to_float array float_exact Hwf T HT
              arrow_offset arrow_length batch vs normalized Ho Hl Hwin Hh Hcap)
    as (b' & E & Hh' & Hc & _).
  exists b'. auto.
Qed.


(** [NormalizeArray] changes no element: the array it gives is well
    formed, has the type and the length of the array it was given, and every
    window of it has the elements the window had. *)
Theorem NormalizeArray_keeps_the_elements (leaf : arrow.DataType -> Z -> Z)
  (array : Array) (offset length : Z) :
  wf_array array ->
  0 <= offset -> offset + length <= ArrayOps.length array ->
  wf_array (NormalizeArray array)
  /\ ArrayOps.type (NormalizeArray array) = ArrayOps.type array
  /\ ArrayOps.length (NormalizeArray array) = ArrayOps.length array
  /\ logical leaf (NormalizeArray array) offset length
     = logical leaf array offset length.
Proof.
  intros Hwf Ho Hl.
  destruct (NormalizeArray_keeps leaf array Hwf) as (A & B & C & D & _).
  auto.
Qed.

(** * The writer at the edges *)

(** A table without rows: [Write] adds no batch, whatever the columns of
    the table and the fields of the root batch are; no column is looked
    at. *)
Theorem Write_of_no_rows_adds_nothing (float_to_double : Z -> Z)
  (h : ColumnVectorBatch) (fields : list Batch) (table : Table) :
  num_rows table <= 0 ->
  Write float_to_double (StructVectorBatch h fields) table = Ok [].
Proof.
  intros H. unfold Write, Write_with. rewrite Write_loop_round.
  destruct (Z_lt_dec 0 (num_rows table)) as [Hpos | _]; [lia |]. reflexivity.
Qed.

Lemma Write_of_no_rows_adds_nothing_witness :
  Write (fun x => x) (example_root_batch 1024)
        (mkTable 0 [[PrimitiveArray arrow.UINT8 0 None []]])
  = Ok [].
Proof.
  apply (Write_of_no_rows_adds_nothing (fun x => x) (example_header 1024)
           [example_long_batch 1024]
           (mkTable 0 [[PrimitiveArray arrow.UINT8 0 None []]])).
  simpl. lia.
Defined.

(** A table with rows and no column: [Write] reads [fields[0]] of a root
    batch that has no field, which has no meaning; it returns no status. *)
Theorem Write_without_columns_is_undefined (float_to_double : Z -> Z)
  (h : ColumnVectorBatch) (numRows : Z) :
  0 < numRows ->
  Write float_to_double (StructVectorBatch h []) (mkTable numRows []) = Undefined.
Proof.
  intros H. unfold Write, Write_with. cbn [num_rows columns List.length repeat].
  rewrite Write_loop_round.
  destruct (Z_lt_dec 0 numRows) as [_ | Hneg]; [| lia].
  destruct (Z_lt_dec 0 1024) as [_ | Hneg]; [| lia].
  reflexivity.
Qed.

Lemma Write_without_columns_is_undefined_witness :
  Write (fun x => x) (StructVectorBatch (example_header 1024) []) (mkTable 1 [])
  = Undefined.
Proof.
  apply (Write_without_columns_is_undefined (fun x => x) (example_header 1024) 1). lia.
Defined.

(** * The theorems on the example file *)

Lemma example_reader_ok (batches : list Batch) : file_ok (example_reader batches).
Proof.
  split; [repeat constructor; simpl; lia |].
  split; [reflexivity |]. split; [simpl; lia | simpl; lia].
Qed.

Lemma example_Open (batches : list Batch) :
  ORCFileReader.Open (inr (example_reader batches)) = Ok (example_impl batches).
Proof. reflexivity. Qed.

Lemma schema_comes_back_witness :
  exists metadata,
    ORCFileReader.GetArrowSchema (example_impl []) example_file_type
    = Ok (SchemaOps.mk [("x"%string, arrow.INT64)] metadata)
    /\ (metadata = None
        <-> liborc_reader.getMetadataKeys (ORCFileReader.reader_ (example_impl [])) = []).
Proof.
  apply (schema_comes_back (example_impl []) example_schema example_file_type).
  - simpl. lia.
  - reflexivity.
  - reflexivity.
Defined.

Lemma Open_builds_stripe_index_witness :
  ORCFileReader.Open (inr (example_reader []))
  = Ok (ORCFileReader.mkImpl (example_reader [])
          [ORCFileReader.mkStripeInformation 3 100 3 0;
           ORCFileReader.mkStripeInformation 103 80 2 3] 0).
Proof.
  apply (Open_builds_stripe_index (example_reader [])). simpl. lia.
Defined.

Lemma row_number_finds_its_stripe_witness :
  exists k s,
    nth_error (liborc_reader.stripes (example_reader [])) k = Some s
    /\ rows_before (liborc_reader.stripes (example_reader [])) k <= 4
       < rows_before (liborc_reader.stripes (example_reader [])) k
         + liborc_reader.Stripe.getNumberOfRows s
    /\ ORCFileReader.SelectStripeWithRowNumber (example_impl [])
         liborc_reader.default_options 4
       = Ok (liborc_reader.set_range liborc_reader.default_options
               (liborc_reader.Stripe.getOffset s) (liborc_reader.Stripe.getLength s),
             ORCFileReader.mkStripeInformation
               (liborc_reader.Stripe.getOffset s) (liborc_reader.Stripe.getLength s)
               (liborc_reader.Stripe.getNumberOfRows s)
               (rows_before (liborc_reader.stripes (example_reader [])) k)).
Proof.
  apply (row_number_finds_its_stripe (example_reader []) (example_impl [])
           liborc_reader.default_options 4).
  - exact (example_reader_ok []).
  - reflexivity.
  - simpl. lia.
Defined.

Lemma Seek_accepts_negative_row_witness :
  exists impl',
    ORCFileReader.Seek (example_impl []) (-1) = Ok impl'
    /\ ORCFileReader.current_row_ impl' = -1
    /\ ORCFileReader.NextStripeReader impl' 1000 []
       = Raise (arrow.mkStatus arrow.Invalid
                  [arrow.Text "Invalid row number";
                   arrow.Text (int64_to_string (-1))]).
Proof.
  apply (Seek_accepts_negative_row (example_reader []) (example_impl []) (-1) 1000).
  - exact (example_reader_ok []).
  - reflexivity.
  - lia.
Defined.

Lemma NextStripeReader_moves_to_end_of_stripe_witness :
  exists k s,
    let end_of_stripe :=
      rows_before (liborc_reader.stripes (example_reader [])) k
      + liborc_reader.Stripe.getNumberOfRows s in
    let impl' :=
      ORCFileReader.mkImpl (example_reader [])
        (ORCFileReader.stripes_
           (ORCFileReader.mkImpl (example_reader [])
              (ORCFileReader.stripes_ (example_impl [])) 4))
        end_of_stripe in
    nth_error (liborc_reader.stripes (example_reader [])) k = Some s
    /\ rows_before (liborc_reader.stripes (example_reader [])) k <= 4 < end_of_stripe
    /\ end_of_stripe <= liborc_reader.getNumberOfRows (example_reader [])
    /\ (forall row_reader schema batches,
           liborc_reader.createRowReader (example_reader [])
             (liborc_reader.set_range liborc_reader.default_options
                (liborc_reader.Stripe.getOffset s) (liborc_reader.Stripe.getLength s))
           = inr row_reader ->
           ORCFileReader.GetArrowSchema
             (ORCFileReader.mkImpl (example_reader [])
                (ORCFileReader.stripes_ (example_impl [])) 4)
             (liborc_reader.getSelectedType row_reader) = Ok schema ->
           liborc_reader.rows_from row_reader 4 = inr batches ->
           ORCFileReader.NextStripeReader
             (ORCFileReader.mkImpl (example_reader [])
                (ORCFileReader.stripes_ (example_impl [])) 4) 1000 []
           = Ok (impl',
                 Some (ORCFileReader.mkOrcStripeReader
                         (liborc_reader.mkRowReader
                            (liborc_reader.getSelectedType row_reader)
                            (liborc_reader.createRowBatch row_reader)
                            batches (liborc_reader.rows_from row_reader))
                         schema 1000)))
    /\ (end_of_stripe = liborc_reader.getNumberOfRows (example_reader []) ->
        ORCFileReader.NextStripeReader impl' 1000 [] = Ok (impl', None)).
Proof.
  apply (NextStripeReader_moves_to_end_of_stripe (example_reader []) (example_impl [])
           (ORCFileReader.mkImpl (example_reader [])
              (ORCFileReader.stripes_ (example_impl [])) 4) 4 1000).
  - exact (example_reader_ok []).
  - reflexivity.
  - reflexivity.
  - lia.
Defined.

Lemma ReadStripe_reads_its_stripe_witness :
  ORCFileReader.ReadStripe (fun x => x) (list Array) example_Make example_Flush
                           (example_impl []) 2
  = Raise (arrow.mkStatus arrow.Invalid
             [arrow.Text "Out of bounds stripe: "; arrow.Text (int64_to_string 2)])
  /\ ORCFileReader.ReadStripe (fun x => x) (list Array) example_Make example_Flush
                              (example_impl []) 1
     = (schema <- ORCFileReader.ReadSchema_opts (example_impl [])
                    (liborc_reader.set_range liborc_reader.default_options 103 80) ;;
        ORCFileReader.ReadBatch (fun x => x) (list Array) example_Make example_Flush
                                (example_impl [])
                                (liborc_reader.set_range liborc_reader.default_options
                                                         103 80)
                                schema 2).
Proof.
  destruct (ReadStripe_reads_its_stripe (fun x => x) (list Array) example_Make example_Flush
              (example_reader []) (example_impl []) 2 (example_reader_ok []) eq_refl)
    as [Hout _].
  destruct (ReadStripe_reads_its_stripe (fun x => x) (list Array) example_Make example_Flush
              (example_reader []) (example_impl []) 1 (example_reader_ok []) eq_refl)
    as [_ Hin].
  split.
  - apply Hout. right. simpl. lia.
  - apply (Hin (liborc_reader.Stripe.mk 103 80 2)); [lia | reflexivity].
Defined.

(** ** Batches of the example file *)



Lemma example_builders_fit :
  builders_fit example_file_type [NumericBuilder arrow.INT64 [] []].
Proof.
  constructor; [| constructor]. split; reflexivity.
Qed.



(** ** The example table *)

Lemma example_table_fits :
  table_fits (fun x => x) 2 [example_column] [example_long_batch 2]
             (liborc_reader.getSubtypes example_file_type).
Proof.
  split; [| split; [exists []; exact (example_long_batch_holds 2) |
                    split; [simpl; lia | exact I]]].
  unfold example_column.
  constructor; [split; [wf_leaf | reflexivity] |].
  constructor; [split; [wf_leaf | reflexivity] | constructor].
Qed.

Lemma Write_adds_the_rows_in_order_witness :
  exists batches,
    Write_with (fun x => x) 2 (example_root_batch 2) (mkTable 3 [example_column])
    = Ok batches
    /\ Z.of_nat (List.length batches) = 2
    /\ (forall k d, 0 <= k < Z.of_nat (List.length batches) ->
          batch_of_rows (fun x => x) example_file_type (zth batches k d)
                        (rows_window [example_column] (k * 2) (Z.min 2 (3 - k * 2))))
    /\ batches_hold (fun x => x) example_file_type batches
                    [[LNum 1; LNum 2; LNum 3]].
Proof.
  apply (Write_adds_the_rows_in_order (fun x => x) (fun x => x) 2 3 [example_column]
           (example_header 2) [example_long_batch 2] example_file_type).
  - reflexivity.
  - lia.
  - lia.
  - discriminate.
  - constructor; [reflexivity | constructor].
  - exact example_table_fits.
Defined.

Lemma written_table_is_read_back_witness :
  exists batches builders',
    Write_with (fun x => x) 2 (example_root_batch 2) (mkTable 3 [example_column])
    = Ok batches
    /\ ORCFileReader.ReadBatch (fun x => x) (list Array) example_Make example_Flush
         (example_impl example_written) liborc_reader.default_options example_schema 3
       = example_Flush builders'
    /\ map built builders' = [[LNum 1; LNum 2; LNum 3]].
Proof.
  apply (written_table_is_read_back (fun x => x) (fun x => x) (list Array)
           example_Make example_Flush 2 3 [example_column]
           (example_header 2) [example_long_batch 2] example_file_type
           (example_impl example_written) liborc_reader.default_options example_schema 3
           (example_row_reader example_written) (example_root_batch 3)
           [NumericBuilder arrow.INT64 [] []]).
  - reflexivity.
  - lia.
  - lia.
  - discriminate.
  - constructor; [reflexivity | constructor].
  - exact example_table_fits.
  - reflexivity.
  - reflexivity.
  - reflexivity.
  - reflexivity.
  - reflexivity.
  - exact example_builders_fit.
  - constructor; [reflexivity | constructor].
  - intros batches columns E H.
    change (liborc_reader.pending (example_row_reader example_written))
      with example_written.
    unfold example_written.
    change (example_root_batch 2)
      with (StructVectorBatch (example_header 2) [example_long_batch 2]).
    rewrite E. exact H.
Defined.

(** ** The encoder, the decoder and the normalisation *)

Lemma WriteBatch_extends_the_batch_witness :
  exists batch',
    WriteBatch (fun x => x) example_list_array 0 3 0 (example_list_batch 4) false
    = Ok batch'
    /\ holds (fun x => x)
             (liborc.createListType (liborc.createPrimitiveType liborc.LONG)) batch'
             [LList [LNum 5; LNull]; LNull; LList []]
    /\ capacity (BatchOps.base batch') = 4.
Proof.
  apply (WriteBatch_extends_the_batch (fun x => x) (fun x => x) example_list_array
           (liborc.createListType (liborc.createPrimitiveType liborc.LONG))
           0 3 (example_list_batch 4) [] false).
  - reflexivity.
  - exact example_list_array_wf.
  - reflexivity.
  - lia.
  - lia.
  - simpl. lia.
  - exact (example_list_batch_holds 4).
  - simpl. lia.
Defined.


Lemma NormalizeArray_keeps_the_elements_witness :
  wf_array (NormalizeArray example_struct_array)
  /\ ArrayOps.type (NormalizeArray example_struct_array) = example_struct_type
  /\ ArrayOps.length (NormalizeArray example_struct_array) = 2
  /\ logical as_stored (NormalizeArray example_struct_array) 0 2
     = [LStruct [LNum 1; LStruct [LNum 3]]; LNull].
Proof.
  apply (NormalizeArray_keeps_the_elements as_stored example_struct_array 0 2).
  - exact example_struct_array_wf.
  - lia.
  - simpl. lia.
Defined.

(** * Files without a top-level struct *)

Lemma GetArrowSchema_struct (impl : ORCFileReader.Impl) (type : liborc.Type_)
  (schema : SchemaOps.Schema) :
  ORCFileReader.GetArrowSchema impl type = Ok schema -> top_level_struct type = true.
Proof.
  destruct type as [| kind subtypes names ml p s]; [discriminate |].
  destruct kind; try discriminate. reflexivity.
Qed.

Lemma ReadSchema_opts_struct (impl : ORCFileReader.Impl)
  (opts : liborc_reader.RowReaderOptions) (schema : SchemaOps.Schema) :
  ORCFileReader.ReadSchema_opts impl opts = Ok schema ->
  exists row_reader,
    liborc_reader.createRowReader (ORCFileReader.reader_ impl) opts = inr row_reader
    /\ top_level_struct (liborc_reader.getSelectedType row_reader) = true.
Proof.
  unfold ORCFileReader.ReadSchema_opts.
  destruct (liborc_reader.createRowReader (ORCFileReader.reader_ impl) opts)
    as [what | row_reader]; [discriminate |].
  intros H. exists row_reader. split; [reflexivity |].
  exact (GetArrowSchema_struct impl _ schema H).
Qed.

(** Only files with a top-level struct are read: when the type the library
    selects is never a struct, [ReadSchema] fails with NotImplemented, and
    neither [Read] nor [ReadStripe] returns a table or a record batch, nor
    [NextStripeReader] a stripe reader; [NextStripeReader] then does not move
    the current row either. *)
Theorem only_structs_are_read (double_to_float : Z -> Z) (RecordBatch ArrowTable : Type)
  (Make : SchemaOps.Schema -> Z -> result (list ArrayBuilder))
  (Flush : list ArrayBuilder -> result RecordBatch)
  (FromRecordBatches : SchemaOps.Schema -> list RecordBatch -> result ArrowTable)
  (impl : ORCFileReader.Impl) :
  top_level_struct (liborc_reader.getType (ORCFileReader.reader_ impl)) = false ->
  liborc_reader.getType (ORCFileReader.reader_ impl) <> liborc.nullptr ->
  (forall opts row_reader,
      liborc_reader.createRowReader (ORCFileReader.reader_ impl) opts = inr row_reader ->
      top_level_struct (liborc_reader.getSelectedType row_reader) = false) ->
  ORCFileReader.ReadSchema impl
  = Raise (arrow.mkStatus arrow.NotImplemented
             [arrow.Text "Only ORC files with a top-level struct can be handled"])
  /\ (forall table,
        ORCFileReader.Read double_to_float RecordBatch ArrowTable Make Flush
                           FromRecordBatches impl <> Ok table)
  /\ (forall stripe batch,
        ORCFileReader.ReadStripe double_to_float RecordBatch Make Flush impl stripe
        <> Ok batch)
  /\ (forall batch_size include_indices impl' out,
        ORCFileReader.NextStripeReader impl batch_size include_indices = Ok (impl', out) ->
        out = None /\ impl' = impl).
Proof.
  intros Htop Hnn Hsel.
  assert (Hno : forall opts schema, ORCFileReader.ReadSchema_opts impl opts <> Ok schema).
  { intros opts schema H. apply ReadSchema_opts_struct in H.
    destruct H as (row_reader & Hrr & Hs). rewrite (Hsel opts row_reader Hrr) in Hs.
    discriminate Hs. }
  split; [| split; [| split]].
  - unfold ORCFileReader.ReadSchema, ORCFileReader.GetArrowSchema.
    destruct (liborc_reader.getType (ORCFileReader.reader_ impl))
      as [| kind subtypes names ml p s]; [congruence |].
    destruct kind; try reflexivity. discriminate Htop.
  - intros table H. unfold ORCFileReader.Read in H.
    destruct (ORCFileReader.ReadSchema_opts impl liborc_reader.default_options)
      as [schema | s |] eqn:E; cbn [bind] in H; try discriminate H.
    exact (Hno _ _ E).
  - intros stripe batch H. unfold ORCFileReader.ReadStripe in H.
    destruct (ORCFileReader.SelectStripe impl liborc_reader.default_options stripe)
      as [opts | s |]; cbn [bind] in H; try discriminate H.
    destruct (ORCFileReader.ReadSchema_opts impl opts)
      as [schema | s |] eqn:E; cbn [bind] in H; try discriminate H.
    exact (Hno _ _ E).
  - intros batch_size include_indices impl' out H.
    unfold ORCFileReader.NextStripeReader in H.
    destruct (ORCFileReader.NumberOfRows impl <=? ORCFileReader.current_row_ impl).
    { injection H as <- <-. split; reflexivity. }
    exfalso.
    destruct (match include_indices with
              | [] => Ok liborc_reader.default_options
              | _ :: _ =>
                  ORCFileReader.SelectIndices liborc_reader.default_options
                                              include_indices
              end) as [opts | s |]; cbn [bind] in H; try discriminate H.
    destruct (ORCFileReader.SelectStripeWithRowNumber impl opts
                (ORCFileReader.current_row_ impl))
      as [[opts' stripe_info] | s |]; cbn [bind] in H; try discriminate H.
    destruct (ORCFileReader.ReadSchema_opts impl opts')
      as [schema | s |] eqn:E; cbn [bind] in H; try discriminate H.
    exact (Hno _ _ E).
Qed.

Lemma only_structs_are_read_witness :
  ORCFileReader.ReadSchema (ORCFileReader.mkImpl example_flat_reader [] 0)
  = Raise (arrow.mkStatus arrow.NotImplemented
             [arrow.Text "Only ORC files with a top-level struct can be handled"])
  /\ (forall table,
        ORCFileReader.Read (fun x => x) (list Array) (list (list Array))
          example_Make example_Flush (fun _ batches => Ok batches)
          (ORCFileReader.mkImpl example_flat_reader [] 0) <> Ok table)
  /\ (forall stripe batch,
        ORCFileReader.ReadStripe (fun x => x) (list Array) example_Make example_Flush
          (ORCFileReader.mkImpl example_flat_reader [] 0) stripe <> Ok batch)
  /\ (forall batch_size include_indices impl' out,
        ORCFileReader.NextStripeReader (ORCFileReader.mkImpl example_flat_reader [] 0)
                                       batch_size include_indices = Ok (impl', out) ->
        out = None /\ impl' = ORCFileReader.mkImpl example_flat_reader [] 0).
Proof.
  apply (only_structs_are_read (fun x => x) (list Array) (list (list Array))
           example_Make example_Flush (fun _ batches => Ok batches)
           (ORCFileReader.mkImpl example_flat_reader [] 0)).
  - reflexivity.
  - discriminate.
  - intros opts row_reader H. injection H as <-. reflexivity.
Defined.

(** * Arrays that need no normalisation *)

(** [NormalizeArray] gives back the array it was given when that array
    has no null in a struct, nor in a struct among the values of a list or
    the keys and items of a map, at any depth. *)
Theorem NormalizeArray_leaves_arrays_without_null_structs (array : Array) :
  no_null_struct array = true -> NormalizeArray array = array.
Proof.
  unfold NormalizeArray.
  induction array as [t n bm vs | t n bm vs | t n bm children _
                      | t n bm offs values IH | t n bm offs keys items IHk IHi]
    using Array_induction; intros H;
    cbn [NormalizeArray_from ArrayOps.length ArrayOps.null_bitmap no_null_struct] in *.
  - reflexivity.
  - reflexivity.
  - destruct t; try reflexivity. destruct bm as [bits |]; [| reflexivity].
    rewrite H. reflexivity.
  - destruct t; try reflexivity; rewrite (IH H); reflexivity.
  - apply andb_prop in H. destruct H as [Hk Hi].
    destruct t; try reflexivity. rewrite (IHk Hk), (IHi Hi). reflexivity.
Qed.

Lemma NormalizeArray_leaves_arrays_without_null_structs_witness :
  NormalizeArray example_list_array = example_list_array.
Proof.
  apply (NormalizeArray_leaves_arrays_without_null_structs example_list_array).
  reflexivity.
Defined.
